(* ===== verification/_CoqProject ===== *)
-Q . S2P
Prelude.v
Errors.v
GoMonad.v
Job.v
MemoryStore.v
MemoryQueue.v
MemoryJobs.v
MemoryMetrics.v
MemoryInv.v
Storage.v
MemoryLaws.v
World.v
Manager.v
ManagerProps.v
ManagerDequeue.v
Pool.v
PoolProps.v
PoolSteps.v
GoTime.v
Scheduler.v
CronProps.v
SchedulerProps.v
RateLimit.v
RateLimitProps.v
Tenancy.v
TenancyProps.v
Batching.v
BatchingProps.v
StorageConfig.v
Decimal.v
Rfc3339.v
Json.v
JobJson.v
Redis.v
RedisStore.v
RedisJobs.v
RedisQueue.v
RedisWorker.v
RedisMetrics.v
RedisTypes.v
RedisQueueProps.v
RedisMetricsProps.v
Http.v
HttpProps.v
Postgres.v
PostgresStore.v
PostgresQueue.v
PostgresWorker.v
PostgresMetrics.v
PostgresInv.v
PostgresJobs.v
PostgresQueueProps.v
PostgresConfigs.v
PostgresSteps.v
Logger.v
LoggerProps.v
Monitoring.v
MonitoringProps.v
Programs.v
ProgramProps.v
Loops.v
Backends.v
Faults.v
PoolFaults.v
Shutdown.v
StoreInterface.v
RedisEnv.v
PostgresManager.v
PostgresPool.v
