(* ===== verification/Prelude.v ===== *)
(** * GoTask, a distributed task queue: a verification development

    ** The program

    GoTask runs jobs in the background. A client enqueues a job; it is stored
    in a backend (in-memory, Redis or PostgreSQL) and its identifier waits in a
    named queue until it is due. Pools of workers dequeue jobs, run the handler
    of their type and report success or failure, after which the job may be
    retried. Around this core there are recurring schedules, rate limiters,
    tenants and batches.

    The parts of the program, the files that model them, and their sources:

    - [Errors]: pkg/errors/errors.go. The sentinels and the error structs are
      one inductive type [error], with the messages and [Unwrap].
    - [Job]: pkg/job (job.go, queue.go, worker.go). Records [Job],
      [QueueConfig], [QueueStats], [Worker] and their methods.
    - [MemoryStore]: internal/storage/memory/memory.go, one definition per
      method. [MemoryQueue], [MemoryJobs], [MemoryMetrics] and [MemoryInv] hold
      its theorems: queues, jobs, statistics, and the invariants of all calls.
    - [Storage]: the storage that the manager keeps. The class [Storage] has the
      operations it calls, the class [StorageLaws] the contract the manager
      and the pool rely on, over an abstract state [View]. [MemoryLaws] proves
      the contract of the in-memory store. The interface that
      internal/storage/storage.go declares has other methods, those of the Redis
      backend: it is [StoreInterface].
    - [World], [Manager]: internal/queue/manager.go and
      internal/queue/scheduler.go, over any backend. [ManagerProps] and
      [ManagerDequeue] prove its theorems against the contract.
    - [Pool]: internal/worker/pool.go, the processing of a job; [PoolProps] its
      theorems; [PoolSteps] the goroutines, the channel and [Stop] of the pool
      as a step relation.
    - [GoTime]: the calendar of Go's package time, which [Scheduler] uses.
    - [Scheduler]: internal/scheduler/scheduler.go; [CronProps] and
      [SchedulerProps] its theorems.
    - [RateLimit], [RateLimitProps]: internal/features/ratelimit.go.
    - [Tenancy], [TenancyProps]: internal/features/tenancy.go.
    - [Batching], [BatchingProps]: internal/features/batching.go, the batches as
      objects that the map points to, and the timers, the goroutines and the
      readers-writer lock as a step relation.
    - [StorageConfig]: internal/storage/common.go.
    - [Decimal], [Rfc3339], [Json]: the parts of strconv, time and encoding/json
      that the program uses (decimal integers, RFC 3339 times, documents as a
      syntax tree with its printer and its parser). [JobJson]: the documents
      of the structs of pkg/job, as their field tags describe them.
    - [Redis]: the commands of the Redis server as a class of parameters
      ([RedisClient]), their documented behaviour on a key space ([RedisLaws]),
      and the server that is its key space, which satisfies it.
      [RedisStore], [RedisQueue], [RedisWorker], [RedisMetrics]:
      internal/storage/redis/{redis,queue,worker,metrics}.go, one definition
      per method. [RedisJobs], [RedisQueueProps], [RedisMetricsProps] and
      [RedisTypes] hold the theorems. [RedisEnv] has a server that other clients
      use too, behind a network that loses commands and replies, and the client
      library's repetition of commands ([send]).
    - [Postgres]: the tables of the schema, the values of the server and of
      lib/pq ([PgValues]) and the server itself ([Postgres]), with their
      documented behaviour ([PgValuesLaws], [PostgresLaws]). [PostgresStore],
      [PostgresQueue], [PostgresWorker], [PostgresMetrics]:
      internal/storage/postgres/{postgres,worker,metrics,config,utils}.go, each
      statement a definition in capitals, each method a definition over it.
      [PostgresInv], [PostgresJobs], [PostgresQueueProps], [PostgresConfigs]
      hold the theorems, [PostgresSteps] the transactions of concurrent
      dequeuers as a step relation, [PostgresManager] and [PostgresPool] the
      manager and the pool over it.
    - [Http], [HttpProps]: internal/api/http/server.go, the routes and the
      handlers over the manager and the scheduler.
    - [Logger], [LoggerProps]: internal/monitoring/logger.go, over a heap of
      loggers that share outputs. [Monitoring], [MonitoringProps]:
      internal/monitoring/metrics.go; the Prometheus client is a class of
      parameters ([Prometheus]) with its documented behaviour
      ([PrometheusLaws]), and so are [fmt]'s verbs ([Fmt]).
    - [Loops]: the goroutines of internal/scheduler/scheduler.go and
      internal/queue/scheduler.go with their [Start] and [Stop], one step
      relation with the tick as a parameter.
    - [Programs], [ProgramProps]: cmd/server/main.go and cmd/worker/main.go up
      to the wait for a signal, and the job handlers. [Shutdown]: the goroutines
      of the server process from its start to its exit.
    - [Backends]: the in-memory and the PostgreSQL queue against one reference.
    - [Faults], [PoolFaults]: the manager and the pool over a backend whose calls
      lose their request or their reply when the environment chooses.
    - [GoMonad]: calls that change a state and return, fail or panic; this file:
      machine integers, durations, sorting, iteration over maps.

    The manager calls the backend, the pool and the features call the manager.
    In the model a method is a state transformer [M St A]; a component on top
    of another holds its state ([World] holds the store, [Scheduler],
    [TenantManager] and [BatchProcessor] hold the [World]) and lifts its calls.

    ** How Go is read

    - The repository does not compile: the code uses fields and errors that are
      not declared ([Job.RetryCount], [Job.UpdatedAt], [Job.TimeoutSeconds],
      [QueueConfig.Timeout], [ErrQueueEmpty]) and passes other numbers of
      arguments to the constructors of errors than these declare. The records
      have the declared fields and the undeclared ones that are used, each
      under its own name, so [CurrentRetry] and [RetryCount] are different
      fields. A call of [NewQueueError], [NewJobError] or [NewValidationError]
      with a message and [nil] puts the message where the signature has room.
    - [int] and [int64] are [Z], with [wrap64] where an operation can overflow;
      durations are nanoseconds; a [time.Time] is the number of nanoseconds
      since the zero time. [float64] is Rocq's primitive binary64, without
      fused multiply-add.
    - A nil pointer and an optional time are [option]; the enumerations, being
      strings in the source, are strings; payloads and results are opaque
      strings, metadata are maps of strings.
    - Maps are [gmap string]. Where the order of a [range] over a map is
      visible it is an argument ([MapRange]), and [sort.Slice] is a stable sort
      of a slice in such an order, which covers the results of the unstable one.
    - The clock and the random numbers are the class [Runtime]: the readings of
      [time.Now] do not decrease, [rand.Intn] panics unless its argument is
      positive. A call of the backend reads the clock at most twice. New uuids
      are distinct ([Uuids]). A location is a fixed offset from UTC.
    - A method that holds a lock for its whole body is one atomic step. The
      manager's lock protects the cache of configurations only, so its methods
      are sequences of accesses and calls; the interleavings of the pool's and
      of the batch processor's goroutines are explicit.
    - A store keeps a shallow copy of a job; the slices and maps in it are
      shared and the program does not write to them.
    - Errors that are printed and dropped are [warn]; what the other components
      print is left out (none of them uses the logger of the monitoring package).
    - A document that encoding/json writes is read back as the same tree; a raw
      message is kept as its compact text, and the escapes of U+2028 and U+2029
      are left out. The Redis methods are programs over commands; a theorem
      about them speaks of every server that does what the commands document,
      as [refines] relates it to the key space. Scores are integers, rounded
      to 53 significant bits as [float64] arithmetic does. [SCAN] may return a
      key more than once and in any order. A script runs inside the server, on
      the data itself.
    - A statement of SQL is one atomic step on the tables, with the checks of
      its types, lengths and constraints; a transaction of one method that no
      other interleaves is its statements in sequence, and [PostgresSteps] has
      the row locks of those that do. Columns that no statement reads, indexes
      and sequences are left out. The server deduces the type of a statement's
      parameter from its uses, which agree but in one statement, that of
      [UpdateStatus]: [deduced] is the check that refuses it.
    - A request has the decoded segments of its path; connections, headers and
      the files of the web page are left out.
    - Job handlers and batch processors are parameters; both may rewrite jobs.
      The deadline of a job's context is not modelled in the pool. The handlers
      of the worker program index the payload as a map, which its declared type
      is not; what the map of a job is is a parameter ([payload_of]).
    - The two programs are processes: what they share is the backend. The
      constructors of the backends are a parameter of the programs ([connect]),
      and a theorem that has both says which of them holds the store.

    ** What is proved

    - Queues of the store: [Dequeue_claims_best] (every branch of [Dequeue]),
      [drain_delivers_in_priority_order] (repeated calls give a stable sort).
      Its jobs, statistics and paging: [update_statuses_lifecycle],
      [ListJobs_pages_tile], [job_type_stats_exact],
      [queue_stats_all_consistent]; invariants over all calls:
      [reachable_well_formed], [dequeued_job_exists].
    - [memory_store_implements_contract]: the refinement on which the use of
      the abstract contract rests. The contract describes a backend that
      answers; [Faults] adds the errors of a remote backend, and the
      theorems on tenants' quotas and batches hold for a backend without any
      contract.
    - The manager: [Enqueue_new_job], [Enqueue_duplicate_rejected],
      [enqueue_dequeue_roundtrip], [Dequeue_delivers] (an entry that is due is
      served, if no listed queue has a negative priority), [Dequeue_strict_priority], [weighted_choice_fair],
      [manager_cache_coherent], [CancelJob_outcome].
    - The pool: [processJob_success], [processJob_retry],
      [processJob_failure_is_final], [retry_delay_exact]; its goroutines:
      [pool_conserves_jobs], [pool_can_terminate].
    - Schedules: [tick_runs_due_schedules], [schedule_runs_within_limit],
      [cron_next_boundary], [cron_monthly_target].
    - Features: [sliding_window_refines_log] and [sliding_window_bound],
      [token_bucket_burst], [CreateTenant_new], [DeleteTenant_result],
      [tenants_within_quota], [batch_jobs_processed_once] (what becomes of every
      batched job), [batch_deadlock_is_permanent].
    - Redis: [redis_jobs_refine_map] and [redis_queues_refine_sorted_sets] (the
      methods implement a map of jobs, and a sorted set and a flag per queue),
      [redis_drain_delivers_each_once], [redis_List_returns] and
      [redis_ListQueues_nonempty] (the loops over [SCAN] end),
      [redis_key_space_typed] (no key is used at two types), and
      [redis_calls_are_atomic] (a call that writes one key happens at one
      moment, or not at all after a lost message, while other clients do not
      touch the one key that it reads first and no command is repeated after
      its reply was lost).
    - PostgreSQL: [postgres_jobs_refine_map] and
      [postgres_queues_refine_entries] (the methods implement a map of jobs and
      the entries of the queues), [postgres_claims_are_exclusive] (two workers
      never hold or delete the same entry), [postgres_tables_stay_readable]
      (every row that the methods write can be read, every entry has its job),
      [postgres_config_roundtrip], [postgres_enqueue_dequeue_roundtrip] and
      [postgres_jobs_never_run] (through the manager and the pool, by
      refinement of a server to its tables).
    - HTTP: [http_endpoints_reach_manager], [http_posted_job_is_served],
      [http_refused_requests_change_nothing].
    - The whole: [posted_job_is_executed] (from the posted document to the
      worker and back, with the in-memory store and the pool in one process);
      [backends_deliver_alike] (a client that does not enqueue a job twice at a
      time gets the same answers from the in-memory queue and from PostgreSQL).
    - Failures: [enqueue_under_faults], [dequeue_loses_only_by_faults],
      [processJob_under_faults], for every backend that keeps the contract when
      it answers and for every sequence of faults.
    - Loops: [server_shuts_down], [scheduler_stop_returns], [stopped_loop_is_quiet].
    - Monitoring: [logging_writes_one_line], [derived_logger_is_a_snapshot],
      [metrics_count_events].
    - Behaviour the documentation does not lead one to expect:
      [retries_never_exhaust], [stop_can_lose_a_job], [retry_delay_collapses],
      [Dequeue_ignores_uncached], [Dequeue_negative_priorities_panic],
      [ListJobs_negative_offset_panics], [http_negative_offset_panics],
      [redis_priority_is_ten_seconds], [redis_queue_stats_exact],
      [redis_update_overwrites] (a concurrent change of a job is lost),
      [redis_lost_reply_loses_a_job], [resent_create_reports_duplicate],
      [postgres_refuses_defaults], [postgres_statuses_never_match],
      [early_worker_stays_idle], [math_result_is_lost],
      [metrics_server_address_wrong], [std_logger_breaks_lines],
      [processScheduledJobs_reads].

    ** Bounds and fuel

    The loops over [SCAN] have fuel: the theorems on them hold for any fuel above
    [scan_calls], the number of calls the server needs to come back to the
    cursor 0. The parser of JSON has fuel [2 * length + 2], which is enough for
    every document that the printer writes ([parse_print], by [depth_put]).
    [log_within] has the number of loggers as fuel, which no chain of adapters
    exceeds in a reachable state ([logging_writes_one_line]). [report_loop] runs
    six iterations and has fuel for seven ([report_loop_spec]). No other
    definition needs fuel: loops over lists are structural, [Wait] recurs on the
    wake-ups it gets, and [drain n] and [executions n] are [n] calls. In [GoTime] the search for
    the month of a day has as many steps as there are months. The number of
    steps of the batch processor's goroutines is bounded by [cost]. The theorem
    on the token bucket is for bursts up to 128, whose arithmetic is evaluated.

    ** What is not modelled

    The inside of net/http, whose documented behaviour [Shutdown] uses, and the
    start and stop of the metrics server, which no program makes; what the two
    programs print; [Close] of the backends, which drops connections;
    failures of the connection to PostgreSQL within a method ([Faults] has a
    method fail as a whole, which [RedisEnv] shows of the methods of Redis that
    write one key; [Register], [Unregister] and the counters of the metrics send
    several writes, of which a failure may leave some:
    [register_can_be_half_done]);
    the protocol definition, the web page and the deployment files, which hold no
    Go code; the tests. *)

From stdpp Require Export base gmap fin_maps sets list strings sorting pretty.
From Stdlib Require Export ZArith Lia.

#[export] Set Default Goal Selector "!".
#[export] Set Warnings "-clear-no-such-hyp,-register-all".
Open Scope Z_scope.

(** ** Scope and hint databases of the development *)

Declare Scope go_scope.
Delimit Scope go_scope with go.
Open Scope go_scope.

(** [gotask] collects the lemmas that discharge the side conditions of the
    component proofs: ranges of machine integers, facts on list deletion and
    on the sorting model. *)
Create HintDb gotask.
Create Rewrite HintDb gorw.

(** ** Go's [int]/[int64]: two's complement wrap-around on 64 bits *)

Definition wrap64 (z : Z) : Z := (z + 2 ^ 63) mod 2 ^ 64 - 2 ^ 63.

Definition int64 (z : Z) : Prop := - 2 ^ 63 ≤ z < 2 ^ 63.

Definition max_int64 : Z := 2 ^ 63 - 1.
Definition min_int64 : Z := - 2 ^ 63.

Lemma wrap64_range z : int64 (wrap64 z).
Proof.
  unfold int64, wrap64.
  pose proof (Z.mod_pos_bound (z + 2 ^ 63) (2 ^ 64) ltac:(lia)). lia.
Qed.

Lemma wrap64_id z : int64 z → wrap64 z = z.
Proof. unfold int64, wrap64. intros Hz. rewrite Z.mod_small; lia. Qed.

#[export] Hint Resolve wrap64_range : gotask.
#[export] Hint Rewrite wrap64_id using (unfold int64 in *; lia) : gorw.

(** [1 << uint(n)] on Go's 64-bit [int]: the shift count is converted to an
    unsigned 64-bit number, and a shift by 64 or more gives 0. *)
Definition shl1 (n : Z) : Z :=
  let c := n mod 2 ^ 64 in
  if c <? 64 then wrap64 (Z.shiftl 1 c) else 0.

Lemma shl1_small n : 0 ≤ n < 63 → shl1 n = 2 ^ n.
Proof.
  intros Hn. unfold shl1. rewrite Z.mod_small by lia.
  destruct (Z.ltb_spec n 64); [|lia].
  rewrite Z.shiftl_1_l. apply wrap64_id. unfold int64.
  pose proof (Z.pow_lt_mono_r 2 n 63 ltac:(lia) ltac:(lia) ltac:(lia)). lia.
Qed.

Lemma shl1_large n : 64 ≤ n < 2 ^ 64 → shl1 n = 0.
Proof.
  intros Hn. unfold shl1. rewrite Z.mod_small by lia.
  destruct (Z.ltb_spec n 64); lia.
Qed.

(** ** Package [time]: instants and durations in nanoseconds

    A [time.Time] is its distance in nanoseconds from the zero time, midnight
    of January 1 of the year 1 in UTC; the optional times of the program are
    [option Time]. A [time.Duration] is an
    [int64] number of nanoseconds, and the difference of two instants
    saturates at its bounds, as [Time.Sub] documents. *)

Abbreviation Time := Z (only parsing).
Abbreviation Duration := Z (only parsing).

Definition Second : Duration := 1000000000.
Definition Minute : Duration := 60 * Second.
Definition Hour : Duration := 60 * Minute.

(** [t.After(u)], [t.Before(u)], [t.Add(d)], [t.Sub(u)]. *)
Definition After (t u : Time) : bool := u <? t.
Definition Before (t u : Time) : bool := t <? u.
Definition Add (t : Time) (d : Duration) : Time := t + d.
Definition Sub (t u : Time) : Duration := Z.max min_int64 (Z.min max_int64 (t - u)).

Lemma Sub_int64 t u : int64 (Sub t u).
Proof. unfold int64, Sub, max_int64, min_int64. lia. Qed.

#[export] Hint Resolve Sub_int64 : gotask.

(** The readings that [time.Now()] returns within one call, in order. *)
Abbreviation Clock := (nat → Time) (only parsing).

(** ** Lists *)

Section lists.
Context {A : Type}.
Implicit Types (l : list A) (x : A).

(** [append(l[:i], l[i+1:]...)] is stdpp's [delete i l]. *)
Lemma slice_remove_delete l i : take i l ++ drop (S i) l = delete i l.
Proof. by rewrite delete_take_drop. Qed.

Lemma delete_Permutation_cons l i x :
  l !! i = Some x → x :: delete i l ≡ₚ l.
Proof. intros Hi. symmetry. by apply delete_Permutation. Qed.

Lemma length_delete_lookup l i x :
  l !! i = Some x → length l = S (length (delete i l)).
Proof. intros Hi. by rewrite (Permutation_length (delete_Permutation l i x Hi)). Qed.

Lemma elem_of_delete_list l i x : x ∈ delete i l → x ∈ l.
Proof.
  intros H. destruct (l !! i) as [y|] eqn:Hi.
  - rewrite <- (delete_Permutation_cons l i y Hi). by apply list_elem_of_further.
  - apply lookup_ge_None_1 in Hi. revert H.
    rewrite delete_take_drop, take_ge, drop_ge, app_nil_r by lia. done.
Qed.

Lemma filter_all (P : A → Prop) `{!∀ x, Decision (P x)} l :
  (∀ x, x ∈ l → P x) → filter P l = l.
Proof.
  induction l as [|y l IH]; intros Hl; [done|].
  rewrite filter_cons_True by (apply Hl, list_elem_of_here).
  f_equal. apply IH. intros x Hx. by apply Hl, list_elem_of_further.
Qed.

Lemma filter_none (P : A → Prop) `{!∀ x, Decision (P x)} l :
  (∀ x, x ∈ l → ¬ P x) → filter P l = [].
Proof.
  induction l as [|y l IH]; intros Hl; [done|].
  rewrite filter_cons_False by (apply Hl, list_elem_of_here).
  apply IH. intros x Hx. by apply Hl, list_elem_of_further.
Qed.
End lists.

#[export] Hint Resolve elem_of_delete_list : gotask.

(** ** [sort.Slice]

    The comparison is the [less] argument of the call. An insertion sort is
    used: the program sorts slices that were filled by iterating over a map,
    in an order the runtime chooses, so that every result an unstable sort can
    return is the result of a stable one on some iteration order. *)

Section sort_slice.
Context {A : Type} (less : A → A → bool).

Fixpoint insert_by (x : A) (l : list A) : list A :=
  match l with
  | [] => [x]
  | y :: l' => if less y x then y :: insert_by x l' else x :: y :: l'
  end.

Fixpoint sort_slice (l : list A) : list A :=
  match l with
  | [] => []
  | x :: l' => insert_by x (sort_slice l')
  end.

Lemma insert_by_Permutation x l : insert_by x l ≡ₚ x :: l.
Proof.
  induction l as [|y l IH]; simpl; [done|].
  destruct (less y x); [|done]. rewrite IH. apply Permutation_swap.
Qed.

Lemma sort_slice_Permutation l : sort_slice l ≡ₚ l.
Proof.
  induction l as [|x l IH]; simpl; [done|].
  by rewrite insert_by_Permutation, IH.
Qed.

(** No element of the result is preceded by one it is less than. *)
Definition sorted_by : list A → Prop := StronglySorted (λ x y, less y x = false).

Context (less_trans : ∀ x y z, less x y = true → less y z = true → less x z = true).
Context (less_asym : ∀ x y, less x y = true → less y x = false).
Context (less_neg_trans : ∀ x y z, less x y = false → less y z = false → less x z = false).

Lemma insert_by_sorted x l : sorted_by l → sorted_by (insert_by x l).
Proof.
  unfold sorted_by. induction 1 as [|y l Hl IH Hy]; simpl.
  { repeat constructor. }
  destruct (less y x) eqn:Hyx.
  - constructor; [done|]. rewrite insert_by_Permutation.
    constructor; [by apply less_asym|done].
  - constructor; [by constructor|]. constructor; [done|].
    eapply Forall_impl; [exact Hy|]. simpl. intros z Hz.
    by eapply less_neg_trans.
Qed.

Lemma sort_slice_sorted l : sorted_by (sort_slice l).
Proof.
  induction l as [|x l IH]; simpl; [constructor|]. by apply insert_by_sorted.
Qed.
End sort_slice.

(** Two sorted permutations agree when no two of their elements tie. *)
Lemma sorted_by_unique {A} (less : A → A → bool) (l1 l2 : list A) :
  (∀ x y, x ∈ l1 → y ∈ l1 → less x y = false → less y x = false → x = y) →
  sorted_by less l1 → sorted_by less l2 → l1 ≡ₚ l2 → l1 = l2.
Proof.
  unfold sorted_by. revert l2. induction l1 as [|x l1 IH]; intros l2 Htie Hs1 Hs2 Hp.
  { by apply Permutation_nil_l in Hp. }
  destruct l2 as [|y l2]; [by apply Permutation_nil_r in Hp|].
  apply StronglySorted_inv in Hs1 as [Hs1 Hx], Hs2 as [Hs2 Hy].
  assert (x = y) as <-.
  { assert (Hxin : x ∈ y :: l2) by (rewrite <- Hp; apply list_elem_of_here).
    assert (Hyin : y ∈ x :: l1) by (rewrite Hp; apply list_elem_of_here).
    apply elem_of_cons in Hxin as [->|Hxin]; [done|].
    apply elem_of_cons in Hyin as [->|Hyin]; [done|].
    apply Htie; [apply list_elem_of_here|by apply list_elem_of_further|..].
    - by eapply Forall_forall in Hy.
    - by eapply Forall_forall in Hx. }
  f_equal. apply IH; [|done..|].
  - intros ?????. apply Htie; by try apply list_elem_of_further.
  - by apply Permutation_cons_inv in Hp.
Qed.

(** ** Iteration over a map

    Go leaves the order of [for k, v := range m] unspecified. An operation
    whose result depends on it takes the order the runtime chose as a
    [MapRange]: a function that lists a map's bindings in some order. *)
Class MapRange := {
  map_range : ∀ {V : Type}, gmap string V → list (string * V);
  map_range_perm : ∀ {V : Type} (m : gmap string V), map_range m ≡ₚ map_to_list m;
}.

(** The values of a map in the order of the iteration. *)
Definition range_values `{MapRange} {V} (m : gmap string V) : list V :=
  (map_range m).*2.

(** An iteration order for examples: that of stdpp's maps. *)
Definition map_range_default : MapRange :=
  {| map_range := λ V m, map_to_list m; map_range_perm := λ V m, Permutation_refl _ |}.

(** Its reverse, a second order. *)
Program Definition map_range_reverse : MapRange :=
  {| map_range := λ V m, reverse (map_to_list m) |}.
Next Obligation. intros V m. apply reverse_Permutation. Qed.

Lemma elem_of_map_range `{MapRange} {V} (m : gmap string V) k v :
  (k, v) ∈ map_range m ↔ m !! k = Some v.
Proof. by rewrite map_range_perm, elem_of_map_to_list. Qed.

Lemma elem_of_range_values `{MapRange} {V} (m : gmap string V) v :
  v ∈ range_values m ↔ ∃ k, m !! k = Some v.
Proof.
  unfold range_values. rewrite list_elem_of_fmap. split.
  - intros ([k v'] & -> & Hk%elem_of_map_range). by exists k.
  - intros [k Hk]. exists (k, v). by rewrite elem_of_map_range.
Qed.

Lemma range_values_perm {V} (R1 R2 : MapRange) (m : gmap string V) :
  @range_values R1 V m ≡ₚ @range_values R2 V m.
Proof. unfold range_values. by rewrite !map_range_perm. Qed.

#[export] Hint Resolve sort_slice_Permutation sort_slice_sorted range_values_perm : gotask.

(** ** Tactics *)

(** Case analysis on the scrutinees of [match]es and [if]s, with the usual
    simplifications of options, pairs and boolean comparisons. *)
Ltac go_simpl :=
  repeat first
    [ progress simplify_eq/=
    | progress simplify_map_eq
    | match goal with
      | H : _ ∧ _ |- _ => destruct H
      | H : ∃ _, _ |- _ => destruct H
      | H : negb _ = true |- _ => apply negb_true_iff in H
      | H : negb _ = false |- _ => apply negb_false_iff in H
      | H : (_ && _)%bool = true |- _ => apply andb_true_iff in H
      | H : (_ || _)%bool = false |- _ => apply orb_false_iff in H
      | H : bool_decide _ = true |- _ => apply bool_decide_eq_true in H
      | H : bool_decide _ = false |- _ => apply bool_decide_eq_false in H
      | H : (_ <? _) = true |- _ => apply Z.ltb_lt in H
      | H : (_ <? _) = false |- _ => apply Z.ltb_ge in H
      | H : (_ <=? _) = true |- _ => apply Z.leb_le in H
      | H : (_ <=? _) = false |- _ => apply Z.leb_gt in H
      | H : (_ =? _) = true |- _ => apply Z.eqb_eq in H
      | H : (_ =? _) = false |- _ => apply Z.eqb_neq in H
      end ].
