(* ===== verification/Errors.v ===== *)
(** * Errors (pkg/errors/errors.go)

    The sentinel errors, the four error structs with their constructors,
    [Error] and [Unwrap] methods, and the two forms of [fmt.Errorf] the
    program uses. *)

From S2P Require Import Prelude.

(** An [error] value. The sentinels are compared by identity in the source, so
    each is a constructor. [ErrQueueEmpty] is not declared by errors.go, which
    declares [ErrEmptyQueue]; the memory and PostgreSQL stores, the manager and
    the pool use [ErrQueueEmpty]. [Errorf] is an error made of a formatted
    message ([errors.New], [fmt.Errorf] without a wrapped error, a context
    error, the error of a job handler), and [Wrapf] is
    [fmt.Errorf("msg: %w", err)]. *)
Inductive error : Type :=
  (* job errors *)
  | ErrJobNotFound | ErrJobAlreadyExists | ErrJobCancelled | ErrJobExpired
  | ErrJobTimeout | ErrInvalidJobType | ErrInvalidPayload
  (* queue errors *)
  | ErrQueueNotFound | ErrQueuePaused | ErrQueueFull | ErrEmptyQueue
  | ErrInvalidQueue | ErrQueueEmpty
  (* worker errors *)
  | ErrWorkerNotFound | ErrWorkerTimeout | ErrWorkerBusy | ErrMaxWorkersReached
  | ErrNoAvailableWorkers
  (* storage errors *)
  | ErrStorageUnavailable | ErrStorageTimeout | ErrDuplicateKey
  | ErrInvalidOperation | ErrConnectionFailed
  (* retry errors *)
  | ErrMaxRetriesExceeded | ErrRetryNotAllowed
  (* validation errors *)
  | ErrInvalidConfiguration | ErrMissingRequired | ErrInvalidValue
  (* structs *)
  | JobError (JobID Message : string) (Err : option error)
  | QueueError (QueueName Message : string) (Err : option error)
  | WorkerError (WorkerID Message : string) (Err : option error)
  | ValidationError (Field Message : string)
  (* fmt.Errorf *)
  | Errorf (msg : string)
  | Wrapf (msg : string) (err : error).

Definition NewJobError (jobID message : string) (err : option error) : error :=
  JobError jobID message err.

Definition NewQueueError (queueName message : string) (err : option error) : error :=
  QueueError queueName message err.

Definition NewWorkerError (workerID message : string) (err : option error) : error :=
  WorkerError workerID message err.

Definition NewValidationError (field message : string) : error :=
  ValidationError field message.

(** [err == errors.ErrQueueEmpty]. *)
Definition is_ErrQueueEmpty (e : error) : bool :=
  match e with ErrQueueEmpty => true | _ => false end.

(** The [Unwrap] methods; the sentinels have none. *)
Definition Unwrap (e : error) : option error :=
  match e with
  | JobError _ _ err | QueueError _ _ err | WorkerError _ _ err => err
  | Wrapf _ err => Some err
  | _ => None
  end.

(** The [Error] methods: the message of the sentinels is the argument of
    [errors.New], that of a struct is the [fmt.Sprintf] of its method. *)
Fixpoint Error (e : error) : string :=
  match e with
  | ErrJobNotFound => "job not found"
  | ErrJobAlreadyExists => "job already exists"
  | ErrJobCancelled => "job was cancelled"
  | ErrJobExpired => "job has expired"
  | ErrJobTimeout => "job execution timeout"
  | ErrInvalidJobType => "invalid job type"
  | ErrInvalidPayload => "invalid job payload"
  | ErrQueueNotFound => "queue not found"
  | ErrQueuePaused => "queue is paused"
  | ErrQueueFull => "queue is full"
  | ErrEmptyQueue | ErrQueueEmpty => "queue is empty"
  | ErrInvalidQueue => "invalid queue configuration"
  | ErrWorkerNotFound => "worker not found"
  | ErrWorkerTimeout => "worker heartbeat timeout"
  | ErrWorkerBusy => "worker is busy"
  | ErrMaxWorkersReached => "maximum workers reached"
  | ErrNoAvailableWorkers => "no available workers"
  | ErrStorageUnavailable => "storage backend unavailable"
  | ErrStorageTimeout => "storage operation timeout"
  | ErrDuplicateKey => "duplicate key"
  | ErrInvalidOperation => "invalid operation"
  | ErrConnectionFailed => "connection failed"
  | ErrMaxRetriesExceeded => "maximum retries exceeded"
  | ErrRetryNotAllowed => "retry not allowed"
  | ErrInvalidConfiguration => "invalid configuration"
  | ErrMissingRequired => "missing required field"
  | ErrInvalidValue => "invalid value"
  | JobError id msg err =>
      "job " +:+ id +:+ ": " +:+ msg +:+
      match err with Some e' => ": " +:+ Error e' | None => "" end
  | QueueError q msg err =>
      "queue " +:+ q +:+ ": " +:+ msg +:+
      match err with Some e' => ": " +:+ Error e' | None => "" end
  | WorkerError w msg err =>
      "worker " +:+ w +:+ ": " +:+ msg +:+
      match err with Some e' => ": " +:+ Error e' | None => "" end
  | ValidationError field msg =>
      "validation error on field '" +:+ field +:+ "': " +:+ msg
  | Errorf msg => msg
  | Wrapf msg err => msg +:+ ": " +:+ Error err
  end.
