(* ===== verification/GoMonad.v ===== *)
(** * Calls that change state and can fail

    A Go function [func (s *T) f(...) (A, error)] is a state transformer that
    ends normally with a value, returns an error, or panics. The state reached
    so far is kept in all three cases, as the effects of a Go function that
    returns an error stay. *)

From S2P Require Import Prelude Errors.

Inductive res (A : Type) : Type :=
  | Ok (a : A)
  | Err (e : error)
  | Panic (why : string).
Arguments Ok {A} a.
Arguments Err {A} e.
Arguments Panic {A} why.

Definition is_Panic {A} (r : res A) : bool := match r with Panic _ => true | _ => false end.

Definition M (St A : Type) : Type := St → res A * St.

#[export] Instance M_ret St : MRet (M St) := λ A a s, (Ok a, s).

(** [x, err := m; if err != nil { return err }; k x]. *)
#[export] Instance M_bind St : MBind (M St) := λ A B k m s,
  match m s with
  | (Ok a, s') => k a s'
  | (Err e, s') => (Err e, s')
  | (Panic p, s') => (Panic p, s')
  end.

Definition throw {St A} (e : error) : M St A := λ s, (Err e, s).
Definition panic {St A} (why : string) : M St A := λ s, (Panic why, s).
Definition get {St} : M St St := λ s, (Ok s, s).
Definition modify {St} (f : St → St) : M St unit := λ s, (Ok tt, f s).

(** [x, err := m] with the error kept as a value; a panic still unwinds. *)
Definition attempt {St A} (m : M St A) : M St (A + error) := λ s,
  match m s with
  | (Ok a, s') => (Ok (inl a), s')
  | (Err e, s') => (Ok (inr e), s')
  | (Panic p, s') => (Panic p, s')
  end.

(** [if err := m; err != nil { fmt.Printf("warning: ...", err) }]: the error is
    printed and dropped. *)
Definition warn {St A} (m : M St A) : M St unit := attempt m ;; mret tt.

(** [if err := m; err != nil { return fmt.Errorf("msg: %w", err) }]. *)
Definition wrap_err {St A} (msg : string) (m : M St A) : M St A := λ s,
  match m s with
  | (Err e, s') => (Err (Wrapf msg e), s')
  | r => r
  end.

(** ** Equations of the combinators *)

Section equations.
Context {St A B : Type}.
Implicit Types (m : M St A) (k : A → M St B) (s : St).

Lemma bind_Ok m k s a s' : m s = (Ok a, s') → (m ≫= k) s = k a s'.
Proof. unfold mbind, M_bind. by intros ->. Qed.

Lemma attempt_Ok m s a s' : m s = (Ok a, s') → attempt m s = (Ok (inl a), s').
Proof. unfold attempt. by intros ->. Qed.

Lemma attempt_Err m s e s' : m s = (Err e, s') → attempt m s = (Ok (inr e), s').
Proof. unfold attempt. by intros ->. Qed.

Lemma wrap_err_Ok msg m s a s' : m s = (Ok a, s') → wrap_err msg m s = (Ok a, s').
Proof. unfold wrap_err. by intros ->. Qed.

Lemma wrap_err_Err msg m s e s' :
  m s = (Err e, s') → wrap_err msg m s = (Err (Wrapf msg e), s').
Proof. unfold wrap_err. by intros ->. Qed.
End equations.

#[export] Hint Rewrite @attempt_Ok @attempt_Err @wrap_err_Ok @wrap_err_Err : gorw.

(** A relation between the states before and after a call that holds of every
    call made through the combinators: the way frame properties are proved for
    whole functions. *)
Definition preserves {St A} (R : St → St → Prop) (m : M St A) : Prop :=
  ∀ s, R s (m s).2.

Section preserves.
Context {St : Type} (R : St → St → Prop) `{!PreOrder R}.

Lemma preserves_ret {A} (a : A) : preserves R (mret a).
Proof. intros s. simpl. reflexivity. Qed.

Lemma preserves_throw {A} e : preserves R (throw (A:=A) e).
Proof. intros s. simpl. reflexivity. Qed.

Lemma preserves_panic {A} p : preserves R (panic (A:=A) p).
Proof. intros s. simpl. reflexivity. Qed.

Lemma preserves_get : preserves R get.
Proof. intros s. simpl. reflexivity. Qed.

Lemma preserves_bind {A B} (m : M St A) (k : A → M St B) :
  preserves R m → (∀ a, preserves R (k a)) → preserves R (m ≫= k).
Proof.
  intros Hm Hk s. specialize (Hm s). unfold mbind, M_bind.
  destruct (m s) as [[a|e|p] s'] eqn:E; simpl in *; [|done|done].
  etransitivity; [exact Hm|]. apply Hk.
Qed.

Lemma preserves_attempt {A} (m : M St A) : preserves R m → preserves R (attempt m).
Proof.
  intros Hm s. specialize (Hm s). unfold attempt. by destruct (m s) as [[a|e|p] s'].
Qed.

Lemma preserves_warn {A} (m : M St A) : preserves R m → preserves R (warn m).
Proof.
  intros Hm. apply preserves_bind; [by apply preserves_attempt|].
  intros _. apply preserves_ret.
Qed.

Lemma preserves_wrap_err {A} msg (m : M St A) :
  preserves R m → preserves R (wrap_err msg m).
Proof.
  intros Hm s. specialize (Hm s). unfold wrap_err. by destruct (m s) as [[a|e|p] s'].
Qed.
End preserves.

Create HintDb preserve.
#[export] Hint Resolve preserves_ret preserves_throw preserves_panic preserves_get
  preserves_attempt preserves_warn preserves_wrap_err : preserve.

(** A frame property of a whole function: the rules of the combinators, a case
    analysis, and the hints for the calls it makes. *)
Ltac solve_preserves :=
  repeat first
    [ apply preserves_bind; [apply _ | | intros ?]
    | progress (eauto with preserve typeclass_instances)
    | apply preserves_attempt
    | apply preserves_wrap_err
    | apply preserves_warn; [apply _|]
    | case_match ].

(** ** Programs over a server

    [m] on a server, whose data is read by [db], does what [f] does on the data. *)
Definition refines {R D} (db : R → D) {A} (m : M R A) (f : M D A) : Prop :=
  ∀ s, f (db s) = ((m s).1, db (m s).2).

Section refinement.
Context {R D : Type} (db : R → D).

Lemma refines_ret {A} (a : A) : refines db (mret a) (mret a).
Proof. by intros s. Qed.

Lemma refines_throw {A} e : refines db (throw (A:=A) e) (throw e).
Proof. by intros s. Qed.

Lemma refines_panic {A} p : refines db (panic (A:=A) p) (panic p).
Proof. by intros s. Qed.

Lemma refines_bind {A B} (m : M R A) f (k : A → M R B) g :
  refines db m f → (∀ a, refines db (k a) (g a)) → refines db (m ≫= k) (f ≫= g).
Proof.
  intros Hm Hk s. unfold mbind, M_bind. rewrite Hm. destruct (m s) as [[a|e|p] s']; simpl; [|done..].
  apply Hk.
Qed.

Lemma refines_attempt {A} (m : M R A) f : refines db m f → refines db (attempt m) (attempt f).
Proof. intros Hm s. unfold attempt. rewrite Hm. by destruct (m s) as [[a|e|p] s']. Qed.

Lemma refines_wrap_err {A} msg (m : M R A) f :
  refines db m f → refines db (wrap_err msg m) (wrap_err msg f).
Proof. intros Hm s. unfold wrap_err. rewrite Hm. by destruct (m s) as [[a|e|p] s']. Qed.

(** What a program that refines [f] does is read off the data. *)
Lemma refines_run {A} (m : M R A) f s r d' :
  refines db m f → f (db s) = (r, d') → (m s).1 = r ∧ db (m s).2 = d'.
Proof. intros Hm Hf. rewrite (Hm s) in Hf. by injection Hf. Qed.
End refinement.

Create HintDb refinement.
#[export] Hint Resolve refines_ret refines_throw refines_panic refines_attempt refines_wrap_err
  : refinement.

(** A method refines the same method on the data. *)
Ltac solve_refines :=
  repeat first
    [ progress (eauto 2 with refinement)
    | apply refines_bind; [|intros ?]
    | apply refines_wrap_err
    | apply refines_attempt
    | case_match ].
