(* ===== verification/Job.v ===== *)
(** * Jobs, queues and workers (pkg/job)

    The data of job.go, queue.go and worker.go with their methods. A Go [int]
    or [int64] field is a [Z] (operations on it wrap where the program computes
    on it), an optional time is an [option Time], a JSON payload is its bytes,
    and the string enumerations are strings, as any string can reach them. *)

From Stdlib Require Uint63 PrimFloat.
From S2P Require Import Prelude.

(** ** pkg/job/job.go *)

Definition StatusPending : string := "PENDING".
Definition StatusRunning : string := "RUNNING".
Definition StatusSuccess : string := "SUCCESS".
Definition StatusFailed : string := "FAILED".
Definition StatusRetrying : string := "RETRYING".
Definition StatusCancelled : string := "CANCELLED".
Definition StatusExpired : string := "EXPIRED".

Definition PriorityLow : Z := 0.
Definition PriorityNormal : Z := 5.
Definition PriorityHigh : Z := 10.

(** [type Job struct]. The comments mark the fields that the other packages
    read and write although the struct does not declare them. *)
Record Job : Type := mkJob {
  j_ID : string;
  j_Type : string;
  j_Payload : string;  (* JSON bytes *)
  j_Priority : Z;
  j_Status : string;
  j_MaxRetries : Z;
  j_CurrentRetry : Z;
  j_RetryCount : Z;  (* used, not declared *)
  j_Timeout : Duration;
  j_TimeoutSeconds : Z;  (* used, not declared *)
  j_ScheduledAt : option Time;
  j_CreatedAt : Time;
  j_UpdatedAt : Time;  (* used, not declared *)
  j_StartedAt : option Time;
  j_CompletedAt : option Time;
  j_Error : string;
  j_Result : string;  (* JSON bytes *)
  j_Metadata : gmap string string;
  j_Queue : string;
  j_Progress : Z;
  j_WorkerID : string;
}.

Definition set_j_Status (v : string) (j : Job) : Job :=
  mkJob (j_ID j) (j_Type j) (j_Payload j) (j_Priority j) v (j_MaxRetries j)
    (j_CurrentRetry j) (j_RetryCount j) (j_Timeout j) (j_TimeoutSeconds j)
    (j_ScheduledAt j) (j_CreatedAt j) (j_UpdatedAt j) (j_StartedAt j) (j_CompletedAt j)
    (j_Error j) (j_Result j) (j_Metadata j) (j_Queue j) (j_Progress j) (j_WorkerID j).

Definition set_j_MaxRetries (v : Z) (j : Job) : Job :=
  mkJob (j_ID j) (j_Type j) (j_Payload j) (j_Priority j) (j_Status j) v
    (j_CurrentRetry j) (j_RetryCount j) (j_Timeout j) (j_TimeoutSeconds j)
    (j_ScheduledAt j) (j_CreatedAt j) (j_UpdatedAt j) (j_StartedAt j) (j_CompletedAt j)
    (j_Error j) (j_Result j) (j_Metadata j) (j_Queue j) (j_Progress j) (j_WorkerID j).

Definition set_j_RetryCount (v : Z) (j : Job) : Job :=
  mkJob (j_ID j) (j_Type j) (j_Payload j) (j_Priority j) (j_Status j) (j_MaxRetries j)
    (j_CurrentRetry j) v (j_Timeout j) (j_TimeoutSeconds j) (j_ScheduledAt j)
    (j_CreatedAt j) (j_UpdatedAt j) (j_StartedAt j) (j_CompletedAt j) (j_Error j)
    (j_Result j) (j_Metadata j) (j_Queue j) (j_Progress j) (j_WorkerID j).

Definition set_j_TimeoutSeconds (v : Z) (j : Job) : Job :=
  mkJob (j_ID j) (j_Type j) (j_Payload j) (j_Priority j) (j_Status j) (j_MaxRetries j)
    (j_CurrentRetry j) (j_RetryCount j) (j_Timeout j) v (j_ScheduledAt j)
    (j_CreatedAt j) (j_UpdatedAt j) (j_StartedAt j) (j_CompletedAt j) (j_Error j)
    (j_Result j) (j_Metadata j) (j_Queue j) (j_Progress j) (j_WorkerID j).

Definition set_j_ScheduledAt (v : option Time) (j : Job) : Job :=
  mkJob (j_ID j) (j_Type j) (j_Payload j) (j_Priority j) (j_Status j) (j_MaxRetries j)
    (j_CurrentRetry j) (j_RetryCount j) (j_Timeout j) (j_TimeoutSeconds j) v
    (j_CreatedAt j) (j_UpdatedAt j) (j_StartedAt j) (j_CompletedAt j) (j_Error j)
    (j_Result j) (j_Metadata j) (j_Queue j) (j_Progress j) (j_WorkerID j).

Definition set_j_UpdatedAt (v : Time) (j : Job) : Job :=
  mkJob (j_ID j) (j_Type j) (j_Payload j) (j_Priority j) (j_Status j) (j_MaxRetries j)
    (j_CurrentRetry j) (j_RetryCount j) (j_Timeout j) (j_TimeoutSeconds j)
    (j_ScheduledAt j) (j_CreatedAt j) v (j_StartedAt j) (j_CompletedAt j) (j_Error j)
    (j_Result j) (j_Metadata j) (j_Queue j) (j_Progress j) (j_WorkerID j).

Definition set_j_StartedAt (v : option Time) (j : Job) : Job :=
  mkJob (j_ID j) (j_Type j) (j_Payload j) (j_Priority j) (j_Status j) (j_MaxRetries j)
    (j_CurrentRetry j) (j_RetryCount j) (j_Timeout j) (j_TimeoutSeconds j)
    (j_ScheduledAt j) (j_CreatedAt j) (j_UpdatedAt j) v (j_CompletedAt j) (j_Error j)
    (j_Result j) (j_Metadata j) (j_Queue j) (j_Progress j) (j_WorkerID j).

Definition set_j_CompletedAt (v : option Time) (j : Job) : Job :=
  mkJob (j_ID j) (j_Type j) (j_Payload j) (j_Priority j) (j_Status j) (j_MaxRetries j)
    (j_CurrentRetry j) (j_RetryCount j) (j_Timeout j) (j_TimeoutSeconds j)
    (j_ScheduledAt j) (j_CreatedAt j) (j_UpdatedAt j) (j_StartedAt j) v (j_Error j)
    (j_Result j) (j_Metadata j) (j_Queue j) (j_Progress j) (j_WorkerID j).

Definition set_j_Error (v : string) (j : Job) : Job :=
  mkJob (j_ID j) (j_Type j) (j_Payload j) (j_Priority j) (j_Status j) (j_MaxRetries j)
    (j_CurrentRetry j) (j_RetryCount j) (j_Timeout j) (j_TimeoutSeconds j)
    (j_ScheduledAt j) (j_CreatedAt j) (j_UpdatedAt j) (j_StartedAt j) (j_CompletedAt j)
    v (j_Result j) (j_Metadata j) (j_Queue j) (j_Progress j) (j_WorkerID j).

Definition set_j_Result (v : string) (j : Job) : Job :=
  mkJob (j_ID j) (j_Type j) (j_Payload j) (j_Priority j) (j_Status j) (j_MaxRetries j)
    (j_CurrentRetry j) (j_RetryCount j) (j_Timeout j) (j_TimeoutSeconds j)
    (j_ScheduledAt j) (j_CreatedAt j) (j_UpdatedAt j) (j_StartedAt j) (j_CompletedAt j)
    (j_Error j) v (j_Metadata j) (j_Queue j) (j_Progress j) (j_WorkerID j).

Definition set_j_Queue (v : string) (j : Job) : Job :=
  mkJob (j_ID j) (j_Type j) (j_Payload j) (j_Priority j) (j_Status j) (j_MaxRetries j)
    (j_CurrentRetry j) (j_RetryCount j) (j_Timeout j) (j_TimeoutSeconds j)
    (j_ScheduledAt j) (j_CreatedAt j) (j_UpdatedAt j) (j_StartedAt j) (j_CompletedAt j)
    (j_Error j) (j_Result j) (j_Metadata j) v (j_Progress j) (j_WorkerID j).

Definition set_j_Progress (v : Z) (j : Job) : Job :=
  mkJob (j_ID j) (j_Type j) (j_Payload j) (j_Priority j) (j_Status j) (j_MaxRetries j)
    (j_CurrentRetry j) (j_RetryCount j) (j_Timeout j) (j_TimeoutSeconds j)
    (j_ScheduledAt j) (j_CreatedAt j) (j_UpdatedAt j) (j_StartedAt j) (j_CompletedAt j)
    (j_Error j) (j_Result j) (j_Metadata j) (j_Queue j) v (j_WorkerID j).

(** [Job.IsTerminal]. *)
Definition IsTerminal (j : Job) : bool :=
  bool_decide (j_Status j = StatusSuccess) ||
  bool_decide (j_Status j = StatusFailed) ||
  bool_decide (j_Status j = StatusCancelled) ||
  bool_decide (j_Status j = StatusExpired).

(** [Job.CanRetry]. *)
Definition CanRetry (j : Job) : bool :=
  (j_CurrentRetry j <? j_MaxRetries j) && negb (IsTerminal j).

(** [Job.IsReady], with the reading of [time.Now()]. *)
Definition IsReady (now : Time) (j : Job) : bool :=
  match j_ScheduledAt j with
  | None => true
  | Some t => After now t
  end.

(** [Job.Duration]. *)
Definition job_Duration (j : Job) : Duration :=
  match j_StartedAt j, j_CompletedAt j with
  | Some s, Some c => Sub c s
  | _, _ => 0
  end.

(** ** pkg/job/queue.go *)

Definition RetryStrategyFixed : string := "FIXED".
Definition RetryStrategyExponential : string := "EXPONENTIAL".
Definition RetryStrategyLinear : string := "LINEAR".

(** [type QueueConfig struct]. *)
Record QueueConfig : Type := mkQueueConfig {
  c_Name : string;
  c_MaxWorkers : Z;
  c_MaxRetries : Z;
  c_RetryStrategy : string;
  c_DefaultTimeout : Duration;
  c_Timeout : Z;  (* used, not declared *)
  c_Priority : Z;
  c_RateLimit : Z;
  c_Weight : Z;
  c_IsPaused : bool;
  c_RetryDelay : Z;  (* a Duration, read as seconds *)
  c_MaxRetryDelay : Z;  (* a Duration, read as seconds *)
  c_DeadLetterQueue : string;
}.

Definition set_c_MaxWorkers (v : Z) (c : QueueConfig) : QueueConfig :=
  mkQueueConfig (c_Name c) v (c_MaxRetries c) (c_RetryStrategy c) (c_DefaultTimeout c)
    (c_Timeout c) (c_Priority c) (c_RateLimit c) (c_Weight c) (c_IsPaused c)
    (c_RetryDelay c) (c_MaxRetryDelay c) (c_DeadLetterQueue c).

Definition set_c_MaxRetries (v : Z) (c : QueueConfig) : QueueConfig :=
  mkQueueConfig (c_Name c) (c_MaxWorkers c) v (c_RetryStrategy c) (c_DefaultTimeout c)
    (c_Timeout c) (c_Priority c) (c_RateLimit c) (c_Weight c) (c_IsPaused c)
    (c_RetryDelay c) (c_MaxRetryDelay c) (c_DeadLetterQueue c).

Definition set_c_RetryStrategy (v : string) (c : QueueConfig) : QueueConfig :=
  mkQueueConfig (c_Name c) (c_MaxWorkers c) (c_MaxRetries c) v (c_DefaultTimeout c)
    (c_Timeout c) (c_Priority c) (c_RateLimit c) (c_Weight c) (c_IsPaused c)
    (c_RetryDelay c) (c_MaxRetryDelay c) (c_DeadLetterQueue c).

Definition set_c_Timeout (v : Z) (c : QueueConfig) : QueueConfig :=
  mkQueueConfig (c_Name c) (c_MaxWorkers c) (c_MaxRetries c) (c_RetryStrategy c)
    (c_DefaultTimeout c) v (c_Priority c) (c_RateLimit c) (c_Weight c) (c_IsPaused c)
    (c_RetryDelay c) (c_MaxRetryDelay c) (c_DeadLetterQueue c).

Definition set_c_Weight (v : Z) (c : QueueConfig) : QueueConfig :=
  mkQueueConfig (c_Name c) (c_MaxWorkers c) (c_MaxRetries c) (c_RetryStrategy c)
    (c_DefaultTimeout c) (c_Timeout c) (c_Priority c) (c_RateLimit c) v (c_IsPaused c)
    (c_RetryDelay c) (c_MaxRetryDelay c) (c_DeadLetterQueue c).

Definition set_c_RetryDelay (v : Z) (c : QueueConfig) : QueueConfig :=
  mkQueueConfig (c_Name c) (c_MaxWorkers c) (c_MaxRetries c) (c_RetryStrategy c)
    (c_DefaultTimeout c) (c_Timeout c) (c_Priority c) (c_RateLimit c) (c_Weight c)
    (c_IsPaused c) v (c_MaxRetryDelay c) (c_DeadLetterQueue c).

Definition set_c_MaxRetryDelay (v : Z) (c : QueueConfig) : QueueConfig :=
  mkQueueConfig (c_Name c) (c_MaxWorkers c) (c_MaxRetries c) (c_RetryStrategy c)
    (c_DefaultTimeout c) (c_Timeout c) (c_Priority c) (c_RateLimit c) (c_Weight c)
    (c_IsPaused c) (c_RetryDelay c) v (c_DeadLetterQueue c).

(** [type QueueStats struct]. *)
Record QueueStats : Type := mkQueueStats {
  qs_QueueName : string;
  qs_PendingCount : Z;
  qs_RunningCount : Z;
  qs_SuccessCount : Z;
  qs_FailedCount : Z;
  qs_ActiveWorkers : Z;
  qs_AvgProcessingTime : Duration;
  qs_LastJobAt : option Time;
}.

Definition set_qs_PendingCount (v : Z) (q : QueueStats) : QueueStats :=
  mkQueueStats (qs_QueueName q) v (qs_RunningCount q) (qs_SuccessCount q)
    (qs_FailedCount q) (qs_ActiveWorkers q) (qs_AvgProcessingTime q) (qs_LastJobAt q).

Definition set_qs_RunningCount (v : Z) (q : QueueStats) : QueueStats :=
  mkQueueStats (qs_QueueName q) (qs_PendingCount q) v (qs_SuccessCount q)
    (qs_FailedCount q) (qs_ActiveWorkers q) (qs_AvgProcessingTime q) (qs_LastJobAt q).

Definition set_qs_SuccessCount (v : Z) (q : QueueStats) : QueueStats :=
  mkQueueStats (qs_QueueName q) (qs_PendingCount q) (qs_RunningCount q) v
    (qs_FailedCount q) (qs_ActiveWorkers q) (qs_AvgProcessingTime q) (qs_LastJobAt q).

Definition set_qs_FailedCount (v : Z) (q : QueueStats) : QueueStats :=
  mkQueueStats (qs_QueueName q) (qs_PendingCount q) (qs_RunningCount q)
    (qs_SuccessCount q) v (qs_ActiveWorkers q) (qs_AvgProcessingTime q)
    (qs_LastJobAt q).

(** [DefaultQueueConfig]: here the delays are durations in nanoseconds. *)
Definition DefaultQueueConfig (name : string) : QueueConfig := {|
  c_Name := name;
  c_MaxWorkers := 10;
  c_MaxRetries := 3;
  c_RetryStrategy := RetryStrategyExponential;
  c_DefaultTimeout := 5 * Minute;
  c_Timeout := 0;
  c_Priority := 5;
  c_RateLimit := 0;
  c_Weight := 1;
  c_IsPaused := false;
  c_RetryDelay := 5 * Second;
  c_MaxRetryDelay := 1 * Hour;
  c_DeadLetterQueue := "";
|}.

(** ** pkg/job/worker.go *)

Definition WorkerStatusIdle : string := "IDLE".
Definition WorkerStatusProcessing : string := "PROCESSING".
Definition WorkerStatusStopped : string := "STOPPED".
Definition WorkerStatusFailed : string := "FAILED".

(** [type Worker struct]. The stores and the pool use the three optional fields
    as pointers. *)
Record Worker : Type := mkWorker {
  w_ID : string;
  w_Hostname : string;
  w_StartedAt : option Time;
  w_LastHeartbeat : option Time;
  w_CurrentJobID : option string;
  w_ProcessedCount : Z;
  w_FailedCount : Z;
  w_Status : string;
  w_Queues : list string;
  w_Concurrency : Z;
  w_Tags : gmap string string;
  w_Version : string;
}.

Definition set_w_LastHeartbeat (v : option Time) (w : Worker) : Worker :=
  mkWorker (w_ID w) (w_Hostname w) (w_StartedAt w) v (w_CurrentJobID w)
    (w_ProcessedCount w) (w_FailedCount w) (w_Status w) (w_Queues w) (w_Concurrency w)
    (w_Tags w) (w_Version w).

Definition set_w_CurrentJobID (v : option string) (w : Worker) : Worker :=
  mkWorker (w_ID w) (w_Hostname w) (w_StartedAt w) (w_LastHeartbeat w) v
    (w_ProcessedCount w) (w_FailedCount w) (w_Status w) (w_Queues w) (w_Concurrency w)
    (w_Tags w) (w_Version w).

Definition set_w_ProcessedCount (v : Z) (w : Worker) : Worker :=
  mkWorker (w_ID w) (w_Hostname w) (w_StartedAt w) (w_LastHeartbeat w)
    (w_CurrentJobID w) v (w_FailedCount w) (w_Status w) (w_Queues w) (w_Concurrency w)
    (w_Tags w) (w_Version w).

Definition set_w_FailedCount (v : Z) (w : Worker) : Worker :=
  mkWorker (w_ID w) (w_Hostname w) (w_StartedAt w) (w_LastHeartbeat w)
    (w_CurrentJobID w) (w_ProcessedCount w) v (w_Status w) (w_Queues w)
    (w_Concurrency w) (w_Tags w) (w_Version w).

Definition set_w_Status (v : string) (w : Worker) : Worker :=
  mkWorker (w_ID w) (w_Hostname w) (w_StartedAt w) (w_LastHeartbeat w)
    (w_CurrentJobID w) (w_ProcessedCount w) (w_FailedCount w) v (w_Queues w)
    (w_Concurrency w) (w_Tags w) (w_Version w).

(** [time.Since(t)] with the reading [now]: a worker without a heartbeat (the
    zero time) is older than any duration can say, and [Sub] saturates. *)
Definition Since (now : Time) (t : option Time) : Duration :=
  match t with
  | Some t => Sub now t
  | None => max_int64
  end.

(** [Worker.IsAlive]. *)
Definition IsAlive (now : Time) (w : Worker) (timeout : Duration) : bool :=
  Since now (w_LastHeartbeat w) <? timeout.

(** [Worker.Uptime]. *)
Definition Uptime (now : Time) (w : Worker) : Duration := Since now (w_StartedAt w).

(** [float64(z)] of an integer below 2^63. *)
Definition float64_of_int64_pos (z : Z) : PrimFloat.float :=
  PrimFloat.of_uint63 (Uint63.of_Z z).

(** [float64(z)] of an [int64] (rounded to nearest even). *)
Definition float64_of_int64 (z : Z) : PrimFloat.float :=
  if z =? min_int64 then
    PrimFloat.mul (PrimFloat.opp (float64_of_int64_pos 2)) (float64_of_int64_pos (2 ^ 62))
  else if z <? 0 then PrimFloat.opp (float64_of_int64_pos (- z))
  else float64_of_int64_pos z.

(** [Worker.SuccessRate]. *)
Definition SuccessRate (w : Worker) : PrimFloat.float :=
  let total := w_ProcessedCount w in
  if total =? 0 then float64_of_int64 0
  else
    let successful := wrap64 (total - w_FailedCount w) in
    PrimFloat.mul (PrimFloat.div (float64_of_int64 successful) (float64_of_int64 total))
      (float64_of_int64 100).

(** ** Facts shared by the components *)

(** What no store operation on an existing job changes: [k] is the same job as
    [j] up to its status, its progress, its outcome and its timestamps. *)
Definition same_job (j k : Job) : Prop :=
  j_ID k = j_ID j ∧ j_Type k = j_Type j ∧ j_Payload k = j_Payload j ∧
  j_Priority k = j_Priority j ∧ j_MaxRetries k = j_MaxRetries j ∧
  j_CurrentRetry k = j_CurrentRetry j ∧ j_RetryCount k = j_RetryCount j ∧
  j_TimeoutSeconds k = j_TimeoutSeconds j ∧ j_ScheduledAt k = j_ScheduledAt j ∧
  j_CreatedAt k = j_CreatedAt j ∧ j_Metadata k = j_Metadata j ∧ j_Queue k = j_Queue j.

#[export] Instance same_job_refl : Reflexive same_job.
Proof. intros j. unfold same_job. tauto. Qed.

#[export] Instance same_job_trans : Transitive same_job.
Proof. intros j k l. unfold same_job. intuition congruence. Qed.
