(* ===== verification/MemoryStore.v ===== *)
(** * The in-memory store (internal/storage/memory/memory.go)

    Its data and one definition per method. Every method takes the store's lock
    for its whole body, so a method is one atomic step on the state. A method
    that calls [time.Now()] takes the readings as a [Clock]; one whose result
    depends on the order of a [range] loop takes a [MapRange].

    The maps hold pointers to copies that only the methods reach: a stored job,
    worker, entry or configuration is a value of the map. *)

From S2P Require Import Prelude Errors GoMonad Job.

(** [type queueEntry struct]. *)
Record queueEntry : Type := mkQueueEntry {
  e_JobID : string;
  e_Priority : Z;
  e_Timestamp : Time;
}.

(** [type jobTypeMetrics struct]. *)
Record jobTypeMetrics : Type := mkJobTypeMetrics {
  jt_Count : Z;
  jt_TotalDuration : Duration;
  jt_MinDuration : Duration;
  jt_MaxDuration : Duration;
}.

(** [type metricsData struct], without its lock. *)
Record metricsData : Type := mkMetricsData {
  md_jobsCreated : Z;
  md_jobsCompleted : Z;
  md_jobsFailed : Z;
  md_jobsRetried : Z;
  md_queueStats : gmap string QueueStats;
  md_jobTypeStats : gmap string jobTypeMetrics;
  md_lastUpdate : Time;
}.

Definition set_md_jobsCreated (v : Z) (x : metricsData) : metricsData :=
  mkMetricsData v (md_jobsCompleted x) (md_jobsFailed x) (md_jobsRetried x)
    (md_queueStats x) (md_jobTypeStats x) (md_lastUpdate x).

Definition set_md_jobsCompleted (v : Z) (x : metricsData) : metricsData :=
  mkMetricsData (md_jobsCreated x) v (md_jobsFailed x) (md_jobsRetried x)
    (md_queueStats x) (md_jobTypeStats x) (md_lastUpdate x).

Definition set_md_jobsFailed (v : Z) (x : metricsData) : metricsData :=
  mkMetricsData (md_jobsCreated x) (md_jobsCompleted x) v (md_jobsRetried x)
    (md_queueStats x) (md_jobTypeStats x) (md_lastUpdate x).

Definition set_md_jobsRetried (v : Z) (x : metricsData) : metricsData :=
  mkMetricsData (md_jobsCreated x) (md_jobsCompleted x) (md_jobsFailed x) v
    (md_queueStats x) (md_jobTypeStats x) (md_lastUpdate x).

Definition set_md_queueStats (v : gmap string QueueStats) (x : metricsData) : metricsData :=
  mkMetricsData (md_jobsCreated x) (md_jobsCompleted x) (md_jobsFailed x)
    (md_jobsRetried x) v (md_jobTypeStats x) (md_lastUpdate x).

Definition set_md_jobTypeStats (v : gmap string jobTypeMetrics) (x : metricsData) : metricsData :=
  mkMetricsData (md_jobsCreated x) (md_jobsCompleted x) (md_jobsFailed x)
    (md_jobsRetried x) (md_queueStats x) v (md_lastUpdate x).

(** [type MemoryStore struct], without its lock. *)
Record MemoryStore : Type := mkMemoryStore {
  ms_jobs : gmap string Job;
  ms_queues : gmap string (list queueEntry);
  ms_paused : gmap string bool;
  ms_workers : gmap string Worker;
  ms_metrics : metricsData;
  ms_queueConfigs : gmap string QueueConfig;
}.

Definition set_ms_jobs (v : gmap string Job) (x : MemoryStore) : MemoryStore :=
  mkMemoryStore v (ms_queues x) (ms_paused x) (ms_workers x) (ms_metrics x)
    (ms_queueConfigs x).

Definition set_ms_queues (v : gmap string (list queueEntry)) (x : MemoryStore) : MemoryStore :=
  mkMemoryStore (ms_jobs x) v (ms_paused x) (ms_workers x) (ms_metrics x)
    (ms_queueConfigs x).

Definition set_ms_paused (v : gmap string bool) (x : MemoryStore) : MemoryStore :=
  mkMemoryStore (ms_jobs x) (ms_queues x) v (ms_workers x) (ms_metrics x)
    (ms_queueConfigs x).

Definition set_ms_workers (v : gmap string Worker) (x : MemoryStore) : MemoryStore :=
  mkMemoryStore (ms_jobs x) (ms_queues x) (ms_paused x) v (ms_metrics x)
    (ms_queueConfigs x).

Definition set_ms_metrics (v : metricsData) (x : MemoryStore) : MemoryStore :=
  mkMemoryStore (ms_jobs x) (ms_queues x) (ms_paused x) (ms_workers x) v
    (ms_queueConfigs x).

Definition set_ms_queueConfigs (v : gmap string QueueConfig) (x : MemoryStore) : MemoryStore :=
  mkMemoryStore (ms_jobs x) (ms_queues x) (ms_paused x) (ms_workers x) (ms_metrics x)
    v.

(** [NewMemoryStore]. *)
Definition NewMemoryStore (clk : Clock) : MemoryStore := {|
  ms_jobs := ∅;
  ms_queues := ∅;
  ms_paused := ∅;
  ms_workers := ∅;
  ms_metrics := {|
    md_jobsCreated := 0; md_jobsCompleted := 0; md_jobsFailed := 0; md_jobsRetried := 0;
    md_queueStats := ∅; md_jobTypeStats := ∅; md_lastUpdate := clk 0%nat |};
  ms_queueConfigs := ∅;
|}.

(** [m.queues[queue]]: the nil slice for a queue never written. *)
Definition entries_of (m : MemoryStore) (queue : string) : list queueEntry :=
  default [] (ms_queues m !! queue).

(** ** JobStore *)

Definition CreateJob (j : Job) : M MemoryStore unit := λ m,
  match ms_jobs m !! j_ID j with
  | Some _ => (Err ErrJobAlreadyExists, m)
  | None => (Ok tt, set_ms_jobs (<[j_ID j := j]> (ms_jobs m)) m)
  end.

Definition GetJob (id : string) : M MemoryStore Job := λ m,
  match ms_jobs m !! id with
  | None => (Err ErrJobNotFound, m)
  | Some j => (Ok j, m)
  end.

Definition UpdateJob (j : Job) : M MemoryStore unit := λ m,
  match ms_jobs m !! j_ID j with
  | None => (Err ErrJobNotFound, m)
  | Some _ => (Ok tt, set_ms_jobs (<[j_ID j := j]> (ms_jobs m)) m)
  end.

Definition DeleteJob (id : string) : M MemoryStore unit := λ m,
  match ms_jobs m !! id with
  | None => (Err ErrJobNotFound, m)
  | Some _ => (Ok tt, set_ms_jobs (delete id (ms_jobs m)) m)
  end.

(** [(queue == "" || j.Queue == queue) && (status == "" || j.Status == status)]. *)
Definition list_match (queue status : string) (j : Job) : bool :=
  (bool_decide (queue = "") || bool_decide (j_Queue j = queue)) &&
  (bool_decide (status = "") || bool_decide (j_Status j = status)).

(** [jobs[i].CreatedAt.After(jobs[j].CreatedAt)]. *)
Definition created_later (a b : Job) : bool := After (j_CreatedAt a) (j_CreatedAt b).

(** The pagination at the end of [ListJobs]. *)
Definition paginate (limit offset : Z) (jobs : list Job) : res (list Job) :=
  if Z.of_nat (length jobs) <=? offset then Ok []
  else if offset <? 0 then Panic "slice bounds out of range"
  else
    let jobs := drop (Z.to_nat offset) jobs in
    if (0 <? limit) && (limit <? Z.of_nat (length jobs))
    then Ok (take (Z.to_nat limit) jobs)
    else Ok jobs.

Definition ListJobs `{MapRange} (queue status : string) (limit offset : Z) :
    M MemoryStore (list Job) := λ m,
  let jobs := filter (λ j, list_match queue status j = true) (range_values (ms_jobs m)) in
  let jobs := sort_slice created_later jobs in
  (paginate limit offset jobs, m).

(** The body that [UpdateStatus], [UpdateProgress], [SetResult] and [SetError]
    share: look the job up, then write through the pointer in the map. *)
Definition update_job (id : string) (f : Job → Job) : M MemoryStore unit := λ m,
  match ms_jobs m !! id with
  | None => (Err ErrJobNotFound, m)
  | Some j => (Ok tt, set_ms_jobs (<[id := f j]> (ms_jobs m)) m)
  end.

(** The assignments of [UpdateStatus]. A status is not both running and
    terminal, so at most one of the two timestamps takes the second reading. *)
Definition set_status (clk : Clock) (status : string) (j : Job) : Job :=
  let j := set_j_Status status j in
  let j := set_j_UpdatedAt (clk 0%nat) j in
  let j :=
    if bool_decide (status = StatusRunning) && bool_decide (j_StartedAt j = None)
    then set_j_StartedAt (Some (clk 1%nat)) j else j in
  if IsTerminal j && bool_decide (j_CompletedAt j = None)
  then set_j_CompletedAt (Some (clk 1%nat)) j else j.

Definition UpdateStatus (clk : Clock) (id status : string) : M MemoryStore unit :=
  update_job id (set_status clk status).

Definition UpdateProgress (clk : Clock) (id : string) (progress : Z) : M MemoryStore unit :=
  update_job id (λ j, set_j_UpdatedAt (clk 0%nat) (set_j_Progress progress j)).

Definition SetResult (clk : Clock) (id result : string) : M MemoryStore unit :=
  update_job id (λ j, set_j_UpdatedAt (clk 0%nat) (set_j_Result result j)).

Definition SetError (clk : Clock) (id errMsg : string) : M MemoryStore unit :=
  update_job id (λ j, set_j_UpdatedAt (clk 0%nat) (set_j_Error errMsg j)).

(** ** QueueStore *)

Definition Enqueue (clk : Clock) (queue jobID : string) (priority : Z) (delay : Duration) :
    M MemoryStore unit := λ m,
  match ms_jobs m !! jobID with
  | None => (Err ErrJobNotFound, m)
  | Some _ =>
      let entry := mkQueueEntry jobID priority (Add (clk 0%nat) delay) in
      (Ok tt, set_ms_queues (<[queue := entries_of m queue ++ [entry]]> (ms_queues m)) m)
  end.

(** The loop of [Dequeue] from index [i] on, with its two variables. *)
Fixpoint dequeue_scan (now : Time) (i : Z) (entries : list queueEntry)
    (bestIdx bestPriority : Z) : Z * Z :=
  match entries with
  | [] => (bestIdx, bestPriority)
  | entry :: rest =>
      if After (e_Timestamp entry) now then
        dequeue_scan now (i + 1) rest bestIdx bestPriority
      else if (bestIdx =? -1) || (bestPriority <? e_Priority entry) then
        dequeue_scan now (i + 1) rest i (e_Priority entry)
      else dequeue_scan now (i + 1) rest bestIdx bestPriority
  end.

Definition Dequeue (clk : Clock) (queue : string) : M MemoryStore string := λ m,
  if default false (ms_paused m !! queue) then (Err ErrQueuePaused, m)
  else
    let entries := entries_of m queue in
    if bool_decide (length entries = 0%nat) then (Err ErrQueueEmpty, m)
    else
      let now := clk 0%nat in
      let bestIdx := (dequeue_scan now 0 entries (-1) (-1)).1 in
      if bestIdx =? -1 then (Err ErrQueueEmpty, m)
      else
        match entries !! Z.to_nat bestIdx with
        | None => (Panic "index out of range", m)
        | Some entry =>
            let rest := take (Z.to_nat bestIdx) entries ++
                        drop (S (Z.to_nat bestIdx)) entries in
            (Ok (e_JobID entry), set_ms_queues (<[queue := rest]> (ms_queues m)) m)
        end.

Definition Requeue (clk : Clock) (queue jobID : string) (priority : Z) (delay : Duration) :
    M MemoryStore unit :=
  Enqueue clk queue jobID priority delay.

(** The loop of [Remove]: the entries without the first one of the job, if
    there is one. *)
Fixpoint remove_first (jobID : string) (entries : list queueEntry) :
    option (list queueEntry) :=
  match entries with
  | [] => None
  | entry :: rest =>
      if bool_decide (e_JobID entry = jobID) then Some rest
      else cons entry <$> remove_first jobID rest
  end.

Definition Remove (queue jobID : string) : M MemoryStore unit := λ m,
  match remove_first jobID (entries_of m queue) with
  | Some entries => (Ok tt, set_ms_queues (<[queue := entries]> (ms_queues m)) m)
  | None => (Err ErrJobNotFound, m)
  end.

Definition Length (queue : string) : M MemoryStore Z := λ m,
  (Ok (Z.of_nat (length (entries_of m queue))), m).

Definition Peek (queue : string) (count : Z) : M MemoryStore (list string) := λ m,
  let entries := entries_of m queue in
  let count := if Z.of_nat (length entries) <? count
               then Z.of_nat (length entries) else count in
  if count <? 0 then (Panic "makeslice: cap out of range", m)
  else (Ok (e_JobID <$> take (Z.to_nat count) entries), m).

Definition GetScheduled (queue : string) (until : Time) : M MemoryStore (list string) := λ m,
  (Ok (e_JobID <$> filter (λ e, After (e_Timestamp e) until = false) (entries_of m queue)), m).

Definition PauseQueue (queue : string) : M MemoryStore unit := λ m,
  (Ok tt, set_ms_paused (<[queue := true]> (ms_paused m)) m).

Definition ResumeQueue (queue : string) : M MemoryStore unit := λ m,
  (Ok tt, set_ms_paused (<[queue := false]> (ms_paused m)) m).

Definition IsQueuePaused (queue : string) : M MemoryStore bool := λ m,
  (Ok (default false (ms_paused m !! queue)), m).

(** ** WorkerStore *)

Definition RegisterWorker (w : Worker) : M MemoryStore unit := λ m,
  (Ok tt, set_ms_workers (<[w_ID w := w]> (ms_workers m)) m).

Definition UnregisterWorker (id : string) : M MemoryStore unit := λ m,
  match ms_workers m !! id with
  | None => (Err ErrWorkerNotFound, m)
  | Some _ => (Ok tt, set_ms_workers (delete id (ms_workers m)) m)
  end.

Definition GetWorker (id : string) : M MemoryStore Worker := λ m,
  match ms_workers m !! id with
  | None => (Err ErrWorkerNotFound, m)
  | Some w => (Ok w, m)
  end.

Definition ListWorkers `{MapRange} (queue : string) : M MemoryStore (list Worker) := λ m,
  (Ok (filter (λ w, queue = "" ∨ queue ∈ w_Queues w) (range_values (ms_workers m))), m).

(** The body the five methods below share. *)
Definition update_worker (id : string) (f : Worker → Worker) : M MemoryStore unit := λ m,
  match ms_workers m !! id with
  | None => (Err ErrWorkerNotFound, m)
  | Some w => (Ok tt, set_ms_workers (<[id := f w]> (ms_workers m)) m)
  end.

Definition UpdateHeartbeat (clk : Clock) (id : string) : M MemoryStore unit :=
  update_worker id (set_w_LastHeartbeat (Some (clk 0%nat))).

Definition UpdateWorkerStatus (id status : string) : M MemoryStore unit :=
  update_worker id (set_w_Status status).

Definition SetCurrentJob (workerID jobID : string) : M MemoryStore unit :=
  update_worker workerID
    (set_w_CurrentJobID (if bool_decide (jobID = "") then None else Some jobID)).

Definition IncrementProcessed (workerID : string) : M MemoryStore unit :=
  update_worker workerID (λ w, set_w_ProcessedCount (wrap64 (w_ProcessedCount w + 1)) w).

Definition IncrementFailed (workerID : string) : M MemoryStore unit :=
  update_worker workerID (λ w, set_w_FailedCount (wrap64 (w_FailedCount w + 1)) w).

(** [w.LastHeartbeat != nil && w.LastHeartbeat.Before(cutoff)]. *)
Definition is_stale (cutoff : Time) (w : Worker) : bool :=
  match w_LastHeartbeat w with
  | Some t => Before t cutoff
  | None => false
  end.

Definition GetStaleWorkers `{MapRange} (clk : Clock) (threshold : Duration) :
    M MemoryStore (list Worker) := λ m,
  let cutoff := Add (clk 0%nat) (wrap64 (- threshold)) in
  (Ok (filter (λ w, is_stale cutoff w = true) (range_values (ms_workers m))), m).

(** ** MetricsStore *)

Definition RecordJobCreated (queue jobType : string) : M MemoryStore unit := λ m,
  let md := ms_metrics m in
  let md := set_md_jobsCreated (wrap64 (md_jobsCreated md + 1)) md in
  let md :=
    match md_queueStats md !! queue with
    | None => set_md_queueStats
                (<[queue := mkQueueStats queue 0 0 0 0 0 0 None]> (md_queueStats md)) md
    | Some _ => md
    end in
  (Ok tt, set_ms_metrics md m).

(** [if m.metrics.queueStats[queue] != nil] around an update of the entry. *)
Definition alter_queue_stats (queue : string) (f : QueueStats → QueueStats)
    (md : metricsData) : metricsData :=
  match md_queueStats md !! queue with
  | Some st => set_md_queueStats (<[queue := f st]> (md_queueStats md)) md
  | None => md
  end.

(** The update of the statistics of a job type. *)
Definition record_duration (duration : Duration) (stats : option jobTypeMetrics) :
    jobTypeMetrics :=
  let st := default (mkJobTypeMetrics 0 0 duration duration) stats in
  {| jt_Count := wrap64 (jt_Count st + 1);
     jt_TotalDuration := wrap64 (jt_TotalDuration st + duration);
     jt_MinDuration := if duration <? jt_MinDuration st then duration else jt_MinDuration st;
     jt_MaxDuration := if jt_MaxDuration st <? duration then duration else jt_MaxDuration st |}.

Definition RecordJobCompleted (queue jobType : string) (duration : Duration) :
    M MemoryStore unit := λ m,
  let md := ms_metrics m in
  let md := set_md_jobsCompleted (wrap64 (md_jobsCompleted md + 1)) md in
  let md := alter_queue_stats queue
              (λ st, set_qs_SuccessCount (wrap64 (qs_SuccessCount st + 1)) st) md in
  let md := set_md_jobTypeStats
              (<[jobType := record_duration duration (md_jobTypeStats md !! jobType)]>
                 (md_jobTypeStats md)) md in
  (Ok tt, set_ms_metrics md m).

Definition RecordJobFailed (queue jobType : string) : M MemoryStore unit := λ m,
  let md := ms_metrics m in
  let md := set_md_jobsFailed (wrap64 (md_jobsFailed md + 1)) md in
  let md := alter_queue_stats queue
              (λ st, set_qs_FailedCount (wrap64 (qs_FailedCount st + 1)) st) md in
  (Ok tt, set_ms_metrics md m).

Definition RecordJobRetried (queue jobType : string) : M MemoryStore unit := λ m,
  let md := ms_metrics m in
  (Ok tt, set_ms_metrics (set_md_jobsRetried (wrap64 (md_jobsRetried md + 1)) md) m).

(** The [switch] of [GetQueueStats]. *)
Definition count_status (st : QueueStats) (j : Job) : QueueStats :=
  if bool_decide (j_Status j = StatusPending) then
    set_qs_PendingCount (wrap64 (qs_PendingCount st + 1)) st
  else if bool_decide (j_Status j = StatusRunning) then
    set_qs_RunningCount (wrap64 (qs_RunningCount st + 1)) st
  else if bool_decide (j_Status j = StatusSuccess) then
    set_qs_SuccessCount (wrap64 (qs_SuccessCount st + 1)) st
  else if bool_decide (j_Status j = StatusFailed) then
    set_qs_FailedCount (wrap64 (qs_FailedCount st + 1)) st
  else st.

(** The loop of [GetQueueStats] over the jobs. *)
Definition count_jobs (queue : string) (stats : QueueStats) (jobs : list Job) : QueueStats :=
  foldl (λ st j, if bool_decide (j_Queue j = queue) then count_status st j else st)
    stats jobs.

Definition queue_stats `{MapRange} (m : MemoryStore) (queue : string) : QueueStats :=
  let stats := mkQueueStats queue 0 0 0 0 0 0 None in
  let stats := count_jobs queue stats (range_values (ms_jobs m)) in
  match md_queueStats (ms_metrics m) !! queue with
  | Some stored =>
      let stats := if qs_SuccessCount stats =? 0
                   then set_qs_SuccessCount (qs_SuccessCount stored) stats else stats in
      if qs_FailedCount stats =? 0
      then set_qs_FailedCount (qs_FailedCount stored) stats else stats
  | None => stats
  end.

Definition GetQueueStats `{MapRange} (queue : string) : M MemoryStore QueueStats := λ m,
  (Ok (queue_stats m queue), m).

Definition GetQueueStatsAll `{MapRange} : M MemoryStore (gmap string QueueStats) := λ m,
  let queues : gmap string bool :=
    foldl (λ acc j, <[j_Queue j := true]> acc) ∅ (range_values (ms_jobs m)) in
  (Ok (foldl (λ acc q, <[q.1 := queue_stats m q.1]> acc) ∅ (map_range queues)), m).

(** The count and the average duration; the division truncates. *)
Definition GetJobTypeStats (jobType : string) : M MemoryStore (Z * Duration) := λ m,
  match md_jobTypeStats (ms_metrics m) !! jobType with
  | None => (Ok (0, 0), m)
  | Some stats =>
      let count := jt_Count stats in
      (Ok (count, if 0 <? count then Z.quot (jt_TotalDuration stats) count else 0), m)
  end.

(** ** ConfigStore *)

Definition SaveQueueConfig (config : QueueConfig) : M MemoryStore unit := λ m,
  (Ok tt, set_ms_queueConfigs (<[c_Name config := config]> (ms_queueConfigs m)) m).

Definition GetQueueConfig (queue : string) : M MemoryStore QueueConfig := λ m,
  match ms_queueConfigs m !! queue with
  | None => (Err (Errorf ("queue config not found: " +:+ queue)), m)
  | Some config => (Ok config, m)
  end.

Definition DeleteQueueConfig (queue : string) : M MemoryStore unit := λ m,
  (Ok tt, set_ms_queueConfigs (delete queue (ms_queueConfigs m)) m).

Definition ListQueueConfigs `{MapRange} : M MemoryStore (list QueueConfig) := λ m,
  (Ok (range_values (ms_queueConfigs m)), m).
