(* ===== verification/MemoryQueue.v ===== *)
(** * The queue operations of the in-memory store

    [Dequeue] against two specifications: the entry it claims (the first one of
    the highest priority among the entries that are due), and what draining a
    queue yields (the due entries in a stable order of priority). *)

From S2P Require Import Prelude Errors GoMonad Job MemoryStore.

(** An entry is due when its timestamp is not after the reading of the clock. *)
Definition ready (now : Time) (e : queueEntry) : bool := negb (After (e_Timestamp e) now).

Definition paused (m : MemoryStore) (queue : string) : bool :=
  default false (ms_paused m !! queue).

(** The entry [e] at index [i] is due, no due entry has a higher priority, and
    no due entry before it has the same one. *)
Definition best_at (now : Time) (l : list queueEntry) (i : nat) (e : queueEntry) : Prop :=
  l !! i = Some e ∧ ready now e = true ∧
  ∀ k e', l !! k = Some e' → ready now e' = true →
    e_Priority e' ≤ e_Priority e ∧ ((k < i)%nat → e_Priority e' < e_Priority e).

(** The order in which a drained queue delivers: higher priorities first. *)
Definition higher_priority (a b : queueEntry) : bool := e_Priority b <? e_Priority a.

(** [n] calls of [Dequeue] at the instant [now], up to the first failure. *)
Fixpoint drain (n : nat) (now : Time) (queue : string) (m : MemoryStore) :
    list string * MemoryStore :=
  match n with
  | O => ([], m)
  | S n =>
      match Dequeue (λ _, now) queue m with
      | (Ok id, m') => let r := drain n now queue m' in (id :: r.1, r.2)
      | (_, m') => ([], m')
      end
  end.

(** ** The scan *)

Section scan.
Context (now : Time).
Implicit Types (l : list queueEntry) (e : queueEntry).

Lemma not_After_ready e : After (e_Timestamp e) now = false → ready now e = true.
Proof. unfold ready. by intros ->. Qed.

Lemma After_not_ready e : After (e_Timestamp e) now = true → ready now e = false.
Proof. unfold ready. by intros ->. Qed.

(** The scan of a suffix that starts at index [i] with the current best index
    [b] of priority [p]: either nothing in the suffix beats it, or the result
    is the first due entry of the highest priority. *)
Lemma dequeue_scan_spec l i b p :
  0 ≤ i → b = -1 ∨ 0 ≤ b →
  let r := dequeue_scan now i l b p in
  (r = (b, p) ∧
     ∀ k e, l !! k = Some e → ready now e = true → b ≠ -1 ∧ e_Priority e ≤ p) ∨
  (∃ k e, r = (i + Z.of_nat k, e_Priority e) ∧ best_at now l k e ∧
     (b = -1 ∨ p < e_Priority e)).
Proof.
  revert i b p. induction l as [|e l IH]; intros i b p Hi Hb; simpl.
  { left. split; [done|]. by intros ??. }
  destruct (After (e_Timestamp e) now) eqn:Haf.
  - apply After_not_ready in Haf.
    destruct (IH (i + 1) b p) as [[-> Hn]|(k & e' & -> & (Hk & Hr & Hbest) & Hlt)]; [lia|done|..].
    + left. split; [done|]. intros [|k] e' Hk Hr; simplify_eq/=; [congruence|eauto].
    + right. exists (S k), e'. split; [f_equal; lia|]. split; [|done].
      split_and!; [done..|]. intros [|k'] e'' Hk' Hr'; simplify_eq/=; [congruence|].
      destruct (Hbest k' e'' Hk' Hr'); split; [done|]. intros. auto with lia.
  - apply not_After_ready in Haf.
    destruct ((b =? -1) || (p <? e_Priority e)) eqn:Hc.
    + assert (Hc' : b = -1 ∨ p < e_Priority e) by lia.
      destruct (IH (i + 1) i (e_Priority e)) as [[-> Hn]|(k & e' & -> & (Hk & Hr & Hbest) & Hlt)];
        [lia..| |].
      * right. exists 0%nat, e. split; [f_equal; lia|]. split; [|done].
        split_and!; [done..|]. intros [|k'] e' Hk' Hr'; simplify_eq/=; [lia|].
        destruct (Hn _ _ Hk' Hr'). lia.
      * right. exists (S k), e'. split; [f_equal; lia|]. split; [|lia].
        split_and!; [done..|]. intros [|k'] e'' Hk' Hr'; simplify_eq/=; [lia|].
        destruct (Hbest k' e'' Hk' Hr'). split; [done|]. auto with lia.
    + assert (Hc' : b ≠ -1 ∧ e_Priority e ≤ p) by lia.
      destruct (IH (i + 1) b p) as [[-> Hn]|(k & e' & -> & (Hk & Hr & Hbest) & Hlt)]; [lia|done|..].
      * left. split; [done|]. intros [|k] e' Hk Hr; simplify_eq/=; eauto.
      * right. exists (S k), e'. split; [f_equal; lia|]. split; [|lia].
        split_and!; [done..|]. intros [|k'] e'' Hk' Hr'; simplify_eq/=; [lia|].
        destruct (Hbest k' e'' Hk' Hr'). split; [done|]. auto with lia.
Qed.

Lemma dequeue_scan_none l :
  (∀ e, e ∈ l → ready now e = false) → (dequeue_scan now 0 l (-1) (-1)).1 = -1.
Proof.
  intros Hl. destruct (dequeue_scan_spec l 0 (-1) (-1)) as [[-> _]|(k & e & _ & (Hk & Hr & _) & _)];
    [lia|by left|done|].
  apply list_elem_of_lookup_2 in Hk. by rewrite (Hl _ Hk) in Hr.
Qed.

Lemma dequeue_scan_best l i e :
  best_at now l i e → (dequeue_scan now 0 l (-1) (-1)).1 = Z.of_nat i.
Proof.
  intros (Hi & Hr & Hb).
  destruct (dequeue_scan_spec l 0 (-1) (-1)) as [[-> Hn]|(k & e' & -> & (Hk & Hr' & Hb') & _)];
    [lia|by left|..].
  - by destruct (Hn i e Hi Hr).
  - simpl. assert (k = i) as ->; [|lia].
    destruct (Hb k e' Hk Hr'), (Hb' i e Hi Hr). destruct (Nat.lt_trichotomy k i) as [|[|]]; lia.
Qed.

Lemma best_at_exists l e : e ∈ l → ready now e = true → ∃ i b, best_at now l i b.
Proof.
  intros He Hr. apply list_elem_of_lookup_1 in He as [j Hj].
  destruct (dequeue_scan_spec l 0 (-1) (-1)) as [[_ Hn]|(k & e' & _ & Hb & _)];
    [lia|by left|..|eauto].
  by destruct (Hn j e Hj Hr).
Qed.
End scan.

(** ** [Dequeue] *)

Section dequeue.
Context (clk : Clock) (queue : string) (m : MemoryStore).

Lemma Dequeue_paused :
  paused m queue = true → Dequeue clk queue m = (Err ErrQueuePaused, m).
Proof. unfold Dequeue, paused. by intros ->. Qed.

Lemma Dequeue_none :
  paused m queue = false →
  (∀ e, e ∈ entries_of m queue → ready (clk 0%nat) e = false) →
  Dequeue clk queue m = (Err ErrQueueEmpty, m).
Proof.
  unfold Dequeue, paused. intros -> Hn. case_bool_decide; [done|].
  by rewrite dequeue_scan_none.
Qed.

Lemma Dequeue_best i e :
  paused m queue = false → best_at (clk 0%nat) (entries_of m queue) i e →
  Dequeue clk queue m =
    (Ok (e_JobID e),
     set_ms_queues (<[queue := delete i (entries_of m queue)]> (ms_queues m)) m).
Proof.
  unfold Dequeue, paused. intros -> Hb. pose proof (proj1 Hb) as Hi.
  rewrite bool_decide_false by (intros H; apply lookup_lt_Some in Hi; lia).
  rewrite (dequeue_scan_best _ _ i e Hb).
  destruct (Z.eqb_spec (Z.of_nat i) (-1)); [lia|].
  by rewrite Nat2Z.id, Hi, slice_remove_delete.
Qed.

(** The outcomes of a call, for case analyses. *)
Lemma Dequeue_cases :
  (paused m queue = true ∧ Dequeue clk queue m = (Err ErrQueuePaused, m)) ∨
  (paused m queue = false ∧
   (∀ e, e ∈ entries_of m queue → ready (clk 0%nat) e = false) ∧
   Dequeue clk queue m = (Err ErrQueueEmpty, m)) ∨
  (∃ i e, paused m queue = false ∧ best_at (clk 0%nat) (entries_of m queue) i e ∧
     Dequeue clk queue m =
       (Ok (e_JobID e),
        set_ms_queues (<[queue := delete i (entries_of m queue)]> (ms_queues m)) m)).
Proof.
  destruct (paused m queue) eqn:Hp; [left; auto using Dequeue_paused|right].
  destruct (decide (Exists (λ e, ready (clk 0%nat) e = true) (entries_of m queue))) as [Hx|Hx].
  - right. apply Exists_exists in Hx as (e & He & Hr).
    destruct (best_at_exists _ _ e He Hr) as (i & b & Hb). exists i, b.
    auto using Dequeue_best.
  - left. assert (Hn : ∀ e, e ∈ entries_of m queue → ready (clk 0%nat) e = false).
    { intros e He. apply not_true_iff_false. intros Hr. apply Hx, Exists_exists. eauto. }
    auto using Dequeue_none.
Qed.
End dequeue.

Lemma entries_of_insert m queue queue' l :
  entries_of (set_ms_queues (<[queue := l]> (ms_queues m)) m) queue' =
    if decide (queue = queue') then l else entries_of m queue'.
Proof. unfold entries_of. simpl. rewrite lookup_insert. by case_decide. Qed.

Lemma entries_of_insert_eq m queue l :
  entries_of (set_ms_queues (<[queue := l]> (ms_queues m)) m) queue = l.
Proof. rewrite entries_of_insert. by rewrite decide_True. Qed.

#[export] Hint Rewrite entries_of_insert_eq : gorw.

(** ** Draining *)

Lemma best_at_pop now l i e :
  best_at now l i e →
  sort_slice higher_priority (filter (λ x, ready now x = true) l) =
    e :: sort_slice higher_priority (filter (λ x, ready now x = true) (delete i l)).
Proof.
  revert i. induction l as [|x l IH]; intros i (Hi & Hr & Hb); [done|].
  destruct i as [|i]; simplify_eq/=.
  - rewrite filter_cons_True by done. simpl.
    assert (Hle : ∀ y, y ∈ sort_slice higher_priority (filter (λ x, ready now x = true) l) →
                       e_Priority y ≤ e_Priority e).
    { intros y. rewrite sort_slice_Permutation, list_elem_of_filter.
      intros [Hy Hin]. apply list_elem_of_lookup_1 in Hin as [k Hk].
      by apply (Hb (S k)). }
    destruct (sort_slice _ _) as [|y s]; [done|]. simpl.
    specialize (Hle y ltac:(apply list_elem_of_here)).
    unfold higher_priority at 1. destruct (Z.ltb_spec (e_Priority e) (e_Priority y)); [lia|done].
  - assert (Hb' : best_at now l i e).
    { split_and!; [done..|]. intros k e' Hk Hr'.
      destruct (Hb (S k) e' Hk Hr'). split; [done|]. auto with lia. }
    rewrite !filter_cons. case_decide as Hx; [|by apply IH]. simpl.
    rewrite (IH i Hb'). simpl.
    destruct (Hb 0%nat x eq_refl Hx) as [_ Hlt].
    unfold higher_priority at 1. destruct (Z.ltb_spec (e_Priority x) (e_Priority e)); [done|lia].
Qed.

Lemma best_at_pop_later now l i e :
  best_at now l i e →
  filter (λ x, ready now x = false) (delete i l) = filter (λ x, ready now x = false) l.
Proof.
  intros (Hi & Hr & _). rewrite delete_take_drop.
  rewrite <- (take_drop_middle l i e Hi) at 3.
  rewrite !filter_app, filter_cons_False; [done|by rewrite Hr].
Qed.

(** ** Properties *)

(** C3. [Dequeue] implements its contract on every branch: a paused queue is
    refused and an unpaused queue without a due entry is reported empty, both
    with the store unchanged; otherwise the call claims the first entry of the
    highest priority among the due ones and removes exactly that entry. It
    never panics: the index the scan computes is in range. *)
Theorem Dequeue_claims_best clk queue m :
  match Dequeue clk queue m with
  | (Ok id, m') =>
      paused m queue = false ∧
      ∃ i e, best_at (clk 0%nat) (entries_of m queue) i e ∧ id = e_JobID e ∧
        m' = set_ms_queues (<[queue := delete i (entries_of m queue)]> (ms_queues m)) m
  | (Err ErrQueuePaused, m') => paused m queue = true ∧ m' = m
  | (Err ErrQueueEmpty, m') =>
      paused m queue = false ∧ m' = m ∧
      ∀ e, e ∈ entries_of m queue → ready (clk 0%nat) e = false
  | (Err _, _) | (Panic _, _) => False
  end.
Proof.
  destruct (Dequeue_cases clk queue m) as [[? ->]|[(? & ? & ->)|(i & e & ? & ? & ->)]];
    naive_solver.
Qed.

(** C4. Draining an unpaused queue at one instant delivers every due job once,
    highest priority first and in order of arrival within a priority (the
    stable sort of the due entries), and leaves exactly the entries that are
    not due, in their order. *)
Theorem drain_delivers_in_priority_order n now queue m :
  paused m queue = false → (length (entries_of m queue) ≤ n)%nat →
  (drain n now queue m).1 =
    e_JobID <$> sort_slice higher_priority
                  (filter (λ e, ready now e = true) (entries_of m queue)) ∧
  entries_of (drain n now queue m).2 queue =
    filter (λ e, ready now e = false) (entries_of m queue).
Proof.
  revert m. induction n as [|n IH]; intros m Hp Hlen; simpl.
  { destruct (entries_of m queue); [done|simpl in Hlen; lia]. }
  destruct (Dequeue_cases (λ _, now) queue m) as [[Hp' _]|[(_ & Hn & ->)|(i & e & _ & Hb & ->)]].
  - congruence.
  - simpl. split.
    + rewrite filter_none; [done|]. intros x Hx. by rewrite (Hn x Hx).
    + symmetry. by apply filter_all.
  - simpl. edestruct IH as [-> ->].
    + done.
    + autorewrite with gorw. rewrite (length_delete_lookup _ _ _ (proj1 Hb)) in Hlen. lia.
    + autorewrite with gorw. split; [|by apply (best_at_pop_later now _ i e)].
      by rewrite (best_at_pop now _ i e Hb).
Qed.

(** Four entries of the queue "q", the last of which is due later. *)
Definition demo_queue : MemoryStore :=
  set_ms_queues {[ "q" := [mkQueueEntry "low" 0 10; mkQueueEntry "high1" 10 20;
                           mkQueueEntry "high2" 10 5; mkQueueEntry "later" 99 1000] ]}
    (NewMemoryStore (λ _, 0)).

Lemma drain_delivers_in_priority_order_witness :
  (drain 4 100 "q" demo_queue).1 = ["high1"; "high2"; "low"] ∧
  entries_of (drain 4 100 "q" demo_queue).2 "q" = [mkQueueEntry "later" 99 1000].
Proof.
  apply (drain_delivers_in_priority_order 4 100 "q" demo_queue);
    [reflexivity|vm_compute; lia].
Defined.
