(* ===== verification/MemoryJobs.v ===== *)
(** * The job operations of the in-memory store: statuses and listing *)

From S2P Require Import Prelude Errors GoMonad Job MemoryStore.

(** ** Status updates *)

Definition terminal_status (status : string) : bool :=
  bool_decide (status = StatusSuccess) || bool_decide (status = StatusFailed) ||
  bool_decide (status = StatusCancelled) || bool_decide (status = StatusExpired).

(** A sequence of calls of [UpdateStatus] on one job, each with its readings of
    the clock. *)
Fixpoint update_statuses (us : list ((nat → Time) * string)) (id : string) :
    M MemoryStore unit :=
  match us with
  | [] => mret tt
  | u :: us => UpdateStatus u.1 id u.2 ;; update_statuses us id
  end.

(** The reading that stamps the first update to a status that satisfies [P]. *)
Definition first_stamp (P : string → bool) (us : list ((nat → Time) * string)) : option Time :=
  (λ u, u.2.1 1%nat) <$> list_find (λ u, P u.2 = true) us.

Lemma first_stamp_cons P u us :
  first_stamp P (u :: us) = if P u.2 then Some (u.1 1%nat) else first_stamp P us.
Proof.
  unfold first_stamp. simpl. destruct (P u.2) eqn:HP.
  - by rewrite decide_True.
  - rewrite decide_False by congruence. by destruct (list_find _ us) as [[i x]|].
Qed.

Lemma IsTerminal_terminal_status j : IsTerminal j = terminal_status (j_Status j).
Proof. done. Qed.

Section set_status.
Context (clk : Clock) (status : string) (j : Job).

Lemma set_status_Status : j_Status (set_status clk status j) = status.
Proof. unfold set_status. by repeat case_match. Qed.

Lemma set_status_same_job : same_job j (set_status clk status j).
Proof. unfold set_status. repeat case_match; unfold same_job; simpl; tauto. Qed.

Lemma set_status_StartedAt :
  j_StartedAt (set_status clk status j) =
    match j_StartedAt j with
    | Some t => Some t
    | None => if bool_decide (status = StatusRunning) then Some (clk 1%nat) else None
    end.
Proof. unfold set_status. by destruct (j_StartedAt j) eqn:?; repeat case_match; go_simpl. Qed.

Lemma set_status_CompletedAt :
  j_CompletedAt (set_status clk status j) =
    match j_CompletedAt j with
    | Some t => Some t
    | None => if terminal_status status then Some (clk 1%nat) else None
    end.
Proof.
  unfold set_status. rewrite IsTerminal_terminal_status.
  assert (Hs : j_Status (if bool_decide (status = StatusRunning) && bool_decide
      (j_StartedAt (set_j_UpdatedAt (clk 0%nat) (set_j_Status status j)) = None)
    then set_j_StartedAt (Some (clk 1%nat)) (set_j_UpdatedAt (clk 0%nat) (set_j_Status status j))
    else set_j_UpdatedAt (clk 0%nat) (set_j_Status status j)) = status) by (by case_match).
  rewrite Hs. by destruct (j_CompletedAt j) eqn:?; repeat case_match; go_simpl.
Qed.
End set_status.

Lemma update_job_Some m id f j :
  ms_jobs m !! id = Some j →
  update_job id f m = (Ok tt, set_ms_jobs (<[id := f j]> (ms_jobs m)) m).
Proof. unfold update_job. by intros ->. Qed.

(** What a sequence of status updates makes of a job with the given
    timestamps: an update never overwrites a timestamp that is set. *)
Definition or_stamp (old new : option Time) : option Time :=
  match old with Some t => Some t | None => new end.

(** ** Listing *)

Lemma created_later_asym a b : created_later a b = true → created_later b a = false.
Proof. unfold created_later, After. lia. Qed.

Lemma created_later_neg_trans a b c :
  created_later a b = false → created_later b c = false → created_later a c = false.
Proof. unfold created_later, After. lia. Qed.

#[export] Hint Resolve created_later_asym created_later_neg_trans : gotask.

(** The list [ListJobs] paginates. *)
Definition listing `{MapRange} (queue status : string) (m : MemoryStore) : list Job :=
  sort_slice created_later
    (filter (λ j, list_match queue status j = true) (range_values (ms_jobs m))).

(** The jobs of a result, none for an error or a panic. *)
Definition jobs_of {St} (r : res (list Job) * St) : list Job :=
  match r.1 with Ok l => l | _ => [] end.

Lemma list_match_iff queue status j :
  list_match queue status j = true ↔
  (queue = "" ∨ j_Queue j = queue) ∧ (status = "" ∨ j_Status j = status).
Proof. unfold list_match. by rewrite andb_true_iff, !orb_true_iff, !bool_decide_eq_true. Qed.

Section listing.
Context `{R : MapRange}.

Lemma elem_of_listing queue status m j :
  j ∈ listing queue status m ↔
  (∃ id, ms_jobs m !! id = Some j) ∧
  (queue = "" ∨ j_Queue j = queue) ∧ (status = "" ∨ j_Status j = status).
Proof.
  unfold listing. rewrite sort_slice_Permutation, list_elem_of_filter, list_match_iff.
  rewrite elem_of_range_values. tauto.
Qed.

Lemma listing_sorted queue status m : sorted_by created_later (listing queue status m).
Proof. apply sort_slice_sorted; eauto with gotask. Qed.

Lemma ListJobs_pages queue status limit offset m :
  0 ≤ offset → 0 < limit →
  ListJobs queue status limit offset m =
    (Ok (take (Z.to_nat limit) (drop (Z.to_nat offset) (listing queue status m))), m).
Proof.
  intros Ho Hl. unfold ListJobs, paginate. fold (listing queue status m).
  set (l := listing queue status m).
  destruct (Z.leb_spec (Z.of_nat (length l)) offset).
  { rewrite (drop_ge l) by lia. by rewrite take_nil. }
  destruct (Z.ltb_spec offset 0); [lia|].
  destruct ((0 <? limit) && _) eqn:E; [done|].
  rewrite take_ge; [done|]. lia.
Qed.
End listing.

(** With distinct creation times the listing does not depend on the order in
    which the runtime iterates over the map. *)
Lemma listing_order_irrelevant (R1 R2 : MapRange) queue status m :
  NoDup (j_CreatedAt <$> @listing R1 queue status m) →
  @listing R1 queue status m = @listing R2 queue status m.
Proof.
  intros Hnd. apply (sorted_by_unique created_later).
  - intros x y Hx Hy Hxy Hyx. unfold created_later, After in *.
    apply list_elem_of_lookup in Hx as [i Hi], Hy as [k Hk].
    assert (i = k) as <-; [|congruence].
    eapply (NoDup_lookup _ i k (j_CreatedAt x) Hnd).
    + by rewrite list_lookup_fmap, Hi.
    + rewrite list_lookup_fmap, Hk. simpl. f_equal. lia.
  - apply listing_sorted.
  - apply listing_sorted.
  - unfold listing. rewrite !sort_slice_Permutation.
    by rewrite (range_values_perm R1 R2 (ms_jobs m)).
Qed.

Lemma take_pages {A} (l : list A) (s n : nat) :
  mjoin ((λ k, take s (drop (k * s) l)) <$> seq 0 n) = take (n * s) l.
Proof.
  induction n as [|n IH]; [done|].
  rewrite seq_S, fmap_app, join_app, IH. simpl. rewrite app_nil_r.
  rewrite (Nat.add_comm s). by rewrite take_take_drop.
Qed.

(** ** Properties *)

(** Over any sequence of [UpdateStatus] calls on a stored job the status is
    the last one written, [StartedAt] is stamped by the first update to RUNNING
    and [CompletedAt] by the first update to a terminal status, neither is ever
    overwritten, the identity of the job is kept and no other part of the store
    changes; the calls succeed, whatever the order of the statuses. *)
Theorem update_statuses_lifecycle us id m j :
  ms_jobs m !! id = Some j →
  ∃ j', update_statuses us id m = (Ok tt, set_ms_jobs (<[id := j']> (ms_jobs m)) m) ∧
    same_job j j' ∧
    j_Status j' = default (j_Status j) (snd <$> last us) ∧
    j_StartedAt j' =
      or_stamp (j_StartedAt j) (first_stamp (λ s, bool_decide (s = StatusRunning)) us) ∧
    j_CompletedAt j' = or_stamp (j_CompletedAt j) (first_stamp terminal_status us).
Proof.
  revert m j. induction us as [|u us IH]; intros m j Hj; simpl.
  - exists j. unfold mret, M_ret. rewrite insert_id by done. split_and!.
    + by destruct m.
    + reflexivity.
    + done.
    + by destruct (j_StartedAt j).
    + by destruct (j_CompletedAt j).
  - unfold UpdateStatus. erewrite bind_Ok by (by apply update_job_Some).
    edestruct IH as (j' & -> & Hsame & Hst & Hs & Hc); [apply lookup_insert_eq|].
    exists j'. split_and!.
    + f_equal. destruct m. unfold set_ms_jobs. simpl. by rewrite insert_insert_eq.
    + etransitivity; [apply (set_status_same_job u.1 u.2)|done].
    + rewrite Hst, set_status_Status. destruct us as [|p us]; [done|].
      rewrite last_cons_cons. by destruct (last (p :: us)) eqn:E; [|apply last_None in E].
    + rewrite Hs, set_status_StartedAt, first_stamp_cons. by destruct (j_StartedAt j), bool_decide.
    + rewrite Hc, set_status_CompletedAt, first_stamp_cons.
      by destruct (j_CompletedAt j), terminal_status.
Qed.

Definition demo_job (id queue : string) (created : Time) : Job := {|
  j_ID := id; j_Type := "echo"; j_Payload := "{}"; j_Priority := PriorityNormal;
  j_Status := StatusPending; j_MaxRetries := 3; j_CurrentRetry := 0; j_RetryCount := 0;
  j_Timeout := 0; j_TimeoutSeconds := 300; j_ScheduledAt := None; j_CreatedAt := created;
  j_UpdatedAt := created; j_StartedAt := None; j_CompletedAt := None; j_Error := "";
  j_Result := ""; j_Metadata := ∅; j_Queue := queue; j_Progress := 0; j_WorkerID := "" |}.

(** Five jobs of the queue "q". *)
Definition demo_jobs : MemoryStore :=
  set_ms_jobs
    (list_to_map ((λ n, (pretty n, demo_job (pretty n) "q" (Z.of_nat n))) <$> seq 1 5))
    (NewMemoryStore (λ _, 0)).

Lemma update_statuses_lifecycle_witness :
  ∃ j', update_statuses
          [(λ i, 10 + Z.of_nat i, StatusRunning); (λ i, 20 + Z.of_nat i, StatusFailed);
           (λ i, 30 + Z.of_nat i, StatusRunning); (λ i, 40 + Z.of_nat i, StatusSuccess)]
          "1" demo_jobs = (Ok tt, set_ms_jobs (<["1" := j']> (ms_jobs demo_jobs)) demo_jobs) ∧
    same_job (demo_job "1" "q" 1) j' ∧ j_Status j' = StatusSuccess ∧
    j_StartedAt j' = Some 11 ∧ j_CompletedAt j' = Some 21.
Proof.
  apply (update_statuses_lifecycle
          [(λ i, 10 + Z.of_nat i, StatusRunning); (λ i, 20 + Z.of_nat i, StatusFailed);
           (λ i, 30 + Z.of_nat i, StatusRunning); (λ i, 40 + Z.of_nat i, StatusSuccess)]).
  vm_compute. reflexivity.
Defined.

(** Pages of [ListJobs] tile the listing: when the creation times of the
    matching jobs are distinct, the pages of a positive size, fetched with any
    iteration order of the map each, concatenate to the list of exactly the
    matching jobs, newest first, with none lost or repeated. *)
Theorem ListJobs_pages_tile (R : nat → MapRange) queue status (limit : nat) n m :
  NoDup (j_CreatedAt <$> @listing (R 0%nat) queue status m) → (0 < limit)%nat →
  (length (@listing (R 0%nat) queue status m) ≤ n * limit)%nat →
  let pages := mjoin ((λ k, jobs_of (@ListJobs (R k) queue status
                                       (Z.of_nat limit) (Z.of_nat (k * limit)) m)) <$> seq 0 n) in
  sorted_by created_later pages ∧ NoDup pages ∧
  ∀ j, j ∈ pages ↔ (∃ id, ms_jobs m !! id = Some j) ∧
         (queue = "" ∨ j_Queue j = queue) ∧ (status = "" ∨ j_Status j = status).
Proof.
  intros Hnd Hlim Hlen pages.
  assert (Hp : pages = @listing (R 0%nat) queue status m).
  { rewrite <- (take_ge _ _ Hlen), <- take_pages. unfold pages. f_equal.
    apply list_fmap_ext. intros _ k _. rewrite ListJobs_pages by lia. simpl.
    by rewrite !Nat2Z.id, (listing_order_irrelevant (R 0%nat) (R k)). }
  rewrite Hp. split_and!.
  - apply listing_sorted.
  - by eapply NoDup_fmap_1.
  - intros j. apply elem_of_listing.
Qed.

Lemma ListJobs_pages_tile_witness :
  let R k := if Nat.even k then map_range_default else map_range_reverse in
  let pages := mjoin ((λ k, jobs_of (@ListJobs (R k) "q" "" 2 (Z.of_nat (k * 2)) demo_jobs))
                 <$> seq 0 3) in
  sorted_by created_later pages ∧ NoDup pages ∧
  ∀ j, j ∈ pages ↔ (∃ id, ms_jobs demo_jobs !! id = Some j) ∧
         ("q" = "" ∨ j_Queue j = "q") ∧ ("" = "" ∨ j_Status j = "").
Proof.
  intros R. apply (ListJobs_pages_tile R "q" "" 2 3 demo_jobs).
  - apply (bool_decide_unpack _). vm_compute. exact I.
  - lia.
  - vm_compute. lia.
Defined.

(** A negative offset makes [ListJobs] panic with the slice out of range on
    every store, whatever the limit: neither the method nor its callers check
    it. *)
Theorem ListJobs_negative_offset_panics `{MapRange} queue status limit offset m :
  offset < 0 → ∃ why, ListJobs queue status limit offset m = (Panic why, m).
Proof.
  intros Ho. unfold ListJobs, paginate.
  destruct (Z.leb_spec (Z.of_nat (length
    (sort_slice created_later (filter (λ j, list_match queue status j = true)
       (range_values (ms_jobs m)))))) offset); [lia|].
  destruct (Z.ltb_spec offset 0); [eauto|lia].
Qed.

Lemma ListJobs_negative_offset_panics_witness :
  ∃ why, @ListJobs map_range_default "" "" 50 (-1) demo_jobs = (Panic why, demo_jobs).
Proof. apply (@ListJobs_negative_offset_panics map_range_default). lia. Defined.
