(* ===== verification/MemoryMetrics.v ===== *)
(** * The metrics operations of the in-memory store

    The statistics of a job type after any sequence of completions, and the
    counts [GetQueueStats] and [GetQueueStatsAll] derive from the stored jobs. *)

From S2P Require Import Prelude Errors GoMonad Job MemoryStore.

(** ** Durations of a job type *)

(** One call of [RecordJobCompleted]. *)
Record completion := mkCompletion {
  co_queue : string;
  co_type : string;
  co_duration : Duration;
}.

Definition record_completions (cs : list completion) (m : MemoryStore) : MemoryStore :=
  foldl (λ m c, (RecordJobCompleted (co_queue c) (co_type c) (co_duration c) m).2) m cs.

(** The durations recorded for a type, in order. *)
Definition durations_of (jobType : string) (cs : list completion) : list Duration :=
  co_duration <$> filter (λ c, co_type c = jobType) cs.

Definition Zsum : list Z → Z := foldr Z.add 0.
Definition Zminimum (d : Z) : list Z → Z := foldr Z.min d.
Definition Zmaximum (d : Z) : list Z → Z := foldr Z.max d.

Lemma Zsum_app l1 l2 : Zsum (l1 ++ l2) = Zsum l1 + Zsum l2.
Proof. unfold Zsum. induction l1 as [|x l1 IH]; simpl; lia. Qed.

Lemma Zminimum_snoc d l x : Zminimum d (l ++ [x]) = Z.min (Zminimum d l) x.
Proof. unfold Zminimum. induction l as [|y l IH]; simpl; lia. Qed.

Lemma Zmaximum_snoc d l x : Zmaximum d (l ++ [x]) = Z.max (Zmaximum d l) x.
Proof. unfold Zmaximum. induction l as [|y l IH]; simpl; lia. Qed.

Lemma Zsum_bounds d l :
  Z.of_nat (length l) * Zminimum d l ≤ Zsum l ≤ Z.of_nat (length l) * Zmaximum d l.
Proof.
  unfold Zsum, Zminimum, Zmaximum. induction l as [|x l IH]; [simpl; lia|].
  rewrite length_cons. simpl foldr. nia.
Qed.

Lemma Zsum_nonneg l : Forall (Z.le 0) l → 0 ≤ Zsum l.
Proof. unfold Zsum. induction 1; simpl; lia. Qed.

Lemma durations_of_snoc t cs c :
  durations_of t (cs ++ [c]) =
    durations_of t cs ++ (if bool_decide (co_type c = t) then [co_duration c] else []).
Proof.
  unfold durations_of. rewrite filter_app, fmap_app. f_equal.
  rewrite filter_cons. case_decide; by case_bool_decide.
Qed.

(** What the statistics of a type hold after the durations [ds]. *)
Definition stats_of (ds : list Duration) : option jobTypeMetrics :=
  match ds with
  | [] => None
  | d :: _ => Some {| jt_Count := Z.of_nat (length ds); jt_TotalDuration := Zsum ds;
                      jt_MinDuration := Zminimum d ds; jt_MaxDuration := Zmaximum d ds |}
  end.

Lemma record_duration_stats_of ds d :
  Z.of_nat (length ds) < max_int64 → int64 (Zsum (ds ++ [d])) →
  Some (record_duration d (stats_of ds)) = stats_of (ds ++ [d]).
Proof.
  unfold max_int64, int64. intros Hl Hs. rewrite Zsum_app in Hs.
  unfold record_duration. destruct ds as [|d0 ds].
  - simpl in *. rewrite !wrap64_id by (unfold int64; lia).
    unfold Zminimum, Zmaximum. simpl.
    destruct (Z.ltb_spec d d); [lia|]. do 2 f_equal; lia.
  - assert (Hz : Zsum ((d0 :: ds) ++ [d]) = Zsum (d0 :: ds) + d).
    { rewrite Zsum_app. unfold Zsum. simpl. lia. }
    pose proof (Zminimum_snoc d0 (d0 :: ds) d) as Hmin.
    pose proof (Zmaximum_snoc d0 (d0 :: ds) d) as Hmax.
    change (stats_of ((d0 :: ds) ++ [d])) with (Some {|
      jt_Count := Z.of_nat (length ((d0 :: ds) ++ [d]));
      jt_TotalDuration := Zsum ((d0 :: ds) ++ [d]);
      jt_MinDuration := Zminimum d0 ((d0 :: ds) ++ [d]);
      jt_MaxDuration := Zmaximum d0 ((d0 :: ds) ++ [d]) |}).
    assert (Zsum [d] = d) as Hd by (unfold Zsum; simpl; lia). rewrite Hd in Hs.
    rewrite Hz, Hmin, Hmax, length_app. clear Hz Hmin Hmax Hd.
    unfold stats_of, Zsum, Zminimum, Zmaximum in *. simpl in *.
    rewrite !wrap64_id by (unfold int64; lia).
    f_equal. f_equal; [lia| |].
    + destruct (Z.ltb_spec d (Z.min d0 (foldr Z.min d0 ds))); lia.
    + destruct (Z.ltb_spec (Z.max d0 (foldr Z.max d0 ds)) d); lia.
Qed.

Lemma alter_queue_stats_types queue f md :
  md_jobTypeStats (alter_queue_stats queue f md) = md_jobTypeStats md.
Proof. unfold alter_queue_stats. by case_match. Qed.

Lemma RecordJobCompleted_types q t d m t' :
  md_jobTypeStats (ms_metrics (RecordJobCompleted q t d m).2) !! t' =
    if decide (t = t') then Some (record_duration d (md_jobTypeStats (ms_metrics m) !! t'))
    else md_jobTypeStats (ms_metrics m) !! t'.
Proof.
  unfold RecordJobCompleted. simpl. rewrite alter_queue_stats_types. simpl.
  rewrite lookup_insert. by case_decide; subst.
Qed.

(** The sums of all the prefixes of a list of durations fit. *)
Definition sums_fit (ds : list Duration) : Prop :=
  Forall (Z.le 0) ds ∧ Zsum ds ≤ max_int64 ∧ Z.of_nat (length ds) ≤ max_int64.

Lemma sums_fit_app ds1 ds2 : sums_fit (ds1 ++ ds2) → sums_fit ds1.
Proof.
  unfold sums_fit. rewrite Forall_app, Zsum_app, length_app. intros [[H1 H2] [Hs Hl]].
  pose proof (Zsum_nonneg _ H2). split; [done|lia].
Qed.

Lemma sums_fit_int64 ds : sums_fit ds → int64 (Zsum ds).
Proof. intros [H [Hs _]]. pose proof (Zsum_nonneg _ H). unfold int64, max_int64 in *. lia. Qed.

Lemma record_completions_types cs t m :
  md_jobTypeStats (ms_metrics m) !! t = None → sums_fit (durations_of t cs) →
  md_jobTypeStats (ms_metrics (record_completions cs m)) !! t = stats_of (durations_of t cs).
Proof.
  intros Hm. unfold record_completions.
  induction cs as [|c cs IH] using rev_ind; intros Hfit; [done|].
  rewrite foldl_snoc, RecordJobCompleted_types. rewrite durations_of_snoc in *.
  case_decide as Ht; case_bool_decide; try done.
  - rewrite IH by (by eapply sums_fit_app).
    apply record_duration_stats_of; [|by apply sums_fit_int64].
    destruct Hfit as (_ & _ & Hl). rewrite length_app in Hl. simpl in Hl. lia.
  - rewrite app_nil_r in *. by apply IH.
Qed.

(** ** Counting jobs *)

(** The jobs of a queue in a status. *)
Definition in_status (queue status : string) (j : Job) : bool :=
  bool_decide (j_Queue j = queue) && bool_decide (j_Status j = status).

Definition count (queue status : string) (l : list Job) : Z :=
  Z.of_nat (length (filter (λ j, in_status queue status j = true) l)).

Lemma count_snoc queue status l j :
  count queue status (l ++ [j]) =
    count queue status l + (if in_status queue status j then 1 else 0).
Proof.
  unfold count. rewrite filter_app, length_app, filter_cons. case_decide as H.
  - rewrite H. simpl. lia.
  - apply not_true_iff_false in H. rewrite H. simpl. lia.
Qed.

Lemma count_le queue status l : 0 ≤ count queue status l ≤ Z.of_nat (length l).
Proof. unfold count. pose proof (length_filter (λ j, in_status queue status j = true) l). lia. Qed.

#[export] Instance count_Permutation queue status :
  Proper (Permutation ==> eq) (count queue status).
Proof. intros l1 l2 Hl. unfold count. by rewrite Hl. Qed.

(** The four counters of the loop. *)
Lemma count_jobs_spec queue l :
  Z.of_nat (length l) ≤ max_int64 →
  count_jobs queue (mkQueueStats queue 0 0 0 0 0 0 None) l =
    mkQueueStats queue (count queue StatusPending l) (count queue StatusRunning l)
      (count queue StatusSuccess l) (count queue StatusFailed l) 0 0 None.
Proof.
  unfold count_jobs. induction l as [|j l IH] using rev_ind; intros Hl; [done|].
  rewrite foldl_snoc, length_app in *. simpl in Hl. rewrite IH by lia.
  rewrite !count_snoc. unfold in_status.
  pose proof (count_le queue StatusPending l). pose proof (count_le queue StatusRunning l).
  pose proof (count_le queue StatusSuccess l). pose proof (count_le queue StatusFailed l).
  unfold max_int64 in Hl.
  case_bool_decide as Hq; simpl; [|by rewrite !Z.add_0_r].
  unfold count_status.
  repeat case_bool_decide; try (unfold StatusPending, StatusRunning, StatusSuccess, StatusFailed in *;
    congruence); unfold set_qs_PendingCount, set_qs_RunningCount, set_qs_SuccessCount,
    set_qs_FailedCount; simpl; rewrite ?wrap64_id by (unfold int64; lia); by rewrite !Z.add_0_r.
Qed.

(** The number of stored jobs of a queue in a status. *)
Definition stored_count (m : MemoryStore) (queue status : string) : Z :=
  count queue status (map_to_list (ms_jobs m)).*2.

(** The counter kept by the metrics, 0 for a queue without one. *)
Definition metric (m : MemoryStore) (queue : string) (f : QueueStats → Z) : Z :=
  from_option f 0 (md_queueStats (ms_metrics m) !! queue).

Lemma queue_stats_spec `{MapRange} m queue :
  Z.of_nat (size (ms_jobs m)) ≤ max_int64 →
  let s := stored_count m queue in
  queue_stats m queue =
    mkQueueStats queue (s StatusPending) (s StatusRunning)
      (if s StatusSuccess =? 0 then metric m queue qs_SuccessCount else s StatusSuccess)
      (if s StatusFailed =? 0 then metric m queue qs_FailedCount else s StatusFailed) 0 0 None.
Proof.
  intros Hsz s. unfold queue_stats.
  assert (Hp : range_values (ms_jobs m) ≡ₚ (map_to_list (ms_jobs m)).*2).
  { unfold range_values. by rewrite map_range_perm. }
  rewrite count_jobs_spec by (rewrite Hp; by rewrite length_fmap, length_map_to_list).
  rewrite !(count_Permutation _ _ _ _ Hp). fold (stored_count m queue). unfold metric. subst s.
  unfold stored_count. set (l := (map_to_list (ms_jobs m)).*2).
  generalize (count queue StatusPending l), (count queue StatusRunning l),
    (count queue StatusSuccess l), (count queue StatusFailed l). intros p r su f.
  destruct (md_queueStats (ms_metrics m) !! queue) as [st|]; simpl;
    destruct (Z.eqb_spec su 0); simpl; destruct (Z.eqb_spec f 0); simpl; by subst.
Qed.

(** The queues that occur in a list of jobs. *)
Lemma queues_seen (l : list Job) (acc : gmap string bool) q :
  is_Some (foldl (λ acc j, <[j_Queue j := true]> acc) acc l !! q) ↔
  is_Some (acc !! q) ∨ ∃ j, j ∈ l ∧ j_Queue j = q.
Proof.
  revert acc. induction l as [|j l IH]; intros acc; simpl.
  { split; [by left|]. intros [?|(j & Hj & _)]; [done|]. by apply elem_of_nil in Hj. }
  rewrite IH, lookup_insert_is_Some'. setoid_rewrite elem_of_cons. naive_solver.
Qed.

Lemma stats_table (f : string → QueueStats) (l : list (string * bool))
    (acc : gmap string QueueStats) q :
  foldl (λ acc q, <[q.1 := f q.1]> acc) acc l !! q =
    if decide (q ∈ l.*1) then Some (f q) else acc !! q.
Proof.
  revert acc. induction l as [|[q' b] l IH]; intros acc; simpl; [done|].
  rewrite IH, lookup_insert. repeat case_decide; set_solver.
Qed.

(** ** Properties *)

(** After any sequence of completions, over several queues and job types,
    [GetJobTypeStats] returns for a type that had no statistics the number of
    its completions and the truncated mean of its durations, and the table
    holds their sum and extremes, as long as the durations are not negative and
    their sum fits in 64 bits; the mean lies between the extremes. *)
Theorem job_type_stats_exact cs t m :
  md_jobTypeStats (ms_metrics m) !! t = None → sums_fit (durations_of t cs) →
  let m' := record_completions cs m in
  let ds := durations_of t cs in
  let n := Z.of_nat (length ds) in
  md_jobTypeStats (ms_metrics m') !! t = stats_of ds ∧
  GetJobTypeStats t m' = (Ok (n, Z.quot (Zsum ds) n), m') ∧
  ∀ st, stats_of ds = Some st →
    jt_MinDuration st ≤ Z.quot (Zsum ds) n ≤ jt_MaxDuration st.
Proof.
  intros Hm Hfit m' ds n. pose proof (record_completions_types cs t m Hm Hfit) as Hst.
  fold m' ds in Hst. split; [done|]. split.
  - unfold GetJobTypeStats. rewrite Hst. subst n. destruct ds as [|d ds']; [done|]. simpl.
    by destruct (Z.ltb_spec 0 (Z.of_nat (S (length ds')))); [|lia].
  - pose proof (Zsum_nonneg _ (proj1 Hfit)) as Hn. fold ds in Hn.
    assert (Hlen : n = Z.of_nat (length ds)) by done. clearbody n ds.
    destruct ds as [|d ds]; [done|]. intros st [= <-].
    pose proof (Zsum_bounds d (d :: ds)) as Hb. rewrite <- Hlen in Hb. rewrite length_cons in Hlen.
    change (Zminimum d (d :: ds)) with (Z.min d (Zminimum d ds)) in Hb.
    change (Zmaximum d (d :: ds)) with (Z.max d (Zmaximum d ds)) in Hb.
    cbn [jt_MinDuration jt_MaxDuration]. rewrite Z.quot_div_nonneg by lia.
    split; [apply Z.div_le_lower_bound|apply Z.div_le_upper_bound]; lia.
Qed.

Lemma job_type_stats_exact_witness :
  let cs := [mkCompletion "q" "echo" 30; mkCompletion "q" "sleep" 1000;
             mkCompletion "r" "echo" 11] in
  let m' := record_completions cs (NewMemoryStore (λ _, 0)) in
  md_jobTypeStats (ms_metrics m') !! "echo" = Some (mkJobTypeMetrics 2 41 11 30) ∧
  GetJobTypeStats "echo" m' = (Ok (2, 20), m') ∧
  ∀ st, stats_of [30; 11] = Some st → jt_MinDuration st ≤ 20 ≤ jt_MaxDuration st.
Proof.
  apply (job_type_stats_exact [mkCompletion "q" "echo" 30; mkCompletion "q" "sleep" 1000;
             mkCompletion "r" "echo" 11] "echo" (NewMemoryStore (λ _, 0))).
  - reflexivity.
  - split; [|vm_compute; split; discriminate].
    change (durations_of _ _) with [30; 11]. repeat constructor; lia.
Defined.

(** [GetQueueStats] counts the stored jobs of the queue by status and takes
    the counter of the metrics for a success or failure count of zero, whatever
    the iteration order; [GetQueueStatsAll] returns the same statistics for
    exactly the queues that have a stored job. *)
Theorem queue_stats_all_consistent (R : MapRange) m q :
  Z.of_nat (size (ms_jobs m)) ≤ max_int64 →
  let s := stored_count m q in
  let stats := mkQueueStats q (s StatusPending) (s StatusRunning)
    (if s StatusSuccess =? 0 then metric m q qs_SuccessCount else s StatusSuccess)
    (if s StatusFailed =? 0 then metric m q qs_FailedCount else s StatusFailed) 0 0 None in
  GetQueueStats q m = (Ok stats, m) ∧
  ∃ all, GetQueueStatsAll m = (Ok all, m) ∧
    ((∃ id j, ms_jobs m !! id = Some j ∧ j_Queue j = q) → all !! q = Some stats) ∧
    ((∀ id j, ms_jobs m !! id = Some j → j_Queue j ≠ q) → all !! q = None).
Proof.
  intros Hsz s stats. pose proof (queue_stats_spec m q Hsz) as Hq. fold s stats in Hq.
  split; [unfold GetQueueStats; by rewrite Hq|].
  eexists. split; [reflexivity|]. rewrite stats_table, Hq.
  set (qs := foldl _ ∅ (range_values (ms_jobs m))).
  assert (Hin : q ∈ (map_range qs).*1 ↔ ∃ id j, ms_jobs m !! id = Some j ∧ j_Queue j = q).
  { rewrite list_elem_of_fmap. transitivity (is_Some (qs !! q)).
    - split.
      + intros ([q' b] & -> & Hb%elem_of_map_range). by exists b.
      + intros [b Hb%elem_of_map_range]. by exists (q, b).
    - unfold qs. rewrite queues_seen, lookup_empty. setoid_rewrite elem_of_range_values.
      split; [intros [[? ?]|(j & [id Hid] & Hj)]|intros (id & j & ? & ?)]; naive_solver. }
  split; intros Hj.
  - by rewrite decide_True by (by apply Hin).
  - rewrite decide_False; [done|]. rewrite Hin. naive_solver.
Qed.

Lemma queue_stats_all_consistent_witness :
  let j := set_j_Queue "q" (set_j_Status StatusRunning (mkJob "1" "echo" "" 5 "" 3 0 0 0 0 None 0 0
             None None "" "" ∅ "" 0 "")) in
  let m := set_ms_jobs {[ "1" := j ]} (NewMemoryStore (λ _, 0)) in
  let stats := mkQueueStats "q" 0 1 0 0 0 0 None in
  @GetQueueStats map_range_default "q" m = (Ok stats, m) ∧
  ∃ all, @GetQueueStatsAll map_range_default m = (Ok all, m) ∧
    ((∃ id j, ms_jobs m !! id = Some j ∧ j_Queue j = "q") → all !! "q" = Some stats) ∧
    ((∀ id j, ms_jobs m !! id = Some j → j_Queue j ≠ "q") → all !! "q" = None).
Proof.
  intros j m. apply (queue_stats_all_consistent map_range_default m "q").
  vm_compute. discriminate.
Defined.
