(* ===== verification/MemoryInv.v ===== *)
(** * The in-memory store as a transition system

    The methods that change the store as the steps of a transition system, with
    two invariants by induction on reachability: well-formedness, and the
    absence of queue entries without a job. *)

From S2P Require Import Prelude Errors GoMonad Job MemoryStore MemoryQueue MemoryJobs.

(** A call of a method that changes the store, with its readings of the clock. *)
Inductive mem_op : Type :=
  | OpCreateJob (j : Job)
  | OpUpdateJob (j : Job)
  | OpDeleteJob (id : string)
  | OpUpdateStatus (clk : Clock) (id status : string)
  | OpUpdateProgress (clk : Clock) (id : string) (progress : Z)
  | OpSetResult (clk : Clock) (id result : string)
  | OpSetError (clk : Clock) (id errMsg : string)
  | OpEnqueue (clk : Clock) (queue jobID : string) (priority : Z) (delay : Duration)
  | OpRequeue (clk : Clock) (queue jobID : string) (priority : Z) (delay : Duration)
  | OpDequeue (clk : Clock) (queue : string)
  | OpRemove (queue jobID : string)
  | OpPauseQueue (queue : string)
  | OpResumeQueue (queue : string)
  | OpRegisterWorker (w : Worker)
  | OpUnregisterWorker (id : string)
  | OpUpdateHeartbeat (clk : Clock) (id : string)
  | OpUpdateWorkerStatus (id status : string)
  | OpSetCurrentJob (workerID jobID : string)
  | OpIncrementProcessed (workerID : string)
  | OpIncrementFailed (workerID : string)
  | OpRecordJobCreated (queue jobType : string)
  | OpRecordJobCompleted (queue jobType : string) (duration : Duration)
  | OpRecordJobFailed (queue jobType : string)
  | OpRecordJobRetried (queue jobType : string)
  | OpSaveQueueConfig (config : QueueConfig)
  | OpDeleteQueueConfig (queue : string).

(** The state after a call, whatever it returns. *)
Definition exec (o : mem_op) (m : MemoryStore) : MemoryStore :=
  match o with
  | OpCreateJob j => (CreateJob j m).2
  | OpUpdateJob j => (UpdateJob j m).2
  | OpDeleteJob id => (DeleteJob id m).2
  | OpUpdateStatus clk id status => (UpdateStatus clk id status m).2
  | OpUpdateProgress clk id progress => (UpdateProgress clk id progress m).2
  | OpSetResult clk id result => (SetResult clk id result m).2
  | OpSetError clk id errMsg => (SetError clk id errMsg m).2
  | OpEnqueue clk queue jobID priority delay => (Enqueue clk queue jobID priority delay m).2
  | OpRequeue clk queue jobID priority delay => (Requeue clk queue jobID priority delay m).2
  | OpDequeue clk queue => (Dequeue clk queue m).2
  | OpRemove queue jobID => (Remove queue jobID m).2
  | OpPauseQueue queue => (PauseQueue queue m).2
  | OpResumeQueue queue => (ResumeQueue queue m).2
  | OpRegisterWorker w => (RegisterWorker w m).2
  | OpUnregisterWorker id => (UnregisterWorker id m).2
  | OpUpdateHeartbeat clk id => (UpdateHeartbeat clk id m).2
  | OpUpdateWorkerStatus id status => (UpdateWorkerStatus id status m).2
  | OpSetCurrentJob workerID jobID => (SetCurrentJob workerID jobID m).2
  | OpIncrementProcessed workerID => (IncrementProcessed workerID m).2
  | OpIncrementFailed workerID => (IncrementFailed workerID m).2
  | OpRecordJobCreated queue jobType => (RecordJobCreated queue jobType m).2
  | OpRecordJobCompleted queue jobType d => (RecordJobCompleted queue jobType d m).2
  | OpRecordJobFailed queue jobType => (RecordJobFailed queue jobType m).2
  | OpRecordJobRetried queue jobType => (RecordJobRetried queue jobType m).2
  | OpSaveQueueConfig config => (SaveQueueConfig config m).2
  | OpDeleteQueueConfig queue => (DeleteQueueConfig queue m).2
  end.

(** The states reached from a new store by calls that satisfy [P]. *)
Inductive reachable (P : mem_op → Prop) : MemoryStore → Prop :=
  | reachable_new clk : reachable P (NewMemoryStore clk)
  | reachable_step o m : reachable P m → P o → reachable P (exec o m).

Lemma reachable_invariant (P : mem_op → Prop) (I : MemoryStore → Prop) m :
  (∀ clk, I (NewMemoryStore clk)) → (∀ o m, P o → I m → I (exec o m)) →
  reachable P m → I m.
Proof. intros Hnew Hstep. induction 1; eauto. Qed.

(** ** Well-formedness *)

Definition type_stats_ok (st : jobTypeMetrics) : Prop :=
  jt_MinDuration st ≤ jt_MaxDuration st ∧ int64 (jt_Count st) ∧ int64 (jt_TotalDuration st).

Record metrics_wf (md : metricsData) : Prop := {
  wf_queueStats : map_Forall (λ q st, qs_QueueName st = q) (md_queueStats md);
  wf_types : map_Forall (λ _, type_stats_ok) (md_jobTypeStats md);
  wf_counters : int64 (md_jobsCreated md) ∧ int64 (md_jobsCompleted md) ∧
                int64 (md_jobsFailed md) ∧ int64 (md_jobsRetried md);
}.

(** Jobs, workers, configurations and statistics are stored under their own
    name, and counters are 64-bit integers. *)
Record mem_wf (m : MemoryStore) : Prop := {
  wf_jobs : map_Forall (λ id j, j_ID j = id) (ms_jobs m);
  wf_workers : map_Forall (λ id w, w_ID w = id) (ms_workers m);
  wf_configs : map_Forall (λ name c, c_Name c = name) (ms_queueConfigs m);
  wf_metrics : metrics_wf (ms_metrics m);
}.

Lemma map_Forall_insert_lookup {A} (P : string → A → Prop) (f : A → A) (m : gmap string A) k x :
  map_Forall P m → m !! k = Some x → (P k x → P k (f x)) → map_Forall P (<[k := f x]> m).
Proof. intros Hm Hk Hf. apply map_Forall_insert_2; [by apply Hf, Hm|done]. Qed.

(** A field of an invariant that is unchanged, or one entry of which is written
    or deleted. *)
Ltac wf_map :=
  first [ done | by apply map_Forall_insert_2 | by apply map_Forall_delete ].

Lemma type_stats_ok_record d o :
  from_option type_stats_ok True o → type_stats_ok (record_duration d o).
Proof.
  intros Ho. unfold record_duration. split_and!; simpl; [|apply wrap64_range..].
  destruct o as [st|]; simpl in *.
  - destruct Ho as [Ho _]. repeat case_match; go_simpl; lia.
  - repeat case_match; go_simpl; lia.
Qed.

Lemma update_job_wf id f m :
  (∀ j, j_ID (f j) = j_ID j) → mem_wf m → mem_wf (update_job id f m).2.
Proof.
  intros Hf []. unfold update_job. case_match; simpl; [|by split].
  split; simpl; try done. eapply map_Forall_insert_lookup; [done..|]. by rewrite Hf.
Qed.

Lemma update_worker_wf id f m :
  (∀ w, w_ID (f w) = w_ID w) → mem_wf m → mem_wf (update_worker id f m).2.
Proof.
  intros Hf []. unfold update_worker. case_match; simpl; [|by split].
  split; simpl; try done. eapply map_Forall_insert_lookup; [done..|]. by rewrite Hf.
Qed.

(** A method that only changes queues or pauses. *)
Lemma set_ms_queues_wf v m : mem_wf m → mem_wf (set_ms_queues v m).
Proof. intros []. by split. Qed.

Lemma set_ms_paused_wf v m : mem_wf m → mem_wf (set_ms_paused v m).
Proof. intros []. by split. Qed.

#[export] Hint Resolve update_job_wf update_worker_wf set_ms_queues_wf set_ms_paused_wf : gotask.

Lemma alter_queue_stats_wf queue f md :
  (∀ st, qs_QueueName (f st) = qs_QueueName st) →
  metrics_wf md → metrics_wf (alter_queue_stats queue f md).
Proof.
  intros Hf [Hqs ??]. unfold alter_queue_stats. case_match; simpl; [|by split].
  split; simpl; try done. eapply map_Forall_insert_lookup; [done..|]. by rewrite Hf.
Qed.

Lemma record_types_wf t d md :
  metrics_wf md →
  metrics_wf (set_md_jobTypeStats
    (<[t := record_duration d (md_jobTypeStats md !! t)]> (md_jobTypeStats md)) md).
Proof.
  intros [? Hts ?]. split; simpl; try done. apply map_Forall_insert_2; [|done].
  apply type_stats_ok_record. destruct (md_jobTypeStats md !! t) eqn:E; [|done]. by eapply Hts.
Qed.

Lemma counters_wf md created completed failed retried :
  metrics_wf md → int64 created → int64 completed → int64 failed → int64 retried →
  metrics_wf (mkMetricsData created completed failed retried (md_queueStats md)
                (md_jobTypeStats md) (md_lastUpdate md)).
Proof. intros [??]. by split. Qed.

Lemma set_ms_metrics_wf md m : metrics_wf md → mem_wf m → mem_wf (set_ms_metrics md m).
Proof. intros ? []. by split. Qed.

Lemma record_wf o m :
  (match o with OpRecordJobCreated _ _ | OpRecordJobCompleted _ _ _ | OpRecordJobFailed _ _
   | OpRecordJobRetried _ _ => True | _ => False end) →
  mem_wf m → mem_wf (exec o m).
Proof.
  intros Ho Hm. pose proof (wf_metrics m Hm) as Hmd.
  destruct (wf_counters _ Hmd) as (?&?&?&?).
  destruct o; try done; apply set_ms_metrics_wf; try done.
  - assert (Hc := counters_wf _ _ _ _ _ Hmd (wrap64_range (md_jobsCreated (ms_metrics m) + 1))
                    H0 H1 H2).
    case_match; [done|]. destruct Hc. split; simpl; try done. by apply map_Forall_insert_2.
  - apply record_types_wf, alter_queue_stats_wf, counters_wf; auto using wrap64_range.
  - apply alter_queue_stats_wf, counters_wf; auto using wrap64_range.
  - apply counters_wf; auto using wrap64_range.
Qed.

Lemma exec_wf o m : mem_wf m → mem_wf (exec o m).
Proof.
  intros Hm. destruct o; try (by apply record_wf); simpl.
  - destruct Hm. unfold CreateJob. case_match; split; simpl; wf_map.
  - destruct Hm. unfold UpdateJob. case_match; split; simpl; wf_map.
  - destruct Hm. unfold DeleteJob. case_match; split; simpl; wf_map.
  - apply update_job_wf; [|done]. intros j. apply set_status_same_job.
  - by apply update_job_wf.
  - by apply update_job_wf.
  - by apply update_job_wf.
  - unfold Enqueue. case_match; simpl; eauto with gotask.
  - unfold Requeue, Enqueue. case_match; simpl; eauto with gotask.
  - destruct (Dequeue_cases clk queue m) as [[? ->]|[(? & ? & ->)|(i & e & ? & ? & ->)]];
      simpl; eauto with gotask.
  - unfold Remove. case_match; simpl; eauto with gotask.
  - eauto with gotask.
  - eauto with gotask.
  - destruct Hm. split; simpl; wf_map.
  - destruct Hm. unfold UnregisterWorker. case_match; split; simpl; wf_map.
  - by apply update_worker_wf.
  - by apply update_worker_wf.
  - by apply update_worker_wf.
  - by apply update_worker_wf.
  - by apply update_worker_wf.
  - destruct Hm. split; simpl; wf_map.
  - destruct Hm. split; simpl; wf_map.
Qed.

Lemma new_wf clk : mem_wf (NewMemoryStore clk).
Proof.
  split; simpl; try apply map_Forall_empty. split; simpl; try apply map_Forall_empty.
  unfold int64. lia.
Qed.

(** ** Queue entries and jobs *)

Definition no_orphans (m : MemoryStore) : Prop :=
  ∀ queue e, e ∈ entries_of m queue → is_Some (ms_jobs m !! e_JobID e).

Definition deletes_jobs (o : mem_op) : bool :=
  match o with OpDeleteJob _ => true | _ => false end.

Lemma remove_first_incl jobID l l' e : remove_first jobID l = Some l' → e ∈ l' → e ∈ l.
Proof.
  revert l'. induction l as [|x l IH]; simpl; [done|]. intros l' E He.
  case_bool_decide; simplify_eq; [by apply list_elem_of_further|].
  destruct (remove_first jobID l) as [l1|]; simplify_eq/=.
  apply elem_of_cons in He as [->|He]; [apply list_elem_of_here|].
  apply list_elem_of_further. by eapply IH.
Qed.

(** The entries of a queue after a call: old ones, or one for a stored job. *)
Lemma exec_entries o m queue e :
  e ∈ entries_of (exec o m) queue →
  e ∈ entries_of m queue ∨ is_Some (ms_jobs m !! e_JobID e).
Proof.
  assert (Henq : ∀ clk q id p d, e ∈ entries_of (Enqueue clk q id p d m).2 queue →
            e ∈ entries_of m queue ∨ is_Some (ms_jobs m !! e_JobID e)).
  { intros clk q id p d. unfold Enqueue. case_match; simpl; [|by left].
    rewrite entries_of_insert. case_decide; subst; [|by left].
    rewrite elem_of_app, list_elem_of_singleton. intros [?| ->]; [by left|right]. by exists j. }
  destruct o; simpl; eauto;
    try (unfold CreateJob, UpdateJob, DeleteJob, UpdateStatus, UpdateProgress, SetResult,
           SetError, update_job, UnregisterWorker, UpdateHeartbeat, UpdateWorkerStatus,
           SetCurrentJob, IncrementProcessed, IncrementFailed, update_worker;
         case_match; by left).
  - destruct (Dequeue_cases clk queue0 m) as [[? ->]|[(? & ? & ->)|(i & e' & ? & ? & ->)]];
      simpl; [by left..|]. rewrite entries_of_insert.
    case_decide; subst; [|by left]. left. by eapply elem_of_delete_list.
  - unfold Remove. destruct (remove_first _ _) as [l|] eqn:E; simpl; [|by left].
    rewrite entries_of_insert. case_decide; subst; [|by left]. intros He. left.
    by eapply remove_first_incl.
Qed.

(** Only [DeleteJob] takes a job out of the store. *)
Lemma exec_jobs o m id :
  deletes_jobs o = false → is_Some (ms_jobs m !! id) → is_Some (ms_jobs (exec o m) !! id).
Proof.
  intros Ho Hid. destruct o; try done; simpl;
    unfold CreateJob, UpdateJob, UpdateStatus, UpdateProgress, SetResult, SetError, update_job,
      Enqueue, Requeue, Enqueue, Remove, UnregisterWorker, UpdateHeartbeat,
      UpdateWorkerStatus, SetCurrentJob, IncrementProcessed, IncrementFailed, update_worker,
      Dequeue; repeat case_match; simpl; try done;
    rewrite lookup_insert_is_Some'; auto.
Qed.

Lemma exec_no_orphans o m : deletes_jobs o = false → no_orphans m → no_orphans (exec o m).
Proof. intros Ho Hm q e He. apply exec_jobs; [done|]. apply exec_entries in He as [He|]; eauto. Qed.

(** ** Properties *)

(** C38. Every state reached from a new store by any calls, in any order and
    with any arguments, is well formed: each job, worker, configuration and
    statistic is stored under its own identifier, the minimum duration of a job
    type is at most its maximum, and the counters are 64-bit integers. *)
Theorem reachable_well_formed m : reachable (λ _, True) m → mem_wf m.
Proof. apply reachable_invariant; auto using new_wf, exec_wf. Qed.

Lemma reachable_well_formed_witness :
  mem_wf (exec (OpRecordJobCompleted "q" "echo" 5)
           (exec (OpCreateJob (demo_job "1" "q" 3)) (NewMemoryStore (λ _, 0)))).
Proof. apply reachable_well_formed. repeat constructor. Defined.

(** As long as no job is deleted, every identifier that [Dequeue] returns,
    in any reachable state, is that of a stored job: the [GetJob] that follows
    a dequeue finds a job with that identifier. *)
Theorem dequeued_job_exists clk queue id m m' :
  reachable (λ o, deletes_jobs o = false) m → Dequeue clk queue m = (Ok id, m') →
  ∃ j, GetJob id m' = (Ok j, m') ∧ j_ID j = id.
Proof.
  intros Hr Hd.
  assert (Ho : no_orphans m).
  { revert Hr. apply reachable_invariant; [|eauto using exec_no_orphans].
    intros clk' q e He. by apply elem_of_nil in He. }
  assert (Hw : mem_wf m).
  { revert Hr. apply reachable_invariant; auto using new_wf, exec_wf. }
  destruct (Dequeue_cases clk queue m) as [[_ E]|[(_ & _ & E)|(i & e & _ & Hb & E)]];
    rewrite E in Hd; simplify_eq/=.
  destruct (Ho queue e) as [j Hj].
  { eapply list_elem_of_lookup_2, (proj1 Hb). }
  exists j. unfold GetJob. simpl. rewrite Hj. split; [done|]. by apply (wf_jobs m Hw).
Qed.

Lemma dequeued_job_exists_witness :
  let m := exec (OpEnqueue (λ _, 7) "q" "1" 5 0)
             (exec (OpCreateJob (demo_job "1" "q" 3)) (NewMemoryStore (λ _, 0))) in
  let m' := (Dequeue (λ _, 8) "q" m).2 in
  ∃ j, GetJob "1" m' = (Ok j, m') ∧ j_ID j = "1".
Proof.
  intros m m'. apply (dequeued_job_exists (λ _, 8) "q" "1" m).
  - repeat constructor.
  - vm_compute. reflexivity.
Defined.
