(* ===== verification/Storage.v ===== *)
(** * The storage interface (internal/storage/storage.go) and its contract

    [Storage] has the operations that the queue manager, the worker pool and
    the server call on a backend, under the names and arguments the backends
    give them. [StorageLaws] is what a backend that is available promises,
    stated on an abstract view of its state: the clients are verified against
    it, and MemoryLaws.v proves it of the in-memory store. *)

From S2P Require Import Prelude Errors GoMonad Job.

(** ** Operations *)

Class Storage (S : Type) := {
  (* JobStore *)
  st_CreateJob : Job → M S unit;
  st_GetJob : string → M S Job;
  st_UpdateJob : Job → M S unit;
  st_DeleteJob : string → M S unit;
  st_ListJobs : string → string → Z → Z → M S (list Job);
  st_UpdateStatus : Clock → string → string → M S unit;
  st_UpdateProgress : Clock → string → Z → M S unit;
  st_SetResult : Clock → string → string → M S unit;
  st_SetError : Clock → string → string → M S unit;
  (* QueueStore *)
  st_Enqueue : Clock → string → string → Z → Duration → M S unit;
  st_Dequeue : Clock → string → M S string;
  st_Requeue : Clock → string → string → Z → Duration → M S unit;
  st_Remove : string → string → M S unit;
  st_Length : string → M S Z;
  st_Peek : string → Z → M S (list string);
  st_GetScheduled : string → Time → M S (list string);
  st_PauseQueue : string → M S unit;
  st_ResumeQueue : string → M S unit;
  st_IsQueuePaused : string → M S bool;
  (* WorkerStore *)
  st_RegisterWorker : Worker → M S unit;
  st_UnregisterWorker : string → M S unit;
  st_UpdateHeartbeat : Clock → string → M S unit;
  st_UpdateWorkerStatus : string → string → M S unit;
  st_SetCurrentJob : string → string → M S unit;
  st_IncrementProcessed : string → M S unit;
  st_IncrementFailed : string → M S unit;
  st_ListWorkers : string → M S (list Worker);
  st_GetWorker : string → M S Worker;
  (* MetricsStore *)
  st_RecordJobCreated : string → string → M S unit;
  st_RecordJobCompleted : string → string → Duration → M S unit;
  st_RecordJobFailed : string → string → M S unit;
  st_RecordJobRetried : string → string → M S unit;
  st_GetQueueStats : string → M S QueueStats;
  st_GetQueueStatsAll : M S (gmap string QueueStats);
  (* ConfigStore *)
  st_SaveQueueConfig : QueueConfig → M S unit;
  st_GetQueueConfig : string → M S QueueConfig;
  st_DeleteQueueConfig : string → M S unit;
  st_ListQueueConfigs : M S (list QueueConfig);
}.

(** ** The abstract state *)

(** A job identifier waiting in a queue. *)
Record waiting : Type := mkWaiting {
  wt_job : string;
  wt_priority : Z;
  wt_due : Time;
}.

(** A queue is a bag: the contract does not promise an order among the entries
    of equal priority. *)
Record View : Type := mkView {
  v_jobs : gmap string Job;
  v_queue : string → list waiting;
  v_paused : string → bool;
  v_workers : gmap string Worker;
  v_configs : gmap string QueueConfig;
}.

#[export] Instance View_equiv : Equiv View := λ v v',
  v_jobs v = v_jobs v' ∧ (∀ q, v_queue v q ≡ₚ v_queue v' q) ∧
  (∀ q, v_paused v q = v_paused v' q) ∧ v_workers v = v_workers v' ∧
  v_configs v = v_configs v'.

#[export] Instance View_equivalence : Equivalence (≡@{View}).
Proof.
  split.
  - intros v. by split_and!.
  - intros v v' (?&Hq&?&?&?). by split_and!.
  - intros v1 v2 v3 (?&Hq&Hp&?&?) (?&Hq'&Hp'&?&?).
    split_and!; try congruence. intros q. by rewrite Hq, Hq'.
Qed.

Definition set_v_jobs (x : gmap string Job) (v : View) : View :=
  mkView x (v_queue v) (v_paused v) (v_workers v) (v_configs v).

Definition set_v_queue (q : string) (l : list waiting) (v : View) : View :=
  mkView (v_jobs v) (λ q', if bool_decide (q' = q) then l else v_queue v q')
    (v_paused v) (v_workers v) (v_configs v).

Definition set_v_paused (q : string) (b : bool) (v : View) : View :=
  mkView (v_jobs v) (v_queue v) (λ q', if bool_decide (q' = q) then b else v_paused v q')
    (v_workers v) (v_configs v).

Definition set_v_workers (x : gmap string Worker) (v : View) : View :=
  mkView (v_jobs v) (v_queue v) (v_paused v) x (v_configs v).

Definition set_v_configs (x : gmap string QueueConfig) (v : View) : View :=
  mkView (v_jobs v) (v_queue v) (v_paused v) (v_workers v) x.

#[export] Instance v_jobs_proper : Proper ((≡) ==> (=)) v_jobs.
Proof. intros v v' (H1&H2&H3&H4&H5). done. Qed.

#[export] Instance v_queue_proper : Proper ((≡) ==> (=) ==> (≡ₚ)) v_queue.
Proof. intros v v' (H1&Hq&H3&H4&H5) q ? <-. apply Hq. Qed.

#[export] Instance v_paused_proper : Proper ((≡) ==> (=) ==> (=)) v_paused.
Proof. intros v v' (H1&H2&Hp&H4&H5) q ? <-. apply Hp. Qed.

#[export] Instance v_workers_proper : Proper ((≡) ==> (=)) v_workers.
Proof. intros v v' (H1&H2&H3&H4&H5). done. Qed.

#[export] Instance v_configs_proper : Proper ((≡) ==> (=)) v_configs.
Proof. intros v v' (H1&H2&H3&H4&H5). done. Qed.

#[export] Instance set_v_jobs_proper : Proper ((=) ==> (≡) ==> (≡)) set_v_jobs.
Proof. intros x ? <- v v' (?&?&?&?&?). by split_and!. Qed.

#[export] Instance set_v_queue_proper : Proper ((=) ==> (≡ₚ) ==> (≡) ==> (≡)) set_v_queue.
Proof.
  intros q ? <- l l' Hl v v' (?&?&?&?&?). split_and!; try done.
  intros q'. simpl. by case_bool_decide.
Qed.

#[export] Instance set_v_paused_proper : Proper ((=) ==> (=) ==> (≡) ==> (≡)) set_v_paused.
Proof.
  intros q ? <- b ? <- v v' (?&?&?&?&?). split_and!; try done.
  intros q'. simpl. by case_bool_decide.
Qed.

#[export] Instance set_v_workers_proper : Proper ((=) ==> (≡) ==> (≡)) set_v_workers.
Proof. intros x ? <- v v' (?&?&?&?&?). by split_and!. Qed.

#[export] Instance set_v_configs_proper : Proper ((=) ==> (≡) ==> (≡)) set_v_configs.
Proof. intros x ? <- v v' (?&?&?&?&?). by split_and!. Qed.

(** An entry is due when its time is not after [now]. *)
Definition due (now : Time) (x : waiting) : bool := wt_due x <=? now.

(** What a call of [Dequeue] on a queue of the view may do. *)
Definition dequeue_contract (now : Time) (q : string) (v : View) (r : res string)
    (v' : View) : Prop :=
  match r with
  | Ok id =>
      v_paused v q = false ∧
      ∃ x rest, v_queue v q ≡ₚ x :: rest ∧ wt_job x = id ∧ due now x = true ∧
        (∀ y, y ∈ rest → due now y = true → wt_priority y ≤ wt_priority x) ∧
        v' ≡ set_v_queue q rest v
  | Err ErrQueuePaused => v_paused v q = true ∧ v' ≡ v
  | Err ErrQueueEmpty =>
      v_paused v q = false ∧ (∀ x, x ∈ v_queue v q → due now x = false) ∧ v' ≡ v
  | Err _ | Panic _ => False
  end.

(** ** The contract *)

Section contract.
Context {S : Type} (view : S → View).

(** The call [m] in state [s] returns [r] and leaves the view [v]. *)
Definition returns {A} (m : M S A) (s : S) (r : res A) (v : View) : Prop :=
  ∃ s', m s = (r, s') ∧ view s' ≡ v.

(** [m] changes the job [id] as [P] says, or reports that there is none. *)
Definition updates_job (P : Job → Job → Prop) (id : string) (m : M S unit) : Prop :=
  ∀ s,
    match v_jobs (view s) !! id with
    | Some j => ∃ j', P j j' ∧
        returns m s (Ok tt) (set_v_jobs (<[id := j']> (v_jobs (view s))) (view s))
    | None => returns m s (Err ErrJobNotFound) (view s)
    end.

Definition updates_worker (f : Worker → Worker) (id : string) (m : M S unit) : Prop :=
  ∀ s,
    match v_workers (view s) !! id with
    | Some w =>
        returns m s (Ok tt) (set_v_workers (<[id := f w]> (v_workers (view s))) (view s))
    | None => returns m s (Err ErrWorkerNotFound) (view s)
    end.

(** [m] does not fail and leaves the view: the metrics are not part of it. *)
Definition silent (m : M S unit) : Prop := ∀ s, returns m s (Ok tt) (view s).
End contract.

Class StorageLaws (S : Type) `{Storage S} := {
  view : S → View;
  law_CreateJob j s :
    if v_jobs (view s) !! j_ID j is Some _
    then returns view (st_CreateJob j) s (Err ErrJobAlreadyExists) (view s)
    else returns view (st_CreateJob j) s (Ok tt)
           (set_v_jobs (<[j_ID j := j]> (v_jobs (view s))) (view s));
  law_GetJob id s :
    if v_jobs (view s) !! id is Some j
    then returns view (st_GetJob id) s (Ok j) (view s)
    else returns view (st_GetJob id) s (Err ErrJobNotFound) (view s);
  law_UpdateJob j : updates_job view (λ _ j', j' = j) (j_ID j) (st_UpdateJob j);
  law_UpdateStatus clk id status :
    updates_job view (λ j j', same_job j j' ∧ j_Status j' = status ∧ j_Error j' = j_Error j ∧
      j_Result j' = j_Result j ∧ j_Progress j' = j_Progress j) id (st_UpdateStatus clk id status);
  law_UpdateProgress clk id progress :
    updates_job view (λ j j', same_job j j' ∧ j_Progress j' = progress ∧
      j_Status j' = j_Status j ∧ j_Error j' = j_Error j ∧ j_Result j' = j_Result j)
      id (st_UpdateProgress clk id progress);
  law_SetError clk id msg :
    updates_job view (λ j j', same_job j j' ∧ j_Error j' = msg ∧ j_Status j' = j_Status j ∧
      j_Result j' = j_Result j ∧ j_Progress j' = j_Progress j) id (st_SetError clk id msg);
  law_Enqueue clk q id p d s :
    if v_jobs (view s) !! id is Some _
    then returns view (st_Enqueue clk q id p d) s (Ok tt)
           (set_v_queue q (mkWaiting id p (Add (clk 0%nat) d) :: v_queue (view s) q) (view s))
    else returns view (st_Enqueue clk q id p d) s (Err ErrJobNotFound) (view s);
  law_Requeue clk q id p d s :
    if v_jobs (view s) !! id is Some _
    then returns view (st_Requeue clk q id p d) s (Ok tt)
           (set_v_queue q (mkWaiting id p (Add (clk 0%nat) d) :: v_queue (view s) q) (view s))
    else returns view (st_Requeue clk q id p d) s (Err ErrJobNotFound) (view s);
  law_Dequeue clk q s :
    ∃ r s', st_Dequeue clk q s = (r, s') ∧
      dequeue_contract (clk 0%nat) q (view s) r (view s');
  law_Remove q id s :
    (∃ x rest, v_queue (view s) q ≡ₚ x :: rest ∧ wt_job x = id ∧
       returns view (st_Remove q id) s (Ok tt) (set_v_queue q rest (view s))) ∨
    ((∀ x, x ∈ v_queue (view s) q → wt_job x ≠ id) ∧
       returns view (st_Remove q id) s (Err ErrJobNotFound) (view s));
  law_Length q s :
    returns view (st_Length q) s (Ok (Z.of_nat (length (v_queue (view s) q)))) (view s);
  law_PauseQueue q s : returns view (st_PauseQueue q) s (Ok tt) (set_v_paused q true (view s));
  law_ResumeQueue q s : returns view (st_ResumeQueue q) s (Ok tt) (set_v_paused q false (view s));
  law_IsQueuePaused q s :
    returns view (st_IsQueuePaused q) s (Ok (v_paused (view s) q)) (view s);
  law_RegisterWorker w s :
    returns view (st_RegisterWorker w) s (Ok tt)
      (set_v_workers (<[w_ID w := w]> (v_workers (view s))) (view s));
  law_UpdateWorkerStatus id status :
    updates_worker view (set_w_Status status) id (st_UpdateWorkerStatus id status);
  law_SetCurrentJob id job :
    updates_worker view (set_w_CurrentJobID (if bool_decide (job = "") then None else Some job))
      id (st_SetCurrentJob id job);
  law_IncrementProcessed id :
    updates_worker view (λ w, set_w_ProcessedCount (wrap64 (w_ProcessedCount w + 1)) w)
      id (st_IncrementProcessed id);
  law_IncrementFailed id :
    updates_worker view (λ w, set_w_FailedCount (wrap64 (w_FailedCount w + 1)) w)
      id (st_IncrementFailed id);
  law_RecordJobCreated q t : silent view (st_RecordJobCreated q t);
  law_RecordJobCompleted q t d : silent view (st_RecordJobCompleted q t d);
  law_RecordJobFailed q t : silent view (st_RecordJobFailed q t);
  law_RecordJobRetried q t : silent view (st_RecordJobRetried q t);
  law_SaveQueueConfig c s :
    returns view (st_SaveQueueConfig c) s (Ok tt)
      (set_v_configs (<[c_Name c := c]> (v_configs (view s))) (view s));
  law_GetQueueConfig q s :
    if v_configs (view s) !! q is Some c
    then returns view (st_GetQueueConfig q) s (Ok c) (view s)
    else ∃ e, returns view (st_GetQueueConfig q) s (Err e) (view s);
  law_DeleteQueueConfig q s :
    returns view (st_DeleteQueueConfig q) s (Ok tt)
      (set_v_configs (delete q (v_configs (view s))) (view s));
  law_ListQueueConfigs s :
    ∃ l, l ≡ₚ (map_to_list (v_configs (view s))).*2 ∧
      returns view st_ListQueueConfigs s (Ok l) (view s);
}.
