(* ===== verification/MemoryLaws.v ===== *)
(** * The in-memory store implements the storage contract *)

From S2P Require Import Prelude Errors GoMonad Job MemoryStore MemoryQueue MemoryJobs Storage.

#[export] Instance MemoryStorage `{MapRange} : Storage MemoryStore := {|
  st_CreateJob := CreateJob;
  st_GetJob := GetJob;
  st_UpdateJob := UpdateJob;
  st_DeleteJob := DeleteJob;
  st_ListJobs := ListJobs;
  st_UpdateStatus := UpdateStatus;
  st_UpdateProgress := UpdateProgress;
  st_SetResult := SetResult;
  st_SetError := SetError;
  st_Enqueue := Enqueue;
  st_Dequeue := Dequeue;
  st_Requeue := Requeue;
  st_Remove := Remove;
  st_Length := Length;
  st_Peek := Peek;
  st_GetScheduled := GetScheduled;
  st_PauseQueue := PauseQueue;
  st_ResumeQueue := ResumeQueue;
  st_IsQueuePaused := IsQueuePaused;
  st_RegisterWorker := RegisterWorker;
  st_UnregisterWorker := UnregisterWorker;
  st_UpdateHeartbeat := UpdateHeartbeat;
  st_UpdateWorkerStatus := UpdateWorkerStatus;
  st_SetCurrentJob := SetCurrentJob;
  st_IncrementProcessed := IncrementProcessed;
  st_IncrementFailed := IncrementFailed;
  st_ListWorkers := ListWorkers;
  st_GetWorker := GetWorker;
  st_RecordJobCreated := RecordJobCreated;
  st_RecordJobCompleted := RecordJobCompleted;
  st_RecordJobFailed := RecordJobFailed;
  st_RecordJobRetried := RecordJobRetried;
  st_GetQueueStats := GetQueueStats;
  st_GetQueueStatsAll := GetQueueStatsAll;
  st_SaveQueueConfig := SaveQueueConfig;
  st_GetQueueConfig := GetQueueConfig;
  st_DeleteQueueConfig := DeleteQueueConfig;
  st_ListQueueConfigs := ListQueueConfigs;
|}.

Definition waiting_of (e : queueEntry) : waiting :=
  mkWaiting (e_JobID e) (e_Priority e) (e_Timestamp e).

(** The abstraction function: the metrics and the order of the entries are
    forgotten. *)
Definition mem_view (m : MemoryStore) : View := {|
  v_jobs := ms_jobs m;
  v_queue q := waiting_of <$> entries_of m q;
  v_paused q := paused m q;
  v_workers := ms_workers m;
  v_configs := ms_queueConfigs m;
|}.

Abbreviation mem_returns := (returns mem_view).

Lemma mem_returns_intro {A} (f : M MemoryStore A) m r v :
  (f m).1 = r → mem_view (f m).2 ≡ v → mem_returns f m r v.
Proof. intros Hr Hv. exists (f m).2. split; [|done]. by destruct (f m); simplify_eq/=. Qed.

Lemma mem_update_job (P : Job → Job → Prop) id f :
  (∀ j, P j (f j)) → updates_job mem_view P id (update_job id f).
Proof.
  intros Hf m. unfold update_job. simpl. destruct (ms_jobs m !! id) as [j|] eqn:Hj.
  - exists (f j). split; [done|]. apply mem_returns_intro; rewrite Hj; [done|].
    by split_and!.
  - by apply mem_returns_intro; rewrite Hj.
Qed.

Lemma mem_update_worker f id : updates_worker mem_view f id (update_worker id f).
Proof.
  intros m. unfold update_worker. simpl. destruct (ms_workers m !! id) as [w|] eqn:Hw.
  - apply mem_returns_intro; rewrite Hw; [done|]. by split_and!.
  - by apply mem_returns_intro; rewrite Hw.
Qed.

Lemma mem_view_queue m q l ws :
  waiting_of <$> l ≡ₚ ws →
  mem_view (set_ms_queues (<[q := l]> (ms_queues m)) m) ≡ set_v_queue q ws (mem_view m).
Proof.
  intros Hl. split_and!; try done. intros q'. simpl. rewrite entries_of_insert.
  case_decide; case_bool_decide; by subst.
Qed.

Lemma mem_view_paused m q b :
  mem_view (set_ms_paused (<[q := b]> (ms_paused m)) m) ≡ set_v_paused q b (mem_view m).
Proof.
  split_and!; try done. intros q'. simpl. unfold paused. simpl. rewrite lookup_insert.
  case_decide; case_bool_decide; by subst.
Qed.

Lemma mem_enqueue_returns clk q id p d m :
  if ms_jobs m !! id is Some _
  then mem_returns (Enqueue clk q id p d) m (Ok tt)
         (set_v_queue q (mkWaiting id p (Add (clk 0%nat) d) :: v_queue (mem_view m) q) (mem_view m))
  else mem_returns (Enqueue clk q id p d) m (Err ErrJobNotFound) (mem_view m).
Proof.
  destruct (ms_jobs m !! id) as [j|] eqn:Hj; apply mem_returns_intro; unfold Enqueue;
    rewrite Hj; try done. simpl. apply mem_view_queue.
  rewrite fmap_app. simpl. by rewrite Permutation_app_comm.
Qed.

Lemma ready_due now e : due now (waiting_of e) = ready now e.
Proof. unfold due, ready, After. simpl. lia. Qed.

Lemma mem_dequeue_contract clk q m :
  dequeue_contract (clk 0%nat) q (mem_view m) (Dequeue clk q m).1 (mem_view (Dequeue clk q m).2).
Proof.
  destruct (Dequeue_cases clk q m) as [[Hp ->]|[(Hp & Hn & ->)|(i & e & Hp & Hb & ->)]]; simpl.
  - done.
  - split_and!; try done. intros x. rewrite list_elem_of_fmap. intros (e & -> & He).
    rewrite ready_due. auto.
  - split; [done|]. exists (waiting_of e), (waiting_of <$> delete i (entries_of m q)).
    destruct Hb as (Hi & Hr & Hmax). split_and!; try done.
    + by rewrite <- fmap_cons, delete_Permutation_cons.
    + by rewrite ready_due.
    + intros y. rewrite list_elem_of_fmap. intros (e' & -> & He'). rewrite ready_due. intros Hr'.
      apply elem_of_delete_list, list_elem_of_lookup_1 in He' as [k Hk].
      by apply (Hmax k e' Hk Hr').
    + by apply mem_view_queue.
Qed.

Lemma remove_first_spec id l :
  match remove_first id l with
  | Some l' => ∃ e, l ≡ₚ e :: l' ∧ e_JobID e = id
  | None => ∀ e, e ∈ l → e_JobID e ≠ id
  end.
Proof.
  induction l as [|x l IH]; simpl; [intros e He; by apply elem_of_nil in He|].
  case_bool_decide as Hx; [by exists x|].
  destruct (remove_first id l) as [l'|]; simpl.
  - destruct IH as (e & He & Hid). exists e. split; [|done]. rewrite He. apply Permutation_swap.
  - intros e [->|He]%elem_of_cons; auto.
Qed.

Lemma mem_remove_returns q id m :
  (∃ x rest, v_queue (mem_view m) q ≡ₚ x :: rest ∧ wt_job x = id ∧
     mem_returns (Remove q id) m (Ok tt) (set_v_queue q rest (mem_view m))) ∨
  ((∀ x, x ∈ v_queue (mem_view m) q → wt_job x ≠ id) ∧
     mem_returns (Remove q id) m (Err ErrJobNotFound) (mem_view m)).
Proof.
  pose proof (remove_first_spec id (entries_of m q)) as Hr.
  destruct (remove_first id (entries_of m q)) as [l|] eqn:E.
  - left. destruct Hr as (e & He & Hid). exists (waiting_of e), (waiting_of <$> l).
    split_and!; [simpl; by rewrite He|done|].
    apply mem_returns_intro; unfold Remove; rewrite E; [done|]. by apply mem_view_queue.
  - right. split; [|by apply mem_returns_intro; unfold Remove; rewrite E].
    intros x. simpl. rewrite list_elem_of_fmap. intros (e & -> & He).
    by apply (Hr e).
Qed.

Program Definition MemoryStorageLaws_def `{MapRange} : StorageLaws MemoryStore :=
  {| view := mem_view |}.
Next Obligation.
  intros H j m. simpl. unfold CreateJob.
  destruct (ms_jobs m !! j_ID j) eqn:E; apply mem_returns_intro; rewrite E; try done.
Qed.
Next Obligation.
  intros H id m. simpl. unfold GetJob.
  destruct (ms_jobs m !! id) eqn:E; apply mem_returns_intro; rewrite E; try done.
Qed.
Next Obligation.
  intros H j m. simpl. unfold UpdateJob.
  destruct (ms_jobs m !! j_ID j) eqn:E; [exists j; split; [done|]|];
    apply mem_returns_intro; rewrite E; try done.
Qed.
Next Obligation.
  intros H clk id status. apply mem_update_job. intros j. split_and!.
  - apply set_status_same_job.
  - apply set_status_Status.
  - unfold set_status. by repeat case_match.
  - unfold set_status. by repeat case_match.
  - unfold set_status. by repeat case_match.
Qed.
Next Obligation. intros H clk id progress. apply mem_update_job. intros j. by split_and!. Qed.
Next Obligation. intros H clk id msg. apply mem_update_job. intros j. by split_and!. Qed.
Next Obligation. intros H *. apply mem_enqueue_returns. Qed.
Next Obligation. intros H *. apply mem_enqueue_returns. Qed.
Next Obligation.
  intros H clk q m. exists (Dequeue clk q m).1, (Dequeue clk q m).2.
  split; [by destruct (Dequeue clk q m) eqn:E; simpl; rewrite E|]. apply mem_dequeue_contract.
Qed.
Next Obligation. intros H *. apply mem_remove_returns. Qed.
Next Obligation.
  intros H q m. apply mem_returns_intro; [|done]. simpl. by rewrite length_fmap.
Qed.
Next Obligation. intros H q m. apply mem_returns_intro; [done|]. apply mem_view_paused. Qed.
Next Obligation. intros H q m. apply mem_returns_intro; [done|]. apply mem_view_paused. Qed.
Next Obligation. intros H q m. by apply mem_returns_intro. Qed.
Next Obligation. intros H w m. by apply mem_returns_intro. Qed.
Next Obligation. intros H *. apply mem_update_worker. Qed.
Next Obligation. intros H *. apply mem_update_worker. Qed.
Next Obligation. intros H *. apply mem_update_worker. Qed.
Next Obligation. intros H *. apply mem_update_worker. Qed.
Next Obligation. intros H q t m. by apply mem_returns_intro. Qed.
Next Obligation. intros H q t d m. by apply mem_returns_intro. Qed.
Next Obligation. intros H q t m. by apply mem_returns_intro. Qed.
Next Obligation. intros H q t m. by apply mem_returns_intro. Qed.
Next Obligation. intros H c m. by apply mem_returns_intro. Qed.
Next Obligation.
  intros H q m. simpl. unfold GetQueueConfig.
  destruct (ms_queueConfigs m !! q) eqn:E; [|eexists]; apply mem_returns_intro; rewrite E; done.
Qed.
Next Obligation. intros H q m. by apply mem_returns_intro. Qed.
Next Obligation.
  intros H m. exists (range_values (ms_queueConfigs m)). split.
  - unfold range_values. by rewrite map_range_perm.
  - by apply mem_returns_intro.
Qed.

#[export] Instance MemoryStorageLaws `{MapRange} : StorageLaws MemoryStore :=
  MemoryStorageLaws_def.

(** ** Properties *)

(** C5. The in-memory store implements the storage contract, for every
    iteration order of its maps: each operation, on every branch, returns what
    the contract says and changes the abstract state as it says. *)
Theorem memory_store_implements_contract (R : MapRange) :
  ∃ L : @StorageLaws MemoryStore (@MemoryStorage R),
    ∀ m, @view MemoryStore (@MemoryStorage R) L m = mem_view m.
Proof. by exists (@MemoryStorageLaws R). Qed.
