(* ===== verification/World.v ===== *)
(** * The runtime around the store

    The queue manager reads the clock and random numbers and keeps a cache of
    the queue configurations; its state is a [World] over a storage backend. *)

From S2P Require Import Prelude Errors GoMonad Job Storage.

(** What [time.Now] and [rand.Intn] return: the readings of the clock, in the
    order they are taken, do not decrease, and [Intn n] is in [0, n). *)
Class Runtime := {
  rt_now : nat → Time;
  rt_intn : nat → Z → Z;
  rt_now_mono i k : (i ≤ k)%nat → rt_now i ≤ rt_now k;
  rt_intn_range k n : 0 < n → 0 ≤ rt_intn k n < n;
}.

(** [type Manager struct], without its lock: the storage and the cached
    configurations; the two counters number the next reading of the clock and
    the next random number. *)
Record World (S : Type) : Type := mkWorld {
  wo_store : S;
  wo_configs : gmap string QueueConfig;
  wo_tick : nat;
  wo_rand : nat;
}.
Arguments mkWorld {S}.
Arguments wo_store {S}.
Arguments wo_configs {S}.
Arguments wo_tick {S}.
Arguments wo_rand {S}.

Section world.
Context {S : Type} `{Runtime}.

Definition set_wo_store (x : S) (w : World S) : World S :=
  mkWorld x (wo_configs w) (wo_tick w) (wo_rand w).

Definition set_wo_configs (x : gmap string QueueConfig) (w : World S) : World S :=
  mkWorld (wo_store w) x (wo_tick w) (wo_rand w).

(** The time of the next reading. *)
Definition now_of (w : World S) : Time := rt_now (wo_tick w).

(** A call of a backend method. It reads the clock at most twice, and the
    readings it does not take are skipped. *)
Definition call {A} (op : Clock → M S A) : M (World S) A := λ w,
  let r := op (λ i, rt_now (wo_tick w + i)) (wo_store w) in
  (r.1, mkWorld r.2 (wo_configs w) (wo_tick w + 2) (wo_rand w)).

(** A call of a backend method that does not read the clock. *)
Definition use {A} (op : M S A) : M (World S) A := λ w,
  let r := op (wo_store w) in (r.1, set_wo_store r.2 w).

(** [time.Now()]. *)
Definition Now : M (World S) Time := λ w,
  (Ok (now_of w), mkWorld (wo_store w) (wo_configs w) (wo_tick w + 1) (wo_rand w)).

(** [rand.Intn(n)], which panics if [n <= 0]. *)
Definition Intn (n : Z) : M (World S) Z := λ w,
  if 0 <? n
  then (Ok (rt_intn (wo_rand w) n),
        mkWorld (wo_store w) (wo_configs w) (wo_tick w) (wo_rand w + 1))
  else (Panic "invalid argument to Intn", w).

(** Reading and writing the cache, under the manager's lock. *)
Definition get_configs : M (World S) (gmap string QueueConfig) := λ w, (Ok (wo_configs w), w).

Definition put_config (name : string) (c : QueueConfig) : M (World S) unit :=
  modify (λ w, set_wo_configs (<[name := c]> (wo_configs w)) w).

End world.

(** ** Reasoning about calls

    [wp m w Q]: the call [m] in the world [w] ends with a result and a world
    that satisfy [Q]. The store is seen through the view of its contract. *)

Section views.
Context {S : Type} `{StorageLaws S} `{Runtime}.

Definition wview (w : World S) : View := view (wo_store w).

(** [w'] is a later world with the view [v] and the cache [c]. *)
Definition then_ (w : World S) (v : View) (c : gmap string QueueConfig) (w' : World S) : Prop :=
  wview w' ≡ v ∧ wo_configs w' = c ∧ (wo_tick w ≤ wo_tick w')%nat.

Lemma then_intro w w' v c :
  wview w' ≡ v → wo_configs w' = c → (wo_tick w ≤ wo_tick w')%nat → then_ w v c w'.
Proof. intros ???. by split; [|split]. Qed.

Definition wp {A} (m : M (World S) A) (w : World S) (Q : res A → World S → Prop) : Prop :=
  Q (m w).1 (m w).2.

Lemma wp_elim {A} (m : M (World S) A) w Q : wp m w Q → ∃ r w', m w = (r, w') ∧ Q r w'.
Proof. intros Hm. exists (m w).1, (m w).2. split; [|done]. by destruct (m w). Qed.

Lemma wp_mono {A} (m : M (World S) A) w (Q Q' : res A → World S → Prop) :
  wp m w Q → (∀ r w', Q r w' → Q' r w') → wp m w Q'.
Proof. unfold wp. auto. Qed.

Lemma wp_ret {A} (a : A) w (Q : res A → World S → Prop) : Q (Ok a) w → wp (mret a) w Q.
Proof. done. Qed.

Lemma wp_throw {A} e w (Q : res A → World S → Prop) : Q (Err e) w → wp (throw e) w Q.
Proof. done. Qed.

Lemma wp_bind {A B} (m : M (World S) A) (k : A → M (World S) B) w Q :
  wp m w (λ r w', match r with
                  | Ok a => wp (k a) w' Q
                  | Err e => Q (Err e) w'
                  | Panic p => Q (Panic p) w'
                  end) →
  wp (m ≫= k) w Q.
Proof. unfold wp, mbind, M_bind. by destruct (m w) as [[a|e|p] w']. Qed.

Lemma wp_wrap {A} msg (m : M (World S) A) w Q :
  wp m w (λ r w', Q (match r with Err e => Err (Wrapf msg e) | r => r end) w') →
  wp (wrap_err msg m) w Q.
Proof. unfold wp, wrap_err. by destruct (m w) as [[a|e|p] w']. Qed.

Lemma wp_attempt {A} (m : M (World S) A) w (Q : res (A + error) → World S → Prop) :
  wp m w (λ r w', Q (match r with Ok a => Ok (inl a) | Err e => Ok (inr e)
                     | Panic p => Panic p end) w') →
  wp (attempt m) w Q.
Proof. unfold wp, attempt. by destruct (m w) as [[a|e|p] w']. Qed.

Lemma wp_warn {A} (m : M (World S) A) w (Q : res unit → World S → Prop) :
  wp m w (λ r w', match r with Panic p => Q (Panic p) w' | _ => Q (Ok tt) w' end) →
  wp (warn m) w Q.
Proof. unfold wp, warn, attempt, mbind, M_bind. by destruct (m w) as [[a|e|p] w']. Qed.

Lemma wp_get_configs w Q : Q (Ok (wo_configs w)) w → wp get_configs w Q.
Proof. done. Qed.

Lemma wp_put_config name c w Q :
  (∀ w', then_ w (wview w) (<[name := c]> (wo_configs w)) w' → Q (Ok tt) w') →
  wp (put_config name c) w Q.
Proof. intros HQ. apply HQ. by split_and!. Qed.

Lemma wp_Now w Q :
  (∀ w', then_ w (wview w) (wo_configs w) w' → now_of w ≤ now_of w' → Q (Ok (now_of w)) w') →
  wp Now w Q.
Proof.
  intros HQ. apply HQ; [split_and!; [done..|simpl; lia]|]. apply rt_now_mono. simpl. lia.
Qed.

(** The rule for a backend call whose contract determines its result. *)
Lemma wp_use {A} (op : M S A) w r v (Q : res A → World S → Prop) :
  returns view op (wo_store w) r v →
  (∀ w', then_ w v (wo_configs w) w' → Q r w') →
  wp (use op) w Q.
Proof.
  intros (s' & Hs & Hv) HQ. unfold wp, use. rewrite Hs. simpl. apply HQ. by split_and!.
Qed.

Lemma wp_call {A} (op : Clock → M S A) w r v (Q : res A → World S → Prop) :
  returns view (op (λ i, rt_now (wo_tick w + i))) (wo_store w) r v →
  (∀ w', then_ w v (wo_configs w) w' → Q r w') →
  wp (call op) w Q.
Proof.
  intros (s' & Hs & Hv) HQ. unfold wp, call. rewrite Hs. simpl. apply HQ.
  split_and!; [done..|simpl; lia].
Qed.

Lemma now_of_mono (w w' : World S) : (wo_tick w ≤ wo_tick w')%nat → now_of w ≤ now_of w'.
Proof. apply rt_now_mono. Qed.

(** A step that changes nothing but the time. *)
Lemma then_keep w1 w2 w3 v c :
  then_ w1 v c w2 → then_ w2 (wview w2) (wo_configs w2) w3 → then_ w1 v c w3.
Proof.
  intros (Hv&Hc&?) (Hv'&Hc'&?). apply then_intro; [by rewrite Hv'|by rewrite Hc'|lia].
Qed.

Lemma then_equiv w1 w2 v v' c : v ≡ v' → then_ w1 v c w2 → then_ w1 v' c w2.
Proof. intros Hv (?&?&?). split_and!; [by rewrite <- Hv|done..]. Qed.

(** ** The rules of the backend calls whose outcome depends on the state *)

Lemma wp_st_CreateJob j w (Q : res unit → World S → Prop) :
  v_jobs (wview w) !! j_ID j = None →
  (∀ w', then_ w (set_v_jobs (<[j_ID j := j]> (v_jobs (wview w))) (wview w)) (wo_configs w) w' →
     Q (Ok tt) w') →
  wp (use (st_CreateJob j)) w Q.
Proof.
  intros Hj. pose proof (law_CreateJob j (wo_store w)) as Hl. unfold wview in *.
  rewrite Hj in Hl. by apply wp_use.
Qed.

Lemma wp_st_CreateJob_dup j w (Q : res unit → World S → Prop) :
  is_Some (v_jobs (wview w) !! j_ID j) →
  (∀ w', then_ w (wview w) (wo_configs w) w' → Q (Err ErrJobAlreadyExists) w') →
  wp (use (st_CreateJob j)) w Q.
Proof.
  intros [j0 Hj]. pose proof (law_CreateJob j (wo_store w)) as Hl. unfold wview in *.
  rewrite Hj in Hl. by apply wp_use.
Qed.

Lemma wp_st_GetJob id j w (Q : res Job → World S → Prop) :
  v_jobs (wview w) !! id = Some j →
  (∀ w', then_ w (wview w) (wo_configs w) w' → Q (Ok j) w') →
  wp (use (st_GetJob id)) w Q.
Proof.
  intros Hj. pose proof (law_GetJob id (wo_store w)) as Hl. unfold wview in *.
  rewrite Hj in Hl. by apply wp_use.
Qed.

Lemma wp_st_GetJob_none id w (Q : res Job → World S → Prop) :
  v_jobs (wview w) !! id = None →
  (∀ w', then_ w (wview w) (wo_configs w) w' → Q (Err ErrJobNotFound) w') →
  wp (use (st_GetJob id)) w Q.
Proof.
  intros Hj. pose proof (law_GetJob id (wo_store w)) as Hl. unfold wview in *.
  rewrite Hj in Hl. by apply wp_use.
Qed.

(** The entry that [Enqueue] and [Requeue] add is due the delay after the first
    reading of the clock. *)
Lemma wp_st_Enqueue q id p d w (Q : res unit → World S → Prop) :
  is_Some (v_jobs (wview w) !! id) →
  (∀ w', then_ w (set_v_queue q (mkWaiting id p (Add (now_of w) d) :: v_queue (wview w) q)
                    (wview w)) (wo_configs w) w' → Q (Ok tt) w') →
  wp (call (λ clk, st_Enqueue clk q id p d)) w Q.
Proof.
  intros [j Hj] HQ.
  pose proof (law_Enqueue (λ i, rt_now (wo_tick w + i)) q id p d (wo_store w)) as Hl.
  unfold wview, now_of in *. rewrite Hj, Nat.add_0_r in Hl. by apply (wp_call _ _ _ _ _ Hl).
Qed.

Lemma wp_st_Requeue q id p d w (Q : res unit → World S → Prop) :
  is_Some (v_jobs (wview w) !! id) →
  (∀ w', then_ w (set_v_queue q (mkWaiting id p (Add (now_of w) d) :: v_queue (wview w) q)
                    (wview w)) (wo_configs w) w' → Q (Ok tt) w') →
  wp (call (λ clk, st_Requeue clk q id p d)) w Q.
Proof.
  intros [j Hj] HQ.
  pose proof (law_Requeue (λ i, rt_now (wo_tick w + i)) q id p d (wo_store w)) as Hl.
  unfold wview, now_of in *. rewrite Hj, Nat.add_0_r in Hl. by apply (wp_call _ _ _ _ _ Hl).
Qed.

(** The calls that change one job: [call] and [use] forms. *)
Lemma wp_updates_job_call P id (op : Clock → M S unit) w j (Q : res unit → World S → Prop) :
  (∀ clk, updates_job view P id (op clk)) → v_jobs (wview w) !! id = Some j →
  (∀ j' w', P j j' →
     then_ w (set_v_jobs (<[id := j']> (v_jobs (wview w))) (wview w)) (wo_configs w) w' →
     Q (Ok tt) w') →
  wp (call op) w Q.
Proof.
  intros Hop Hj HQ. pose proof (Hop (λ i, rt_now (wo_tick w + i)) (wo_store w)) as Hl.
  unfold wview in *. rewrite Hj in Hl. destruct Hl as (j' & HP & Hl).
  apply (wp_call _ _ _ _ _ Hl). eauto.
Qed.

Lemma wp_st_UpdateJob j j0 w (Q : res unit → World S → Prop) :
  v_jobs (wview w) !! j_ID j = Some j0 →
  (∀ w', then_ w (set_v_jobs (<[j_ID j := j]> (v_jobs (wview w))) (wview w)) (wo_configs w) w' →
     Q (Ok tt) w') →
  wp (use (st_UpdateJob j)) w Q.
Proof.
  intros Hj HQ. pose proof (law_UpdateJob j (wo_store w)) as Hl.
  unfold wview in *. rewrite Hj in Hl. destruct Hl as (j' & -> & Hl).
  apply (wp_use _ _ _ _ _ Hl). eauto.
Qed.

Lemma wp_silent (op : M S unit) w (Q : res unit → World S → Prop) :
  silent view op → (∀ w', then_ w (wview w) (wo_configs w) w' → Q (Ok tt) w') →
  wp (use op) w Q.
Proof. intros Hop. apply wp_use, Hop. Qed.

(** A change of the worker table, whether or not the worker is registered. *)
Lemma wp_updates_worker f id (op : M S unit) w (Q : res unit → World S → Prop) :
  updates_worker view f id op →
  (∀ r w', is_Panic r = false →
     then_ w (set_v_workers (alter f id (v_workers (wview w))) (wview w)) (wo_configs w) w' →
     Q r w') →
  wp (use op) w Q.
Proof.
  intros Hop HQ. pose proof (Hop (wo_store w)) as Hl. unfold wview in *.
  destruct (v_workers (view (wo_store w)) !! id) as [x|] eqn:Hx.
  - apply (wp_use _ _ _ _ _ Hl). intros w' Hw'. apply HQ; [done|].
    by rewrite (alter_alt_Some _ _ _ x).
  - apply (wp_use _ _ _ _ _ Hl). intros w' Hw'. apply HQ; [done|].
    eapply then_equiv, Hw'. rewrite alter_alt, Hx. by split_and!.
Qed.

(** [Dequeue] at the time of its call. *)
Lemma wp_st_Dequeue q w (Q : res string → World S → Prop) :
  (∀ r w', dequeue_contract (now_of w) q (wview w) r (wview w') →
     wo_configs w' = wo_configs w → (wo_tick w ≤ wo_tick w')%nat → Q r w') →
  wp (call (λ clk, st_Dequeue clk q)) w Q.
Proof.
  intros HQ. unfold wp, call.
  destruct (law_Dequeue (λ i, rt_now (wo_tick w + i)) q (wo_store w)) as (r & s' & Hd & Hc).
  rewrite Hd. simpl. rewrite Nat.add_0_r in Hc. apply HQ; [done..|simpl; lia].
Qed.

End views.

#[export] Hint Resolve now_of_mono : gotask.
