(* ===== verification/Manager.v ===== *)
(** * The queue manager (internal/queue/manager.go) and the processor of
      scheduled jobs (internal/queue/scheduler.go)

    One definition per method, over any storage backend. The manager's lock
    protects only the cache of configurations; a method is the sequence of its
    cache accesses and backend calls. *)

From S2P Require Import Prelude Errors GoMonad Job Storage World.

Section manager.
Context {S : Type} `{Storage S} `{Runtime} `{MapRange}.

(** ** Queue configuration *)

(** [loadConfigs] and [NewManager]: the manager is the world whose cache has the
    configurations of the backend. *)
Definition loadConfigs : M (World S) unit :=
  configs ← use st_ListQueueConfigs;
  modify (λ w, set_wo_configs
    (foldl (λ acc config, <[c_Name config := config]> acc) (wo_configs w) configs) w).

Definition NewManager (store : S) (tick rand : nat) : res unit * World S :=
  wrap_err "failed to load queue configs" loadConfigs (mkWorld store ∅ tick rand).

(** The assignments of [RegisterQueue] to the configuration it is given. *)
Definition set_defaults (config : QueueConfig) : QueueConfig :=
  let config := if c_MaxWorkers config =? 0 then set_c_MaxWorkers 10 config else config in
  let config := if c_MaxRetries config =? 0 then set_c_MaxRetries 3 config else config in
  let config := if bool_decide (c_RetryStrategy config = "")
                then set_c_RetryStrategy RetryStrategyExponential config else config in
  let config := if c_RetryDelay config =? 0 then set_c_RetryDelay 60 config else config in
  let config := if c_MaxRetryDelay config =? 0 then set_c_MaxRetryDelay 3600 config else config in
  let config := if c_Timeout config =? 0 then set_c_Timeout 300 config else config in
  if c_Weight config =? 0 then set_c_Weight 1 config else config.

(** [RegisterQueue]; the result is the configuration as the call leaves it. *)
Definition RegisterQueue (config : QueueConfig) : M (World S) QueueConfig :=
  if bool_decide (c_Name config = "")
  then throw (NewValidationError "queue name is required" "")
  else
    let config := set_defaults config in
    wrap_err "failed to save queue config" (use (st_SaveQueueConfig config)) ;;
    put_config (c_Name config) config ;;
    mret config.

Definition GetQueueConfig (name : string) : M (World S) QueueConfig :=
  configs ← get_configs;
  match configs !! name with
  | Some config => mret config
  | None =>
      r ← attempt (use (st_GetQueueConfig name));
      match r with
      | inr _ => throw (NewQueueError ("queue config not found: " +:+ name) "" None)
      | inl config => put_config name config ;; mret config
      end
  end.

Definition UpdateQueueConfig (config : QueueConfig) : M (World S) unit :=
  if bool_decide (c_Name config = "")
  then throw (NewValidationError "queue name is required" "")
  else
    configs ← get_configs;
    match configs !! c_Name config with
    | None => throw (NewQueueError ("queue not found: " +:+ c_Name config) "" None)
    | Some _ =>
        wrap_err "failed to update queue config" (use (st_SaveQueueConfig config)) ;;
        put_config (c_Name config) config
    end.

Definition DeleteQueue (name : string) : M (World S) unit :=
  len ← use (st_Length name);
  if 0 <? len
  then throw (NewQueueError ("cannot delete non-empty queue: " +:+ name) "" None)
  else
    wrap_err "failed to delete queue config" (use (st_DeleteQueueConfig name)) ;;
    modify (λ w, set_wo_configs (delete name (wo_configs w)) w).

Definition ListQueues : M (World S) (list QueueConfig) :=
  configs ← get_configs;
  mret (range_values configs).

(** ** Enqueueing *)

(** The configuration [Enqueue] registers for an unknown queue. *)
Definition auto_config (queue : string) : QueueConfig := {|
  c_Name := queue;
  c_MaxWorkers := 10;
  c_MaxRetries := 3;
  c_RetryStrategy := RetryStrategyExponential;
  c_DefaultTimeout := 0;
  c_Timeout := 300;
  c_Priority := PriorityNormal;
  c_RateLimit := 0;
  c_Weight := 1;
  c_IsPaused := false;
  c_RetryDelay := 60;
  c_MaxRetryDelay := 3600;
  c_DeadLetterQueue := "";
|}.

Definition default_queue (j : Job) : Job :=
  if bool_decide (j_Queue j = "") then set_j_Queue "default" j else j.

Definition job_defaults (config : QueueConfig) (j : Job) : Job :=
  let j := if j_MaxRetries j =? 0 then set_j_MaxRetries (c_MaxRetries config) j else j in
  if j_TimeoutSeconds j =? 0 then set_j_TimeoutSeconds (c_Timeout config) j else j.

(** The delay of a scheduled job: [time.Now()] is read to compare, and again by
    [time.Until]. *)
Definition enqueue_delay (j : Job) : M (World S) Duration :=
  now ← Now;
  match j_ScheduledAt j with
  | Some t => if After t now then now' ← Now; mret (Sub t now') else mret 0
  | None => mret 0
  end.

(** The lookup at the start of [Enqueue]: an unknown queue is registered. *)
Definition ensure_config (queue : string) : M (World S) QueueConfig :=
  r ← attempt (GetQueueConfig queue);
  match r with
  | inl config => mret config
  | inr _ => RegisterQueue (auto_config queue)
  end.

(** [Enqueue]; the result is the job as the call leaves it. *)
Definition Enqueue (j : Job) : M (World S) Job :=
  let j := default_queue j in
  config ← ensure_config (j_Queue j);
  let j := job_defaults config j in
  wrap_err "failed to create job" (use (st_CreateJob j)) ;;
  delay ← enqueue_delay j;
  wrap_err "failed to enqueue job"
    (call (λ clk, st_Enqueue clk (j_Queue j) (j_ID j) (j_Priority j) delay)) ;;
  warn (use (st_RecordJobCreated (j_Queue j) (j_Type j))) ;;
  mret j.

(** ** Dequeueing *)

(** [type queueCandidate struct]. *)
Record queueCandidate : Type := mkCandidate {
  qc_name : string;
  qc_priority : Z;
  qc_weight : Z;
  qc_length : Z;
}.

(** The candidates of [selectQueue]: the configured queues that are neither
    paused nor empty, in the order given. *)
Fixpoint gather (configs : gmap string QueueConfig) (queues : list string) :
    M (World S) (list queueCandidate) :=
  match queues with
  | [] => mret []
  | qName :: rest =>
      match configs !! qName with
      | None => gather configs rest
      | Some config =>
          paused ← attempt (use (st_IsQueuePaused qName));
          match paused with
          | inl false =>
              len ← attempt (use (st_Length qName));
              match len with
              | inl n =>
                  if n =? 0 then gather configs rest
                  else
                    cs ← gather configs rest;
                    mret (mkCandidate qName (c_Priority config) (c_Weight config) n :: cs)
              | inr _ => gather configs rest
              end
          | _ => gather configs rest
          end
      end
  end.

Definition max_priority (cs : list queueCandidate) : Z :=
  foldl (λ acc c, if acc <? qc_priority c then qc_priority c else acc) PriorityLow cs.

Definition total_weight (cs : list queueCandidate) : Z :=
  foldl (λ acc c, wrap64 (acc + qc_weight c)) 0 cs.

(** The loop that turns the random number into a candidate. *)
Fixpoint pick (r cumWeight : Z) (cs : list queueCandidate) : option string :=
  match cs with
  | [] => None
  | c :: rest =>
      let cumWeight := wrap64 (cumWeight + qc_weight c) in
      if r <? cumWeight then Some (qc_name c) else pick r cumWeight rest
  end.

(** The candidates of the highest priority, where 0 is the least maximum. *)
Definition top_candidates (cs : list queueCandidate) : list queueCandidate :=
  filter (λ c, qc_priority c = max_priority cs) cs.

Definition selectQueue (queues : list string) : M (World S) string :=
  configs ← get_configs;
  candidates ← gather configs queues;
  match candidates with
  | [] => mret ""
  | _ =>
      let high := top_candidates candidates in
      match high with
      | [c] => mret (qc_name c)
      | _ =>
          r ← Intn (total_weight high);
          match pick r 0 high, high with
          | Some name, _ => mret name
          | None, c :: _ => mret (qc_name c)
          | None, [] => panic "index out of range"
          end
      end
  end.

(** The loop of [Dequeue] over the other queues; [err] is the error in force. *)
Fixpoint try_others (selected : string) (queues : list string) (err : error) :
    M (World S) (string + error) :=
  match queues with
  | [] => mret (inr err)
  | qName :: rest =>
      if bool_decide (qName = selected) then try_others selected rest err
      else
        r ← attempt (call (λ clk, st_Dequeue clk qName));
        match r with
        | inl jobID => mret (inl jobID)
        | inr err => try_others selected rest err
        end
  end.

Definition Dequeue (queues : list string) : M (World S) Job :=
  if bool_decide (queues = []) then throw (NewQueueError "no queues specified" "" None)
  else
    selected ← selectQueue queues;
    if bool_decide (selected = "") then throw ErrQueueEmpty
    else
      r ← attempt (call (λ clk, st_Dequeue clk selected));
      jobID ← match r with
              | inl jobID => mret jobID
              | inr err =>
                  if is_ErrQueueEmpty err then
                    r ← try_others selected queues err;
                    match r with inl jobID => mret jobID | inr err => throw err end
                  else throw err
              end;
      wrap_err "failed to get job" (use (st_GetJob jobID)).

Definition Requeue (j : Job) (delay : Duration) : M (World S) unit :=
  wrap_err "failed to update job" (use (st_UpdateJob j)) ;;
  wrap_err "failed to requeue job"
    (call (λ clk, st_Requeue clk (j_Queue j) (j_ID j) (j_Priority j) delay)).

Definition RemoveJob (queue jobID : string) : M (World S) unit :=
  wrap_err "failed to remove job" (use (st_Remove queue jobID)).

(** ** Queue operations *)

Definition PauseQueue (name : string) : M (World S) unit :=
  wrap_err "failed to pause queue" (use (st_PauseQueue name)).

Definition ResumeQueue (name : string) : M (World S) unit :=
  wrap_err "failed to resume queue" (use (st_ResumeQueue name)).

Definition IsQueuePaused (name : string) : M (World S) bool := use (st_IsQueuePaused name).

Definition GetQueueLength (name : string) : M (World S) Z := use (st_Length name).

(** The loop of [PeekQueue]: a job that cannot be read is skipped. *)
Fixpoint get_jobs (ids : list string) : M (World S) (list Job) :=
  match ids with
  | [] => mret []
  | id :: rest =>
      r ← attempt (use (st_GetJob id));
      js ← get_jobs rest;
      mret (match r with inl j => j :: js | inr _ => js end)
  end.

Definition PeekQueue (name : string) (count : Z) : M (World S) (list Job) :=
  jobIDs ← use (st_Peek name count);
  get_jobs jobIDs.

Definition GetQueueStats (name : string) : M (World S) QueueStats := use (st_GetQueueStats name).

Definition GetAllQueueStats : M (World S) (gmap string QueueStats) := use st_GetQueueStatsAll.

(** ** Job operations *)

Definition GetJob (id : string) : M (World S) Job := use (st_GetJob id).

Definition UpdateJob (j : Job) : M (World S) unit := use (st_UpdateJob j).

Definition DeleteJob (id : string) : M (World S) unit := use (st_DeleteJob id).

Definition ListJobs (queue status : string) (limit offset : Z) : M (World S) (list Job) :=
  use (st_ListJobs queue status limit offset).

Definition UpdateJobStatus (id status : string) : M (World S) unit :=
  call (λ clk, st_UpdateStatus clk id status).

Definition UpdateJobProgress (id : string) (progress : Z) : M (World S) unit :=
  call (λ clk, st_UpdateProgress clk id progress).

Definition SetJobResult (id result : string) : M (World S) unit :=
  call (λ clk, st_SetResult clk id result).

Definition SetJobError (id errMsg : string) : M (World S) unit :=
  call (λ clk, st_SetError clk id errMsg).

Definition CancelJob (id : string) : M (World S) unit :=
  j ← use (st_GetJob id);
  if IsTerminal j then throw (NewJobError "job is already in terminal state" "" None)
  else
    call (λ clk, st_UpdateStatus clk id StatusCancelled) ;;
    if bool_decide (j_Status j = StatusPending)
    then warn (use (st_Remove (j_Queue j) id))
    else mret tt.

(** ** The processor of scheduled jobs

    [NewScheduledJobProcessor] keeps an interval; [processScheduledJobs] reads
    the queues and prints. *)

Definition processor_interval (interval : Duration) : Duration :=
  if interval =? 0 then 1 * Second else interval.

Fixpoint scheduled_of (now : Time) (queues : list string) : M (World S) unit :=
  match queues with
  | [] => mret tt
  | qName :: rest =>
      r ← attempt (use (st_GetScheduled qName now));
      scheduled_of now rest
  end.

Definition processScheduledJobs : M (World S) unit :=
  configs ← get_configs;
  now ← Now;
  scheduled_of now (map_range configs).*1.

End manager.
