(* ===== verification/ManagerProps.v ===== *)
(** * The queue manager: configurations, enqueueing, job operations

    Proved for any backend that satisfies the storage contract. *)

From S2P Require Import Prelude Errors GoMonad Job Storage World Manager.
From S2P Require MemoryStore MemoryJobs MemoryLaws.

(** One step of a proof about a call: the rule of the outermost combinator. *)
Ltac wp_step :=
  cbv beta iota;
  lazymatch goal with
  | |- wp (_ ≫= _) _ _ => apply wp_bind
  | |- wp (wrap_err _ _) _ _ => apply wp_wrap
  | |- wp (attempt _) _ _ => apply wp_attempt
  | |- wp (warn _) _ _ => apply wp_warn
  | |- wp (mret _) _ _ => apply wp_ret
  | |- wp (throw _) _ _ => apply wp_throw
  | |- wp get_configs _ _ => apply wp_get_configs
  | |- wp (put_config _ _) _ _ => apply wp_put_config
  | |- wp (modify _) _ _ => unfold wp, modify; simpl
  | |- wp Now _ _ => apply wp_Now
  end.

(** A backend call, given the law that determines its outcome. *)
Ltac wp_op law :=
  first [ eapply wp_use; [exact law|] | eapply wp_call; [exact law|] ].

(** Names for what a step leaves. *)
Ltac wp_intro w Hv Hc Ht := intros w (Hv & Hc & Ht).

Section props.
Context {S : Type} `{L : StorageLaws S} `{R : Runtime} `{MR : MapRange}.
Implicit Types (w : World S) (v : View).

(** ** Configurations *)

(** The configuration a job of the queue [q] is enqueued with. *)
Definition effective_config (v : View) (cache : gmap string QueueConfig) (q : string) :
    QueueConfig :=
  match cache !! q with
  | Some c => c
  | None => match v_configs v !! q with Some c => c | None => auto_config q end
  end.

(** The cache and the backend hold the same configurations. *)
Definition coherent (w : World S) : Prop := wo_configs w = v_configs (wview w).

Lemma set_defaults_name c : c_Name (set_defaults c) = c_Name c.
Proof. unfold set_defaults. by repeat case_match. Qed.

Lemma set_defaults_auto q : set_defaults (auto_config q) = auto_config q.
Proof. reflexivity. Qed.

Lemma wp_RegisterQueue c w Q :
  c_Name c ≠ "" →
  (∀ w', then_ w (set_v_configs (<[c_Name c := set_defaults c]> (v_configs (wview w))) (wview w))
           (<[c_Name c := set_defaults c]> (wo_configs w)) w' → Q (Ok (set_defaults c)) w') →
  wp (RegisterQueue c) w Q.
Proof.
  intros Hn HQ. unfold RegisterQueue. rewrite bool_decide_false by done. cbv zeta.
  wp_step. wp_step. wp_op (law_SaveQueueConfig (set_defaults c) (wo_store w)).
  wp_intro w1 Hv Hc Ht. wp_step. wp_step. wp_intro w2 Hv2 Hc2 Ht2. wp_step. apply HQ.
  rewrite set_defaults_name in *. apply then_intro.
  - by rewrite Hv2, Hv.
  - by rewrite Hc2, Hc.
  - lia.
Qed.

(** [GetQueueConfig] reads through the cache. *)
Lemma wp_GetQueueConfig q w Q :
  (∀ c, wo_configs w !! q = Some c → Q (Ok c) w) →
  (∀ c w', wo_configs w !! q = None → v_configs (wview w) !! q = Some c →
     then_ w (wview w) (<[q := c]> (wo_configs w)) w' → Q (Ok c) w') →
  (∀ w', wo_configs w !! q = None → v_configs (wview w) !! q = None →
     then_ w (wview w) (wo_configs w) w' →
     Q (Err (NewQueueError ("queue config not found: " +:+ q) "" None)) w') →
  wp (GetQueueConfig q) w Q.
Proof.
  intros H1 H2 H3. unfold GetQueueConfig. wp_step. wp_step.
  destruct (wo_configs w !! q) as [c|] eqn:Hc; [wp_step; by apply H1|].
  wp_step. wp_step. pose proof (law_GetQueueConfig q (wo_store w)) as Hl.
  unfold wview in *. destruct (v_configs (view (wo_store w)) !! q) as [c|] eqn:Hs.
  - wp_op Hl. wp_intro w1 Hv1 Hc1 Ht1. wp_step. wp_step. wp_intro w2 Hv2 Hc2 Ht2. wp_step.
    apply H2; [done..|]. apply then_intro; [by rewrite Hv2|by rewrite Hc2, Hc1|lia].
  - destruct Hl as [e Hl]. wp_op Hl. intros w1 Hw1. wp_step. by apply H3.
Qed.

(** The store and the cache after the lookup. *)
Definition ensured (q : string) (w w' : World S) : Prop :=
  let c := effective_config (wview w) (wo_configs w) q in
  then_ w
    (match wo_configs w !! q, v_configs (wview w) !! q with
     | None, None => set_v_configs (<[q := c]> (v_configs (wview w))) (wview w)
     | _, _ => wview w
     end)
    (<[q := c]> (wo_configs w)) w'.

Lemma wp_ensure_config q w Q :
  q ≠ "" →
  (∀ w', ensured q w w' → Q (Ok (effective_config (wview w) (wo_configs w) q)) w') →
  wp (ensure_config q) w Q.
Proof.
  intros Hq. unfold ensured, effective_config. intros HQ. unfold ensure_config. wp_step. wp_step.
  apply wp_GetQueueConfig.
  - intros c Hc. rewrite Hc in HQ. wp_step. apply HQ. by rewrite insert_id.
  - intros c w1 Hc Hs Hw. rewrite Hc, Hs in HQ. wp_step. by apply HQ.
  - intros w1 Hc Hs (Hv1 & Hc1 & Ht1). rewrite Hc, Hs in HQ.
    apply wp_RegisterQueue; [done|]. rewrite set_defaults_auto. wp_intro w2 Hv2 Hc2 Ht2.
    apply HQ. apply then_intro.
    + rewrite Hv2. by rewrite Hv1.
    + by rewrite Hc2, Hc1.
    + lia.
Qed.

Lemma ensured_then q w w' :
  ensured q w w' →
  v_jobs (wview w') = v_jobs (wview w) ∧
  (∀ q', v_queue (wview w') q' ≡ₚ v_queue (wview w) q') ∧
  (∀ q', v_paused (wview w') q' = v_paused (wview w) q') ∧
  v_workers (wview w') = v_workers (wview w) ∧ (wo_tick w ≤ wo_tick w')%nat.
Proof.
  intros (Hv & _ & Ht). destruct (wo_configs w !! q), (v_configs (wview w) !! q);
    by destruct Hv as (?&?&?&?&?).
Qed.

(** ** Enqueueing *)

Lemma default_queue_nonempty j : j_Queue (default_queue j) ≠ "".
Proof. unfold default_queue. by case_bool_decide. Qed.

Lemma job_defaults_fields c j :
  j_ID (job_defaults c j) = j_ID j ∧ j_Queue (job_defaults c j) = j_Queue j ∧
  j_Priority (job_defaults c j) = j_Priority j ∧ j_Type (job_defaults c j) = j_Type j ∧
  j_ScheduledAt (job_defaults c j) = j_ScheduledAt j.
Proof. unfold job_defaults. by repeat case_match. Qed.

Lemma default_queue_fields j :
  j_ID (default_queue j) = j_ID j ∧ j_Priority (default_queue j) = j_Priority j ∧
  j_ScheduledAt (default_queue j) = j_ScheduledAt j.
Proof. unfold default_queue. by case_bool_decide. Qed.

(** A delay computed now reaches the scheduled time from any later instant. *)
Definition delay_ok (j : Job) (now now' : Time) (d : Duration) : Prop :=
  match j_ScheduledAt j with
  | None => d = 0
  | Some t => if After t now then t - now ≤ max_int64 → d ≤ t - now ∧ t - now' ≤ d else d = 0
  end.

Lemma wp_enqueue_delay j w Q :
  (∀ d w', then_ w (wview w) (wo_configs w) w' → delay_ok j (now_of w) (now_of w') d →
     Q (Ok d) w') →
  wp (enqueue_delay j) w Q.
Proof.
  intros HQ. unfold enqueue_delay, delay_ok in *. wp_step. wp_step. intros w1 Hw1 Hn1.
  destruct (j_ScheduledAt j) as [t|]; [|wp_step; by apply HQ].
  destruct (After t (now_of w)) eqn:Ha; [|wp_step; by apply HQ].
  wp_step. wp_step. intros w2 Hw2 Hn2. wp_step. apply HQ; [by eapply then_keep|].
  intros Ht. unfold Sub, max_int64, min_int64, After in *. lia.
Qed.

(** The job that [Enqueue] stores. *)
Definition enqueued_job (w : World S) (j : Job) : Job :=
  job_defaults (effective_config (wview w) (wo_configs w) (j_Queue (default_queue j)))
    (default_queue j).

Lemma enqueued_job_fields w j :
  j_ID (enqueued_job w j) = j_ID j ∧ j_Priority (enqueued_job w j) = j_Priority j ∧
  j_ScheduledAt (enqueued_job w j) = j_ScheduledAt j ∧
  j_Queue (enqueued_job w j) = j_Queue (default_queue j).
Proof.
  unfold enqueued_job. set (c := effective_config _ _ _).
  destruct (job_defaults_fields c (default_queue j)) as (->&->&->&_&->).
  by destruct (default_queue_fields j) as (->&->&->).
Qed.

(** The state after a job entered its queue with the due time [d]. *)
Definition enqueued (j' : Job) (d : Time) (w w' : World S) : Prop :=
  v_jobs (wview w') = <[j_ID j' := j']> (v_jobs (wview w)) ∧
  (∀ q, v_queue (wview w') q ≡ₚ
     if bool_decide (q = j_Queue j')
     then mkWaiting (j_ID j') (j_Priority j') d :: v_queue (wview w) q
     else v_queue (wview w) q) ∧
  (∀ q, v_paused (wview w') q = v_paused (wview w) q) ∧
  v_workers (wview w') = v_workers (wview w).

(** When a job that was enqueued between the worlds [w] and [w'] becomes due: at
    once, or not before the time it is scheduled at. *)
Definition due_time_ok (j : Job) (w w' : World S) (d : Time) : Prop :=
  match j_ScheduledAt j with
  | None => d ≤ now_of w'
  | Some t =>
      if After t (now_of w) then t - now_of w ≤ max_int64 → t ≤ d else d ≤ now_of w'
  end.

Lemma wp_Enqueue_new j w Q :
  v_jobs (wview w) !! j_ID j = None →
  (∀ w1 w' d, ensured (j_Queue (enqueued_job w j)) w w1 →
     wo_configs w' = wo_configs w1 → v_configs (wview w') = v_configs (wview w1) →
     (wo_tick w ≤ wo_tick w')%nat →
     enqueued (enqueued_job w j) d w w' →
     due_time_ok j w w' d →
     Q (Ok (enqueued_job w j)) w') →
  wp (Enqueue j) w Q.
Proof.
  intros Hnew HQ. destruct (enqueued_job_fields w j) as (Hid & Hpr & Hsch & Hqu).
  unfold Enqueue. cbv zeta. wp_step.
  apply wp_ensure_config; [apply default_queue_nonempty|]. intros w1 Hens.
  fold (enqueued_job w j). set (j' := enqueued_job w j) in *. rewrite <- Hqu in Hens.
  destruct (ensured_then _ _ _ Hens) as (Hj1 & Hq1 & Hp1 & Hw1 & Ht1).
  wp_step. wp_step. apply wp_st_CreateJob; [by rewrite Hj1, Hid|]. intros w2 Hw2.
  wp_step. apply wp_enqueue_delay. intros delay w3 Hw3 Hd.
  destruct (then_keep _ _ _ _ _ Hw2 Hw3) as (Hv3 & Hc3 & Ht3).
  wp_step. wp_step. apply wp_st_Enqueue; [rewrite Hv3; simpl; by rewrite lookup_insert_eq|].
  intros w4 Hw4. wp_step. wp_step. apply wp_silent; [apply law_RecordJobCreated|].
  intros w5 Hw5. wp_step. destruct (then_keep _ _ _ _ _ Hw4 Hw5) as (Hv5 & Hc5 & Ht5).
  rewrite Hv3 in Hv5. clear Hw5 Hw4.
  apply (HQ w1 w5 (Add (now_of w3) delay)); [done|congruence| |lia| |].
  - by rewrite Hv5.
  - split_and!.
    + rewrite Hv5. simpl. by rewrite Hj1.
    + intros q. rewrite Hv5. simpl. rewrite Hid. case_bool_decide; [|apply Hq1].
      subst. by rewrite Hq1.
    + intros q. rewrite Hv5. apply Hp1.
    + by rewrite Hv5.
  - unfold due_time_ok, delay_ok, Add in *. rewrite Hsch in Hd.
    assert (now_of w ≤ now_of w2) by (apply now_of_mono; destruct Hw2 as (_&_&?); lia).
    assert (now_of w2 ≤ now_of w3) by (apply now_of_mono; destruct Hw3 as (_&_&?); lia).
    assert (now_of w3 ≤ now_of w5) by (apply now_of_mono; lia).
    unfold After in *. destruct (j_ScheduledAt j) as [t|]; [|lia].
    destruct (Z.ltb_spec (now_of w) t), (Z.ltb_spec (now_of w2) t); lia.
Qed.

(** The duplicate case: only the configuration lookup has an effect. *)
Lemma wp_Enqueue_dup j w Q :
  is_Some (v_jobs (wview w) !! j_ID j) →
  (∀ w', ensured (j_Queue (default_queue j)) w w' →
     Q (Err (Wrapf "failed to create job" ErrJobAlreadyExists)) w') →
  wp (Enqueue j) w Q.
Proof.
  intros Hdup HQ. destruct (enqueued_job_fields w j) as (Hid & _).
  unfold Enqueue. cbv zeta. wp_step.
  apply wp_ensure_config; [apply default_queue_nonempty|]. intros w1 Hens.
  fold (enqueued_job w j).
  destruct (ensured_then _ _ _ Hens) as (Hj1 & _).
  wp_step. wp_step. apply wp_st_CreateJob_dup; [by rewrite Hj1, Hid|]. intros w2 (Hv2 & Hc2 & Ht2).
  apply HQ. destruct Hens as (Hv1 & Hc1 & Ht1). apply then_intro.
  - by rewrite Hv2.
  - by rewrite Hc2.
  - lia.
Qed.

Lemma ensured_coherent q w w' : coherent w → ensured q w w' → coherent w'.
Proof.
  unfold coherent, ensured, effective_config. intros Hco (Hv & Hc & _). rewrite Hc, Hco in *.
  destruct (v_configs (wview w) !! q) as [c|] eqn:E; rewrite Hv; [by apply insert_id|done].
Qed.

(** ** Cancelling *)

(** The queue of a cancelled job: one entry of the job is gone, or it had none. *)
Definition one_removed (q id : string) (v v' : View) : Prop :=
  (∃ x, wt_job x = id ∧ v_queue v q ≡ₚ x :: v_queue v' q) ∨
  ((∀ x, x ∈ v_queue v q → wt_job x ≠ id) ∧ v_queue v' q ≡ₚ v_queue v q).

Lemma wp_st_Remove q id w (Q : res unit → World S → Prop) :
  (∀ r w', is_Panic r = false → one_removed q id (wview w) (wview w') →
     (∀ q', q' ≠ q → v_queue (wview w') q' ≡ₚ v_queue (wview w) q') →
     v_jobs (wview w') = v_jobs (wview w) → Q r w') →
  wp (use (st_Remove q id)) w Q.
Proof.
  intros HQ. destruct (law_Remove q id (wo_store w)) as [(x & rest & Hq & Hx & Hr)|[Hn Hr]];
    wp_op Hr; intros w' (Hv & _); apply HQ; try done.
  - left. exists x. split; [done|]. rewrite Hv. simpl. by rewrite bool_decide_true.
  - intros q' Hne. rewrite Hv. simpl. by rewrite bool_decide_false.
  - by rewrite Hv.
  - right. split; [done|]. by rewrite Hv.
  - intros q' _. by rewrite Hv.
  - by rewrite Hv.
Qed.

Lemma wp_CancelJob_active w id j :
  v_jobs (wview w) !! id = Some j → IsTerminal j = false →
  wp (CancelJob id) w (λ r w', ∃ j', r = Ok tt ∧ same_job j j' ∧
    j_Status j' = StatusCancelled ∧ v_jobs (wview w') = <[id := j']> (v_jobs (wview w)) ∧
    (if bool_decide (j_Status j = StatusPending)
     then one_removed (j_Queue j) id (wview w) (wview w')
     else v_queue (wview w') (j_Queue j) ≡ₚ v_queue (wview w) (j_Queue j)) ∧
    (∀ q, q ≠ j_Queue j → v_queue (wview w') q ≡ₚ v_queue (wview w) q)).
Proof.
  intros Hj Ht.
  unfold CancelJob. wp_step. apply wp_st_GetJob with j; [done|]. intros w1 (Hv1 & _).
  cbv beta iota. rewrite Ht. wp_step.
  eapply wp_updates_job_call; [intros; apply law_UpdateStatus|rewrite Hv1; exact Hj|].
  intros j' w2 (Hsame & Hst & _) (Hv2 & _). rewrite Hv1 in Hv2. case_bool_decide as Hp.
  - wp_step. apply wp_st_Remove. intros r w3 Hr Hone Hq Hjobs.
    assert (Hres : ∃ j'0, same_job j j'0 ∧ j_Status j'0 = StatusCancelled ∧
        v_jobs (wview w3) = <[id := j'0]> (v_jobs (wview w))).
    { exists j'. split_and!; try done. rewrite Hjobs, Hv2. done. }
    destruct Hres as (j'0 & ? & ? & ?). destruct r; try done; exists j'0; split_and!; try done.
    all: try (intros q Hne; rewrite Hq by done; by rewrite Hv2).
    all: unfold one_removed in *; setoid_rewrite Hv2 in Hone; done.
  - wp_step. exists j'. split_and!; try done; try (intros; by rewrite Hv2); by rewrite Hv2.
Qed.

End props.

(** ** Calls that touch the configurations *)

Section coherence.
Context {S : Type} `{L : StorageLaws S} `{R : Runtime} `{MR : MapRange}.
Implicit Types (w : World S).

Inductive config_call : Type :=
  | CallRegisterQueue (c : QueueConfig)
  | CallUpdateQueueConfig (c : QueueConfig)
  | CallDeleteQueue (name : string)
  | CallGetQueueConfig (name : string)
  | CallEnqueue (j : Job).

(** The world after a call, whatever it returns. *)
Definition run_config_call (w : World S) (c : config_call) : World S :=
  match c with
  | CallRegisterQueue c => (RegisterQueue c w).2
  | CallUpdateQueueConfig c => (UpdateQueueConfig c w).2
  | CallDeleteQueue name => (DeleteQueue name w).2
  | CallGetQueueConfig name => (GetQueueConfig name w).2
  | CallEnqueue j => (Enqueue j w).2
  end.

Lemma coherent_then w w' v c : then_ w v c w' → c = v_configs v → coherent w'.
Proof. intros (Hv & Hc & _) E. unfold coherent. by rewrite Hv, Hc. Qed.

Lemma RegisterQueue_coherent c w : coherent w → wp (RegisterQueue c) w (λ _, coherent).
Proof.
  intros Hco. destruct (decide (c_Name c = "")) as [Hn|Hn].
  { unfold RegisterQueue. rewrite bool_decide_true by done. by wp_step. }
  apply wp_RegisterQueue; [done|]. intros w' Hw'. eapply coherent_then; [done|]. simpl.
  by rewrite Hco.
Qed.

Lemma UpdateQueueConfig_coherent c w : coherent w → wp (UpdateQueueConfig c) w (λ _, coherent).
Proof.
  intros Hco. unfold UpdateQueueConfig. case_bool_decide; [by wp_step|]. wp_step. wp_step.
  case_match; [|by wp_step]. wp_step. wp_step.
  wp_op (law_SaveQueueConfig c (wo_store w)). intros w1 (Hv1 & Hc1 & _). cbv beta iota.
  wp_step. intros w2 (Hv2 & Hc2 & _). unfold coherent in *. rewrite Hv2, Hc2, Hv1, Hc1. simpl.
  by rewrite Hco.
Qed.

Lemma DeleteQueue_coherent q w : coherent w → wp (DeleteQueue q) w (λ _, coherent).
Proof.
  intros Hco. unfold DeleteQueue. wp_step. wp_op (law_Length q (wo_store w)).
  intros w1 (Hv1 & Hc1 & _). cbv beta iota.
  assert (Hco1 : coherent w1) by (unfold coherent in *; rewrite Hv1, Hc1; done).
  case_match; [by wp_step|]. wp_step. wp_step.
  wp_op (law_DeleteQueueConfig q (wo_store w1)). intros w2 (Hv2 & Hc2 & _). cbv beta iota.
  wp_step. unfold coherent in *. change (wview (set_wo_configs _ w2)) with (wview w2). simpl.
  rewrite Hv2. simpl. rewrite Hc2, Hco1. done.
Qed.

Lemma GetQueueConfig_coherent q w : coherent w → wp (GetQueueConfig q) w (λ _, coherent).
Proof.
  intros Hco. unfold coherent in *. apply wp_GetQueueConfig; [done|..].
  - intros c w' Hc Hs _. rewrite Hco, Hs in Hc. done.
  - intros w' _ _ Hw'. by eapply coherent_then.
Qed.

Lemma Enqueue_coherent j w : coherent w → wp (Enqueue j) w (λ _, coherent).
Proof.
  intros Hco. destruct (v_jobs (wview w) !! j_ID j) eqn:Hj.
  - apply wp_Enqueue_dup; [by eexists|]. intros w' Hw'. by eapply ensured_coherent.
  - apply wp_Enqueue_new; [done|]. intros w1 w' d Hens Hc Hv _ _ _.
    apply ensured_coherent in Hens; [|done]. unfold coherent in *. congruence.
Qed.

Lemma run_config_call_coherent w c : coherent w → coherent (run_config_call w c).
Proof.
  intros Hco. destruct c; simpl; auto using RegisterQueue_coherent, UpdateQueueConfig_coherent,
    DeleteQueue_coherent, GetQueueConfig_coherent, Enqueue_coherent.
  - by apply RegisterQueue_coherent.
  - by apply UpdateQueueConfig_coherent.
  - by apply DeleteQueue_coherent.
  - by apply GetQueueConfig_coherent.
  - by apply Enqueue_coherent.
Qed.

Lemma insert_all_lookup (l : list QueueConfig) (acc : gmap string QueueConfig) q :
  NoDup (c_Name <$> l) →
  foldl (λ acc c, <[c_Name c := c]> acc) acc l !! q =
    match list_find (λ c, c_Name c = q) l with Some (_, c) => Some c | None => acc !! q end.
Proof.
  revert acc. induction l as [|c l IH]; intros acc; [done|]. simpl. intros [Hnin Hnd]%NoDup_cons.
  rewrite IH by done. case_decide as Hq.
  - destruct (list_find _ l) as [[i c']|] eqn:E.
    + apply list_find_Some in E as (Hl & Hq' & _). exfalso. apply Hnin.
      rewrite Hq, <- Hq'. apply list_elem_of_fmap_2. by eapply list_elem_of_lookup_2.
    + by rewrite lookup_insert, decide_True.
  - destruct (list_find _ l) as [[i c']|]; simpl; [done|].
    by rewrite lookup_insert_ne.
Qed.

Lemma named_values (m : gmap string QueueConfig) :
  map_Forall (λ q c, c_Name c = q) m → c_Name <$> (map_to_list m).*2 = (map_to_list m).*1.
Proof.
  intros Hm. rewrite <- list_fmap_compose. apply list_fmap_ext. intros i [q c] Hi.
  apply list_elem_of_lookup_2, elem_of_map_to_list in Hi. by apply Hm.
Qed.

Lemma load_lookup (m : gmap string QueueConfig) l :
  map_Forall (λ q c, c_Name c = q) m → l ≡ₚ (map_to_list m).*2 →
  foldl (λ acc c, <[c_Name c := c]> acc) ∅ l = m.
Proof.
  intros Hm Hl. apply map_eq. intros q. rewrite insert_all_lookup.
  - destruct (list_find (λ c, c_Name c = q) l) as [[i c]|] eqn:E.
    + apply list_find_Some in E as (Hi & Hq & _).
      apply list_elem_of_lookup_2 in Hi. rewrite Hl, list_elem_of_fmap in Hi.
      destruct Hi as ([q' c'] & -> & Hin%elem_of_map_to_list). simpl in Hq.
      rewrite <- (Hm _ _ Hin), Hq in Hin. done.
    + apply list_find_None in E. rewrite lookup_empty. symmetry.
      apply eq_None_not_Some. intros [c Hc]. rewrite Forall_forall in E.
      apply (E c); [|by apply Hm]. rewrite Hl, list_elem_of_fmap.
      exists (q, c). by rewrite elem_of_map_to_list.
  - rewrite Hl, named_values by done. apply NoDup_fst_map_to_list.
Qed.

Lemma NewManager_coherent store tick rand :
  map_Forall (λ q c, c_Name c = q) (v_configs (view store)) →
  ∃ w, NewManager store tick rand = (Ok tt, w) ∧ coherent w ∧ wview w ≡ view store ∧
    (tick ≤ wo_tick w)%nat.
Proof.
  intros Hm. unfold NewManager. set (w0 := mkWorld store ∅ tick rand).
  cut (wp (wrap_err "failed to load queue configs" loadConfigs) w0
         (λ r w, r = Ok tt ∧ coherent w ∧ wview w ≡ view store ∧ (tick ≤ wo_tick w)%nat)).
  { intros (r & w & -> & -> & ?)%wp_elim. by exists w. }
  wp_step. unfold loadConfigs. wp_step.
  destruct (law_ListQueueConfigs (wo_store w0)) as (l & Hl & Hr). wp_op Hr.
  intros w1 (Hv1 & Hc1 & Ht1). wp_step. split; [done|]. split; [|done].
  unfold coherent. simpl. rewrite Hc1. simpl.
  rewrite (load_lookup (v_configs (view store))) by done.
  change (wview (set_wo_configs _ w1)) with (wview w1). by rewrite Hv1.
Qed.
End coherence.

(** ** Properties *)

(** A runtime for examples: the clock counts its readings, the random numbers
    are all 0. *)
Program Definition demo_runtime : Runtime := {|
  rt_now n := Z.of_nat n;
  rt_intn _ _ := 0;
|}.
Next Obligation. intros. simpl. lia. Qed.
Next Obligation. intros. simpl. lia. Qed.

#[local] Existing Instance demo_runtime.
#[local] Existing Instance map_range_default.
#[local] Existing Instance MemoryLaws.MemoryStorage.
#[local] Existing Instance MemoryLaws.MemoryStorageLaws.

(** A manager over an in-memory store with five jobs and no queues. *)
Definition demo_world : World MemoryStore.MemoryStore := mkWorld MemoryJobs.demo_jobs ∅ 100 0.

Section claims.
Context {S : Type} `{L : StorageLaws S} `{R : Runtime} `{MR : MapRange}.

(** C6. Enqueueing a job whose identifier is new succeeds: the job is stored
    with the retry and timeout defaults of its queue's configuration, which is
    created when the queue is unknown; its queue gains exactly one entry, with
    its identifier and priority; no other queue, job, worker or pause flag
    changes; and the entry is due at once, or not before the scheduled time of a
    job that is scheduled later (by less than the longest duration). *)
Theorem Enqueue_new_job (w : World S) j :
  v_jobs (wview w) !! j_ID j = None →
  let q := j_Queue (default_queue j) in
  let c := effective_config (wview w) (wo_configs w) q in
  let j' := job_defaults c (default_queue j) in
  ∃ w' d, Enqueue j w = (Ok j', w') ∧ enqueued j' d w w' ∧ due_time_ok j w w' d ∧
    wo_configs w' !! q = Some c ∧ j_ID j' = j_ID j ∧ j_Queue j' = q ∧ q ≠ "".
Proof.
  intros Hnew q c j'.
  cut (wp (Enqueue j) w (λ r w', ∃ d, r = Ok j' ∧ enqueued j' d w w' ∧ due_time_ok j w w' d ∧
         wo_configs w' !! q = Some c)).
  { intros (r & w' & He & d & -> & ? & ? & ?)%wp_elim. exists w', d.
    destruct (enqueued_job_fields w j) as (?&_&_&?).
    split_and!; try done. apply default_queue_nonempty. }
  apply wp_Enqueue_new; [done|]. intros w1 w' d Hens Hc _ _ Hen Hd. exists d.
  split_and!; try done. rewrite Hc. destruct Hens as (_ & -> & _).
  destruct (enqueued_job_fields w j) as (_&_&_&->). apply lookup_insert_eq.
Qed.

(** Enqueueing a job whose identifier is stored already always fails with
    [ErrJobAlreadyExists], whatever its queue and whatever became of the stored
    job: jobs, queues, pauses and workers are unchanged. *)
Theorem Enqueue_duplicate_rejected (w : World S) j :
  is_Some (v_jobs (wview w) !! j_ID j) →
  ∃ w', Enqueue j w = (Err (Wrapf "failed to create job" ErrJobAlreadyExists), w') ∧
    v_jobs (wview w') = v_jobs (wview w) ∧
    (∀ q, v_queue (wview w') q ≡ₚ v_queue (wview w) q) ∧
    (∀ q, v_paused (wview w') q = v_paused (wview w) q) ∧
    v_workers (wview w') = v_workers (wview w).
Proof.
  intros Hdup.
  destruct (wp_elim (Enqueue j) w (λ r w', r = Err (Wrapf "failed to create job" ErrJobAlreadyExists)
      ∧ ensured (j_Queue (default_queue j)) w w')) as (r & w' & He & -> & Hens).
  { by apply wp_Enqueue_dup. }
  exists w'. split; [done|]. by destruct (ensured_then _ _ _ Hens) as (?&?&?&?&_).
Qed.

(** The manager's cache never disagrees with the backend: after
    [NewManager] on a backend that stores each configuration under its name,
    and any sequence of registrations, updates, deletions, lookups and enqueues,
    successful or not, the cached configurations are the stored ones. *)
Theorem manager_cache_coherent store tick rand (calls : list config_call) :
  map_Forall (λ q c, c_Name c = q) (v_configs (view store)) →
  ∃ w, NewManager store tick rand = (Ok tt, w) ∧
    coherent (foldl run_config_call w calls).
Proof.
  intros Hm. destruct (NewManager_coherent store tick rand Hm) as (w & Hw & Hco & _).
  exists w. split; [done|]. clear Hw Hm. revert w Hco.
  induction calls as [|c calls IH]; intros w Hco; [done|]. simpl.
  by apply IH, run_config_call_coherent.
Qed.

(** [CancelJob] on every branch: an unknown job and a job in a terminal
    state are refused and nothing changes; any other job becomes CANCELLED and
    keeps its identity, the other jobs are unchanged, and, if it was pending,
    one of its entries, if there is one, leaves its queue; no other queue
    changes. *)
Theorem CancelJob_outcome (w : World S) id :
  match v_jobs (wview w) !! id with
  | None => ∃ w', CancelJob id w = (Err ErrJobNotFound, w') ∧ wview w' ≡ wview w
  | Some j =>
      if IsTerminal j then
        ∃ w', CancelJob id w = (Err (JobError "job is already in terminal state" "" None), w') ∧
          wview w' ≡ wview w
      else
        ∃ w' j', CancelJob id w = (Ok tt, w') ∧ same_job j j' ∧ j_Status j' = StatusCancelled ∧
          v_jobs (wview w') = <[id := j']> (v_jobs (wview w)) ∧
          (if bool_decide (j_Status j = StatusPending)
           then one_removed (j_Queue j) id (wview w) (wview w')
           else v_queue (wview w') (j_Queue j) ≡ₚ v_queue (wview w) (j_Queue j)) ∧
          (∀ q, q ≠ j_Queue j → v_queue (wview w') q ≡ₚ v_queue (wview w) q)
  end.
Proof.
  destruct (v_jobs (wview w) !! id) as [j|] eqn:Hj.
  2:{ cut (wp (CancelJob id) w (λ r w', r = Err ErrJobNotFound ∧ wview w' ≡ wview w)).
      { intros (r & w' & ? & -> & ?)%wp_elim. eauto. }
      unfold CancelJob. wp_step. apply wp_st_GetJob_none; [done|]. by intros w' (? & _). }
  destruct (IsTerminal j) eqn:Ht.
  { cut (wp (CancelJob id) w (λ r w',
           r = Err (JobError "job is already in terminal state" "" None) ∧ wview w' ≡ wview w)).
    { intros (r & w' & ? & -> & ?)%wp_elim. eauto. }
    unfold CancelJob. wp_step. apply wp_st_GetJob with j; [done|]. intros w' (? & _).
    rewrite Ht. by wp_step. }
  destruct (wp_elim _ _ _ (wp_CancelJob_active w id j Hj Ht)) as (r & w' & ? & j' & -> & ?).
  eauto.
Qed.
End claims.

Lemma Enqueue_new_job_witness :
  let j := set_j_ScheduledAt (Some 1000) (MemoryJobs.demo_job "9" "" 7) in
  let q := j_Queue (default_queue j) in
  let c := effective_config (wview demo_world) (wo_configs demo_world) q in
  let j' := job_defaults c (default_queue j) in
  q = "default" ∧ c = auto_config "default" ∧
  ∃ w' d, Enqueue j demo_world = (Ok j', w') ∧ enqueued j' d demo_world w' ∧
    due_time_ok j demo_world w' d ∧ wo_configs w' !! q = Some c ∧
    j_ID j' = j_ID j ∧ j_Queue j' = q ∧ q ≠ "".
Proof.
  intros j. split; [reflexivity|]. split; [reflexivity|].
  apply (Enqueue_new_job demo_world j). vm_compute. reflexivity.
Defined.

Lemma Enqueue_duplicate_rejected_witness :
  ∃ w', Enqueue (MemoryJobs.demo_job "3" "dead" 7) demo_world =
      (Err (Wrapf "failed to create job" ErrJobAlreadyExists), w') ∧
    v_jobs (wview w') = v_jobs (wview demo_world) ∧
    (∀ q, v_queue (wview w') q ≡ₚ v_queue (wview demo_world) q) ∧
    (∀ q, v_paused (wview w') q = v_paused (wview demo_world) q) ∧
    v_workers (wview w') = v_workers (wview demo_world).
Proof.
  apply (Enqueue_duplicate_rejected demo_world (MemoryJobs.demo_job "3" "dead" 7)).
  apply (bool_decide_unpack _). vm_compute. exact I.
Defined.

Lemma manager_cache_coherent_witness :
  ∃ w, NewManager MemoryJobs.demo_jobs 0 0 = (Ok tt, w) ∧
    coherent (foldl run_config_call w
      [CallRegisterQueue (auto_config "a"); CallEnqueue (MemoryJobs.demo_job "3" "b" 7);
       CallDeleteQueue "a"]).
Proof.
  apply (manager_cache_coherent MemoryJobs.demo_jobs 0 0). apply map_Forall_empty.
Defined.
