(* ===== verification/ManagerDequeue.v ===== *)
(** * The queue manager: queue selection and dequeueing

    [selectQueue] against a declarative account of its candidates, the weighted
    choice, and what [Dequeue] delivers. *)

From S2P Require Import Prelude Errors GoMonad Job Storage World Manager ManagerProps.
From S2P Require MemoryStore MemoryJobs MemoryLaws.

(** ** The weighted choice *)

Definition weights (cs : list queueCandidate) : Z := foldr (λ c acc, qc_weight c + acc) 0 cs.

(** No weight is negative and their sum fits in 64 bits. *)
Definition weights_ok (cs : list queueCandidate) : Prop :=
  Forall (λ c, 0 ≤ qc_weight c) cs ∧ weights cs ≤ max_int64.

Lemma weights_nonneg cs : Forall (λ c, 0 ≤ qc_weight c) cs → 0 ≤ weights cs.
Proof. unfold weights. induction 1; simpl; lia. Qed.

Lemma weights_ok_cons c cs : weights_ok (c :: cs) → weights_ok cs ∧ 0 ≤ qc_weight c.
Proof.
  unfold weights_ok. intros [Hf Hs]. apply Forall_cons in Hf as [Hc Hf].
  simpl in Hs. split; [split; [done|lia]|done].
Qed.

Lemma total_weight_from acc cs :
  Forall (λ c, 0 ≤ qc_weight c) cs → 0 ≤ acc → acc + weights cs ≤ max_int64 →
  foldl (λ acc c, wrap64 (acc + qc_weight c)) acc cs = acc + weights cs.
Proof.
  intros Hf. revert acc. induction Hf as [|c cs Hc Hf IH]; intros acc Ha Hs; simpl in *; [lia|].
  pose proof (weights_nonneg cs Hf).
  rewrite wrap64_id by (unfold int64, max_int64 in *; lia). rewrite IH; lia.
Qed.

Lemma total_weight_sum cs : weights_ok cs → total_weight cs = weights cs.
Proof. intros [Hf Hs]. unfold total_weight. rewrite total_weight_from; simpl; [lia|done|lia..]. Qed.

(** The choice is one of the candidates, whatever the weights. *)
Lemma pick_in r cum cs name : pick r cum cs = Some name → name ∈ qc_name <$> cs.
Proof.
  revert cum. induction cs as [|c cs IH]; intros cum; simpl; [done|].
  case_match; intros E; simplify_eq; [apply list_elem_of_here|].
  apply list_elem_of_further. eauto.
Qed.

(** How many of the numbers below the total weight select the name. *)
Definition picks (name : string) (cum : Z) (cs : list queueCandidate) : nat :=
  length (filter (λ r, pick r cum cs = Some name) (seqZ cum (weights cs))).

Lemma pick_cons_first r cum c cs :
  0 ≤ cum → int64 (cum + qc_weight c) → r < cum + qc_weight c →
  pick r cum (c :: cs) = Some (qc_name c).
Proof.
  intros H0 Hi Hr. simpl. rewrite wrap64_id by done.
  by destruct (Z.ltb_spec r (cum + qc_weight c)); [|lia].
Qed.

Lemma pick_cons_rest r cum c cs :
  0 ≤ cum → int64 (cum + qc_weight c) → cum + qc_weight c ≤ r →
  pick r cum (c :: cs) = pick r (cum + qc_weight c) cs.
Proof.
  intros H0 Hi Hr. simpl. rewrite wrap64_id by done.
  by destruct (Z.ltb_spec r (cum + qc_weight c)); [lia|].
Qed.

Lemma filter_length_ext {A} (P Q : A → Prop) `{!∀ x, Decision (P x), !∀ x, Decision (Q x)} l :
  (∀ x, x ∈ l → P x ↔ Q x) → length (filter P l) = length (filter Q l).
Proof.
  induction l as [|x l IH]; intros Hl; [done|]. rewrite !filter_cons.
  rewrite (decide_ext _ (Q x)) by (apply Hl, list_elem_of_here).
  case_decide; simpl; rewrite IH; auto using list_elem_of_further.
Qed.

Lemma picks_cons name cum c cs :
  0 ≤ cum → weights_ok (c :: cs) → cum + weights (c :: cs) ≤ max_int64 →
  picks name cum (c :: cs) =
    ((if bool_decide (qc_name c = name) then Z.to_nat (qc_weight c) else 0) +
     picks name (cum + qc_weight c) cs)%nat.
Proof.
  intros Hcum Hok Hs. destruct (weights_ok_cons c cs Hok) as [[Hf _] Hc].
  pose proof (weights_nonneg cs Hf). unfold picks.
  change (weights (c :: cs)) with (qc_weight c + weights cs) in *.
  rewrite seqZ_app, filter_app, length_app by lia.
  assert (Hi : int64 (cum + qc_weight c)) by (unfold int64, max_int64 in *; lia).
  f_equal.
  - rewrite (filter_length_ext _ (λ _, qc_name c = name)).
    + case_bool_decide as Hn.
      * rewrite filter_all by done. by rewrite length_seqZ.
      * by rewrite filter_none by done.
    + intros r Hr%elem_of_seqZ. rewrite pick_cons_first by (done || lia). naive_solver.
  - apply filter_length_ext. intros r Hr%elem_of_seqZ.
    by rewrite pick_cons_rest by (done || lia).
Qed.

Lemma picks_spec cum cs name :
  0 ≤ cum → weights_ok cs → cum + weights cs ≤ max_int64 → NoDup (qc_name <$> cs) →
  Z.of_nat (picks name cum cs) =
    from_option qc_weight 0 (snd <$> list_find (λ c, qc_name c = name) cs).
Proof.
  revert cum. induction cs as [|c cs IH]; intros cum Hcum Hok Hs Hnd; [done|].
  rewrite picks_cons by done. destruct (weights_ok_cons c cs Hok) as [Hok' Hc].
  apply NoDup_cons in Hnd as [Hnin Hnd]. rewrite Nat2Z.inj_add.
  change (weights (c :: cs)) with (qc_weight c + weights cs) in Hs.
  rewrite (IH (cum + qc_weight c)) by (done || lia). simpl.
  case_bool_decide as Hn; case_decide; simplify_eq/=; [|by destruct (list_find _ cs) as [[]|]].
  assert (list_find (λ c0, qc_name c0 = qc_name c) cs = None) as ->; [|simpl; lia].
  apply list_find_None, Forall_forall. intros c' Hc' Heq. apply Hnin. rewrite <- Heq.
  by apply list_elem_of_fmap_2.
Qed.

(** A number below the total weight always selects a candidate: the fallback
    after the loop is not reached. *)
Lemma pick_total r cum cs :
  0 ≤ cum → weights_ok cs → cum + weights cs ≤ max_int64 → cum ≤ r < cum + weights cs →
  is_Some (pick r cum cs).
Proof.
  revert cum. induction cs as [|c cs IH]; intros cum Hcum Hok Hs Hr; [simpl in Hr; lia|].
  destruct (weights_ok_cons c cs Hok) as [Hok' Hc].
  pose proof (weights_nonneg cs (proj1 Hok')).
  change (weights (c :: cs)) with (qc_weight c + weights cs) in *.
  assert (Hi : int64 (cum + qc_weight c)) by (unfold int64, max_int64 in *; lia).
  destruct (decide (r < cum + qc_weight c)).
  - rewrite pick_cons_first by (done || lia). by eexists.
  - rewrite pick_cons_rest by (done || lia). apply IH; (done || lia).
Qed.

(** ** The maximum priority *)

Lemma max_priority_from acc cs :
  let mx := foldl (λ acc c, if acc <? qc_priority c then qc_priority c else acc) acc cs in
  acc ≤ mx ∧ (∀ c, c ∈ cs → qc_priority c ≤ mx) ∧ (mx = acc ∨ ∃ c, c ∈ cs ∧ qc_priority c = mx).
Proof.
  revert acc. induction cs as [|c cs IH]; intros acc; simpl.
  { split_and!; [lia| |by left]. intros c Hc. by apply elem_of_nil in Hc. }
  destruct (IH (if acc <? qc_priority c then qc_priority c else acc)) as (H1 & H2 & H3).
  set (mx := foldl _ _ cs) in *. split_and!.
  - destruct (Z.ltb_spec acc (qc_priority c)); lia.
  - intros c' [->|Hc']%elem_of_cons; [|auto]. destruct (Z.ltb_spec acc (qc_priority c)); lia.
  - destruct H3 as [H3|(c' & Hc' & H3)].
    + destruct (Z.ltb_spec acc (qc_priority c)); [|by left]. right. exists c.
      split; [apply list_elem_of_here|done].
    + right. exists c'. split; [by apply list_elem_of_further|done].
Qed.

Lemma elem_of_top c cs :
  c ∈ top_candidates cs ↔ c ∈ cs ∧ 0 ≤ qc_priority c ∧ ∀ c', c' ∈ cs → qc_priority c' ≤ qc_priority c.
Proof.
  unfold top_candidates. rewrite list_elem_of_filter.
  destruct (max_priority_from PriorityLow cs) as (H1 & H2 & H3).
  fold (max_priority cs) in *. unfold PriorityLow in *. split.
  - intros [Hc Hin]. split_and!; [done|lia|]. intros c' Hc'. specialize (H2 c' Hc'). lia.
  - intros (Hin & H0 & Hmax). split; [|done]. specialize (H2 c Hin).
    destruct H3 as [H3|(c' & Hc' & H3)]; [lia|]. specialize (Hmax c' Hc'). lia.
Qed.

(** A candidate of non-negative priority makes the list of the top ones not
    empty; without one it is empty. *)
Lemma top_nonempty cs :
  (∃ c, c ∈ cs ∧ 0 ≤ qc_priority c) ↔ top_candidates cs ≠ [].
Proof.
  destruct (max_priority_from PriorityLow cs) as (H1 & H2 & H3).
  fold (max_priority cs) in *. unfold PriorityLow in *. split.
  - intros (c & Hc & H0). assert (∃ c', c' ∈ top_candidates cs) as [c' Hc'].
    { destruct H3 as [H3|(c' & Hc' & H3)].
      - exists c. unfold top_candidates. rewrite list_elem_of_filter. split; [|done].
        specialize (H2 c Hc). lia.
      - exists c'. unfold top_candidates. rewrite list_elem_of_filter. done. }
    intros E. rewrite E in Hc'. by apply elem_of_nil in Hc'.
  - intros Hne. destruct (top_candidates cs) as [|c l] eqn:E; [done|].
    assert (Hc : c ∈ top_candidates cs) by (rewrite E; apply list_elem_of_here).
    apply elem_of_top in Hc as (?&?&_). eauto.
Qed.

(** ** [selectQueue] *)

Section select.
Context {S : Type} `{L : StorageLaws S} `{R : Runtime} `{MR : MapRange}.
Implicit Types (w : World S) (v : View).

(** The candidates, from the state: the listed queues that have a cached
    configuration, are not paused and have an entry. *)
Definition candidate_of (configs : gmap string QueueConfig) (v : View) (q : string) :
    option queueCandidate :=
  c ← configs !! q;
  if v_paused v q then None
  else if bool_decide (v_queue v q = []) then None
  else Some (mkCandidate q (c_Priority c) (c_Weight c) (Z.of_nat (length (v_queue v q)))).

Definition candidates (configs : gmap string QueueConfig) (v : View) (queues : list string) :
    list queueCandidate :=
  omap (candidate_of configs v) queues.

Lemma candidates_cons configs v q qs :
  candidates configs v (q :: qs) =
    match candidate_of configs v q with
    | Some c => c :: candidates configs v qs
    | None => candidates configs v qs
    end.
Proof. reflexivity. Qed.

#[export] Instance candidate_of_proper configs :
  Proper ((≡) ==> (=) ==> (=)) (candidate_of configs).
Proof.
  intros v v' Hv q ? <-. unfold candidate_of.
  assert (Hq : v_queue v q ≡ₚ v_queue v' q) by (by rewrite Hv).
  assert (Hp : v_paused v q = v_paused v' q) by (by rewrite Hv).
  destruct (configs !! q); simpl; [|done]. rewrite Hp, (Permutation_length Hq).
  case_match; [done|]. repeat case_bool_decide; try done; exfalso.
  - match goal with E : v_queue v q = [] |- _ => rewrite E in Hq end.
    by apply Permutation_nil_l in Hq.
  - match goal with E : v_queue v' q = [] |- _ => rewrite E in Hq end.
    by apply Permutation_nil_r in Hq.
Qed.

Lemma candidates_equiv configs v v' queues :
  v ≡ v' → candidates configs v queues = candidates configs v' queues.
Proof.
  intros Hv. induction queues as [|q qs IH]; [done|].
  by rewrite !candidates_cons, (candidate_of_proper configs v v' Hv q q eq_refl), IH.
Qed.

Lemma candidate_of_Some configs v q c :
  candidate_of configs v q = Some c ↔
  ∃ cfg, configs !! q = Some cfg ∧ v_paused v q = false ∧ v_queue v q ≠ [] ∧
    c = mkCandidate q (c_Priority cfg) (c_Weight cfg) (Z.of_nat (length (v_queue v q))).
Proof.
  unfold candidate_of. destruct (configs !! q) as [cfg|]; simpl; [|naive_solver].
  destruct (v_paused v q); [naive_solver|]. case_bool_decide; naive_solver.
Qed.

Lemma candidate_of_name configs v q c : candidate_of configs v q = Some c → qc_name c = q.
Proof. by intros (cfg & _ & _ & _ & ->)%candidate_of_Some. Qed.

Lemma elem_of_candidates configs v queues c :
  c ∈ candidates configs v queues ↔
  qc_name c ∈ queues ∧ candidate_of configs v (qc_name c) = Some c.
Proof.
  unfold candidates. rewrite list_elem_of_omap. split.
  - intros (q & Hq & Hc). pose proof (candidate_of_name _ _ _ _ Hc) as <-. done.
  - intros [Hq Hc]. eauto.
Qed.

Lemma wp_gather configs queues w (Q : res (list queueCandidate) → World S → Prop) :
  (∀ w', then_ w (wview w) (wo_configs w) w' →
     Q (Ok (candidates configs (wview w) queues)) w') →
  wp (gather configs queues) w Q.
Proof.
  revert w Q. induction queues as [|q qs IH]; intros w Q HQ.
  { simpl. wp_step. apply HQ. by apply then_intro. }
  assert (Hskip : ∀ w1, then_ w (wview w) (wo_configs w) w1 →
            candidate_of configs (wview w) q = None → wp (gather configs qs) w1 Q).
  { intros w1 Hw1 Hn. apply IH. intros w2 Hw2.
    rewrite (candidates_equiv _ _ _ _ (proj1 Hw1)).
    specialize (HQ w2). rewrite candidates_cons, Hn in HQ.
    apply HQ. by eapply then_keep. }
  simpl. destruct (configs !! q) as [cfg|] eqn:Hcfg.
  2:{ apply Hskip; [by apply then_intro|]. unfold candidate_of. by rewrite Hcfg. }
  wp_step. wp_step. wp_op (law_IsQueuePaused q (wo_store w)). intros w1 Hw1. cbv beta iota.
  change (v_paused (view (wo_store w)) q) with (v_paused (wview w) q).
  destruct (v_paused (wview w) q) eqn:Hp.
  { apply Hskip; [done|]. unfold candidate_of. by rewrite Hcfg, Hp. }
  wp_step. wp_step. wp_op (law_Length q (wo_store w1)). intros w2 Hw2. cbv beta iota.
  assert (Hlen : length (v_queue (view (wo_store w1)) q) = length (v_queue (wview w) q)).
  { apply Permutation_length. change (view (wo_store w1)) with (wview w1).
    by rewrite (proj1 Hw1). }
  rewrite Hlen. assert (Hw2' := then_keep _ _ _ _ _ Hw1 Hw2).
  destruct (Z.eqb_spec (Z.of_nat (length (v_queue (wview w) q))) 0) as [Hz|Hz].
  { apply Hskip; [done|]. unfold candidate_of. rewrite Hcfg, Hp. simpl.
    rewrite bool_decide_true; [done|]. apply nil_length_inv. lia. }
  wp_step. apply IH. intros w3 Hw3. wp_step.
  rewrite (candidates_equiv _ _ _ _ (proj1 Hw2')).
  specialize (HQ w3). rewrite candidates_cons in HQ.
  assert (Hc : candidate_of configs (wview w) q = Some (mkCandidate q (c_Priority cfg)
            (c_Weight cfg) (Z.of_nat (length (v_queue (wview w) q))))).
  { apply candidate_of_Some. exists cfg. split_and!; try done. intros E. by rewrite E in Hz. }
  rewrite Hc in HQ. apply HQ. by eapply then_keep.
Qed.

(** What [selectQueue] does with its candidates: there are none; one has the
    highest priority; a random number selects among several; or the call
    panics, because no candidate has a non-negative priority or the weights
    add up to nothing. *)
Definition selects (cs : list queueCandidate) (r : res string) : Prop :=
  let high := top_candidates cs in
  (cs = [] ∧ r = Ok "") ∨
  (∃ c, high = [c] ∧ r = Ok (qc_name c)) ∨
  (length high ≠ 1%nat ∧ ∃ x c0, 0 ≤ x < total_weight high ∧ head high = Some c0 ∧
     r = Ok (default (qc_name c0) (pick x 0 high))) ∨
  (cs ≠ [] ∧ length high ≠ 1%nat ∧ total_weight high ≤ 0 ∧
     r = Panic "invalid argument to Intn").

Lemma wp_Intn n w (Q : res Z → World S → Prop) :
  (∀ x w', 0 ≤ x < n → then_ w (wview w) (wo_configs w) w' → Q (Ok x) w') →
  (n ≤ 0 → Q (Panic "invalid argument to Intn") w) →
  wp (Intn n) w Q.
Proof.
  intros H1 H2. unfold wp, Intn. destruct (Z.ltb_spec 0 n); simpl; [|by apply H2].
  apply H1; [by apply rt_intn_range|]. by apply then_intro.
Qed.

Lemma wp_selectQueue queues w (Q : res string → World S → Prop) :
  (∀ r w', selects (candidates (wo_configs w) (wview w) queues) r →
     then_ w (wview w) (wo_configs w) w' → Q r w') →
  wp (selectQueue queues) w Q.
Proof.
  intros HQ. unfold selectQueue. wp_step. wp_step. wp_step. apply wp_gather. intros w1 Hw1.
  cbv beta iota. set (cs := candidates _ _ _) in *. unfold selects in HQ. cbv zeta in HQ.
  destruct cs as [|c0 cs'] eqn:Ecs; [wp_step; apply HQ; [by left|done]|].
  rewrite <- Ecs in *. assert (Hne : cs ≠ []) by (by rewrite Ecs). clear Ecs c0 cs'.
  assert (Hmany : length (top_candidates cs) ≠ 1%nat →
    wp (r ← Intn (total_weight (top_candidates cs));
        match pick r 0 (top_candidates cs), top_candidates cs with
        | Some name, _ => mret name
        | None, c :: _ => mret (qc_name c)
        | None, [] => panic "index out of range"
        end) w1 Q).
  { intros Hlen. wp_step. apply wp_Intn.
    - intros x w2 Hx Hw2. assert (Hw2' := then_keep _ _ _ _ _ Hw1 Hw2). cbv beta iota.
      destruct (top_candidates cs) as [|c high] eqn:E.
      { unfold total_weight in Hx. simpl in Hx. lia. }
      destruct (pick x 0 (c :: high)) as [name|] eqn:Hp; wp_step; (apply HQ; [|done]);
        right; right; left; (split; [done|]); exists x, c; by rewrite Hp.
    - intros Ht. apply HQ; [|done]. do 3 right. done. }
  destruct (top_candidates cs) as [|c [|c' high]] eqn:E; [by apply Hmany| |by apply Hmany].
  wp_step. apply HQ; [|done]. right. left. by exists c.
Qed.

(** The name that [selectQueue] returns is that of a top candidate. *)
Lemma selects_top cs name :
  selects cs (Ok name) → (cs = [] ∧ name = "") ∨ name ∈ qc_name <$> top_candidates cs.
Proof.
  intros [[? [= ->]]|[(c & Hc & [= ->])|[(_ & x & c0 & _ & Hh & [= ->])|(_ & _ & _ & [=])]]].
  - by left.
  - right. rewrite Hc. apply list_elem_of_here.
  - right. destruct (pick x 0 (top_candidates cs)) as [n|] eqn:E; simpl; [by eapply pick_in|].
    destruct (top_candidates cs); simplify_eq/=. apply list_elem_of_here.
Qed.

Lemma selects_total cs :
  (∃ c, c ∈ cs ∧ 0 ≤ qc_priority c) → 0 < total_weight (top_candidates cs) →
  ∀ r, selects cs r → ∃ name, r = Ok name ∧ name ∈ qc_name <$> top_candidates cs.
Proof.
  intros Hc Hw r Hr. destruct r as [name|e|p].
  - exists name. split; [done|]. destruct (selects_top _ _ Hr) as [[-> _]|]; [|done].
    destruct Hc as (c & Hc & _). by apply elem_of_nil in Hc.
  - by destruct Hr as [[_ [=]]|[(c & _ & [=])|[(_ & x & c0 & _ & _ & [=])|(_&_&_& [=])]]].
  - destruct Hr as [[_ [=]]|[(c & _ & [=])|[(_ & x & c0 & _ & _ & [=])|(_&_&?&_)]]]. lia.
Qed.

End select.

(** ** [Dequeue] *)

Lemma due_mono t t' x : t ≤ t' → due t' x = false → due t x = false.
Proof. unfold due. lia. Qed.

Lemma dequeue_contract_equiv t q v0 v r v' :
  v0 ≡ v → dequeue_contract t q v0 r v' → dequeue_contract t q v r v'.
Proof.
  intros Hv. assert (Hp : v_paused v0 q = v_paused v q) by (by rewrite Hv).
  destruct r as [id|e|p]; simpl; [|destruct e|done]; rewrite ?Hp; try done.
  - intros (? & x & rest & Hq & ? & ? & ? & Hv'). split; [done|]. exists x, rest.
    rewrite Hv in Hq, Hv'. done.
  - intros [? Hv']. by rewrite Hv'.
  - intros (? & Hd & Hv'). rewrite Hv' . split_and!; try done.
    intros x Hx. apply Hd. by rewrite Hv.
Qed.

Section dequeue.
Context {S : Type} `{L : StorageLaws S} `{R : Runtime} `{MR : MapRange}.
Implicit Types (w : World S).

(** Nothing can be delivered from the queue in the state [w]. *)
Definition idle (w : World S) (q : string) : Prop :=
  v_paused (wview w) q = true ∨ ∀ x, x ∈ v_queue (wview w) q → due (now_of w) x = false.

(** The identifier that was claimed from a queue between [w] and [w']. *)
Definition claimed (q id : string) (w w' : World S) : Prop :=
  ∃ t, now_of w ≤ t ∧ dequeue_contract t q (wview w) (Ok id) (wview w').

(** A failed claim: the queue was idle. *)
Lemma contract_idle w t q e v' :
  now_of w ≤ t → dequeue_contract t q (wview w) (Err e) v' →
  v' ≡ wview w ∧ idle w q ∧
  ((e = ErrQueuePaused ∧ v_paused (wview w) q = true) ∨ (e = ErrQueueEmpty ∧
    ∀ x, x ∈ v_queue (wview w) q → due (now_of w) x = false)).
Proof.
  intros Ht. destruct e; simpl; try done.
  - intros [? ?]. split_and!; [done|by left|by left].
  - intros (? & Hd & ?). assert (∀ x, x ∈ v_queue (wview w) q → due (now_of w) x = false)
      by eauto using due_mono. split; [done|]. split; [by right|by right].
Qed.

Lemma wp_claim q w Q :
  (∀ id w', claimed q id w w' → wo_configs w' = wo_configs w → (wo_tick w ≤ wo_tick w')%nat →
     Q (Ok (inl id)) w') →
  (∀ e w', then_ w (wview w) (wo_configs w) w' → idle w q →
     (e = ErrQueuePaused ∧ v_paused (wview w) q = true ∨ e = ErrQueueEmpty) →
     Q (Ok (inr e)) w') →
  wp (attempt (call (λ clk, st_Dequeue clk q))) w Q.
Proof.
  intros H1 H2. wp_step. apply wp_st_Dequeue. intros r w1 Hd Hc Ht. destruct r as [id|e|p].
  - apply H1; [|done..]. by exists (now_of w).
  - destruct (contract_idle w (now_of w) q e (wview w1)) as (Hv & Hi & He); [lia|done|].
    apply H2; [by apply then_intro|done|]. naive_solver.
  - done.
Qed.

(** A queue that was idle a moment ago in the same state was idle before. *)
Lemma idle_earlier w w' q : then_ w (wview w) (wo_configs w) w' → idle w' q → idle w q.
Proof.
  intros (Hv & _ & Ht) [Hp|Hd].
  - left. by rewrite <- Hv.
  - right. intros x Hx. eapply due_mono; [by apply now_of_mono|]. apply Hd. by rewrite Hv.
Qed.

Lemma claimed_earlier w w1 w2 q id :
  then_ w (wview w) (wo_configs w) w1 → claimed q id w1 w2 → claimed q id w w2.
Proof.
  intros (Hv & _ & Ht) (t & Hle & Hd). exists t. split.
  - pose proof (now_of_mono w w1 Ht). lia.
  - by eapply dequeue_contract_equiv.
Qed.

Lemma wp_try_others sel qs e w Q :
  (∀ q id w', q ∈ qs → q ≠ sel → claimed q id w w' → wo_configs w' = wo_configs w →
     (wo_tick w ≤ wo_tick w')%nat → Q (Ok (inl id)) w') →
  (∀ e' w', then_ w (wview w) (wo_configs w) w' → (∀ q, q ∈ qs → q ≠ sel → idle w q) →
     (e' = e ∨ e' = ErrQueuePaused ∨ e' = ErrQueueEmpty) →
     Q (Ok (inr e')) w') →
  wp (try_others sel qs e) w Q.
Proof.
  revert e w Q. induction qs as [|q qs IH]; intros e w Q H1 H2; simpl.
  { wp_step. apply H2; [by apply then_intro| |by left]. intros q Hq. by apply elem_of_nil in Hq. }
  case_bool_decide as Hsel.
  { apply IH.
    - intros q' id w' Hq'. apply H1. by apply list_elem_of_further.
    - intros e' w' Hw' Hi. apply H2; [done|]. intros q' [->|Hq']%elem_of_cons; auto. done. }
  wp_step. apply wp_claim.
  - intros id w1 Hcl Hc Ht. wp_step. apply (H1 q); try done. apply list_elem_of_here.
  - intros e1 w1 Hw1 Hi He1. cbv beta iota. apply IH.
    + intros q' id w' Hq' Hne Hcl Hc Ht. apply (H1 q'); try done.
      * by apply list_elem_of_further.
      * by eapply claimed_earlier.
      * rewrite Hc. by destruct Hw1 as (_&?&_).
      * destruct Hw1 as (_&_&?). lia.
    + intros e' w' Hw' Hi' He'. apply H2.
      * by eapply then_keep.
      * intros q' [->|Hq']%elem_of_cons Hne; [done|]. eapply idle_earlier; [done|]. by apply Hi'.
      * naive_solver.
Qed.

(** The outcome of a call that selected a queue: a job from a listed queue, or
    an error that says that no listed queue had anything to deliver. *)
Definition served (name : string) (queues : list string) (w : World S) (r : res Job)
    (w' : World S) : Prop :=
  (∃ q id, q ∈ queues ∧ (q = name ∨ idle w name) ∧ claimed q id w w' ∧
     r = match v_jobs (wview w) !! id with
         | Some j => Ok j
         | None => Err (Wrapf "failed to get job" ErrJobNotFound)
         end) ∨
  ((r = Err ErrQueueEmpty ∨ r = Err ErrQueuePaused) ∧ wview w' ≡ wview w ∧
     ∀ q, q ∈ queues → idle w q).

Lemma claimed_jobs q id w w' : claimed q id w w' → v_jobs (wview w') = v_jobs (wview w).
Proof. intros (t & _ & _ & x & rest & _ & _ & _ & _ & ->). done. Qed.

(** The last step of [Dequeue]. *)
Lemma wp_fetch_job q id w w1 (Q : res Job → World S → Prop) :
  claimed q id w w1 →
  (∀ w', claimed q id w w' → wo_configs w' = wo_configs w1 → (wo_tick w1 ≤ wo_tick w')%nat →
     Q (match v_jobs (wview w) !! id with
        | Some j => Ok j
        | None => Err (Wrapf "failed to get job" ErrJobNotFound)
        end) w') →
  wp (wrap_err "failed to get job" (use (st_GetJob id))) w1 Q.
Proof.
  intros Hcl HQ. pose proof (claimed_jobs _ _ _ _ Hcl) as Hjobs. wp_step.
  assert (Hcl' : ∀ w', then_ w1 (wview w1) (wo_configs w1) w' → claimed q id w w').
  { intros w' (Hv & _). destruct Hcl as (t & Ht & Hp & x & rest & ? & ? & ? & ? & Hw1).
    exists t. split; [done|]. split; [done|]. exists x, rest. split_and!; try done.
    all: by rewrite Hv, Hw1. }
  destruct (v_jobs (wview w) !! id) as [j|] eqn:Hj.
  - apply wp_st_GetJob with j; [by rewrite Hjobs|]. intros w2 Hw2.
    apply HQ; [by apply Hcl'|by destruct Hw2 as (_&?&_)|by destruct Hw2 as (_&_&?)].
  - apply wp_st_GetJob_none; [by rewrite Hjobs|]. intros w2 Hw2.
    apply HQ; [by apply Hcl'|by destruct Hw2 as (_&?&_)|by destruct Hw2 as (_&_&?)].
Qed.

Lemma candidate_not_paused configs v queues c :
  c ∈ candidates configs v queues → v_paused v (qc_name c) = false.
Proof.
  intros [_ Hc]%elem_of_candidates. by apply candidate_of_Some in Hc as (cfg & _ & ? & _).
Qed.

Lemma selected_listed queues w name :
  selects (candidates (wo_configs w) (wview w) queues) (Ok name) → name ≠ "" →
  name ∈ queues ∧ v_paused (wview w) name = false.
Proof.
  intros Hs Hne. destruct (selects_top _ _ Hs) as [[_ ?]|Hin]; [done|].
  apply list_elem_of_fmap in Hin as (c & -> & Hc). apply elem_of_top in Hc as (Hc & _).
  split; [|by eapply candidate_not_paused]. by apply elem_of_candidates in Hc as [? _].
Qed.

Lemma wp_Dequeue queues w Q :
  queues ≠ [] →
  (∀ p w', selects (candidates (wo_configs w) (wview w) queues) (Panic p) →
     then_ w (wview w) (wo_configs w) w' → Q (Panic p) w') →
  (∀ w', selects (candidates (wo_configs w) (wview w) queues) (Ok "") →
     then_ w (wview w) (wo_configs w) w' → Q (Err ErrQueueEmpty) w') →
  (∀ name r w', selects (candidates (wo_configs w) (wview w) queues) (Ok name) → name ≠ "" →
     served name queues w r w' → wo_configs w' = wo_configs w → (wo_tick w ≤ wo_tick w')%nat →
     Q r w') →
  wp (Dequeue queues) w Q.
Proof.
  intros Hne H1 H2 H3. unfold Dequeue. rewrite bool_decide_false by done. wp_step.
  apply wp_selectQueue. intros r w1 Hs Hw1. destruct r as [name|e|p].
  2:{ exfalso. by destruct Hs as [[_ [=]]|[(c & _ & [=])|[(_ & x & c0 & _ & _ & [=])|(_&_&_& [=])]]]. }
  2:{ by apply H1. }
  cbv beta iota. case_bool_decide as Hname; [subst; wp_step; by apply H2|].
  destruct (selected_listed _ _ _ Hs Hname) as [Hin Hnp].
  assert (H3' : ∀ r w', served name queues w r w' → wo_configs w' = wo_configs w →
            (wo_tick w ≤ wo_tick w')%nat → Q r w') by eauto. clear H1 H2 H3.
  pose proof Hw1 as (Hv1 & Hc1 & Ht1).
  wp_step. apply wp_claim.
  - intros id w2 Hcl Hc2 Ht2. wp_step. wp_step.
    eapply wp_fetch_job; [by eapply claimed_earlier|]. intros w3 Hcl3 Hc3 Ht3.
    apply H3'; [left; exists name, id; auto|congruence|lia].
  - intros e w2 Hw2 Hi [[-> Hp]| ->].
    { exfalso. rewrite Hv1 in Hp. congruence. }
    pose proof Hw2 as (Hv2 & Hc2 & Ht2). assert (Hw02 := then_keep _ _ _ _ _ Hw1 Hw2).
    apply (idle_earlier _ _ _ Hw1) in Hi.
    cbv beta iota. wp_step. simpl. wp_step. apply wp_try_others.
    + intros q id w3 Hq Hqn Hcl Hc3 Ht3. wp_step.
      eapply wp_fetch_job; [by eapply claimed_earlier|]. intros w4 Hcl4 Hc4 Ht4.
      apply H3'; [left; exists q, id; auto|congruence|lia].
    + intros e' w3 Hw3 Hi3 He'. cbv beta iota. wp_step. cbv beta iota.
      assert (Hw03 := then_keep _ _ _ _ _ Hw02 Hw3). pose proof Hw03 as (Hv3 & Hc3 & Ht3).
      apply H3'; [|done|done]. right. split_and!.
      * naive_solver.
      * by rewrite Hv3.
      * intros q Hq. destruct (decide (q = name)) as [->|Hqn]; [done|].
        eapply idle_earlier; [exact Hw02|]. by apply Hi3.
Qed.
End dequeue.

(** ** Delivery *)

Section delivery.
Context {S : Type} `{L : StorageLaws S} `{R : Runtime} `{MR : MapRange}.
Implicit Types (w : World S).

(** The configurations of the listed queues are usable: priorities are not
    negative and weights are positive and of a reasonable size. *)
Definition queues_ok (w : World S) (queues : list string) : Prop :=
  ("" ∉ queues) ∧ Z.of_nat (length queues) ≤ 2 ^ 31 ∧
  ∀ q c, q ∈ queues → wo_configs w !! q = Some c →
    0 ≤ c_Priority c ∧ 1 ≤ c_Weight c ≤ 2 ^ 31.

(** Every entry of the listed queues is that of a stored job. *)
Definition entries_stored (w : World S) (queues : list string) : Prop :=
  ∀ q x, q ∈ queues → x ∈ v_queue (wview w) q → is_Some (v_jobs (wview w) !! wt_job x).

Lemma candidate_ok w queues c :
  queues_ok w queues → c ∈ candidates (wo_configs w) (wview w) queues →
  0 ≤ qc_priority c ∧ 1 ≤ qc_weight c ≤ 2 ^ 31.
Proof.
  intros (_ & _ & Hok) [Hq (cfg & Hcfg & _ & _ & E)%candidate_of_Some]%elem_of_candidates.
  destruct (Hok _ _ Hq Hcfg). by rewrite E.
Qed.

Lemma weights_bound b cs :
  Forall (λ c, 0 ≤ qc_weight c ≤ b) cs → weights cs ≤ Z.of_nat (length cs) * b.
Proof. unfold weights. induction 1; [simpl; lia|].
  rewrite length_cons, Nat2Z.inj_succ, Z.mul_succ_l. simpl. lia.
Qed.

Lemma length_omap_le {A B} (f : A → option B) l : (length (omap f l) ≤ length l)%nat.
Proof. induction l as [|x l IH]; [done|]. csimpl. destruct (f x); csimpl; lia. Qed.

Lemma top_weights_ok w queues :
  queues_ok w queues → weights_ok (top_candidates (candidates (wo_configs w) (wview w) queues)).
Proof.
  intros Hok. set (cs := candidates _ _ _).
  assert (Hf : Forall (λ c, 0 ≤ qc_weight c ≤ 2 ^ 31) (top_candidates cs)).
  { apply Forall_forall. intros c Hc. apply elem_of_top in Hc as (Hc & _).
    destruct (candidate_ok w queues c Hok Hc). lia. }
  split; [eapply Forall_impl; [exact Hf|]; simpl; lia|].
  pose proof (weights_bound _ _ Hf). unfold max_int64.
  assert (length (top_candidates cs) ≤ length queues)%nat.
  { etransitivity; [apply length_filter|]. apply length_omap_le. }
  destruct Hok as (_ & Hlen & _). nia.
Qed.

Lemma weights_pos cs :
  Forall (λ c, 1 ≤ qc_weight c) cs → cs ≠ [] → 0 < weights cs.
Proof.
  intros Hf Hne. destruct cs as [|c cs]; [done|]. apply Forall_cons in Hf as [Hc Hf].
  assert (0 ≤ weights cs).
  { apply weights_nonneg. eapply Forall_impl; [exact Hf|]. simpl. lia. }
  change (weights (c :: cs)) with (qc_weight c + weights cs). lia.
Qed.

Lemma top_total w queues :
  queues_ok w queues → candidates (wo_configs w) (wview w) queues ≠ [] →
  (∃ c, c ∈ candidates (wo_configs w) (wview w) queues ∧ 0 ≤ qc_priority c) ∧
  0 < total_weight (top_candidates (candidates (wo_configs w) (wview w) queues)).
Proof.
  intros Hok Hne. rewrite total_weight_sum by (by apply top_weights_ok).
  set (cs := candidates _ _ _) in *.
  assert (Hc : ∃ c, c ∈ cs ∧ 0 ≤ qc_priority c).
  { destruct cs as [|c cs'] eqn:E; [done|]. exists c. split; [apply list_elem_of_here|].
    apply (candidate_ok w queues); [done|]. fold cs. rewrite E. apply list_elem_of_here. }
  split; [done|]. apply weights_pos; [|by apply top_nonempty].
  apply Forall_forall. intros c' Hc'. apply elem_of_top in Hc' as (Hc' & _).
  destruct (candidate_ok w queues c' Hok Hc'). lia.
Qed.

Lemma claimed_stored w w' queues q id :
  entries_stored w queues → q ∈ queues → claimed q id w w' →
  is_Some (v_jobs (wview w) !! id).
Proof.
  intros Hst Hq (t & _ & _ & x & rest & Hp & <- & _). apply (Hst q); [done|].
  rewrite Hp. apply list_elem_of_here.
Qed.

(** A listed queue that can be selected. *)
Definition candidate_for (w : World S) (q : string) (c : QueueConfig) : queueCandidate :=
  mkCandidate q (c_Priority c) (c_Weight c) (Z.of_nat (length (v_queue (wview w) q))).

Lemma candidate_for_in w queues q c :
  q ∈ queues → wo_configs w !! q = Some c → v_paused (wview w) q = false →
  v_queue (wview w) q ≠ [] →
  candidate_for w q c ∈ candidates (wo_configs w) (wview w) queues.
Proof.
  intros. apply elem_of_candidates. split; [done|]. apply candidate_of_Some. by exists c.
Qed.

Lemma queue_not_empty w q x : x ∈ v_queue (wview w) q → v_queue (wview w) q ≠ [].
Proof. intros Hx E. rewrite E in Hx. by apply elem_of_nil in Hx. Qed.

(** With a due entry in a listed queue that can serve, an entry is claimed; it
    comes from a selected queue of the highest priority, or that queue was
    idle. The result is its job, if that is stored. *)
Lemma wp_Dequeue_claims w queues q x c :
  queues_ok w queues →
  q ∈ queues → wo_configs w !! q = Some c → v_paused (wview w) q = false →
  x ∈ v_queue (wview w) q → due (now_of w) x = true →
  wp (Dequeue queues) w (λ r w', ∃ id q' top, q' ∈ queues ∧ claimed q' id w w' ∧
    top ∈ top_candidates (candidates (wo_configs w) (wview w) queues) ∧
    (q' = qc_name top ∨ idle w (qc_name top)) ∧
    r = match v_jobs (wview w) !! id with
        | Some j => Ok j
        | None => Err (Wrapf "failed to get job" ErrJobNotFound)
        end).
Proof.
  intros Hok Hq Hc Hnp Hx Hdue.
  assert (Hcand : candidates (wo_configs w) (wview w) queues ≠ []).
  { intros E. pose proof (candidate_for_in w queues q c Hq Hc Hnp (queue_not_empty w q x Hx)) as Hin.
    rewrite E in Hin. by apply elem_of_nil in Hin. }
  destruct (top_total w queues Hok Hcand) as [Hpr Hw].
  apply wp_Dequeue.
  - intros ->. by apply elem_of_nil in Hq.
  - intros p w' Hs _. by destruct (selects_total _ Hpr Hw _ Hs) as (? & [=] & _).
  - intros w' Hs _. destruct (selects_total _ Hpr Hw _ Hs) as (name & [= <-] & Hin).
    apply list_elem_of_fmap in Hin as (c' & Hn & Hc'). apply elem_of_top in Hc' as (Hc' & _).
    apply elem_of_candidates in Hc' as [Hl _]. rewrite <- Hn in Hl. by destruct Hok.
  - intros name r w' Hs Hne Hsv _ _.
    destruct (selects_total _ Hpr Hw _ Hs) as (? & [= <-] & Hin).
    apply list_elem_of_fmap in Hin as (top & -> & Htop).
    destruct Hsv as [(q' & id & Hq' & Hor & Hcl & ->)|(_ & _ & Hidle)].
    + by exists id, q', top.
    + exfalso. destruct (Hidle q Hq) as [?|Hn]; [congruence|]. by rewrite (Hn x Hx) in Hdue.
Qed.

Lemma wp_Dequeue_delivers w queues q x c :
  queues_ok w queues → entries_stored w queues →
  q ∈ queues → wo_configs w !! q = Some c → v_paused (wview w) q = false →
  x ∈ v_queue (wview w) q → due (now_of w) x = true →
  wp (Dequeue queues) w (λ r w', ∃ j id q' top, r = Ok j ∧ q' ∈ queues ∧
    v_jobs (wview w) !! id = Some j ∧ claimed q' id w w' ∧
    top ∈ top_candidates (candidates (wo_configs w) (wview w) queues) ∧
    (q' = qc_name top ∨ idle w (qc_name top))).
Proof.
  intros Hok Hst Hq Hc Hnp Hx Hdue. eapply wp_mono; [by eapply wp_Dequeue_claims|].
  intros r w' (id & q' & top & Hq' & Hcl & Htop & Hor & ->).
  destruct (claimed_stored _ _ _ _ _ Hst Hq' Hcl) as [j Hj]. rewrite Hj. by exists j, id, q', top.
Qed.

(** C1. [Dequeue] delivers. Let some listed queue with a cached configuration be
    not paused and have a due entry, let the list have no empty name and at most
    2^31 names, and let the cached configurations of the listed queues be usable:
    no negative priority (with only those the call panics,
    [Dequeue_negative_priorities_panic]) and weights from 1 to 2^31. Then,
    whatever the random
    numbers and however the other queues are filled, the call claims an entry
    from a listed queue; it returns the entry's job if that is stored, and the
    error "job not found" only if it is not (an entry keeps lying in its queue
    when [DeleteJob] deletes its job). So when every entry of the listed queues
    has a stored job, a job is delivered: no entry is overlooked because
    the selected queue holds only later entries. *)
Theorem Dequeue_delivers w queues q x c :
  queues_ok w queues →
  q ∈ queues → wo_configs w !! q = Some c → v_paused (wview w) q = false →
  x ∈ v_queue (wview w) q → due (now_of w) x = true →
  ∃ w' id q', q' ∈ queues ∧ claimed q' id w w' ∧
    Dequeue queues w = (match v_jobs (wview w) !! id with
                        | Some j => Ok j
                        | None => Err (Wrapf "failed to get job" ErrJobNotFound)
                        end, w') ∧
    (entries_stored w queues → ∃ j, v_jobs (wview w) !! id = Some j ∧ Dequeue queues w = (Ok j, w')).
Proof.
  intros Hok Hq Hc Hnp Hx Hdue.
  destruct (wp_elim _ _ _ (wp_Dequeue_claims w queues q x c Hok Hq Hc Hnp Hx Hdue))
    as (r & w' & E & id & q' & top & Hq' & Hcl & _ & _ & ->).
  exists w', id, q'. split_and!; [done..|]. intros Hst.
  destruct (claimed_stored _ _ _ _ _ Hst Hq' Hcl) as [j Hj]. exists j. by rewrite E, Hj.
Qed.

(** C2. Priorities are strict: when every listed queue of the highest priority
    that is configured, not paused and not empty has a due entry, the delivered
    job comes from one of them, so that no listed queue that could have been
    selected has a higher priority. *)
Theorem Dequeue_strict_priority w queues q x c :
  queues_ok w queues → entries_stored w queues →
  q ∈ queues → wo_configs w !! q = Some c → v_paused (wview w) q = false →
  x ∈ v_queue (wview w) q → due (now_of w) x = true →
  (∀ top, top ∈ top_candidates (candidates (wo_configs w) (wview w) queues) →
     ∃ y, y ∈ v_queue (wview w) (qc_name top) ∧ due (now_of w) y = true) →
  ∃ w' j id q' c', Dequeue queues w = (Ok j, w') ∧ claimed q' id w w' ∧
    wo_configs w !! q' = Some c' ∧ c_Priority c ≤ c_Priority c' ∧
    (∀ q'' c'', q'' ∈ queues → wo_configs w !! q'' = Some c'' →
       v_paused (wview w) q'' = false → v_queue (wview w) q'' ≠ [] →
       c_Priority c'' ≤ c_Priority c').
Proof.
  intros Hok Hst Hq Hc Hnp Hx Hdue Htops.
  destruct (wp_elim _ _ _ (wp_Dequeue_delivers w queues q x c Hok Hst Hq Hc Hnp Hx Hdue))
    as (r & w' & E & j & id & q' & top & -> & ? & ? & Hcl & Htop & Hor).
  destruct (Htops top Htop) as (y & Hy & Hyd).
  apply elem_of_top in Htop as (Hin & _ & Hmax). pose proof Hin as Hin'.
  apply elem_of_candidates in Hin as [_ (c' & Hc' & Hp & _ & Htop)%candidate_of_Some].
  destruct Hor as [->|[?|Hidle]]; [|congruence|by rewrite (Hidle y Hy) in Hyd].
  assert (Hall : ∀ q'' c'', q'' ∈ queues → wo_configs w !! q'' = Some c'' →
       v_paused (wview w) q'' = false → v_queue (wview w) q'' ≠ [] →
       c_Priority c'' ≤ c_Priority c').
  { intros q'' c'' Hi1 Hi2 Hi3 Hi4.
    pose proof (candidate_for_in w queues q'' c'' Hi1 Hi2 Hi3 Hi4) as Hin''.
    specialize (Hmax _ Hin''). rewrite Htop in Hmax. done. }
  exists w', j, id, (qc_name top), c'. split_and!; try done.
  apply (Hall q); try done. by eapply queue_not_empty.
Qed.

(** The manager serves only queues it has cached: if none of the listed
    queues has a cached configuration, [Dequeue] reports an empty queue, however
    many due jobs the backend holds for them and whether or not the backend
    stores their configurations. *)
Theorem Dequeue_ignores_uncached w queues :
  queues ≠ [] → (∀ q, q ∈ queues → wo_configs w !! q = None) →
  ∃ w', Dequeue queues w = (Err ErrQueueEmpty, w') ∧ wview w' ≡ wview w ∧ wo_configs w' = wo_configs w.
Proof.
  intros Hne Hun.
  assert (Hcs : candidates (wo_configs w) (wview w) queues = []).
  { destruct (candidates _ _ _) as [|c cs] eqn:E; [done|].
    assert (Hc : c ∈ candidates (wo_configs w) (wview w) queues)
      by (rewrite E; apply list_elem_of_here).
    apply elem_of_candidates in Hc as [Hq (cfg & Hcfg & _)%candidate_of_Some].
    rewrite Hun in Hcfg; done. }
  cut (wp (Dequeue queues) w (λ r w', r = Err ErrQueueEmpty ∧ wview w' ≡ wview w ∧ wo_configs w' = wo_configs w)).
  { intros (r & w' & ? & -> & ?)%wp_elim. eauto. }
  apply wp_Dequeue; [done|..]; rewrite Hcs.
  - by intros p w' [[_ [=]]|[(c & [=] & _)|[(_ & x & c & _ & [=] & _)|([] & _)]]].
  - by intros w' _ (? & ? & _).
  - intros name r w' [[_ [= ->]]|[(c & [=] & _)|[(_ & x & c & _ & [=] & _)|([] & _)]]]; done.
Qed.

(** [Dequeue] panics when every queue that can serve has a negative
    priority: the random selection is called without a candidate. *)
Theorem Dequeue_negative_priorities_panic w queues :
  (∃ q c, q ∈ queues ∧ wo_configs w !! q = Some c ∧ v_paused (wview w) q = false ∧
     v_queue (wview w) q ≠ []) →
  (∀ q c, q ∈ queues → wo_configs w !! q = Some c → c_Priority c < 0) →
  ∃ w', Dequeue queues w = (Panic "invalid argument to Intn", w').
Proof.
  intros (q & c & Hq & Hc & Hp & Hv) Hneg.
  assert (Htop : top_candidates (candidates (wo_configs w) (wview w) queues) = []).
  { apply dec_stable. intros Hne. apply top_nonempty in Hne as (c' & Hc' & H0).
    apply elem_of_candidates in Hc' as [Hl (cfg & Hcfg & _ & _ & E)%candidate_of_Some].
    specialize (Hneg _ _ Hl Hcfg). rewrite E in H0. simpl in H0. lia. }
  assert (Hcs : candidates (wo_configs w) (wview w) queues ≠ []).
  { intros E. pose proof (candidate_for_in w queues q c Hq Hc Hp Hv) as Hin.
    rewrite E in Hin. by apply elem_of_nil in Hin. }
  assert (Hsel : ∀ r, selects (candidates (wo_configs w) (wview w) queues) r →
            r = Panic "invalid argument to Intn").
  { unfold selects. rewrite Htop.
    intros r [[? _]|[(? & [=] & _)|[(_ & ? & ? & _ & [=] & _)|(_&_&_&?)]]]; done. }
  cut (wp (Dequeue queues) w (λ r _, r = Panic "invalid argument to Intn")).
  { intros (r & w' & ? & ->)%wp_elim. eauto. }
  apply wp_Dequeue.
  - intros ->. by apply elem_of_nil in Hq.
  - intros p w' Hs _. apply Hsel in Hs. congruence.
  - intros w' Hs _. by apply Hsel in Hs.
  - intros name r w' Hs. by apply Hsel in Hs.
Qed.

(** A single candidate of non-negative priority is selected. *)
Lemma selects_single c r : 0 ≤ qc_priority c → selects [c] r → r = Ok (qc_name c).
Proof.
  intros Hc. assert (Ht : top_candidates [c] = [c]).
  { unfold top_candidates, max_priority. simpl. unfold PriorityLow.
    rewrite filter_cons. case_decide as H1; [done|]. exfalso. apply H1.
    destruct (Z.ltb_spec 0 (qc_priority c)); lia. }
  unfold selects. rewrite Ht.
  intros [[[=] _]|[(c' & [= <-] & ->)|[([] & _)|(_ & [] & _)]]]; done.
Qed.

(** C7. An enqueued job comes back: a new job that is not scheduled, enqueued
    into a queue that is empty, not paused and of non-negative priority, known
    to the manager or not, is what the next [Dequeue] on its queue returns,
    with the defaults filled in, and the queue is empty again. *)
Theorem enqueue_dequeue_roundtrip w j :
  let q := j_Queue (default_queue j) in
  let c := effective_config (wview w) (wo_configs w) q in
  let j' := job_defaults c (default_queue j) in
  v_jobs (wview w) !! j_ID j = None → v_queue (wview w) q = [] →
  v_paused (wview w) q = false → j_ScheduledAt j = None → 0 ≤ c_Priority c →
  ∃ w', (j0 ← Enqueue j; Dequeue [j_Queue j0]) w = (Ok j', w') ∧
    v_queue (wview w') q = [] ∧ v_jobs (wview w') !! j_ID j = Some j'.
Proof.
  intros q c j' Hnew Hempty Hnp Hsch Hpr.
  cut (wp (j0 ← Enqueue j; Dequeue [j_Queue j0]) w (λ r w', r = Ok j' ∧
         v_queue (wview w') q = [] ∧ v_jobs (wview w') !! j_ID j = Some j')).
  { intros (r & w' & ? & -> & ?)%wp_elim. eauto. }
  destruct (enqueued_job_fields w j) as (Hid & _ & _ & Hqu).
  wp_step. apply wp_Enqueue_new; [done|].
  intros w1 w2 d (_ & Hc1 & _) Hc2 _ _ (Hj2 & Hq2 & Hp2 & _) Hd. rewrite Hqu in *. fold q in Hc1, Hq2 |- *.
  fold c in Hc1. unfold due_time_ok in Hd. rewrite Hsch in Hd.
  fold c j' in Hj2, Hid |- *. change (enqueued_job w j) with j' in *.
  rewrite Hid in *. specialize (Hq2 q). rewrite bool_decide_true, Hempty in Hq2 by done.
  apply Permutation_singleton_r in Hq2.
  rewrite <- Hc2 in Hc1.
  assert (Hcands : candidates (wo_configs w2) (wview w2) [q] =
            [mkCandidate q (c_Priority c) (c_Weight c) 1]).
  { rewrite candidates_cons. assert (candidate_of (wo_configs w2) (wview w2) q =
      Some (mkCandidate q (c_Priority c) (c_Weight c) 1)) as ->; [|done].
    apply candidate_of_Some. exists c. rewrite Hc1, Hq2, Hp2. split_and!; try done.
    apply lookup_insert_eq. }
  apply wp_Dequeue; [done|..]; rewrite Hcands.
  - intros p w' Hs. by apply selects_single in Hs.
  - intros w' Hs. apply selects_single in Hs; [|done]. simplify_eq/=.
    by destruct (default_queue_nonempty j).
  - intros name r w' Hs Hne Hsv _ _. apply selects_single in Hs; [|done]. simplify_eq/=.
    destruct Hsv as [(q' & id & Hq' & _ & Hcl & ->)|(_ & _ & Hidle)].
    + apply list_elem_of_singleton in Hq' as ->. pose proof (claimed_jobs _ _ _ _ Hcl) as Hjobs.
      destruct Hcl as (t & _ & _ & x & rest & Hp & Hx & _ & _ & Hv).
      rewrite Hq2 in Hp. apply Permutation_singleton_l in Hp. simplify_eq/=.
      rewrite Hj2, lookup_insert_eq. split_and!; [done| |by rewrite Hjobs, Hj2, lookup_insert_eq].
      assert (Hnil : v_queue (wview w') q ≡ₚ []).
      { rewrite Hv. simpl. by rewrite bool_decide_true. }
      by apply Permutation_nil_r in Hnil.
    + exfalso. destruct (Hidle q) as [?|Hn]; [apply list_elem_of_here|congruence|].
      assert (Hdue := Hn (mkWaiting (j_ID j) (j_Priority j') d)).
      rewrite Hq2 in Hdue. unfold due in Hdue. simpl in Hdue.
      specialize (Hdue ltac:(apply list_elem_of_here)). lia.
Qed.
End delivery.

(** C37. Among the candidates of the highest priority the choice is fair by
    weight: of the numbers the random generator can return, exactly as many as
    its weight select each queue, every number selects one, and the fallback
    after the loop is never reached. *)
Theorem weighted_choice_fair cs :
  weights_ok cs → NoDup (qc_name <$> cs) →
  total_weight cs = weights cs ∧
  (∀ c, c ∈ cs → Z.of_nat (picks (qc_name c) 0 cs) = qc_weight c) ∧
  ∀ r, 0 ≤ r < total_weight cs → is_Some (pick r 0 cs).
Proof.
  intros Hok Hnd. pose proof (proj2 Hok) as Hs. rewrite total_weight_sum by done.
  split; [done|]. split.
  - intros c Hc. rewrite picks_spec by (done || lia).
    destruct (list_find (λ c0, qc_name c0 = qc_name c) cs) as [[i c']|] eqn:E; simpl.
    + apply list_find_Some in E as (Hi & Hn & _). apply list_elem_of_lookup_1 in Hc as [k Hk].
      assert (i = k) as ->; [|congruence].
      eapply (NoDup_lookup _ i k (qc_name c) Hnd); rewrite list_lookup_fmap.
      * rewrite Hi. simpl. by rewrite Hn.
      * by rewrite Hk.
    + apply list_find_None in E. rewrite Forall_forall in E. by destruct (E c Hc).
  - intros r Hr. apply pick_total; (done || lia).
Qed.

#[local] Existing Instance demo_runtime.
#[local] Existing Instance map_range_default.
#[local] Existing Instance MemoryLaws.MemoryStorage.
#[local] Existing Instance MemoryLaws.MemoryStorageLaws.

(** Two queues over the demo store: "a" has a low priority and a due entry, "b"
    a high one and an entry that is due at time 500. *)
Definition two_queues (due_b : Time) : World MemoryStore.MemoryStore := {|
  wo_store := MemoryStore.set_ms_queues
    {[ "a" := [MemoryStore.mkQueueEntry "1" 5 0]; "b" := [MemoryStore.mkQueueEntry "2" 5 due_b] ]}
    MemoryJobs.demo_jobs;
  wo_configs := {[ "a" := auto_config "a"; "b" := set_c_Weight 3 (auto_config "b") ]};
  wo_tick := 100; wo_rand := 0 |}.

Lemma two_queues_ok due_b : queues_ok (two_queues due_b) ["a"; "b"].
Proof.
  split; [set_solver|]. split; [simpl; lia|].
  intros q c Hq Hc. rewrite elem_of_cons, list_elem_of_singleton in Hq.
  destruct Hq as [->| ->]; vm_compute in Hc; simplify_eq; simpl; lia.
Qed.

Lemma two_queues_stored due_b : entries_stored (two_queues due_b) ["a"; "b"].
Proof.
  intros q x Hq Hx. rewrite elem_of_cons, list_elem_of_singleton in Hq.
  destruct Hq as [->| ->]; vm_compute in Hx |- *;
    apply list_elem_of_singleton in Hx as ->; by eexists.
Qed.

Lemma Dequeue_delivers_witness :
  let w := two_queues 500 in
  ∃ w' id q', q' ∈ ["a"; "b"] ∧ claimed q' id w w' ∧
    Dequeue ["a"; "b"] w = (match v_jobs (wview w) !! id with
                            | Some j => Ok j
                            | None => Err (Wrapf "failed to get job" ErrJobNotFound)
                            end, w') ∧
    (entries_stored w ["a"; "b"] →
     ∃ j, v_jobs (wview w) !! id = Some j ∧ Dequeue ["a"; "b"] w = (Ok j, w')).
Proof.
  intros w. apply (Dequeue_delivers w ["a"; "b"] "a" (mkWaiting "1" 5 0) (auto_config "a")).
  - apply two_queues_ok.
  - apply list_elem_of_here.
  - reflexivity.
  - reflexivity.
  - apply list_elem_of_here.
  - reflexivity.
Defined.

Lemma Dequeue_strict_priority_witness :
  ∃ w' j id q' c', Dequeue ["a"; "b"] (two_queues 7) = (Ok j, w') ∧
    claimed q' id (two_queues 7) w' ∧
    wo_configs (two_queues 7) !! q' = Some c' ∧ c_Priority (auto_config "a") ≤ c_Priority c' ∧
    (∀ q'' c'', q'' ∈ ["a"; "b"] → wo_configs (two_queues 7) !! q'' = Some c'' →
       v_paused (wview (two_queues 7)) q'' = false → v_queue (wview (two_queues 7)) q'' ≠ [] →
       c_Priority c'' ≤ c_Priority c').
Proof.
  apply (Dequeue_strict_priority (two_queues 7) ["a"; "b"] "a" (mkWaiting "1" 5 0) (auto_config "a")).
  - apply two_queues_ok.
  - apply two_queues_stored.
  - apply list_elem_of_here.
  - reflexivity.
  - reflexivity.
  - apply list_elem_of_here.
  - reflexivity.
  - intros top Htop. apply elem_of_top in Htop as [Htop _]. vm_compute in Htop.
    apply elem_of_cons in Htop as [->|Htop]; [|apply list_elem_of_singleton in Htop as ->];
      eexists; (split; [apply list_elem_of_here|reflexivity]).
Defined.

Lemma Dequeue_ignores_uncached_witness :
  ∃ w', Dequeue ["c"] (two_queues 7) = (Err ErrQueueEmpty, w') ∧ wview w' ≡ wview (two_queues 7) ∧
    wo_configs w' = wo_configs (two_queues 7).
Proof.
  apply (Dequeue_ignores_uncached (two_queues 7) ["c"]); [done|].
  intros q ->%list_elem_of_singleton. reflexivity.
Defined.

Lemma Dequeue_negative_priorities_panic_witness :
  let w := set_wo_configs {[ "a" := mkQueueConfig "a" 10 3 "FIXED" 0 300 (-1) 0 1 false 60 3600 "" ]}
             (two_queues 7) in
  ∃ w', Dequeue ["a"] w = (Panic "invalid argument to Intn", w').
Proof.
  intros w. apply (Dequeue_negative_priorities_panic w ["a"]).
  - eexists "a", _. split; [apply list_elem_of_here|]. split; [reflexivity|].
    split; [reflexivity|]. discriminate.
  - intros q c ->%list_elem_of_singleton Hc. vm_compute in Hc. simplify_eq. simpl. lia.
Defined.

Lemma enqueue_dequeue_roundtrip_witness :
  let w := two_queues 7 in
  let j := MemoryJobs.demo_job "9" "new" 3 in
  let q := j_Queue (default_queue j) in
  let c := effective_config (wview w) (wo_configs w) q in
  let j' := job_defaults c (default_queue j) in
  ∃ w', (j0 ← Enqueue j; Dequeue [j_Queue j0]) w = (Ok j', w') ∧
    v_queue (wview w') q = [] ∧ v_jobs (wview w') !! j_ID j = Some j'.
Proof.
  intros w j. apply (enqueue_dequeue_roundtrip w j); try reflexivity. vm_compute. discriminate.
Defined.

Lemma weighted_choice_fair_witness :
  let cs := [mkCandidate "a" 5 1 4; mkCandidate "b" 5 3 2] in
  total_weight cs = 4 ∧
  (∀ c, c ∈ cs → Z.of_nat (picks (qc_name c) 0 cs) = qc_weight c) ∧
  ∀ r, 0 ≤ r < total_weight cs → is_Some (pick r 0 cs).
Proof.
  intros cs. apply (weighted_choice_fair cs).
  - split; [repeat constructor; simpl; lia|]. unfold max_int64. simpl. lia.
  - apply (bool_decide_unpack _). vm_compute. exact I.
Defined.
