(* ===== verification/Pool.v ===== *)
(** * The worker pool (internal/worker/pool.go): processing a job

    [processJob] with its two endings, and the retry delay. The goroutines and
    the channel are in PoolSteps.v. *)

From S2P Require Import Prelude Errors GoMonad Job Storage World Manager.

(** ** Configuration *)

(** [type Config struct]. *)
Record Config : Type := mkConfig {
  cf_ID : string;
  cf_Queues : list string;
  cf_Concurrency : Z;
  cf_PollInterval : Duration;
  cf_HeartbeatInterval : Duration;
  cf_ShutdownTimeout : Duration;
  cf_Tags : gmap string string;
}.

(** The defaults that [NewPool] fills in. The host name, the number of CPUs and
    the time come from the operating system. *)
Definition pool_config (hostname : string) (unix numCPU : Z) (c : Config) : Config := {|
  cf_ID := if bool_decide (cf_ID c = "") then hostname +:+ "-" +:+ pretty unix else cf_ID c;
  cf_Queues := if bool_decide (cf_Queues c = []) then ["default"] else cf_Queues c;
  cf_Concurrency := if cf_Concurrency c =? 0 then numCPU else cf_Concurrency c;
  cf_PollInterval := if cf_PollInterval c =? 0 then 1 * Second else cf_PollInterval c;
  cf_HeartbeatInterval :=
    if cf_HeartbeatInterval c =? 0 then 30 * Second else cf_HeartbeatInterval c;
  cf_ShutdownTimeout := if cf_ShutdownTimeout c =? 0 then 30 * Second else cf_ShutdownTimeout c;
  cf_Tags := cf_Tags c;
|}.

(** The [Worker] that [NewPool] makes. *)
Definition pool_worker (hostname : string) (now : Time) (c : Config) : Worker := {|
  w_ID := cf_ID c; w_Hostname := hostname; w_StartedAt := Some now; w_LastHeartbeat := Some now;
  w_CurrentJobID := None; w_ProcessedCount := 0; w_FailedCount := 0;
  w_Status := WorkerStatusIdle; w_Queues := cf_Queues c; w_Concurrency := cf_Concurrency c;
  w_Tags := cf_Tags c; w_Version := "1.0.0" |}.

(** ** Retry delay *)

(** [calculateRetryDelay]: products of [Duration]s wrap around, and so does
    the multiplier [1 << uint(retryCount-1)]. *)
Definition calculateRetryDelay (retryCount : Z) (config : QueueConfig) : Duration :=
  let baseDelay := wrap64 (c_RetryDelay config * Second) in
  let maxDelay := wrap64 (c_MaxRetryDelay config * Second) in
  let delay :=
    if bool_decide (c_RetryStrategy config = RetryStrategyFixed) then baseDelay
    else if bool_decide (c_RetryStrategy config = RetryStrategyLinear) then
      wrap64 (baseDelay * retryCount)
    else if bool_decide (c_RetryStrategy config = RetryStrategyExponential) then
      wrap64 (baseDelay * shl1 (wrap64 (retryCount - 1)))
    else baseDelay in
  if maxDelay <? delay then maxDelay else delay.

(** ** Handlers *)

(** How a call of a handler ends. *)
Inductive outcome : Type :=
  | Returned (err : option error)
  | Panicked (why : string).

(** A [JobHandler] is code of the program's user: it gets a pointer to the job
    and may write through it, so it also says what the job is afterwards. *)
Abbreviation JobHandler := (Job → outcome * Job).

(** [RegisterHandler] and [RegisterHandlers]: the last registration of a type
    counts. *)
Definition RegisterHandler (jobType : string) (h : JobHandler) (hs : gmap string JobHandler) :
    gmap string JobHandler := <[jobType := h]> hs.

Definition RegisterHandlers (new hs : gmap string JobHandler) : gmap string JobHandler := new ∪ hs.

(** [type Pool struct], without its goroutines: the context, the stop channel
    and the wait group are in PoolSteps.v. *)
Record Pool : Type := mkPool {
  pl_id : string;
  pl_handlers : gmap string JobHandler;
  pl_queues : list string;
  pl_concurrency : Z;
  pl_pollInterval : Duration;
  pl_heartbeatInterval : Duration;
  pl_shutdownTimeout : Duration;
  pl_worker : Worker;
  pl_jobCh : nat;  (* the capacity of the channel *)
}.

(** [NewPool] reads the clock for the identifier and for the worker; the channel
    cannot be made with a negative capacity. *)
Definition NewPool (hostname : string) (unix numCPU : Z) (now : Time) (config : Config) : res Pool :=
  let config := pool_config hostname unix numCPU config in
  if cf_Concurrency config <? 0 then Panic "makechan: size out of range"
  else Ok {|
    pl_id := cf_ID config; pl_handlers := ∅; pl_queues := cf_Queues config;
    pl_concurrency := cf_Concurrency config; pl_pollInterval := cf_PollInterval config;
    pl_heartbeatInterval := cf_HeartbeatInterval config;
    pl_shutdownTimeout := cf_ShutdownTimeout config;
    pl_worker := pool_worker hostname now config;
    pl_jobCh := Z.to_nat (cf_Concurrency config) |}.

Definition GetWorker (p : Pool) : Worker := pl_worker p.

(** [executeJob]: a missing handler and a recovered panic are errors. *)
Definition executeJob (handlers : gmap string JobHandler) (j : Job) : option error * Job :=
  match handlers !! j_Type j with
  | None => (Some (Errorf ("no handler registered for job type: " +:+ j_Type j)), j)
  | Some handler =>
      match handler j with
      | (Returned err, j') => (err, j')
      | (Panicked why, j') => (Some (Errorf ("job panicked: " +:+ why)), j')
      end
  end.

Section pool.
Context {S : Type} `{Storage S} `{Runtime}.
Context (handlers : gmap string JobHandler) (worker : string).

Definition handleJobSuccess (j : Job) (duration : Duration) : M (World S) unit :=
  warn (UpdateJobStatus (j_ID j) StatusSuccess) ;;
  warn (UpdateJobProgress (j_ID j) 100) ;;
  warn (use (st_RecordJobCompleted (j_Queue j) (j_Type j) duration)) ;;
  warn (use (st_IncrementProcessed worker)).

(** The branch of [handleJobFailure] for a job that can be retried. [true]
    stands for its early return. *)
Definition retry_job (j : Job) : M (World S) bool :=
  let j := set_j_RetryCount (wrap64 (j_RetryCount j + 1)) j in
  r ← attempt (GetQueueConfig (j_Queue j));
  match r with
  | inr _ => mret true
  | inl config =>
      let delay := calculateRetryDelay (j_RetryCount j) config in
      warn (UpdateJobStatus (j_ID j) StatusRetrying) ;;
      warn (Requeue j delay) ;;
      warn (use (st_RecordJobRetried (j_Queue j) (j_Type j))) ;;
      mret false
  end.

(** The other branch, with the dead letter queue. *)
Definition fail_job (j : Job) : M (World S) unit :=
  warn (UpdateJobStatus (j_ID j) StatusFailed) ;;
  warn (use (st_RecordJobFailed (j_Queue j) (j_Type j))) ;;
  r ← attempt (GetQueueConfig (j_Queue j));
  match r with
  | inl config =>
      if bool_decide (c_DeadLetterQueue config = "") then mret tt
      else
        let j := set_j_Queue (c_DeadLetterQueue config) j in
        let j := set_j_Status StatusPending j in
        warn (Enqueue j)
  | inr _ => mret tt
  end.

Definition handleJobFailure (j : Job) (jobErr : error) (duration : Duration) :
    M (World S) unit :=
  warn (SetJobError (j_ID j) (Error jobErr)) ;;
  returned ← (if CanRetry j then retry_job j else fail_job j ;; mret false);
  if returned : bool then mret tt else warn (use (st_IncrementFailed worker)).

Definition processJob (j : Job) : M (World S) unit :=
  startTime ← Now;
  r ← attempt (UpdateJobStatus (j_ID j) StatusRunning);
  match r with
  | inr _ => mret tt
  | inl _ =>
      warn (use (st_SetCurrentJob worker (j_ID j))) ;;
      let '(err, j) := executeJob handlers j in
      warn (use (st_SetCurrentJob worker "")) ;;
      now ← Now;
      let duration := Sub now startTime in
      match err with
      | Some e => handleJobFailure j e duration
      | None => handleJobSuccess j duration
      end
  end.

(** [Start] up to the goroutines. *)
Definition pool_start (w : Worker) : M (World S) unit :=
  wrap_err "failed to register worker" (use (st_RegisterWorker w)) ;;
  wrap_err "failed to update worker status"
    (use (st_UpdateWorkerStatus (w_ID w) WorkerStatusProcessing)).

(** The end of [Stop], after the goroutines. *)
Definition pool_stop (w : Worker) : M (World S) unit :=
  warn (use (st_UpdateWorkerStatus (w_ID w) WorkerStatusStopped)) ;;
  warn (use (st_UnregisterWorker (w_ID w))).

(** One tick of [heartbeatLoop]. *)
Definition heartbeat : M (World S) unit :=
  warn (call (λ clk, st_UpdateHeartbeat clk worker)).

End pool.

(** ** Statistics *)

(** The map that [GetStats] returns, from the pool's own [Worker], which only
    [NewPool], [Start] and [Stop] write. *)
Record PoolStats : Type := mkPoolStats {
  pst_id : string;
  pst_status : string;
  pst_queues : list string;
  pst_concurrency : Z;
  pst_processed_count : Z;
  pst_failed_count : Z;
  pst_success_rate : Corelib.Floats.PrimFloat.float;
  pst_uptime : Duration;
}.

Definition GetStats (now : Time) (concurrency : Z) (w : Worker) : PoolStats := {|
  pst_id := w_ID w;
  pst_status := w_Status w;
  pst_queues := w_Queues w;
  pst_concurrency := concurrency;
  pst_processed_count := w_ProcessedCount w;
  pst_failed_count := w_FailedCount w;
  pst_success_rate := SuccessRate w;
  pst_uptime := Uptime now w;
|}.
