(* ===== verification/PoolProps.v ===== *)
(** * What processing a job leaves behind

    The three endings of [processJob], retries without end, and the arithmetic
    of the retry delay. *)

From S2P Require Import Prelude Errors GoMonad Job Storage World Manager ManagerProps Pool.
From S2P Require MemoryStore MemoryJobs MemoryLaws.

(** ** Retry delay *)

(** The delay in exact arithmetic, for the retry number [n] from 1 on. *)
Definition exact_delay (n : Z) (config : QueueConfig) : Z :=
  let base := c_RetryDelay config * Second in
  Z.min (c_MaxRetryDelay config * Second)
    (if bool_decide (c_RetryStrategy config = RetryStrategyLinear) then base * n
     else if bool_decide (c_RetryStrategy config = RetryStrategyExponential)
     then base * 2 ^ (n - 1)
     else base).

(** The delays fit in 64 bits: the base, the maximum, and the product. *)
Definition delay_fits (n : Z) (config : QueueConfig) : Prop :=
  0 ≤ c_RetryDelay config ∧ c_MaxRetryDelay config * Second ≤ max_int64 ∧
  0 ≤ c_MaxRetryDelay config ∧ 1 ≤ n ≤ 63 ∧
  c_RetryDelay config * Second * 2 ^ (n - 1) ≤ max_int64.

Lemma two_pow_ge n : 1 ≤ n → n ≤ 2 ^ (n - 1).
Proof.
  intros Hn. replace n with (Z.of_nat (Z.to_nat (n - 1)) + 1) by lia.
  generalize (Z.to_nat (n - 1)). clear n Hn. intros k.
  replace (Z.of_nat k + 1 - 1) with (Z.of_nat k) by lia.
  induction k as [|k IH]; [simpl; lia|].
  rewrite Nat2Z.inj_succ, Z.pow_succ_r by lia. lia.
Qed.

Lemma calculateRetryDelay_fits n config :
  delay_fits n config → calculateRetryDelay n config = exact_delay n config.
Proof.
  intros (Hd & Hm & Hm0 & Hn & Hp). unfold max_int64 in *.
  pose proof (two_pow_ge n ltac:(lia)) as H2.
  set (base := c_RetryDelay config * Second) in *.
  assert (0 ≤ base) by (subst base; unfold Second; lia).
  assert (base ≤ base * n) by nia. assert (base * n ≤ base * 2 ^ (n - 1)) by nia.
  unfold calculateRetryDelay, exact_delay. fold base.
  assert (Hs : shl1 (wrap64 (n - 1)) = 2 ^ (n - 1)).
  { rewrite wrap64_id by (unfold int64; lia). apply shl1_small. lia. }
  rewrite Hs, (wrap64_id base), (wrap64_id (c_MaxRetryDelay config * Second))
    by (unfold int64, Second in *; lia).
  rewrite (wrap64_id (base * n)), (wrap64_id (base * 2 ^ (n - 1))) by (unfold int64; lia).
  unfold RetryStrategyFixed, RetryStrategyLinear, RetryStrategyExponential.
  repeat case_bool_decide; try congruence;
    match goal with |- (if ?b then _ else _) = _ => destruct b eqn:E end; go_simpl; lia.
Qed.

(** [1 << uint(n-1)] is a multiple of 2^55 from 56 on. *)
Lemma shl1_multiple n : 56 ≤ n < 2 ^ 63 → ∃ k, shl1 (n - 1) = k * 2 ^ 55.
Proof.
  intros Hn. destruct (Z_lt_le_dec n 64) as [Hl|Hg].
  - exists (2 ^ (n - 1 - 55)). rewrite <- Z.pow_add_r by lia.
    rewrite shl1_small by lia. f_equal. lia.
  - destruct (decide (n = 64)) as [->|]; [by exists (-256)|].
    exists 0. rewrite shl1_large by lia. done.
Qed.

Lemma wrap64_mult_zero x k : wrap64 (wrap64 (x * Second) * (k * 2 ^ 55)) = 0.
Proof.
  assert (Hw : ∃ i, wrap64 (x * Second) = x * Second + i * 2 ^ 64).
  { unfold wrap64. exists (- ((x * Second + 2 ^ 63) / 2 ^ 64)).
    pose proof (Z.div_mod (x * Second + 2 ^ 63) (2 ^ 64) ltac:(lia)). lia. }
  destruct Hw as [i ->]. unfold wrap64.
  replace ((x * Second + i * 2 ^ 64) * (k * 2 ^ 55) + 2 ^ 63)
    with (2 ^ 63 + (x * 1953125 * k + i * k * 2 ^ 55) * 2 ^ 64) by (unfold Second; lia).
  rewrite Z.mod_add by lia. rewrite Z.mod_small by lia. lia.
Qed.

(** ** Processing *)

Section processing.
Context {S : Type} `{L : StorageLaws S} `{R : Runtime}.
Implicit Types (w : World S).

(** [w'] is a later state of [w] in which the job [id] is [j], the workers are
    changed by [f], and all else is the same. *)
Record updated (w w' : World S) (id : string) (j : Job)
    (f : gmap string Worker → gmap string Worker) : Prop := {
  up_jobs : v_jobs (wview w') = <[id := j]> (v_jobs (wview w));
  up_queues : ∀ q, v_queue (wview w') q ≡ₚ v_queue (wview w) q;
  up_paused : ∀ q, v_paused (wview w') q = v_paused (wview w) q;
  up_workers : v_workers (wview w') = f (v_workers (wview w));
  up_configs : v_configs (wview w') = v_configs (wview w);
  up_cache : wo_configs w' = wo_configs w;
  up_tick : (wo_tick w ≤ wo_tick w')%nat;
}.

Lemma updated_refl w id j : v_jobs (wview w) !! id = Some j → updated w w id j (λ x, x).
Proof. intros Hj. by split; rewrite ?insert_id. Qed.

Lemma updated_then w w1 w2 id j1 j2 f :
  updated w w1 id j1 f →
  then_ w1 (set_v_jobs (<[id := j2]> (v_jobs (wview w1))) (wview w1)) (wo_configs w1) w2 →
  updated w w2 id j2 f.
Proof.
  intros [H1 H2 H3 H4 H5 H6 H7] (Hv & Hc & Ht). split.
  - rewrite Hv. simpl. by rewrite H1, insert_insert_eq.
  - intros q. rewrite Hv. apply H2.
  - intros q. rewrite Hv. apply H3.
  - rewrite Hv. apply H4.
  - rewrite Hv. apply H5.
  - congruence.
  - lia.
Qed.

Lemma updated_keep w w1 w2 id j f :
  updated w w1 id j f → then_ w1 (wview w1) (wo_configs w1) w2 → updated w w2 id j f.
Proof.
  intros [H1 H2 H3 H4 H5 H6 H7] (Hv & Hc & Ht).
  split; try (intros q); rewrite ?Hv; eauto; try congruence; lia.
Qed.

Lemma updated_worker w w1 w2 id j f g k :
  updated w w1 id j f →
  then_ w1 (set_v_workers (alter g k (v_workers (wview w1))) (wview w1)) (wo_configs w1) w2 →
  updated w w2 id j (λ x, alter g k (f x)).
Proof.
  intros [H1 H2 H3 H4 H5 H6 H7] (Hv & Hc & Ht). split; try (intros q); rewrite ?Hv; simpl; eauto.
  - by rewrite H4.
  - congruence.
  - lia.
Qed.

Lemma updated_lookup w w1 id j f : updated w w1 id j f → v_jobs (wview w1) !! id = Some j.
Proof. intros [H1 _ _ _ _ _ _]. rewrite H1. apply lookup_insert_eq. Qed.

(** The rules of the calls of [processJob], in terms of [updated]. *)

Lemma wp_up_status w w1 id j f status (Q : res unit → World S → Prop) :
  updated w w1 id j f →
  (∀ j2 w2, updated w w2 id j2 f → same_job j j2 → j_Status j2 = status →
     j_Error j2 = j_Error j → j_Result j2 = j_Result j → j_Progress j2 = j_Progress j → Q (Ok tt) w2) →
  wp (UpdateJobStatus id status) w1 Q.
Proof.
  intros Hu HQ. unfold UpdateJobStatus.
  eapply wp_updates_job_call; [intros; apply law_UpdateStatus|by eapply updated_lookup|].
  intros j2 w2 (Hs & Hst & He & Hr & Hp) Hw. apply (HQ j2); try done. by eapply updated_then.
Qed.

Lemma wp_up_error w w1 id j f msg (Q : res unit → World S → Prop) :
  updated w w1 id j f →
  (∀ j2 w2, updated w w2 id j2 f → same_job j j2 → j_Status j2 = j_Status j →
     j_Error j2 = msg → Q (Ok tt) w2) →
  wp (SetJobError id msg) w1 Q.
Proof.
  intros Hu HQ. unfold SetJobError.
  eapply wp_updates_job_call; [intros; apply law_SetError|by eapply updated_lookup|].
  intros j2 w2 (Hs & He & Hst & _) Hw. apply (HQ j2); try done. by eapply updated_then.
Qed.

Lemma wp_up_progress w w1 id j f p (Q : res unit → World S → Prop) :
  updated w w1 id j f →
  (∀ j2 w2, updated w w2 id j2 f → same_job j j2 → j_Status j2 = j_Status j →
     j_Progress j2 = p → j_Error j2 = j_Error j → j_Result j2 = j_Result j → Q (Ok tt) w2) →
  wp (UpdateJobProgress id p) w1 Q.
Proof.
  intros Hu HQ. unfold UpdateJobProgress.
  eapply wp_updates_job_call; [intros; apply law_UpdateProgress|by eapply updated_lookup|].
  intros j2 w2 (Hs & Hp & Hst & He & Hr) Hw. apply (HQ j2); try done. by eapply updated_then.
Qed.

Lemma wp_up_worker w w1 id j f g k op (Q : res unit → World S → Prop) :
  updated w w1 id j f → updates_worker view g k op →
  (∀ w2, updated w w2 id j (λ x, alter g k (f x)) → Q (Ok tt) w2) →
  wp (warn (use op)) w1 Q.
Proof.
  intros Hu Hop HQ. wp_step. eapply wp_updates_worker; [exact Hop|].
  intros r w2 Hr Hw. destruct r; try done; apply HQ; by eapply updated_worker.
Qed.

Lemma wp_up_silent w w1 id j f op (Q : res unit → World S → Prop) :
  updated w w1 id j f → silent view op →
  (∀ w2, updated w w2 id j f → Q (Ok tt) w2) →
  wp (warn (use op)) w1 Q.
Proof.
  intros Hu Hop HQ. wp_step. apply wp_silent; [exact Hop|].
  intros w2 Hw. apply HQ. by eapply updated_keep.
Qed.

Lemma wp_up_now w w1 id j f (Q : res Time → World S → Prop) :
  updated w w1 id j f →
  (∀ w2, updated w w2 id j f → Q (Ok (now_of w1)) w2) → wp Now w1 Q.
Proof. intros Hu HQ. wp_step. intros w2 Hw _. apply HQ. by eapply updated_keep. Qed.

Context (handlers : gmap string JobHandler) (worker : string).

(** What the pool's worker record becomes. *)
Definition worker_succeeded (x : Worker) : Worker :=
  set_w_ProcessedCount (wrap64 (w_ProcessedCount x + 1)) (set_w_CurrentJobID None x).

Definition worker_failed (x : Worker) : Worker :=
  set_w_FailedCount (wrap64 (w_FailedCount x + 1)) (set_w_CurrentJobID None x).

(** The worker while the job is executed and after it. *)
Definition worker_cleared (x : Worker) : Worker := set_w_CurrentJobID None x.

Lemma alter_compose (g h k : Worker → Worker) (m : gmap string Worker) i :
  (∀ x, g (h x) = k x) → alter g i (alter h i m) = alter k i m.
Proof. intros Hk. rewrite alter_alter_eq. apply alter_ext. intros x _. apply Hk. Qed.

Lemma updated_ext w w' id j f g :
  (∀ m, f m = g m) → updated w w' id j f → updated w w' id j g.
Proof. intros Hfg []. split; try done. by rewrite <- Hfg. Qed.

(** [processJob] up to the end of the handler. *)
Lemma wp_processJob j j0 err j' w Q :
  v_jobs (wview w) !! j_ID j = Some j0 → executeJob handlers j = (err, j') →
  (∀ j1 w1 duration, updated w w1 (j_ID j) j1 (alter worker_cleared worker) →
     same_job j0 j1 → j_Status j1 = StatusRunning → j_Error j1 = j_Error j0 → j_Result j1 = j_Result j0 →
     wp (match err with
         | Some e => handleJobFailure worker j' e duration
         | None => handleJobSuccess worker j' duration
         end) w1 Q) →
  wp (processJob handlers worker j) w Q.
Proof.
  intros Hj Hex HQ. unfold processJob. wp_step.
  eapply wp_up_now; [by apply updated_refl|]. intros w1 Hu1. cbv beta iota. wp_step. wp_step.
  eapply wp_up_status; [exact Hu1|]. intros j2 w2 Hu2 Hsame Hst He Hres _. cbv beta iota. wp_step.
  eapply wp_up_worker; [exact Hu2|apply law_SetCurrentJob|]. intros w3 Hu3. cbv beta iota.
  rewrite Hex. wp_step.
  eapply wp_up_worker; [exact Hu3|apply law_SetCurrentJob|]. intros w4 Hu4. cbv beta iota. wp_step.
  eapply wp_up_now; [exact Hu4|]. intros w5 Hu5. cbv beta iota zeta.
  apply (HQ j2); try done. eapply updated_ext, Hu5. intros m. simpl. by apply alter_compose.
Qed.

Lemma wp_processJob_success j j0 j' w (Q : res unit → World S → Prop) :
  v_jobs (wview w) !! j_ID j = Some j0 → executeJob handlers j = (None, j') → j_ID j' = j_ID j →
  (∀ j1 w1, updated w w1 (j_ID j) j1 (alter worker_succeeded worker) → same_job j0 j1 →
     j_Status j1 = StatusSuccess → j_Progress j1 = 100 → j_Error j1 = j_Error j0 →
     j_Result j1 = j_Result j0 → Q (Ok tt) w1) →
  wp (processJob handlers worker j) w Q.
Proof.
  intros Hj Hex Hid HQ. eapply wp_processJob; [done..|]. intros j1 w1 dur Hu Hsame _ He Hres.
  unfold handleJobSuccess. rewrite Hid. wp_step. wp_step.
  eapply wp_up_status; [exact Hu|]. intros j2 w2 Hu2 Hsame2 Hst2 He2 Hres2 _. cbv beta iota.
  wp_step. wp_step. eapply wp_up_progress; [exact Hu2|].
  intros j3 w3 Hu3 Hsame3 Hst3 Hp3 He3 Hres3. cbv beta iota. wp_step.
  eapply wp_up_silent; [exact Hu3|apply law_RecordJobCompleted|]. intros w4 Hu4. cbv beta iota.
  eapply wp_up_worker; [exact Hu4|apply law_IncrementProcessed|]. intros w5 Hu5.
  apply (HQ j3); try congruence.
  - eapply updated_ext, Hu5. intros m. by apply alter_compose.
  - by etransitivity; [|etransitivity].
Qed.

(** The final failure of a job that cannot be retried: the dead letter queue, if
    there is one, does not get it. *)
Lemma wp_fail_job j j0 w w1 f (Q : res unit → World S → Prop) :
  updated w w1 (j_ID j) j0 f →
  (∀ j1 w2, v_jobs (wview w2) = <[j_ID j := j1]> (v_jobs (wview w)) →
     (∀ q, v_queue (wview w2) q ≡ₚ v_queue (wview w) q) →
     v_workers (wview w2) = f (v_workers (wview w)) →
     same_job j0 j1 → j_Status j1 = StatusFailed → j_Error j1 = j_Error j0 →
     Q (Ok tt) w2) →
  wp (fail_job j) w1 Q.
Proof.
  intros Hu HQ. unfold fail_job. wp_step. wp_step.
  eapply wp_up_status; [exact Hu|]. intros j2 w2 Hu2 Hsame2 Hst2 He2 _ _. cbv beta iota.
  wp_step. eapply wp_up_silent; [exact Hu2|apply law_RecordJobFailed|]. intros w3 Hu3.
  cbv beta iota. wp_step. wp_step.
  assert (Hend : ∀ w', wview w' ≡ wview w3 → Q (Ok tt) w').
  { intros w' Hv. destruct Hu3. apply (HQ j2); try done; try (intros q); by rewrite Hv. }
  assert (Hdlq : ∀ c w', wview w' ≡ wview w3 → wo_configs w' !! j_Queue j = Some c →
    wp (if bool_decide (c_DeadLetterQueue c = "") then mret tt
        else warn (Enqueue (set_j_Status StatusPending (set_j_Queue (c_DeadLetterQueue c) j))))
      w' Q).
  { intros c w' Hv Hc. case_bool_decide; [wp_step; by apply Hend|]. wp_step.
    apply wp_Enqueue_dup.
    - exists j2. rewrite Hv. simpl. by eapply updated_lookup.
    - intros w'' Hens. destruct (ensured_then _ _ _ Hens) as (Hj & Hq & _ & Hw & _).
      destruct Hu3. apply (HQ j2); try done; try (intros q); rewrite ?Hj, ?Hq, ?Hw; by rewrite Hv. }
  apply wp_GetQueueConfig.
  - intros c Hc. cbv beta iota. by apply Hdlq.
  - intros c w' Hc Hs (Hv & Hcc & _). cbv beta iota. apply Hdlq; [done|]. rewrite Hcc.
    apply lookup_insert_eq.
  - intros w' Hc Hs (Hv & _). cbv beta iota. wp_step. by apply Hend.
Qed.

Lemma wp_processJob_fail j j0 e j' w (Q : res unit → World S → Prop) :
  v_jobs (wview w) !! j_ID j = Some j0 → executeJob handlers j = (Some e, j') →
  j_ID j' = j_ID j → CanRetry j' = false →
  (∀ j1 w1, v_jobs (wview w1) = <[j_ID j := j1]> (v_jobs (wview w)) →
     (∀ q, v_queue (wview w1) q ≡ₚ v_queue (wview w) q) →
     v_workers (wview w1) = alter worker_failed worker (v_workers (wview w)) →
     same_job j0 j1 → j_Status j1 = StatusFailed → j_Error j1 = Error e →
     Q (Ok tt) w1) →
  wp (processJob handlers worker j) w Q.
Proof.
  intros Hj Hex Hid Hcan HQ. eapply wp_processJob; [done..|]. intros j1 w1 dur Hu Hsame _ _ _.
  unfold handleJobFailure. rewrite Hid, Hcan. wp_step. wp_step.
  eapply wp_up_error; [exact Hu|]. intros j2 w2 Hu2 Hsame2 _ He2. cbv beta iota.
  wp_step. wp_step. rewrite <- Hid in Hu2. eapply wp_fail_job; [exact Hu2|].
  intros j3 w3 Hjobs Hq Hw Hsame3 Hst3 He3. cbv beta iota. wp_step. cbv beta iota. wp_step.
  eapply wp_updates_worker; [apply law_IncrementFailed|]. intros r w4 Hr (Hv & _).
  destruct r; try done; apply (HQ j3); try congruence;
    try (intros q); rewrite ?Hv; simpl; try done.
  all: try (by rewrite <- Hid).
  all: try (rewrite Hw; by apply alter_compose).
  all: by etransitivity; [|etransitivity].
Qed.

(** The job that a failed execution puts back into its queue. *)
Definition retried (j : Job) : Job := set_j_RetryCount (wrap64 (j_RetryCount j + 1)) j.

Lemma wp_processJob_retry j j0 e j' c w (Q : res unit → World S → Prop) :
  v_jobs (wview w) !! j_ID j = Some j0 → executeJob handlers j = (Some e, j') →
  j_ID j' = j_ID j → CanRetry j' = true → wo_configs w !! j_Queue j' = Some c →
  (∀ t w1, now_of w ≤ t ≤ now_of w1 →
     v_jobs (wview w1) = <[j_ID j := retried j']> (v_jobs (wview w)) →
     (∀ q, v_queue (wview w1) q ≡ₚ
        if bool_decide (q = j_Queue j')
        then mkWaiting (j_ID j) (j_Priority j')
               (Add t (calculateRetryDelay (j_RetryCount (retried j')) c)) :: v_queue (wview w) q
        else v_queue (wview w) q) →
     v_workers (wview w1) = alter worker_failed worker (v_workers (wview w)) →
     wo_configs w1 = wo_configs w → (wo_tick w ≤ wo_tick w1)%nat →
     Q (Ok tt) w1) →
  wp (processJob handlers worker j) w Q.
Proof.
  intros Hj Hex Hid Hcan Hc HQ. eapply wp_processJob; [done..|]. intros j1 w1 dur Hu Hsame _ _ _.
  unfold handleJobFailure. rewrite Hid, Hcan. wp_step. wp_step.
  eapply wp_up_error; [exact Hu|]. intros j2 w2 Hu2 Hsame2 _ He2. cbv beta iota.
  wp_step. unfold retry_job. cbv zeta. fold (retried j').
  change (j_Queue (retried j')) with (j_Queue j'). change (j_ID (retried j')) with (j_ID j').
  change (j_Priority (retried j')) with (j_Priority j').
  set (delay := calculateRetryDelay (j_RetryCount (retried j')) c).
  wp_step. wp_step. apply wp_GetQueueConfig.
  2:{ intros c' w' Hn. exfalso. rewrite (up_cache _ _ _ _ _ Hu2), Hc in Hn. done. }
  2:{ intros w' Hn. exfalso. rewrite (up_cache _ _ _ _ _ Hu2), Hc in Hn. done. }
  intros c' Hc'. rewrite (up_cache _ _ _ _ _ Hu2), Hc in Hc'. simplify_eq. cbv beta iota zeta.
  fold delay. wp_step. wp_step. rewrite Hid.
  eapply wp_up_status; [exact Hu2|]. intros j3 w3 Hu3 _ _ _ _ _. cbv beta iota.
  wp_step. wp_step. unfold Requeue. wp_step. wp_step.
  eapply (wp_st_UpdateJob (retried j')); [change (j_ID (retried j')) with (j_ID j'); rewrite Hid;
    by eapply updated_lookup|].
  change (j_ID (retried j')) with (j_ID j'). rewrite Hid. intros w4 Hw4.
  pose proof (updated_then _ _ _ _ _ _ _ Hu3 Hw4) as Hu4.
  cbv beta iota. wp_step. apply wp_st_Requeue; [eexists; by eapply updated_lookup|].
  intros w5 (Hv5 & Hc5 & Ht5). cbv beta iota.
  wp_step. wp_step. apply wp_silent; [apply law_RecordJobRetried|]. intros w6 (Hv6 & Hc6 & Ht6).
  cbv beta iota. wp_step. cbv beta iota. wp_step.
  eapply wp_updates_worker; [apply law_IncrementFailed|]. intros r w7 Hr (Hv7 & Hc7 & Ht7).
  assert (Hdone : Q (Ok tt) w7); [|by destruct r].
  rewrite Hv6, Hv5 in Hv7. destruct Hu4 as [H1 H2 H3 H4 H5 H6 H7]. apply (HQ (now_of w4)).
  - split; apply now_of_mono; lia.
  - rewrite Hv7. exact H1.
  - intros q. rewrite Hv7. simpl. case_bool_decide; [subst; by rewrite H2|apply H2].
  - rewrite Hv7. simpl. rewrite H4. by apply alter_compose.
  - congruence.
  - lia.
Qed.


(** ** Repeated failures *)

(** The executions of one job by the pool, [n] times. *)
Fixpoint executions (n : nat) (id : string) : M (World S) unit :=
  match n with
  | O => mret tt
  | Datatypes.S n => j ← GetJob id; processJob handlers worker j ;; executions n id
  end.

(** C11. A job whose handler returns without an error ends as SUCCESS with
    progress 100 whatever state the stored job is in by then, cancelled for
    instance; it keeps its identity, its error and its result, so that what the
    handler writes to the job is lost; no other job, queue, pause
    flag or configuration changes, and the worker, if registered, has processed
    one more job and has no current one. *)
Theorem processJob_success w j j0 j' :
  v_jobs (wview w) !! j_ID j = Some j0 → executeJob handlers j = (None, j') → j_ID j' = j_ID j →
  ∃ w' j1, processJob handlers worker j w = (Ok tt, w') ∧
    updated w w' (j_ID j) j1 (alter worker_succeeded worker) ∧ same_job j0 j1 ∧
    j_Status j1 = StatusSuccess ∧ j_Progress j1 = 100 ∧ j_Error j1 = j_Error j0 ∧
    j_Result j1 = j_Result j0.
Proof.
  intros Hj Hex Hid.
  destruct (wp_elim (processJob handlers worker j) w (λ r w', ∃ j1, r = Ok tt ∧
    updated w w' (j_ID j) j1 (alter worker_succeeded worker) ∧ same_job j0 j1 ∧
    j_Status j1 = StatusSuccess ∧ j_Progress j1 = 100 ∧ j_Error j1 = j_Error j0 ∧
    j_Result j1 = j_Result j0))
    as (r & w' & E & j1 & -> & ?); [|eauto].
  eapply wp_processJob_success; eauto 10.
Qed.

(** A job that fails and cannot be retried ends as FAILED with the error's
    message, and nothing enters any queue: neither its own nor a dead letter
    queue, whether or not its configuration names one. *)
Theorem processJob_failure_is_final w j j0 e j' :
  v_jobs (wview w) !! j_ID j = Some j0 → executeJob handlers j = (Some e, j') →
  j_ID j' = j_ID j → CanRetry j' = false →
  ∃ w' j1, processJob handlers worker j w = (Ok tt, w') ∧
    v_jobs (wview w') = <[j_ID j := j1]> (v_jobs (wview w)) ∧
    same_job j0 j1 ∧ j_Status j1 = StatusFailed ∧ j_Error j1 = Error e ∧
    (∀ q, v_queue (wview w') q ≡ₚ v_queue (wview w) q) ∧
    v_workers (wview w') = alter worker_failed worker (v_workers (wview w)).
Proof.
  intros Hj Hex Hid Hcan.
  destruct (wp_elim (processJob handlers worker j) w (λ r w', ∃ j1, r = Ok tt ∧
    v_jobs (wview w') = <[j_ID j := j1]> (v_jobs (wview w)) ∧
    same_job j0 j1 ∧ j_Status j1 = StatusFailed ∧ j_Error j1 = Error e ∧
    (∀ q, v_queue (wview w') q ≡ₚ v_queue (wview w) q) ∧
    v_workers (wview w') = alter worker_failed worker (v_workers (wview w))))
    as (r & w' & E & j1 & -> & ?); [|eauto].
  eapply wp_processJob_fail; [done..|]. intros j1 w1 H1 H2 H3 H4 H5 H6. exists j1. split_and!; done.
Qed.

(** C10. A job that fails and can be retried is stored as the handler left it
    with its retry count incremented, so that the RETRYING status and the error
    that were written a moment before are lost; its queue gains exactly one
    entry, due after the retry delay of its queue; no other job or queue
    changes and the worker has failed one more job. *)
Theorem processJob_retry w j j0 e j' c :
  v_jobs (wview w) !! j_ID j = Some j0 → executeJob handlers j = (Some e, j') →
  j_ID j' = j_ID j → CanRetry j' = true → wo_configs w !! j_Queue j' = Some c →
  let j1 := set_j_RetryCount (wrap64 (j_RetryCount j' + 1)) j' in
  ∃ w' t, processJob handlers worker j w = (Ok tt, w') ∧ now_of w ≤ t ≤ now_of w' ∧
    v_jobs (wview w') = <[j_ID j := j1]> (v_jobs (wview w)) ∧
    (∀ q, v_queue (wview w') q ≡ₚ
       if bool_decide (q = j_Queue j')
       then mkWaiting (j_ID j) (j_Priority j')
              (Add t (calculateRetryDelay (j_RetryCount j1) c)) :: v_queue (wview w) q
       else v_queue (wview w) q) ∧
    v_workers (wview w') = alter worker_failed worker (v_workers (wview w)).
Proof.
  intros Hj Hex Hid Hcan Hc j1.
  destruct (wp_elim (processJob handlers worker j) w (λ r w', ∃ t, r = Ok tt ∧
    now_of w ≤ t ≤ now_of w' ∧
    v_jobs (wview w') = <[j_ID j := j1]> (v_jobs (wview w)) ∧
    (∀ q, v_queue (wview w') q ≡ₚ
       if bool_decide (q = j_Queue j')
       then mkWaiting (j_ID j) (j_Priority j')
              (Add t (calculateRetryDelay (j_RetryCount j1) c)) :: v_queue (wview w) q
       else v_queue (wview w) q) ∧
    v_workers (wview w') = alter worker_failed worker (v_workers (wview w))))
    as (r & w' & E & t & -> & ?); [|eauto].
  eapply wp_processJob_retry; [done..|]. eauto 10.
Qed.

(** C33. Retries never run out: a job whose handler always fails is put back
    into its queue after every execution, for any number of executions, because
    the retry counter that [CanRetry] compares with the maximum is not the one
    that the pool increments. After [n] executions it still has its status and
    can be retried again, and its queue has [n] more entries. *)
Theorem retries_never_exhaust n w j c :
  v_jobs (wview w) !! j_ID j = Some j → CanRetry j = true →
  wo_configs w !! j_Queue j = Some c →
  (∀ j', j_Type j' = j_Type j → ∃ e, executeJob handlers j' = (Some e, j')) →
  ∃ w' j', executions n (j_ID j) w = (Ok tt, w') ∧
    v_jobs (wview w') !! j_ID j = Some j' ∧ j' = Nat.iter n retried j ∧
    j_Status j' = j_Status j ∧ CanRetry j' = true ∧
    length (v_queue (wview w') (j_Queue j)) = (length (v_queue (wview w) (j_Queue j)) + n)%nat.
Proof.
  intros Hj Hcan Hc Hfail.
  cut (wp (executions n (j_ID j)) w (λ r w', ∃ j', r = Ok tt ∧
    v_jobs (wview w') !! j_ID j = Some j' ∧ j' = Nat.iter n retried j ∧
    j_Status j' = j_Status j ∧ CanRetry j' = true ∧
    length (v_queue (wview w') (j_Queue j)) = (length (v_queue (wview w) (j_Queue j)) + n)%nat)).
  { intros (r & w' & E & j' & -> & ?)%wp_elim. eauto. }
  revert w j Hj Hcan Hc Hfail. induction n as [|n IH]; intros w j Hj Hcan Hc Hfail; simpl.
  { wp_step. exists j. by split_and!; try lia. }
  wp_step. apply wp_st_GetJob with j; [done|]. intros w1 (Hv1 & Hc1 & _). cbv beta iota.
  destruct (Hfail j eq_refl) as [e Hex]. wp_step.
  eapply wp_processJob_retry; [by rewrite Hv1|done|done|done|by rewrite Hc1|].
  intros t w2 _ Hj2 Hq2 _ Hc2 _. cbv beta iota.
  specialize (Hq2 (j_Queue j)). rewrite bool_decide_true in Hq2 by done.
  apply Permutation_length in Hq2. simpl in Hq2.
  assert (Hlen : length (v_queue (wview w1) (j_Queue j)) = length (v_queue (wview w) (j_Queue j))).
  { apply Permutation_length. by rewrite Hv1. }
  eapply wp_mono; [apply (IH w2 (retried j))|].
  - rewrite Hj2. apply lookup_insert_eq.
  - done.
  - rewrite Hc2, Hc1. done.
  - done.
  - intros r w3 (j' & -> & Hj' & -> & Hst & Hcan' & Hl).
    change (j_ID (retried j)) with (j_ID j) in Hj'.
    change (j_Queue (retried j)) with (j_Queue j) in Hl.
    exists (Nat.iter n retried (retried j)). split_and!; try done.
    + by rewrite <- Nat.iter_succ_r.
    + rewrite Hl, Hq2, Hlen. lia.
Qed.
End processing.

(** When nothing overflows, the retry delay is the one of the strategy,
    capped by the maximum: the base delay, its product with the retry number,
    or its double at each retry. *)
Theorem retry_delay_exact n config :
  delay_fits n config → calculateRetryDelay n config = exact_delay n config.
Proof. apply calculateRetryDelay_fits. Qed.

(** The exponential delay collapses: from the 56th retry on it is not
    positive for any configuration, since the product of the base delay and the
    multiplier wraps around to 0. *)
Theorem retry_delay_collapses n config :
  c_RetryStrategy config = RetryStrategyExponential → 56 ≤ n < 2 ^ 63 →
  calculateRetryDelay n config = Z.min 0 (wrap64 (c_MaxRetryDelay config * Second)).
Proof.
  intros Hs Hn. unfold calculateRetryDelay. rewrite Hs.
  rewrite (bool_decide_false (RetryStrategyExponential = RetryStrategyFixed)) by done.
  rewrite (bool_decide_false (RetryStrategyExponential = RetryStrategyLinear)) by done.
  rewrite bool_decide_true, (wrap64_id (n - 1)) by (done || (unfold int64; lia)).
  destruct (shl1_multiple n Hn) as [k ->]. rewrite wrap64_mult_zero.
  generalize (wrap64 (c_MaxRetryDelay config * Second)). intros z.
  destruct (Z.ltb_spec z 0); lia.
Qed.

#[local] Existing Instance demo_runtime.
#[local] Existing Instance map_range_default.
#[local] Existing Instance MemoryLaws.MemoryStorage.
#[local] Existing Instance MemoryLaws.MemoryStorageLaws.

(** The jobs of the demo store are of the type "echo"; the manager knows their
    queue, which has a dead letter queue. *)
Definition pool_world : World MemoryStore.MemoryStore :=
  mkWorld MemoryJobs.demo_jobs
    {[ "q" := mkQueueConfig "q" 10 3 "EXPONENTIAL" 0 300 5 0 1 false 60 3600 "dead" ]} 100 0.

Definition demo_handlers (result : outcome) : gmap string JobHandler :=
  RegisterHandler "echo" (λ j, (result, j)) ∅.

Definition demo_failure : outcome := Returned (Some (Errorf "boom")).

Lemma processJob_success_witness :
  let j := MemoryJobs.demo_job "1" "q" 1 in
  ∃ w' j1, processJob (demo_handlers (Returned None)) "w1" j pool_world = (Ok tt, w') ∧
    updated pool_world w' "1" j1 (alter worker_succeeded "w1") ∧ same_job j j1 ∧
    j_Status j1 = StatusSuccess ∧ j_Progress j1 = 100 ∧ j_Error j1 = j_Error j ∧
    j_Result j1 = j_Result j.
Proof.
  intros j. apply (processJob_success (demo_handlers (Returned None)) "w1" pool_world j j j);
    vm_compute; reflexivity.
Defined.

Lemma processJob_failure_is_final_witness :
  let j := set_j_MaxRetries 0 (MemoryJobs.demo_job "1" "q" 1) in
  let j0 := MemoryJobs.demo_job "1" "q" 1 in
  ∃ w' j1, processJob (demo_handlers (Panicked "oops")) "w1" j pool_world = (Ok tt, w') ∧
    v_jobs (wview w') = <["1" := j1]> (v_jobs (wview pool_world)) ∧
    same_job j0 j1 ∧ j_Status j1 = StatusFailed ∧
    j_Error j1 = Error (Errorf "job panicked: oops") ∧
    (∀ q, v_queue (wview w') q ≡ₚ v_queue (wview pool_world) q) ∧
    v_workers (wview w') = alter worker_failed "w1" (v_workers (wview pool_world)).
Proof.
  intros j j0.
  apply (processJob_failure_is_final (demo_handlers (Panicked "oops")) "w1" pool_world j j0
           (Errorf "job panicked: oops") j); vm_compute; reflexivity.
Defined.

Lemma processJob_retry_witness :
  let j := MemoryJobs.demo_job "1" "q" 1 in
  let c := mkQueueConfig "q" 10 3 "EXPONENTIAL" 0 300 5 0 1 false 60 3600 "dead" in
  let j1 := set_j_RetryCount 1 j in
  ∃ w' t, processJob (demo_handlers demo_failure) "w1" j pool_world = (Ok tt, w') ∧
    now_of pool_world ≤ t ≤ now_of w' ∧
    v_jobs (wview w') = <["1" := j1]> (v_jobs (wview pool_world)) ∧
    (∀ q, v_queue (wview w') q ≡ₚ
       if bool_decide (q = "q")
       then mkWaiting "1" 5 (Add t (calculateRetryDelay 1 c)) :: v_queue (wview pool_world) q
       else v_queue (wview pool_world) q) ∧
    v_workers (wview w') = alter worker_failed "w1" (v_workers (wview pool_world)).
Proof.
  intros j c.
  apply (processJob_retry (demo_handlers demo_failure) "w1" pool_world j j (Errorf "boom") j c);
    vm_compute; reflexivity.
Defined.

Lemma retries_never_exhaust_witness :
  let j := MemoryJobs.demo_job "1" "q" 1 in
  ∃ w' j', executions (demo_handlers demo_failure) "w1" 10 "1" pool_world = (Ok tt, w') ∧
    v_jobs (wview w') !! "1" = Some j' ∧ j' = Nat.iter 10 retried j ∧
    j_Status j' = StatusPending ∧ CanRetry j' = true ∧
    length (v_queue (wview w') "q") = (length (v_queue (wview pool_world) "q") + 10)%nat.
Proof.
  intros j. eapply (retries_never_exhaust (demo_handlers demo_failure) "w1" 10 pool_world j).
  - vm_compute. reflexivity.
  - reflexivity.
  - vm_compute. reflexivity.
  - intros j' Hj'. exists (Errorf "boom"). unfold executeJob. rewrite Hj'. reflexivity.
Defined.

Lemma retry_delay_exact_witness :
  calculateRetryDelay 4 (auto_config "q") = exact_delay 4 (auto_config "q").
Proof.
  apply (retry_delay_exact 4 (auto_config "q")). repeat split; vm_compute; discriminate.
Defined.

Lemma retry_delay_collapses_witness :
  calculateRetryDelay 60 (auto_config "q") = Z.min 0 (3600 * Second).
Proof. apply (retry_delay_collapses 60 (auto_config "q")); [reflexivity|lia]. Defined.
