(* ===== verification/PoolSteps.v ===== *)
(** * The goroutines of the worker pool (internal/worker/pool.go)

    [fetchLoop], the [workerLoop]s, the buffered channel [jobCh] between them
    and [Stop] as a step relation: one step is one communication of a
    goroutine, and any goroutine may move next. The jobs are identifiers; what
    a worker does with one is Pool.v. *)

From S2P Require Import Prelude.

Record PoolState : Type := mkPoolState {
  ps_queued : list string;  (* ready in the backend *)
  ps_fetching : option string;  (* dequeued by fetchJobs, not sent yet *)
  ps_ch : list string;  (* the buffer of jobCh *)
  ps_running : list string;  (* in processJob *)
  ps_done : list string;  (* processed and not requeued *)
  ps_idle : nat;  (* workers waiting in their select *)
  ps_exited : nat;  (* workers that returned *)
  ps_fetcher : bool;  (* fetchLoop has not returned; jobCh is open *)
  ps_stopping : bool;  (* stopCh is closed *)
}.

(** The state after [Start] with [n] workers. *)
Definition pool_init (n : nat) (jobs : list string) : PoolState :=
  mkPoolState jobs None [] [] [] n 0 true false.

Section steps.
Context (n : nat).

Inductive pool_step : PoolState → PoolState → Prop :=
  (* fetchJobs: len(p.jobCh) < p.concurrency, then Dequeue *)
  | step_fetch l1 x l2 ch run dn idle ex stop :
      (length ch < n)%nat →
      pool_step (mkPoolState (l1 ++ x :: l2) None ch run dn idle ex true stop)
        (mkPoolState (l1 ++ l2) (Some x) ch run dn idle ex true stop)
  (* fetchJobs: case p.jobCh <- j *)
  | step_send q x ch run dn idle ex stop :
      (length ch < n)%nat →
      pool_step (mkPoolState q (Some x) ch run dn idle ex true stop)
        (mkPoolState q None (ch ++ [x]) run dn idle ex true stop)
  (* fetchJobs: case <-p.stopCh *)
  | step_requeue q x ch run dn idle ex :
      pool_step (mkPoolState q (Some x) ch run dn idle ex true true)
        (mkPoolState (x :: q) None ch run dn idle ex true true)
  (* fetchLoop: case <-p.stopCh, and the deferred close of jobCh *)
  | step_fetcher_exit q ch run dn idle ex :
      pool_step (mkPoolState q None ch run dn idle ex true true)
        (mkPoolState q None ch run dn idle ex false true)
  (* workerLoop: case j, ok := <-p.jobCh *)
  | step_take q f x ch run dn idle ex fetcher stop :
      pool_step (mkPoolState q f (x :: ch) run dn (S idle) ex fetcher stop)
        (mkPoolState q f ch (x :: run) dn idle ex fetcher stop)
  (* processJob returns: the job is over, or is in its queue again *)
  | step_finish q f ch r1 x r2 dn idle ex fetcher stop :
      pool_step (mkPoolState q f ch (r1 ++ x :: r2) dn idle ex fetcher stop)
        (mkPoolState q f ch (r1 ++ r2) (x :: dn) (S idle) ex fetcher stop)
  | step_retry q f ch r1 x r2 dn idle ex fetcher stop :
      pool_step (mkPoolState q f ch (r1 ++ x :: r2) dn idle ex fetcher stop)
        (mkPoolState (x :: q) f ch (r1 ++ r2) dn (S idle) ex fetcher stop)
  (* workerLoop: case <-p.stopCh *)
  | step_worker_exit q f ch run dn idle ex fetcher :
      pool_step (mkPoolState q f ch run dn (S idle) ex fetcher true)
        (mkPoolState q f ch run dn idle (S ex) fetcher true)
  (* workerLoop: jobCh is closed and drained *)
  | step_worker_closed q f run dn idle ex stop :
      pool_step (mkPoolState q f [] run dn (S idle) ex false stop)
        (mkPoolState q f [] run dn idle (S ex) false stop)
  (* Stop: close(p.stopCh) *)
  | step_stop q f ch run dn idle ex fetcher :
      pool_step (mkPoolState q f ch run dn idle ex fetcher false)
        (mkPoolState q f ch run dn idle ex fetcher true).

Abbreviation pool_steps := (rtc pool_step).

(** Every goroutine has returned: what [Stop] waits for. *)
Definition terminated (s : PoolState) : Prop :=
  ps_fetcher s = false ∧ ps_running s = [] ∧ ps_idle s = 0%nat.

(** All the jobs, wherever they are. *)
Definition all_jobs (s : PoolState) : list string :=
  ps_queued s ++ option_list (ps_fetching s) ++ ps_ch s ++ ps_running s ++ ps_done s.

Record pool_inv (jobs : list string) (s : PoolState) : Prop := {
  pi_jobs : all_jobs s ≡ₚ jobs;
  pi_ch : (length (ps_ch s) ≤ n)%nat;
  pi_workers : (length (ps_running s) + ps_idle s + ps_exited s = n)%nat;
  pi_closed : ps_fetcher s = false → ps_fetching s = None ∧ ps_stopping s = true;
}.

Lemma pool_init_inv jobs : pool_inv jobs (pool_init n jobs).
Proof.
  split; simpl; try done; try lia. unfold all_jobs. simpl. by rewrite app_nil_r.
Qed.

Lemma pool_step_jobs s s' : pool_step s s' → all_jobs s' ≡ₚ all_jobs s.
Proof. destruct 1; unfold all_jobs; simpl; solve_Permutation. Qed.

Lemma pool_step_inv jobs s s' : pool_step s s' → pool_inv jobs s → pool_inv jobs s'.
Proof.
  intros Hst [H1 H2 H3 H4].
  split; [by rewrite (pool_step_jobs s s' Hst)|..]; destruct Hst; simpl in *;
    rewrite ?length_app in *; simpl in *; try done; try lia; naive_solver.
Qed.

Lemma pool_steps_inv jobs s : pool_steps (pool_init n jobs) s → pool_inv jobs s.
Proof.
  intros Hr. pose proof (pool_init_inv jobs) as Hi. induction Hr; [done|].
  apply IHHr. by eapply pool_step_inv.
Qed.

(** ** Reaching termination *)

(** The goroutines of a stopping pool return one after the other. *)
Lemma finish_running q f ch run dn idle ex fetcher :
  pool_steps (mkPoolState q f ch run dn idle ex fetcher true)
    (mkPoolState q f ch [] (reverse run ++ dn) (length run + idle) ex fetcher true).
Proof.
  revert dn idle. induction run as [|x run IH]; intros dn idle; [reflexivity|].
  eapply rtc_l; [apply (step_finish q f ch [] x run dn idle)|].
  rewrite reverse_cons, <- app_assoc. simpl.
  replace (S (length run + idle)) with (length run + S idle)%nat by lia. apply IH.
Qed.

Lemma workers_exit q f ch run dn idle ex fetcher :
  pool_steps (mkPoolState q f ch run dn idle ex fetcher true)
    (mkPoolState q f ch run dn 0 (idle + ex) fetcher true).
Proof.
  revert ex. induction idle as [|idle IH]; intros ex; [reflexivity|].
  eapply rtc_l; [apply step_worker_exit|]. replace (S idle + ex)%nat with (idle + S ex)%nat by lia.
  apply IH.
Qed.

Lemma fetcher_exits q f ch run dn idle ex fetcher :
  (fetcher = false → f = None) →
  ∃ q', pool_steps (mkPoolState q f ch run dn idle ex fetcher true)
    (mkPoolState q' None ch run dn idle ex false true).
Proof.
  intros Hf. destruct fetcher; [|rewrite Hf by done; by exists q].
  destruct f as [x|].
  - exists (x :: q). eapply rtc_l; [apply step_requeue|]. apply rtc_once, step_fetcher_exit.
  - exists q. apply rtc_once, step_fetcher_exit.
Qed.

(** ** Properties *)

(** C8. In every state that the goroutines can reach, in any interleaving, the
    channel holds at most as many jobs as there are workers, every worker is
    idle, running or has returned, and no job is duplicated or disappears:
    each is queued, held by the fetcher, in the channel, being processed, or
    done; when all have returned, the jobs that are neither queued nor done are
    exactly those left in the channel. *)
Theorem pool_conserves_jobs jobs s :
  pool_steps (pool_init n jobs) s →
  all_jobs s ≡ₚ jobs ∧ (length (ps_ch s) ≤ n)%nat ∧
  (length (ps_running s) + ps_idle s + ps_exited s = n)%nat ∧
  (terminated s → ps_queued s ++ ps_ch s ++ ps_done s ≡ₚ jobs).
Proof.
  intros Hr. destruct (pool_steps_inv jobs s Hr) as [H1 H2 H3 H4]. split_and!; try done.
  intros (Hf & Hrun & _). destruct (H4 Hf) as [Hfe _]. rewrite <- H1. unfold all_jobs.
  by rewrite Hfe, Hrun.
Qed.

(** [Stop] can always complete: from every reachable state, in whatever
    the goroutines are engaged, a state in which all of them have returned is
    reachable. *)
Theorem pool_can_terminate jobs s :
  pool_steps (pool_init n jobs) s → ∃ s', pool_steps s s' ∧ terminated s'.
Proof.
  intros Hr. destruct (pool_steps_inv jobs s Hr) as [_ _ _ H4].
  destruct s as [q f ch run dn idle ex fetcher stop]. simpl in H4.
  assert (Hstop : pool_steps (mkPoolState q f ch run dn idle ex fetcher stop)
                    (mkPoolState q f ch run dn idle ex fetcher true)).
  { destruct stop; [reflexivity|]. apply rtc_once, step_stop. }
  destruct (fetcher_exits q f ch run dn idle ex fetcher) as [q' Hfe]; [naive_solver|].
  eexists. split.
  - etransitivity; [exact Hstop|]. etransitivity; [exact Hfe|].
    etransitivity; [apply finish_running|]. apply workers_exit.
  - done.
Qed.

(** [Stop] can lose jobs: with any number of workers and any job, there is
    an interleaving that ends with all goroutines returned and the job in the
    channel, neither in its queue nor processed. *)
Theorem stop_can_lose_a_job x jobs :
  (0 < n)%nat →
  ∃ s, pool_steps (pool_init n (x :: jobs)) s ∧ terminated s ∧
    ps_ch s = [x] ∧ ps_queued s = jobs ∧ ps_done s = [].
Proof.
  intros Hn. exists (mkPoolState jobs None [x] [] [] 0 n false true). split_and!; [|done..].
  unfold pool_init. eapply rtc_l; [apply (step_fetch [] x jobs [] [] []); simpl; lia|].
  eapply rtc_l; [apply step_send; simpl; lia|]. simpl.
  eapply rtc_l; [apply step_stop|]. eapply rtc_l; [apply step_fetcher_exit|].
  replace n with (n + 0)%nat at 2 by lia. apply workers_exit.
Qed.
End steps.

Lemma pool_conserves_jobs_witness :
  let s := mkPoolState ["b"] (Some "a") [] [] [] 2 0 true false in
  all_jobs s ≡ₚ ["a"; "b"] ∧ (length (ps_ch s) ≤ 2)%nat ∧
  (length (ps_running s) + ps_idle s + ps_exited s = 2)%nat ∧
  (terminated s → ps_queued s ++ ps_ch s ++ ps_done s ≡ₚ ["a"; "b"]).
Proof.
  intros s. apply (pool_conserves_jobs 2 ["a"; "b"] s). apply rtc_once.
  apply (step_fetch 2 [] "a" ["b"]). simpl. lia.
Defined.

Lemma pool_can_terminate_witness :
  let s := mkPoolState ["b"] (Some "a") [] [] [] 2 0 true false in
  ∃ s', rtc (pool_step 2) s s' ∧ terminated s'.
Proof.
  intros s. apply (pool_can_terminate 2 ["a"; "b"] s). apply rtc_once.
  apply (step_fetch 2 [] "a" ["b"]). simpl. lia.
Defined.

Lemma stop_can_lose_a_job_witness :
  ∃ s, rtc (pool_step 4) (pool_init 4 ["a"; "b"]) s ∧ terminated s ∧
    ps_ch s = ["a"] ∧ ps_queued s = ["b"] ∧ ps_done s = [].
Proof. apply (stop_can_lose_a_job 4 "a" ["b"]). lia. Defined.
