(* ===== verification/GoTime.v ===== *)
(** * The calendar of package [time]

    What the scheduler uses of it: [Truncate], [Date], [AddDate] and the
    components of an instant, in the proleptic Gregorian calendar. A location is
    a fixed offset from UTC in nanoseconds. *)

From S2P Require Import Prelude.

Definition Day : Duration := 24 * Hour.

(** [t.Truncate(d)]: down to a multiple of [d] since the zero time. *)
Definition Truncate (t : Time) (d : Duration) : Time := if d <=? 0 then t else t - t mod d.

(** ** Dates as day numbers: day 0 is January 1 of the year 1 *)

Definition is_leap (y : Z) : bool :=
  (y mod 4 =? 0) && (negb (y mod 100 =? 0) || (y mod 400 =? 0)).

Definition month_days (y m : Z) : Z :=
  if m =? 2 then (if is_leap y then 29 else 28)
  else if (m =? 4) || (m =? 6) || (m =? 9) || (m =? 11) then 30 else 31.

Definition days_before_year (y : Z) : Z :=
  365 * (y - 1) + (y - 1) / 4 - (y - 1) / 100 + (y - 1) / 400.

(** The days of the months before [m], for [m] from 1 to 12. *)
Definition days_before_month (y m : Z) : Z :=
  nth (Z.to_nat (m - 1)) [0; 31; 59; 90; 120; 151; 181; 212; 243; 273; 304; 334] 0 +
  (if (2 <? m) && is_leap y then 1 else 0).

(** The day number of a date; the day may be out of the range of its month. *)
Definition day_number (y m d : Z) : Z := days_before_year y + days_before_month y m + d - 1.

(** [time.Date] normalises the month before it counts days. *)
Definition norm_month (y m : Z) : Z * Z := (y + (m - 1) / 12, (m - 1) mod 12 + 1).

Definition date_days (y m d : Z) : Z :=
  let '(y, m) := norm_month y m in day_number y m d.

(** The month and day of the day [yday] of a year: the last month that starts
    before it. *)
Fixpoint find_month (fuel : nat) (y m yday : Z) : Z * Z :=
  match fuel with
  | O => (m, yday + 1)
  | S fuel => if yday <? month_days y m then (m, yday + 1)
              else find_month fuel y (m + 1) (yday - month_days y m)
  end.

Definition Millisecond : Duration := 1000000.

(** [d.Milliseconds()]. *)
Definition Milliseconds (d : Duration) : Z := Z.quot d Millisecond.

(** [t.UnixNano()] and [t.Unix()]. *)
Definition unix_epoch : Time := day_number 1970 1 1 * Day.
Definition UnixNano (t : Time) : Z := wrap64 (t - unix_epoch).
Definition Unix (t : Time) : Z := (t - unix_epoch) / Second.

(** The date of a day number: cycles of 400, 100, 4 and 1 years are taken off;
    the last century of 400 years and the last year of 4 are a day longer. *)
Definition civil (n : Z) : Z * Z * Z :=
  let c400 := n / 146097 in
  let n := n mod 146097 in
  let c100 := Z.min 3 (n / 36524) in
  let n := n - c100 * 36524 in
  let c4 := n / 1461 in
  let n := n - c4 * 1461 in
  let c1 := Z.min 3 (n / 365) in
  let yday := n - c1 * 365 in
  let y := 400 * c400 + 100 * c100 + 4 * c4 + c1 + 1 in
  let '(m, d) := find_month 12 y 1 yday in
  (y, m, d).

Definition valid_date (y m d : Z) : bool :=
  (1 <=? m) && (m <=? 12) && (1 <=? d) && (d <=? month_days y m).

(** ** The two directions agree *)

Definition year_days (y : Z) : Z := if is_leap y then 366 else 365.

(** Years: divisions are reasoned about by lia. *)
#[local] Ltac Zify.zify_post_hook ::= Z.to_euclidean_division_equations.

Lemma is_leap_true y :
  is_leap y = true ↔ y mod 4 = 0 ∧ (y mod 100 ≠ 0 ∨ y mod 400 = 0).
Proof. unfold is_leap. lia. Qed.

Lemma year_days_next y : days_before_year (y + 1) = days_before_year y + year_days y.
Proof.
  unfold days_before_year, year_days. destruct (is_leap y) eqn:E.
  - apply is_leap_true in E. lia.
  - assert (¬ (y mod 4 = 0 ∧ (y mod 100 ≠ 0 ∨ y mod 400 = 0))) by (rewrite <- is_leap_true; congruence).
    lia.
Qed.

Lemma days_before_year_mono y y' : y ≤ y' → days_before_year y ≤ days_before_year y'.
Proof. unfold days_before_year. lia. Qed.

(** The arithmetic of [civil]: the year that contains a day. *)
Lemma civil_year_spec n :
  let r := n mod 146097 in
  let c100 := Z.min 3 (r / 36524) in
  let r1 := r - c100 * 36524 in
  let c4 := r1 / 1461 in
  let r2 := r1 - c4 * 1461 in
  let c1 := Z.min 3 (r2 / 365) in
  let y := 400 * (n / 146097) + 100 * c100 + 4 * c4 + c1 + 1 in
  days_before_year y + (r2 - c1 * 365) = n ∧ 0 ≤ r2 - c1 * 365 < year_days y.
Proof.
  intros r c100 r1 c4 r2 c1 y.
  assert (Hr : 0 ≤ r < 146097) by (subst r; lia).
  assert (Hn : n = 146097 * (n / 146097) + r) by (subst r; lia).
  set (q := n / 146097) in *. clearbody r q.
  assert (H100 : 0 ≤ c100 ≤ 3 ∧ 0 ≤ r1 ∧ (c100 < 3 → r1 < 36524) ∧ r1 < 36525) by lia.
  assert (H4 : 0 ≤ c4 ≤ 24 ∧ 0 ≤ r2 < 1461 ∧ (c4 = 24 → c100 < 3 → r2 < 1460)) by lia.
  assert (H1 : 0 ≤ c1 ≤ 3 ∧ 0 ≤ r2 - c1 * 365 ∧ (c1 < 3 → r2 - c1 * 365 < 365) ∧
               r2 - c1 * 365 < 366) by lia.
  assert (Hr1 : r1 = r - c100 * 36524) by done. assert (Hr2 : r2 = r1 - c4 * 1461) by done.
  clearbody c100 r1 c4 r2 c1.
  assert (Hy4 : (y - 1) / 4 = 100 * q + 25 * c100 + c4) by lia.
  assert (Hy100 : (y - 1) / 100 = 4 * q + c100) by lia.
  assert (Hy400 : (y - 1) / 400 = q) by lia.
  split.
  - unfold days_before_year. rewrite Hy4, Hy100, Hy400. subst y. lia.
  - split; [lia|]. unfold year_days. destruct (is_leap y) eqn:E; [lia|].
    destruct (decide (r2 - c1 * 365 < 365)); [done|exfalso].
    assert (c1 = 3) by lia.
    assert (is_leap y = true); [|congruence]. apply is_leap_true. subst y. lia.
Qed.

(** Months: they depend only on whether the year is a leap year. *)
Lemma month_days_leap y y' m : is_leap y = is_leap y' → month_days y m = month_days y' m.
Proof. unfold month_days. by intros ->. Qed.

Lemma find_month_leap fuel y y' m yday :
  is_leap y = is_leap y' → find_month fuel y m yday = find_month fuel y' m yday.
Proof.
  intros Hl. revert m yday. induction fuel as [|fuel IH]; intros m yday; simpl; [done|].
  rewrite (month_days_leap y y' m Hl). case_match; [done|]. apply IH.
Qed.

Lemma days_before_month_leap y y' m :
  is_leap y = is_leap y' → days_before_month y m = days_before_month y' m.
Proof. unfold days_before_month. by intros ->. Qed.

(** A year of each kind: 1 and 4. *)
Definition like_year (y : Z) : Z := if is_leap y then 4 else 1.

Lemma like_year_leap y : is_leap (like_year y) = is_leap y.
Proof. unfold like_year. by destruct (is_leap y) eqn:E. Qed.

Definition check_yday (y yday : Z) : bool :=
  let '(m, d) := find_month 12 y 1 yday in
  valid_date y m d && (days_before_month y m + d - 1 =? yday).

Definition check_month_day (y m d : Z) : bool :=
  negb (valid_date y m d) ||
  ((0 <=? days_before_month y m + d - 1) && (days_before_month y m + d - 1 <? year_days y) &&
   bool_decide (find_month 12 y 1 (days_before_month y m + d - 1) = (m, d))).

Lemma ydays_1_4 :
  forallb (check_yday 1) (seqZ 0 365) && forallb (check_yday 4) (seqZ 0 366) &&
  forallb (λ m, forallb (check_month_day 1 m) (seqZ 1 31)) (seqZ 1 12) &&
  forallb (λ m, forallb (check_month_day 4 m) (seqZ 1 31)) (seqZ 1 12) = true.
Proof. vm_compute. reflexivity. Qed.

Lemma forallb_seqZ P a n x : forallb P (seqZ a n) = true → a ≤ x < a + n → P x = true.
Proof.
  intros Hf Hx. rewrite forallb_forall in Hf. apply Hf. apply list_elem_of_In, elem_of_seqZ. lia.
Qed.

Lemma valid_date_like y m d : valid_date (like_year y) m d = valid_date y m d.
Proof. unfold valid_date. by rewrite (month_days_leap _ y m (like_year_leap y)). Qed.

Lemma find_month_spec y yday :
  0 ≤ yday < year_days y →
  let '(m, d) := find_month 12 y 1 yday in
  valid_date y m d = true ∧ days_before_month y m + d - 1 = yday.
Proof.
  intros Hy. rewrite <- (find_month_leap 12 (like_year y) y 1 yday (like_year_leap y)).
  assert (Hc : check_yday (like_year y) yday = true).
  { pose proof ydays_1_4 as H. rewrite !andb_true_iff in H. destruct H as [[[H1 H4] _] _].
    unfold year_days, like_year in *. destruct (is_leap y).
    - apply (forallb_seqZ _ 0 366 yday H4). lia.
    - apply (forallb_seqZ _ 0 365 yday H1). lia. }
  unfold check_yday in Hc. destruct (find_month 12 (like_year y) 1 yday) as [m d].
  apply andb_true_iff in Hc as [Hv Hd]. rewrite valid_date_like in Hv.
  rewrite (days_before_month_leap _ y m (like_year_leap y)) in Hd.
  apply Z.eqb_eq in Hd. done.
Qed.

Lemma find_month_valid y m d :
  valid_date y m d = true →
  0 ≤ days_before_month y m + d - 1 < year_days y ∧
  find_month 12 y 1 (days_before_month y m + d - 1) = (m, d).
Proof.
  intros Hv. assert (Hr : 1 ≤ m < 1 + 12 ∧ 1 ≤ d < 1 + 31).
  { unfold valid_date, month_days in Hv. repeat case_match; lia. }
  assert (Hc : check_month_day (like_year y) m d = true).
  { pose proof ydays_1_4 as H. rewrite !andb_true_iff in H. destruct H as [[_ H1] H4].
    unfold like_year. destruct (is_leap y).
    - apply (forallb_seqZ _ 1 12 m) in H4; [|lia]. apply (forallb_seqZ _ 1 31 d) in H4; [exact H4|lia].
    - apply (forallb_seqZ _ 1 12 m) in H1; [|lia]. apply (forallb_seqZ _ 1 31 d) in H1; [exact H1|lia]. }
  unfold check_month_day in Hc. rewrite valid_date_like, Hv in Hc. cbn [negb orb] in Hc.
  rewrite (days_before_month_leap _ y m (like_year_leap y)),
    (find_month_leap 12 _ y 1 _ (like_year_leap y)) in Hc.
  apply andb_true_iff in Hc as [Hc Hf]. apply bool_decide_eq_true in Hf.
  split; [|done]. unfold year_days in *. rewrite like_year_leap in Hc. lia.
Qed.

(** The date of a day is valid and has that day number. *)
Lemma civil_day_number n :
  let '(y, m, d) := civil n in valid_date y m d = true ∧ day_number y m d = n.
Proof.
  unfold civil. destruct (civil_year_spec n) as [Hn Hy]. cbv zeta in *.
  set (yday := _ - _ * 365) in *. set (y := _ + 1) in *.
  pose proof (find_month_spec y yday Hy) as Hm.
  destruct (find_month 12 y 1 yday) as [m d]. destruct Hm as [Hv Hd].
  split; [done|]. unfold day_number. lia.
Qed.

Lemma year_unique y y' k k' :
  days_before_year y + k = days_before_year y' + k' →
  0 ≤ k < year_days y → 0 ≤ k' < year_days y' → y = y'.
Proof.
  intros He Hk Hk'. destruct (Z.lt_trichotomy y y') as [Hl|[?|Hl]]; [|done|].
  - pose proof (days_before_year_mono (y + 1) y' ltac:(lia)). rewrite year_days_next in *. lia.
  - pose proof (days_before_year_mono (y' + 1) y ltac:(lia)). rewrite year_days_next in *. lia.
Qed.

(** The date of the day number of a valid date is that date. *)
Lemma civil_of_day_number y m d :
  valid_date y m d = true → civil (day_number y m d) = (y, m, d).
Proof.
  intros Hv. destruct (find_month_valid y m d Hv) as [Hr Hf].
  set (n := day_number y m d). unfold civil. destruct (civil_year_spec n) as [Hn Hy]. cbv zeta in *.
  set (yday := _ - _ * 365) in *. set (y' := _ + 1) in *.
  assert (Hk : days_before_year y' + yday = days_before_year y + (days_before_month y m + d - 1)).
  { rewrite Hn. subst n. unfold day_number. lia. }
  assert (y' = y) as -> by (by eapply year_unique).
  assert (yday = days_before_month y m + d - 1) as -> by lia. by rewrite Hf.
Qed.
