(* ===== verification/Scheduler.v ===== *)
(** * The scheduler of recurring jobs (internal/scheduler/scheduler.go)

    Schedules, the cron expressions, and the tick that runs the due schedules
    through the queue manager. The ticker goroutine only calls
    [processDueSchedules], under the scheduler's lock. *)

From S2P Require Import Prelude Errors GoMonad Job Storage World Manager GoTime.

(** [type Schedule struct]. *)
Record Schedule : Type := mkSchedule {
  s_ID : string;
  s_Name : string;
  s_JobType : string;
  s_Queue : string;
  s_Payload : string;  (* opaque *)
  s_CronExpr : string;
  s_Interval : Duration;
  s_NextRun : Time;
  s_LastRun : option Time;
  s_Enabled : bool;
  s_MaxRuns : Z;  (* 0 = unlimited *)
  s_RunCount : Z;
  s_CreatedAt : Time;
  s_UpdatedAt : Time;
  s_Metadata : gmap string string;
}.

Definition set_s_ID (v : string) (x : Schedule) : Schedule :=
  mkSchedule v (s_Name x) (s_JobType x) (s_Queue x) (s_Payload x) (s_CronExpr x)
    (s_Interval x) (s_NextRun x) (s_LastRun x) (s_Enabled x) (s_MaxRuns x)
    (s_RunCount x) (s_CreatedAt x) (s_UpdatedAt x) (s_Metadata x).

Definition set_s_Queue (v : string) (x : Schedule) : Schedule :=
  mkSchedule (s_ID x) (s_Name x) (s_JobType x) v (s_Payload x) (s_CronExpr x)
    (s_Interval x) (s_NextRun x) (s_LastRun x) (s_Enabled x) (s_MaxRuns x)
    (s_RunCount x) (s_CreatedAt x) (s_UpdatedAt x) (s_Metadata x).

Definition set_s_NextRun (v : Time) (x : Schedule) : Schedule :=
  mkSchedule (s_ID x) (s_Name x) (s_JobType x) (s_Queue x) (s_Payload x)
    (s_CronExpr x) (s_Interval x) v (s_LastRun x) (s_Enabled x) (s_MaxRuns x)
    (s_RunCount x) (s_CreatedAt x) (s_UpdatedAt x) (s_Metadata x).

Definition set_s_LastRun (v : option Time) (x : Schedule) : Schedule :=
  mkSchedule (s_ID x) (s_Name x) (s_JobType x) (s_Queue x) (s_Payload x)
    (s_CronExpr x) (s_Interval x) (s_NextRun x) v (s_Enabled x) (s_MaxRuns x)
    (s_RunCount x) (s_CreatedAt x) (s_UpdatedAt x) (s_Metadata x).

Definition set_s_Enabled (v : bool) (x : Schedule) : Schedule :=
  mkSchedule (s_ID x) (s_Name x) (s_JobType x) (s_Queue x) (s_Payload x)
    (s_CronExpr x) (s_Interval x) (s_NextRun x) (s_LastRun x) v (s_MaxRuns x)
    (s_RunCount x) (s_CreatedAt x) (s_UpdatedAt x) (s_Metadata x).

Definition set_s_RunCount (v : Z) (x : Schedule) : Schedule :=
  mkSchedule (s_ID x) (s_Name x) (s_JobType x) (s_Queue x) (s_Payload x)
    (s_CronExpr x) (s_Interval x) (s_NextRun x) (s_LastRun x) (s_Enabled x)
    (s_MaxRuns x) v (s_CreatedAt x) (s_UpdatedAt x) (s_Metadata x).

Definition set_s_CreatedAt (v : Time) (x : Schedule) : Schedule :=
  mkSchedule (s_ID x) (s_Name x) (s_JobType x) (s_Queue x) (s_Payload x)
    (s_CronExpr x) (s_Interval x) (s_NextRun x) (s_LastRun x) (s_Enabled x)
    (s_MaxRuns x) (s_RunCount x) v (s_UpdatedAt x) (s_Metadata x).

Definition set_s_UpdatedAt (v : Time) (x : Schedule) : Schedule :=
  mkSchedule (s_ID x) (s_Name x) (s_JobType x) (s_Queue x) (s_Payload x)
    (s_CronExpr x) (s_Interval x) (s_NextRun x) (s_LastRun x) (s_Enabled x)
    (s_MaxRuns x) (s_RunCount x) (s_CreatedAt x) v (s_Metadata x).

(** ** Cron expressions *)

Section cron.
(** The offset of the location of [from] from UTC. *)
Context (offset : Z).

(** The day number of an instant, and the instant at which a day begins. *)
Definition local_day (t : Time) : Z := (t + offset) / Day.

Definition midnight (n : Z) : Time := n * Day - offset.

(** [time.Date(y, m, d, 0, 0, 0, 0, loc)]. *)
Definition Date (y m d : Z) : Time := midnight (date_days y m d).

(** [t.AddDate(0, months, days)]: the clock time is kept. *)
Definition AddDate (t : Time) (months days : Z) : Time :=
  let '(y, m, d) := civil (local_day t) in
  Date y (m + months) (d + days) + (t + offset) mod Day.

(** [next.Year()], [next.Month()] and [next.Day()]. *)
Definition date_of (t : Time) : Z * Z * Z := civil (local_day t).

(** [parseNextCronTime]; [None] is the error of an unsupported expression. *)
Definition parseNextCronTime (cronExpr : string) (from : Time) : option Time :=
  if bool_decide (cronExpr = "@minutely") then
    Some (Truncate (Add from (1 * Minute)) Minute)
  else if bool_decide (cronExpr = "@hourly") then
    Some (Truncate (Add from (1 * Hour)) Hour)
  else if bool_decide (cronExpr = "@daily") then
    let '(y, m, d) := date_of (AddDate from 0 1) in Some (Date y m d)
  else if bool_decide (cronExpr = "@weekly") then
    let '(y, m, d) := date_of (AddDate from 0 7) in Some (Date y m d)
  else if bool_decide (cronExpr = "@monthly") then
    let '(y, m, _) := date_of (AddDate from 1 0) in Some (Date y m 1)
  else None.
End cron.

(** ** The state

    The schedules and the manager; [sc_uuid] numbers the next identifier that
    [uuid.New] makes. *)

(** What [uuid.New().String()] returns: identifiers that do not repeat. *)
Class Uuids := {
  uuid_at : nat → string;
  uuid_inj i k : uuid_at i = uuid_at k → i = k;
  uuid_nonempty i : uuid_at i ≠ "";
}.

Record Scheduler (S : Type) : Type := mkScheduler {
  sc_manager : World S;
  sc_schedules : gmap string Schedule;
  sc_uuid : nat;
}.
Arguments mkScheduler {S}.
Arguments sc_manager {S}.
Arguments sc_schedules {S}.
Arguments sc_uuid {S}.

Section scheduler.
Context {S : Type} `{Storage S} `{Runtime} `{MapRange} `{Uuids}.
Context (offset : Z).

Definition set_sc_manager (x : World S) (s : Scheduler S) : Scheduler S :=
  mkScheduler x (sc_schedules s) (sc_uuid s).

Definition set_sc_schedules (x : gmap string Schedule) (s : Scheduler S) : Scheduler S :=
  mkScheduler (sc_manager s) x (sc_uuid s).

(** A call of the manager. *)
Definition on_manager {A} (m : M (World S) A) : M (Scheduler S) A := λ s,
  let r := m (sc_manager s) in (r.1, set_sc_manager r.2 s).

(** [uuid.New().String()]. *)
Definition NewUUID : M (Scheduler S) string := λ s,
  (Ok (uuid_at (sc_uuid s)),
   mkScheduler (sc_manager s) (sc_schedules s) (Datatypes.S (sc_uuid s))).

Definition NewScheduler (w : World S) (uuid : nat) : Scheduler S := mkScheduler w ∅ uuid.

(** ** Managing schedules *)

(** The next run of a schedule, as [AddSchedule] and [processDueSchedules]
    compute it; [None] when there is neither an interval nor a supported cron
    expression. *)
Definition next_run (now : Time) (s : Schedule) : option Time :=
  if 0 <? s_Interval s then Some (Add now (s_Interval s))
  else if bool_decide (s_CronExpr s = "") then None
  else parseNextCronTime offset (s_CronExpr s) now.

(** [AddSchedule]; the result is the schedule as the call leaves it. *)
Definition AddSchedule (s : Schedule) : M (Scheduler S) Schedule :=
  s ← (if bool_decide (s_ID s = "")
       then id ← NewUUID; mret (set_s_ID id s) else mret s);
  if bool_decide (s_JobType s = "") then throw (Errorf "job type is required")
  else
    let s := if bool_decide (s_Queue s = "") then set_s_Queue "default" s else s in
    now ← on_manager Now;
    let s := set_s_UpdatedAt now (set_s_CreatedAt now s) in
    match next_run now s with
    | Some next =>
        let s := set_s_Enabled true (set_s_NextRun next s) in
        modify (λ st, set_sc_schedules (<[s_ID s := s]> (sc_schedules st)) st) ;;
        mret s
    | None =>
        if bool_decide (s_CronExpr s = "")
        then throw (Errorf "either interval or cron expression is required")
        else throw (Wrapf "invalid cron expression"
                      (Errorf ("unsupported cron expression: " +:+ s_CronExpr s)))
    end.

Definition RemoveSchedule (id : string) : M (Scheduler S) unit := λ s,
  match sc_schedules s !! id with
  | None => (Err (Errorf ("schedule not found: " +:+ id)), s)
  | Some _ => (Ok tt, set_sc_schedules (delete id (sc_schedules s)) s)
  end.

Definition GetSchedule (id : string) : M (Scheduler S) Schedule := λ s,
  match sc_schedules s !! id with
  | None => (Err (Errorf ("schedule not found: " +:+ id)), s)
  | Some schedule => (Ok schedule, s)
  end.

Definition ListSchedules : M (Scheduler S) (list Schedule) := λ s,
  (Ok (range_values (sc_schedules s)), s).

(** [EnableSchedule] and [DisableSchedule]. *)
Definition switch_schedule (enabled : bool) (id : string) : M (Scheduler S) unit :=
  schedule ← GetSchedule id;
  now ← on_manager Now;
  modify (λ st, set_sc_schedules
    (<[id := set_s_UpdatedAt now (set_s_Enabled enabled schedule)]> (sc_schedules st)) st).

Definition EnableSchedule : string → M (Scheduler S) unit := switch_schedule true.
Definition DisableSchedule : string → M (Scheduler S) unit := switch_schedule false.

(** ** Running *)

(** The job that [executeSchedule] makes: the schedule's metadata is written
    over the two entries of its own. *)
Definition schedule_job (s : Schedule) (id : string) (created updated scheduled : Time) : Job := {|
  j_ID := id; j_Type := s_JobType s; j_Payload := s_Payload s; j_Priority := PriorityNormal;
  j_Status := StatusPending; j_MaxRetries := 0; j_CurrentRetry := 0; j_RetryCount := 0;
  j_Timeout := 0; j_TimeoutSeconds := 0; j_ScheduledAt := Some scheduled;
  j_CreatedAt := created; j_UpdatedAt := updated; j_StartedAt := None; j_CompletedAt := None;
  j_Error := ""; j_Result := "";
  j_Metadata := s_Metadata s ∪ {[ "schedule_id" := s_ID s; "schedule_name" := s_Name s ]};
  j_Queue := s_Queue s; j_Progress := 0; j_WorkerID := "" |}.

Definition executeSchedule (s : Schedule) : M (Scheduler S) unit :=
  id ← NewUUID;
  created ← on_manager Now;
  updated ← on_manager Now;
  scheduled ← on_manager Now;
  on_manager (Enqueue (schedule_job s id created updated scheduled)) ;;
  mret tt.

(** The tests of [processDueSchedules] on a schedule. *)
Definition is_due (now : Time) (s : Schedule) : bool :=
  s_Enabled s && negb (Before now (s_NextRun s)).

Definition exhausted (s : Schedule) : bool :=
  (0 <? s_MaxRuns s) && (s_MaxRuns s <=? s_RunCount s).

(** The updates after an execution. *)
Definition after_run (now : Time) (s : Schedule) : Schedule :=
  let s := set_s_LastRun (Some now) s in
  let s := set_s_RunCount (wrap64 (s_RunCount s + 1)) s in
  let s := set_s_UpdatedAt now s in
  if 0 <? s_Interval s then set_s_NextRun (Add now (s_Interval s)) s
  else if bool_decide (s_CronExpr s = "") then s
  else match parseNextCronTime offset (s_CronExpr s) now with
       | Some next => set_s_NextRun next s
       | None => set_s_Enabled false s
       end.

(** The body of the loop of [processDueSchedules]. *)
Definition process_schedule (now : Time) (s : Schedule) : M (Scheduler S) Schedule :=
  if negb (is_due now s) then mret s
  else if exhausted s then mret (set_s_Enabled false s)
  else
    r ← attempt (executeSchedule s);
    match r with
    | inr _ => mret s
    | inl _ => mret (after_run now s)
    end.

Fixpoint process_all (now : Time) (l : list (string * Schedule)) : M (Scheduler S) unit :=
  match l with
  | [] => mret tt
  | (id, s) :: rest =>
      s' ← process_schedule now s;
      modify (λ st, set_sc_schedules (<[id := s']> (sc_schedules st)) st) ;;
      process_all now rest
  end.

Definition processDueSchedules : M (Scheduler S) unit :=
  now ← on_manager Now;
  schedules ← (λ st, (Ok (sc_schedules st), st));
  process_all now (map_range schedules).

(** ** Statistics *)

Record ScheduleStats : Type := mkScheduleStats {
  ss_total : Z;
  ss_enabled : Z;
  ss_disabled : Z;
  ss_runs : Z;
}.

Definition count_schedule (acc : ScheduleStats) (s : Schedule) : ScheduleStats := {|
  ss_total := ss_total acc;
  ss_enabled := if s_Enabled s then wrap64 (ss_enabled acc + 1) else ss_enabled acc;
  ss_disabled := if s_Enabled s then ss_disabled acc else wrap64 (ss_disabled acc + 1);
  ss_runs := wrap64 (ss_runs acc + s_RunCount s);
|}.

Definition GetScheduleStats : M (Scheduler S) ScheduleStats := λ s,
  (Ok (foldl count_schedule (mkScheduleStats (Z.of_nat (size (sc_schedules s))) 0 0 0)
         (range_values (sc_schedules s))), s).

End scheduler.
