(* ===== verification/CronProps.v ===== *)
(** * What the cron expressions mean

    The result of [parseNextCronTime] for each expression, at any instant and
    in any location with a fixed offset. *)

From S2P Require Import Prelude GoTime Scheduler.

Lemma Truncate_bounds t d :
  0 < d → Truncate t d ≤ t < Truncate t d + d ∧ Truncate t d mod d = 0.
Proof.
  intros Hd. unfold Truncate. destruct (Z.leb_spec d 0); [lia|].
  pose proof (Z.mod_pos_bound t d Hd).
  split; [lia|]. rewrite Zminus_mod_idemp_r, Z.sub_diag. apply Z.mod_0_l. lia.
Qed.

Section cron.
Context (offset : Z).

Lemma local_day_bounds t :
  midnight offset (local_day offset t) ≤ t < midnight offset (local_day offset t + 1).
Proof.
  unfold midnight, local_day.
  pose proof (Z.div_mod (t + offset) Day ltac:(done)).
  pose proof (Z.mod_pos_bound (t + offset) Day ltac:(done)). lia.
Qed.

Lemma local_day_midnight n c :
  0 ≤ c < Day → local_day offset (midnight offset n + c) = n.
Proof.
  intros Hc. unfold local_day, midnight.
  replace (n * Day - offset + c + offset) with (c + n * Day) by lia.
  rewrite Z.div_add by done. rewrite Z.div_small; lia.
Qed.

Lemma clock_bounds t : 0 ≤ (t + offset) mod Day < Day.
Proof. by apply Z.mod_pos_bound. Qed.

(** The date of an instant [months] and [days] later. *)
Lemma date_of_AddDate t months days :
  date_of offset (AddDate offset t months days) =
    let '(y, m, d) := date_of offset t in civil (date_days y (m + months) (d + days)).
Proof.
  unfold date_of, AddDate. destruct (civil (local_day offset t)) as [[y m] d].
  unfold Date. f_equal. apply local_day_midnight, clock_bounds.
Qed.

Lemma norm_month_valid y m : 1 ≤ m ≤ 12 → norm_month y m = (y, m).
Proof.
  intros Hm. unfold norm_month. rewrite Z.div_small, Z.mod_small by lia. f_equal; lia.
Qed.

Lemma valid_date_bounds y m d :
  valid_date y m d = true → 1 ≤ m ≤ 12 ∧ 1 ≤ d ≤ month_days y m.
Proof. unfold valid_date. lia. Qed.

Lemma valid_date_intro y m d :
  1 ≤ m ≤ 12 → 1 ≤ d ≤ month_days y m → valid_date y m d = true.
Proof. unfold valid_date. lia. Qed.

Lemma date_days_valid y m d : 1 ≤ m ≤ 12 → date_days y m d = day_number y m d.
Proof. intros Hm. unfold date_days. by rewrite norm_month_valid. Qed.

(** [@daily] and [@weekly]: midnight of the day [days] after. *)
Lemma midnight_after t days :
  (let '(y, m, d) := date_of offset (AddDate offset t 0 days) in Date offset y m d) =
    midnight offset (local_day offset t + days).
Proof.
  rewrite date_of_AddDate. unfold date_of. pose proof (civil_day_number (local_day offset t)) as Hc.
  destruct (civil (local_day offset t)) as [[y m] d]. destruct Hc as [Hv Hn].
  apply valid_date_bounds in Hv as [Hm Hd]. rewrite Z.add_0_r, date_days_valid by done.
  replace (day_number y m (d + days)) with (local_day offset t + days)
    by (rewrite <- Hn; unfold day_number; lia).
  pose proof (civil_day_number (local_day offset t + days)) as Hc'.
  destruct (civil (local_day offset t + days)) as [[y' m'] d']. destruct Hc' as [Hv' Hn'].
  apply valid_date_bounds in Hv' as [Hm' _]. unfold Date. by rewrite date_days_valid, Hn'.
Qed.

(** The month after, and its first day. *)
Definition next_month (y m : Z) : Z * Z := if m =? 12 then (y + 1, 1) else (y, m + 1).

Lemma norm_next_month y m : 1 ≤ m ≤ 12 → norm_month y (m + 1) = next_month y m.
Proof.
  intros Hm. unfold next_month. destruct (Z.eqb_spec m 12) as [->|].
  - unfold norm_month. simpl. done.
  - apply norm_month_valid. lia.
Qed.

Lemma month_days_ge y m : 28 ≤ month_days y m ≤ 31.
Proof. unfold month_days. repeat case_match; lia. Qed.

(** A month before December is followed by the next one, December by the next
    year. *)
Lemma days_before_next_month y m :
  1 ≤ m ≤ 12 →
  let '(y', m') := next_month y m in
  days_before_year y' + days_before_month y' m' =
    days_before_year y + days_before_month y m + month_days y m.
Proof.
  intros Hm. assert (m = 1 ∨ m = 2 ∨ m = 3 ∨ m = 4 ∨ m = 5 ∨ m = 6 ∨ m = 7 ∨ m = 8 ∨ m = 9 ∨
    m = 10 ∨ m = 11 ∨ m = 12) as Hcase by lia.
  destruct Hcase as [->|[->|[->|[->|[->|[->|[->|[->|[->|[->|[->| ->]]]]]]]]]]];
    unfold next_month; simpl; unfold days_before_month, month_days; simpl;
    rewrite ?year_days_next; unfold year_days; destruct (is_leap y); simpl; try lia;
    destruct (is_leap (y + 1)); lia.
Qed.

(** [@monthly]: the first of the next month, or of the one after it when the
    next month is too short for the current day. *)
Definition monthly_target (y m d : Z) : Z * Z :=
  let '(y1, m1) := next_month y m in
  if d <=? month_days y1 m1 then (y1, m1) else next_month y1 m1.

Lemma next_month_range y m : 1 ≤ m ≤ 12 → 1 ≤ (next_month y m).2 ≤ 12.
Proof. unfold next_month. destruct (Z.eqb_spec m 12); simpl; lia. Qed.

Lemma monthly_spec y m d :
  1 ≤ m ≤ 12 → 1 ≤ d ≤ 31 →
  let '(y', m', _) := civil (date_days y (m + 1) d) in (y', m') = monthly_target y m d.
Proof.
  intros Hm Hd. unfold date_days. rewrite norm_next_month by done. unfold monthly_target.
  pose proof (next_month_range y m Hm) as Hr1. destruct (next_month y m) as [y1 m1]. simpl in Hr1.
  destruct (Z.leb_spec d (month_days y1 m1)).
  - rewrite civil_of_day_number by (apply valid_date_intro; lia). done.
  - pose proof (days_before_next_month y1 m1 Hr1) as Hnext.
    pose proof (next_month_range y1 m1 Hr1) as Hr2.
    destruct (next_month y1 m1) as [y2 m2]. simpl in Hr2.
    pose proof (month_days_ge y1 m1). pose proof (month_days_ge y2 m2).
    replace (day_number y1 m1 d) with (day_number y2 m2 (d - month_days y1 m1))
      by (unfold day_number; lia).
    rewrite civil_of_day_number by (apply valid_date_intro; lia). done.
Qed.

Lemma day_number_next_month y m d :
  1 ≤ m ≤ 12 → d ≤ month_days y m →
  day_number y m d < day_number (next_month y m).1 (next_month y m).2 1.
Proof.
  intros Hm Hd. pose proof (days_before_next_month y m Hm) as Hn. unfold day_number.
  destruct (next_month y m) as [y' m']. simpl. lia.
Qed.

Lemma monthly_target_spec y m d :
  1 ≤ m ≤ 12 → d ≤ month_days y m →
  1 ≤ (monthly_target y m d).2 ≤ 12 ∧
  day_number y m d < day_number (monthly_target y m d).1 (monthly_target y m d).2 1.
Proof.
  intros Hm Hd. unfold monthly_target.
  pose proof (next_month_range y m Hm) as Hr. pose proof (day_number_next_month y m d Hm Hd) as Hl.
  destruct (next_month y m) as [y1 m1]. simpl in *. destruct (d <=? month_days y1 m1); simpl.
  - done.
  - pose proof (next_month_range y1 m1 Hr) as Hr'. pose proof (month_days_ge y1 m1).
    pose proof (day_number_next_month y1 m1 1 Hr ltac:(lia)) as Hl'.
    destruct (next_month y1 m1) as [y2 m2]. simpl in *. split; [done|]. lia.
Qed.

(** ** Properties *)

(** [@minutely], [@hourly] and [@daily] give the first boundary strictly
    after the instant: the next multiple of a minute or an hour, the next local
    midnight; [@weekly] gives the local midnight seven days ahead. *)
Theorem cron_next_boundary from :
  (∃ r, parseNextCronTime offset "@minutely" from = Some r ∧
     from < r ≤ from + Minute ∧ r mod Minute = 0) ∧
  (∃ r, parseNextCronTime offset "@hourly" from = Some r ∧
     from < r ≤ from + Hour ∧ r mod Hour = 0) ∧
  (∃ r n, parseNextCronTime offset "@daily" from = Some r ∧
     from < r ≤ from + Day ∧ r = midnight offset n) ∧
  (∃ r, parseNextCronTime offset "@weekly" from = Some r ∧
     from + 6 * Day < r ≤ from + 7 * Day ∧ r = midnight offset (local_day offset from + 7)).
Proof.
  pose proof (local_day_bounds from) as Hb. unfold midnight in Hb.
  split_and!.
  - eexists. split; [reflexivity|].
    pose proof (Truncate_bounds (Add from (1 * Minute)) Minute ltac:(done)) as Ht.
    unfold Add in *. lia.
  - eexists. split; [reflexivity|].
    pose proof (Truncate_bounds (Add from (1 * Hour)) Hour ltac:(done)) as Ht.
    unfold Add in *. lia.
  - exists (midnight offset (local_day offset from + 1)), (local_day offset from + 1).
    split; [|unfold midnight; lia]. rewrite <- midnight_after. unfold parseNextCronTime.
    rewrite !bool_decide_false, bool_decide_true by done.
    by destruct (date_of offset (AddDate offset from 0 1)) as [[y m] d].
  - exists (midnight offset (local_day offset from + 7)).
    split; [|unfold midnight; lia]. rewrite <- midnight_after. unfold parseNextCronTime.
    rewrite !bool_decide_false, bool_decide_true by done.
    by destruct (date_of offset (AddDate offset from 0 7)) as [[y m] d].
Qed.

(** [@monthly] gives midnight of the first day of a month, strictly after
    the instant: of the next month when that month has the current day, and
    otherwise of the month after it, so that from January 31 February is
    skipped. *)
Theorem cron_monthly_target from :
  let '(y, m, d) := date_of offset from in
  let '(y', m') := monthly_target y m d in
  parseNextCronTime offset "@monthly" from = Some (midnight offset (day_number y' m' 1)) ∧
  from < midnight offset (day_number y' m' 1).
Proof.
  unfold parseNextCronTime. rewrite !bool_decide_false, bool_decide_true by done.
  rewrite date_of_AddDate. unfold date_of.
  pose proof (civil_day_number (local_day offset from)) as Hc.
  destruct (civil (local_day offset from)) as [[y m] d]. destruct Hc as [Hv Hn].
  apply valid_date_bounds in Hv as [Hm Hd]. rewrite Z.add_0_r.
  pose proof (month_days_ge y m) as Hmd.
  pose proof (monthly_spec y m d Hm ltac:(lia)) as Hs.
  pose proof (monthly_target_spec y m d Hm (proj2 Hd)) as [Hr Hl].
  destruct (monthly_target y m d) as [y1 m1]. simpl in Hr, Hl.
  destruct (civil (date_days y (m + 1) d)) as [[y2 m2] d2]. simplify_eq.
  unfold Date. rewrite date_days_valid by done. split; [done|].
  pose proof (local_day_bounds from) as Hb. unfold midnight in *. rewrite Hn in Hl.
  unfold Day, Hour, Minute, Second in *. lia.
Qed.
End cron.

(** The skipped month, on an instant: noon of January 31, 2026. *)
Example monthly_from_january_31 :
  parseNextCronTime 0 "@monthly" (day_number 2026 1 31 * Day + 12 * Hour) =
    Some (day_number 2026 3 1 * Day).
Proof. vm_compute. reflexivity. Qed.
