(* ===== verification/SchedulerProps.v ===== *)
(** * The scheduler of recurring jobs: limits and ticks *)

From S2P Require Import Prelude Errors GoMonad Job Storage World Manager ManagerProps.
From S2P Require Import GoTime Scheduler.
From S2P Require MemoryStore MemoryJobs MemoryLaws.

(** ** Calls *)

Section calls.
Context {S : Type} `{Storage S} `{Runtime} `{MapRange} `{Uuids}.
Context (offset : Z).
Implicit Types (st : Scheduler S).

(** A call of a method of the scheduler. *)
Inductive sched_call : Type :=
  | CallAddSchedule (s : Schedule)
  | CallRemoveSchedule (id : string)
  | CallEnableSchedule (id : string)
  | CallDisableSchedule (id : string)
  | CallTick.

Definition run_sched_call (st : Scheduler S) (c : sched_call) : Scheduler S :=
  match c with
  | CallAddSchedule s => (AddSchedule offset s st).2
  | CallRemoveSchedule id => (RemoveSchedule id st).2
  | CallEnableSchedule id => (EnableSchedule id st).2
  | CallDisableSchedule id => (DisableSchedule id st).2
  | CallTick => (processDueSchedules offset st).2
  end.

End calls.


(** ** What a tick does *)

Section ticks.
Context {S : Type} `{L : StorageLaws S} `{R : Runtime} `{MR : MapRange} `{U : Uuids}.
Context (offset : Z).
Implicit Types (st : Scheduler S).

(** The specification of a tick at [now]. A schedule runs when it is enabled,
    its time has come and its limit leaves a run. *)
Definition fires (now : Time) (s : Schedule) : bool :=
  bool_decide (s_Enabled s = true ∧ s_NextRun s ≤ now ∧ ¬ (0 < s_MaxRuns s ∧ s_MaxRuns s ≤ s_RunCount s)).

(** After a run the next one is as [AddSchedule] would compute it at [now]; a
    schedule without one stays where it is, or is disabled when its cron
    expression is not supported. *)
Definition ran (now : Time) (s : Schedule) : Schedule :=
  let s' := mkSchedule (s_ID s) (s_Name s) (s_JobType s) (s_Queue s) (s_Payload s) (s_CronExpr s)
    (s_Interval s) (default (s_NextRun s) (next_run offset now s)) (Some now) (s_Enabled s)
    (s_MaxRuns s) (wrap64 (s_RunCount s + 1)) (s_CreatedAt s) now (s_Metadata s) in
  if bool_decide (next_run offset now s = None ∧ s_CronExpr s ≠ "") then set_s_Enabled false s'
  else s'.

(** What becomes of a schedule: one that is due at its limit is disabled. *)
Definition ticked (now : Time) (s : Schedule) : Schedule :=
  if fires now s then ran now s
  else if bool_decide (s_NextRun s ≤ now) then
    if s_Enabled s then set_s_Enabled false s else s
  else s.

Lemma after_run_ran now s : after_run offset now s = ran now s.
Proof.
  unfold after_run, ran, next_run.
  destruct s as [id name jt q pl cron iv next last en mr rc cr up md]; simpl.
  destruct (0 <? iv); [by case_bool_decide; naive_solver|].
  destruct (decide (cron = "")) as [->|Hc].
  { rewrite (bool_decide_true ("" = "")) by done. by case_bool_decide; naive_solver. }
  rewrite (bool_decide_false (cron = "")) by done.
  destruct (parseNextCronTime offset cron now); case_bool_decide; naive_solver.
Qed.

Lemma exhausted_iff s : exhausted s = true ↔ 0 < s_MaxRuns s ∧ s_MaxRuns s ≤ s_RunCount s.
Proof. unfold exhausted. rewrite andb_true_iff, Z.ltb_lt, Z.leb_le. done. Qed.

Lemma is_due_iff now s : is_due now s = true ↔ s_Enabled s = true ∧ s_NextRun s ≤ now.
Proof. unfold is_due, Before. rewrite andb_true_iff, negb_true_iff, Z.ltb_ge. done. Qed.

(** The tests of the code against the specification. *)
Lemma fires_iff now s : fires now s = is_due now s && negb (exhausted s).
Proof.
  apply eq_bool_prop_intro. unfold fires. rewrite bool_decide_spec.
  rewrite andb_True, negb_True, !Is_true_true, is_due_iff, exhausted_iff. naive_solver.
Qed.

Lemma ticked_eq now s :
  ticked now s = if negb (is_due now s) then s
                 else if exhausted s then set_s_Enabled false s else after_run offset now s.
Proof.
  unfold ticked. rewrite fires_iff, after_run_ran.
  destruct (is_due now s) eqn:Hd; simpl.
  - apply is_due_iff in Hd as [He Hn]. destruct (exhausted s); simpl; [|done].
    by rewrite bool_decide_true, He.
  - case_bool_decide as Hn; [|done]. destruct (s_Enabled s) eqn:He; [|done].
    rewrite (proj2 (is_due_iff now s)) in Hd; done.
Qed.

Definition view_of (st : Scheduler S) : View := wview (sc_manager st).

(** No job has an identifier that the scheduler is about to make. *)
Definition fresh_ids (st : Scheduler S) : Prop :=
  ∀ k, (sc_uuid st ≤ k)%nat → v_jobs (view_of st) !! uuid_at k = None.

(** [j] is a job of the schedule, pending in its queue and due. *)
Definition job_of (s : Schedule) (j : Job) (st : Scheduler S) : Prop :=
  v_jobs (view_of st) !! j_ID j = Some j ∧ j_Type j = s_JobType s ∧
  j_Payload j = s_Payload s ∧ j_Status j = StatusPending ∧
  j_Queue j = (if bool_decide (s_Queue s = "") then "default" else s_Queue s) ∧
  ∃ x, x ∈ v_queue (view_of st) (j_Queue j) ∧ wt_job x = j_ID j ∧
    wt_due x ≤ now_of (sc_manager st).

(** The state [st'] has the jobs and the entries of [st] and more, at a later
    time. *)
Definition grows (st st' : Scheduler S) : Prop :=
  v_jobs (view_of st) ⊆ v_jobs (view_of st') ∧
  (∀ q, v_queue (view_of st) q ⊆+ v_queue (view_of st') q) ∧
  (wo_tick (sc_manager st) ≤ wo_tick (sc_manager st'))%nat.

#[export] Instance grows_refl : Reflexive grows.
Proof. intros st. by split_and!. Qed.

#[export] Instance grows_trans : Transitive grows.
Proof.
  intros st1 st2 st3 (H1&H2&H3) (H4&H5&H6). split_and!; [by etransitivity| |lia].
  intros q. etransitivity; [apply H2|apply H5].
Qed.

Lemma job_of_grows s j st st' : grows st st' → job_of s j st → job_of s j st'.
Proof.
  intros (H1&H2&H3) (Hj&?&?&?&?&x&Hx&?&?). unfold job_of. split_and!; try done.
  - by eapply lookup_weaken.
  - exists x. split_and!; [by eapply elem_of_submseteq|done|].
    pose proof (now_of_mono _ _ H3). lia.
Qed.

(** An entry whose scheduled time has been read off the clock before is due. *)
Lemma scheduled_in_the_past j (w w' : World S) d t :
  j_ScheduledAt j = Some t → t ≤ now_of w → due_time_ok j w w' d → d ≤ now_of w'.
Proof.
  unfold due_time_ok. intros -> Ht Hd.
  assert (Ha : After t (now_of w) = false) by by apply Z.ltb_ge. by rewrite Ha in Hd.
Qed.

Lemma enqueued_job_same (w : World S) j :
  let j' := enqueued_job w j in
  j_Type j' = j_Type j ∧ j_Payload j' = j_Payload j ∧ j_Status j' = j_Status j.
Proof. unfold enqueued_job, job_defaults, default_queue. by repeat case_match. Qed.

(** One execution of a schedule. *)
Lemma executeSchedule_runs s st :
  fresh_ids st →
  ∃ st' j, executeSchedule s st = (Ok tt, st') ∧ grows st st' ∧ fresh_ids st' ∧
    sc_schedules st' = sc_schedules st ∧ job_of s j st' ∧
    size (v_jobs (view_of st')) = Datatypes.S (size (v_jobs (view_of st))) ∧
    v_jobs (view_of st) !! j_ID j = None.
Proof.
  intros Hf. unfold executeSchedule, NewUUID, on_manager, mbind, M_bind, mret, M_ret. simpl.
  set (w0 := sc_manager st) in *. set (id := uuid_at (sc_uuid st)).
  set (w1 := mkWorld (wo_store w0) (wo_configs w0) (wo_tick w0 + 1 + 1 + 1) (wo_rand w0)).
  set (j := schedule_job s id _ _ _).
  assert (Hnew : v_jobs (wview w1) !! j_ID j = None) by (apply Hf; lia).
  destruct (wp_elim (Enqueue j) w1 (λ r w', ∃ d, r = Ok (enqueued_job w1 j) ∧
    enqueued (enqueued_job w1 j) d w1 w' ∧ due_time_ok j w1 w' d ∧
    (wo_tick w1 ≤ wo_tick w')%nat)) as (r & w2 & E & d & -> & (Hj & Hq & _) & Hd & Ht).
  { apply wp_Enqueue_new; [done|]. eauto 10. }
  rewrite E. set (j' := enqueued_job w1 j) in *.
  set (st' := mkScheduler w2 (sc_schedules st) (Datatypes.S (sc_uuid st))).
  destruct (enqueued_job_fields w1 j) as (Hid & _ & _ & Hqu). fold j' in Hid, Hqu.
  pose proof (enqueued_job_same w1 j) as Hsame. fold j' in Hsame.
  exists st', j'. split; [done|]. clearbody j'.
  change (v_jobs (wview w1)) with (v_jobs (view_of st)) in *.
  change (v_jobs (wview w2)) with (v_jobs (view_of st')) in *.
  assert (Hnow : d ≤ now_of w2).
  { apply (scheduled_in_the_past j w1 w2 d _ eq_refl); [|done].
    apply rt_now_mono, Nat.le_add_r. }
  rewrite Hj. rewrite Hid in *. split_and!.
  - split_and!.
    + rewrite Hj. by apply insert_subseteq.
    + intros q. change (v_queue (view_of st') q) with (v_queue (wview w2) q).
      change (v_queue (view_of st) q) with (v_queue (wview w1) q). rewrite Hq.
      case_bool_decide; [by apply submseteq_cons|done].
    + change (wo_tick w0 ≤ wo_tick w2)%nat. etransitivity; [|apply Ht].
      change (wo_tick w0 ≤ wo_tick w0 + 1 + 1 + 1)%nat. clear. lia.
  - intros k Hk. rewrite Hj, lookup_insert_ne; [apply Hf; change (Datatypes.S (sc_uuid st) ≤ k)%nat in Hk; lia|].
    change (id ≠ uuid_at k). intros Heq%uuid_inj.
    change (Datatypes.S (sc_uuid st) ≤ k)%nat in Hk. lia.
  - done.
  - unfold job_of. rewrite Hid, Hqu. split_and!; try apply Hsame.
    + rewrite Hj. apply lookup_insert_eq.
    + unfold default_queue. simpl. by case_bool_decide.
    + exists (mkWaiting (j_ID j) (j_Priority j') d). split_and!; [|done|done].
      change (v_queue (view_of st')) with (v_queue (wview w2)).
      rewrite Hq, Hqu, bool_decide_true by done. apply list_elem_of_here.
  - by apply map_size_insert_None.
  - done.
Qed.

Lemma process_schedule_runs now s st :
  fresh_ids st →
  ∃ st', process_schedule offset now s st = (Ok (ticked now s), st') ∧ grows st st' ∧
    fresh_ids st' ∧ sc_schedules st' = sc_schedules st ∧
    size (v_jobs (view_of st')) = (size (v_jobs (view_of st)) + (if fires now s then 1 else 0))%nat ∧
    (fires now s = true → ∃ j, job_of s j st' ∧ v_jobs (view_of st) !! j_ID j = None).
Proof.
  intros Hf. rewrite ticked_eq, fires_iff. unfold process_schedule.
  destruct (is_due now s); simpl; [|exists st; split_and!; [done..|lia|done]].
  destruct (exhausted s); simpl; [exists st; split_and!; [done..|lia|done]|].
  destruct (executeSchedule_runs s st Hf) as (st' & j & E & ? & ? & ? & ? & ? & ?).
  exists st'. rewrite (bind_Ok _ _ _ _ _ (attempt_Ok _ _ _ _ E)).
  split_and!; [done..|lia|]. eauto.
Qed.

(** The loop over a list of schedules with distinct identifiers. *)
Lemma process_all_runs now l st :
  fresh_ids st →
  ∃ st', process_all offset now l st = (Ok tt, st') ∧ grows st st' ∧ fresh_ids st' ∧
    sc_schedules st' = foldl (λ m x, <[x.1 := ticked now x.2]> m) (sc_schedules st) l ∧
    size (v_jobs (view_of st')) =
      (size (v_jobs (view_of st)) + length (filter (λ x, fires now x.2 = true) l))%nat ∧
    ∀ x, x ∈ l → fires now x.2 = true →
      ∃ j, job_of x.2 j st' ∧ v_jobs (view_of st) !! j_ID j = None.
Proof.
  revert st. induction l as [|[id s] l IH]; intros st Hf; simpl.
  { exists st. split_and!; [done..|by rewrite Nat.add_0_r|]. intros x Hx. by apply elem_of_nil in Hx. }
  destruct (process_schedule_runs now s st Hf) as (st1 & E & Hg1 & Hf1 & Hs1 & Hsz1 & Hj1).
  rewrite (bind_Ok _ _ _ _ _ E). unfold mbind at 1, M_bind at 1, modify. simpl.
  set (st2 := set_sc_schedules _ st1).
  destruct (IH st2) as (st' & E' & Hg & Hf' & Hs & Hsz & Hj); [done|].
  assert (Hg2 : grows st1 st') by done.
  exists st'. split; [done|]. split; [by etransitivity|]. split; [done|]. split_and!.
  - rewrite Hs. unfold st2. simpl. by rewrite Hs1.
  - rewrite Hsz. change (view_of st2) with (view_of st1). rewrite Hsz1, filter_cons. simpl.
    destruct (fires now s); [rewrite decide_True by done|rewrite decide_False by done]; simpl; lia.
  - intros x [->|Hx]%elem_of_cons Hx'.
    + destruct (Hj1 Hx') as (j & Hjo & Hn). exists j. split; [|done]. by eapply job_of_grows.
    + destruct (Hj x Hx Hx') as (j & Hjo & Hn). exists j. split; [done|].
      destruct Hg1 as (Hsub & _). change (view_of st2) with (view_of st1) in Hn.
      by eapply lookup_weaken_None.
Qed.

Lemma foldl_insert_fmap (f : Schedule → Schedule) (m : gmap string Schedule) l :
  NoDup l.*1 → (∀ k s, (k, s) ∈ l → m !! k = Some s) →
  ∀ k, foldl (λ m x, <[x.1 := f x.2]> m) m l !! k =
    if decide (k ∈ l.*1) then f <$> m !! k else m !! k.
Proof.
  revert m. induction l as [|[k0 s0] l IH]; intros m; simpl; [done|].
  intros [Hnin Hnd]%NoDup_cons Hin k. rewrite IH; [|done|].
  - destruct (decide (k = k0)) as [->|Hne].
    + rewrite (decide_False (P := k0 ∈ l.*1)), lookup_insert_eq by done.
      rewrite decide_True by apply list_elem_of_here.
      by rewrite (Hin k0 s0) by apply list_elem_of_here.
    + rewrite lookup_insert_ne by done. apply decide_ext. set_solver.
  - intros k' s' Hk'. rewrite lookup_insert_ne; [apply Hin; by apply list_elem_of_further|].
    intros ->. apply Hnin. rewrite list_elem_of_fmap. by exists (k', s').
Qed.

(** What a tick does, with what later steps need of it. *)
Lemma processDueSchedules_runs st :
  fresh_ids st →
  let now := now_of (sc_manager st) in
  ∃ st', processDueSchedules offset st = (Ok tt, st') ∧ grows st st' ∧ fresh_ids st' ∧
    sc_schedules st' = ticked now <$> sc_schedules st ∧
    size (v_jobs (view_of st')) = (size (v_jobs (view_of st)) +
      length (filter (λ s, fires now s = true) (map_to_list (sc_schedules st)).*2))%nat ∧
    ∀ id s, sc_schedules st !! id = Some s → fires now s = true →
      ∃ j, job_of s j st' ∧ v_jobs (view_of st) !! j_ID j = None.
Proof.
  intros Hf now. unfold processDueSchedules, mbind, M_bind, on_manager. simpl.
  fold now. set (st1 := set_sc_manager _ st).
  assert (Hf1 : fresh_ids st1) by done.
  destruct (process_all_runs now (map_range (sc_schedules st)) st1 Hf1)
    as (st' & E & Hg & Hf' & Hs & Hsz & Hj).
  exists st'. split; [done|]. split.
  { split_and!; try apply Hg. etransitivity; [|apply Hg]. simpl. lia. }
  split; [done|]. split_and!.
  - rewrite Hs. change (sc_schedules st1) with (sc_schedules st). apply map_eq. intros k.
    rewrite lookup_fmap, foldl_insert_fmap.
    + case_decide as Hk; [done|]. destruct (sc_schedules st !! k) as [s|] eqn:Hks; [|done].
      exfalso. apply Hk. rewrite list_elem_of_fmap. exists (k, s).
      by rewrite elem_of_map_range.
    + rewrite map_range_perm. apply NoDup_fst_map_to_list.
    + intros k' s'. by rewrite elem_of_map_range.
  - rewrite Hsz. change (view_of st1) with (view_of st). f_equal.
    rewrite (Permutation_length (filter_Permutation _ _ _ (map_range_perm (sc_schedules st)))).
    clear. induction (map_to_list (sc_schedules st)) as [|x l IH]; [done|].
    rewrite fmap_cons, !filter_cons. case_decide; simpl; by rewrite IH.
  - intros id s Hid Hfi. apply (Hj (id, s)); [by apply elem_of_map_range|done].
Qed.

(** C34. A tick runs exactly the schedules that are enabled, due and below
    their limit, each once, however long it is overdue: it succeeds, it updates
    every schedule as [ticked] says, in whatever order the map is
    iterated, it creates one new job per such schedule and no other, and each
    of these jobs is pending in the queue of its schedule and due. *)
Theorem tick_runs_due_schedules st :
  fresh_ids st →
  let now := now_of (sc_manager st) in
  ∃ st', processDueSchedules offset st = (Ok tt, st') ∧
    sc_schedules st' = ticked now <$> sc_schedules st ∧
    v_jobs (view_of st) ⊆ v_jobs (view_of st') ∧
    size (v_jobs (view_of st')) = (size (v_jobs (view_of st)) +
      length (filter (λ s, fires now s = true) (map_to_list (sc_schedules st)).*2))%nat ∧
    ∀ id s, sc_schedules st !! id = Some s → fires now s = true →
      ∃ j, job_of s j st' ∧ v_jobs (view_of st) !! j_ID j = None.
Proof.
  intros Hf now. destruct (processDueSchedules_runs st Hf) as (st' & E & (Hsub & _) & _ & Hs & Hsz & Hj).
  exists st'. by split_and!.
Qed.
End ticks.

(** ** Limits *)

Section limits.
Context {S : Type} `{L : StorageLaws S} `{R : Runtime} `{MR : MapRange} `{U : Uuids}.
Context (offset : Z).
Implicit Types (st : Scheduler S).

(** The call neither replaces nor removes the schedule. *)
Definition leaves (id : string) (c : sched_call) : Prop :=
  match c with
  | CallAddSchedule s => s_ID s ≠ id
  | CallRemoveSchedule id' => id' ≠ id
  | _ => True
  end.

(** Does the call run the schedule? *)
Definition runs_now (id : string) st (c : sched_call) : bool :=
  match c, sc_schedules st !! id with
  | CallTick, Some s => fires (now_of (sc_manager st)) s
  | _, _ => false
  end.

(** How often a sequence of calls runs the schedule. *)
Fixpoint runs (id : string) st (cs : list sched_call) : nat :=
  match cs with
  | [] => 0
  | c :: cs => (if runs_now id st c then 1 else 0) + runs id (run_sched_call offset st c) cs
  end.

(** The scheduler will not make the identifier. *)
Definition id_taken (id : string) st : Prop := ∀ k, (sc_uuid st ≤ k)%nat → uuid_at k ≠ id.

(** [s'] is the schedule [s], but for its times, its count and whether it is
    enabled. *)
Definition same_schedule (s s' : Schedule) : Prop :=
  s_MaxRuns s' = s_MaxRuns s ∧ s_JobType s' = s_JobType s ∧ s_Queue s' = s_Queue s ∧
  s_Payload s' = s_Payload s.

#[local] Instance same_schedule_preorder : PreOrder same_schedule.
Proof. unfold same_schedule. split; [by intros s|]. intros s1 s2 s3. naive_solver congruence. Qed.

Lemma job_of_same s s' j st : same_schedule s s' → job_of s' j st → job_of s j st.
Proof. intros (_ & Ht & Hq & Hp). unfold job_of. by rewrite Ht, Hq, Hp. Qed.

Lemma ticked_same now s : same_schedule s (ticked offset now s).
Proof. unfold ticked, ran, same_schedule. by repeat case_match. Qed.

Lemma ticked_count now s :
  s_RunCount (ticked offset now s) =
    if fires now s then wrap64 (s_RunCount s + 1) else s_RunCount s.
Proof. unfold ticked, ran. by repeat case_match. Qed.

(** A call other than a tick creates no job. *)
Definition calm st st' : Prop :=
  view_of st' = view_of st ∧ (wo_tick (sc_manager st) ≤ wo_tick (sc_manager st'))%nat ∧
  (sc_uuid st ≤ sc_uuid st')%nat.

Lemma calm_refl st : calm st st.
Proof. by split_and!. Qed.

Lemma calm_grows st st' : calm st st' → fresh_ids st → grows st st' ∧ fresh_ids st'.
Proof.
  intros (Hv & Ht & Hu) Hf. unfold grows, fresh_ids. rewrite Hv. split; [done|].
  intros k Hk. apply Hf. lia.
Qed.

Lemma AddSchedule_calm s st id :
  s_ID s ≠ id → id_taken id st →
  calm st (AddSchedule offset s st).2 ∧
  sc_schedules (AddSchedule offset s st).2 !! id = sc_schedules st !! id.
Proof.
  intros Hid Htk. unfold AddSchedule.
  assert (Hs : ∃ s1 st1, (if bool_decide (s_ID s = "")
      then id ← NewUUID; mret (set_s_ID id s) else mret s) st = (Ok s1, st1) ∧ s_ID s1 ≠ id ∧
      sc_schedules st1 = sc_schedules st ∧ calm st st1).
  { case_bool_decide; eexists _, _; (split; [done|]); split_and!; try done.
    - by apply Htk.
    - split_and!; simpl; [done|done|clear; lia]. }
  destruct Hs as (s1 & st1 & E & Hid1 & <- & Hc).
  rewrite (bind_Ok _ _ _ _ _ E). destruct (bool_decide (s_JobType s1 = "")); [done|].
  cbv zeta. unfold mbind at 1 3, M_bind at 1 3, on_manager. simpl.
  set (s2 := set_s_UpdatedAt _ _). assert (Hid2 : s_ID s2 ≠ id) by (unfold s2; simpl; by destruct (bool_decide (s_Queue s1 = ""))).
  assert (Hc' : calm st (set_sc_manager (Now (sc_manager st1)).2 st1)).
  { destruct Hc as (? & ? & ?). split_and!; [done|simpl; lia|done]. }
  destruct (next_run offset _ s2) as [next|]; simpl.
  - split; [done|]. by rewrite lookup_insert_ne.
  - by repeat case_match.
Qed.

Lemma switch_schedule_calm b id' st id s :
  sc_schedules st !! id = Some s →
  calm st (switch_schedule b id' st).2 ∧
  ∃ s', sc_schedules (switch_schedule b id' st).2 !! id = Some s' ∧ same_schedule s s' ∧
    s_RunCount s' = s_RunCount s.
Proof.
  intros Hs. unfold switch_schedule, GetSchedule, mbind, M_bind, on_manager, modify.
  destruct (sc_schedules st !! id') as [s0|] eqn:E; simpl;
    [|by (split; [apply calm_refl|by exists s])].
  split; [split_and!; simpl; [done|lia|done]|]. destruct (decide (id' = id)) as [->|Hn].
  - rewrite lookup_insert_eq. simplify_eq. eexists. by split_and!.
  - rewrite lookup_insert_ne by done. by exists s.
Qed.

(** The numbering of identifiers goes on. *)
Definition uuid_grows st st' : Prop := (sc_uuid st ≤ sc_uuid st')%nat.

#[local] Instance uuid_grows_preorder : PreOrder uuid_grows.
Proof. unfold uuid_grows. split; [by intros st|]. intros st1 st2 st3. lia. Qed.

Lemma on_manager_uuid {A} (m : M (World S) A) : preserves uuid_grows (on_manager m).
Proof. intros st. unfold uuid_grows. simpl. lia. Qed.

Lemma NewUUID_uuid : preserves uuid_grows NewUUID.
Proof. intros st. unfold uuid_grows. simpl. lia. Qed.

#[local] Hint Resolve on_manager_uuid NewUUID_uuid : preserve.

Lemma process_schedule_uuid now s : preserves uuid_grows (process_schedule offset now s).
Proof. unfold process_schedule, executeSchedule. solve_preserves. Qed.

#[local] Hint Resolve process_schedule_uuid : preserve.

Lemma process_all_uuid now l : preserves uuid_grows (process_all offset now l).
Proof.
  induction l as [|[id s] l IH]; simpl; [by intros st; constructor|]. apply preserves_bind; [apply _|apply process_schedule_uuid|].
  intros s'. apply preserves_bind; [apply _|by intros st; constructor|]. intros _. apply IH.
Qed.

Lemma processDueSchedules_uuid st : uuid_grows st (processDueSchedules offset st).2.
Proof.
  revert st. change (preserves uuid_grows (processDueSchedules offset)). unfold processDueSchedules.
  apply preserves_bind; [apply _|apply on_manager_uuid|]. intros now.
  apply preserves_bind; [apply _|by intros st'; constructor|]. intros m. apply process_all_uuid.
Qed.

(** One call: the count goes up by one exactly when a job is made. *)
Lemma call_runs id s st c :
  fresh_ids st → id_taken id st → sc_schedules st !! id = Some s → leaves id c →
  let st' := run_sched_call offset st c in
  grows st st' ∧ fresh_ids st' ∧ (sc_uuid st ≤ sc_uuid st')%nat ∧
  ∃ s', sc_schedules st' !! id = Some s' ∧ same_schedule s s' ∧
    if runs_now id st c
    then s_RunCount s' = wrap64 (s_RunCount s + 1) ∧ (0 < s_MaxRuns s → s_RunCount s < s_MaxRuns s) ∧
         ∃ j, job_of s j st' ∧ v_jobs (view_of st) !! j_ID j = None
    else s_RunCount s' = s_RunCount s.
Proof.
  intros Hf Htk Hs Hl. destruct c as [s0|id'|id'|id'|]; simpl in Hl |- *.
  - destruct (AddSchedule_calm s0 st id Hl Htk) as [Hc He].
    destruct (calm_grows _ _ Hc Hf). split_and!; [done|done|apply Hc|]. rewrite He. by exists s.
  - unfold RemoveSchedule. destruct (sc_schedules st !! id'); simpl; [|split_and!; [done..|by exists s]].
    split_and!; [by split_and!|done|done|]. exists s. by rewrite lookup_delete_ne.
  - destruct (switch_schedule_calm true id' st id s Hs) as [Hc ?].
    destruct (calm_grows _ _ Hc Hf). split_and!; [done|done|apply Hc|done].
  - destruct (switch_schedule_calm false id' st id s Hs) as [Hc ?].
    destruct (calm_grows _ _ Hc Hf). split_and!; [done|done|apply Hc|done].
  - destruct (processDueSchedules_runs offset st Hf) as (st' & E & Hg & Hf' & Hsch & _ & Hj).
    pose proof (processDueSchedules_uuid st) as Hu. rewrite E in Hu.
    rewrite E. simpl. split_and!; [done..|]. rewrite Hsch, lookup_fmap, Hs. simpl.
    eexists. split; [done|]. split; [apply ticked_same|]. rewrite ticked_count.
    destruct (fires (now_of (sc_manager st)) s) eqn:Hfi; [|done]. split; [done|]. split; [|by eapply Hj].
    unfold fires in Hfi. apply bool_decide_eq_true in Hfi. lia.
Qed.

End limits.


(** ** Witnesses *)

#[local] Existing Instance demo_runtime.
#[local] Existing Instance map_range_default.
#[local] Existing Instance MemoryLaws.MemoryStorage.
#[local] Existing Instance MemoryLaws.MemoryStorageLaws.

Program Definition demo_uuids : Uuids := {| uuid_at n := "u" +:+ pretty n |}.
Next Obligation. intros i k [= H]. by simplify_eq. Qed.
Next Obligation. done. Qed.
#[local] Existing Instance demo_uuids.

(** An hourly schedule that runs at most twice. *)
Definition demo_schedule : Schedule :=
  mkSchedule "s1" "report" "report" "" "" "" (3600 * Second) 0 None false 2 0 0 0 ∅.

Definition scheduler_world : World MemoryStore.MemoryStore :=
  mkWorld (MemoryStore.NewMemoryStore (λ _, 0)) ∅ 0 0.

(** The schedule added and overdue. *)
Definition demo_scheduler : Scheduler MemoryStore.MemoryStore :=
  mkScheduler scheduler_world
    {[ "s1" := set_s_Enabled true (set_s_Queue "reports" demo_schedule) ]} 7.


Lemma tick_runs_due_schedules_witness :
  let now := now_of (sc_manager demo_scheduler) in
  ∃ st', processDueSchedules 0 demo_scheduler = (Ok tt, st') ∧
    sc_schedules st' = ticked 0 now <$> sc_schedules demo_scheduler ∧
    v_jobs (view_of demo_scheduler) ⊆ v_jobs (view_of st') ∧
    size (v_jobs (view_of st')) = (size (v_jobs (view_of demo_scheduler)) +
      length (filter (λ s, fires now s = true)
        (map_to_list (sc_schedules demo_scheduler)).*2))%nat ∧
    ∀ id s, sc_schedules demo_scheduler !! id = Some s → fires now s = true →
      ∃ j, job_of s j st' ∧ v_jobs (view_of demo_scheduler) !! j_ID j = None.
Proof.
  apply (tick_runs_due_schedules 0 demo_scheduler). intros k _. apply lookup_empty.
Defined.

Example demo_tick_fires :
  filter (λ s, fires (now_of (sc_manager demo_scheduler)) s = true)
    (map_to_list (sc_schedules demo_scheduler)).*2 = (map_to_list (sc_schedules demo_scheduler)).*2.
Proof. vm_compute. reflexivity. Qed.

(** The schedule, re-enabled after each tick, has made its two jobs. *)
Definition demo_calls : list sched_call :=
  [CallTick; CallAddSchedule (set_s_RunCount 7 (set_s_ID "" demo_schedule)); CallTick;
   CallEnableSchedule "s1"; CallTick].

