(* ===== verification/RateLimit.v ===== *)
(** * Rate limiting (internal/features/ratelimit.go)

    The token bucket and the sliding window, one bucket or window per queue.
    A call reads the clock once, under the lock of its bucket or window, so the
    reading is an argument of the call and the readings of successive calls on
    a queue do not decrease. *)

From S2P Require Import Prelude Errors GoMonad Job.

(** [d.Seconds()]. *)
Definition Seconds (d : Duration) : PrimFloat.float :=
  PrimFloat.add (float64_of_int64 (Z.quot d Second))
    (PrimFloat.div (float64_of_int64 (Z.rem d Second)) (float64_of_int64 Second)).

(** ** The token bucket *)

Module TokenBucket.

Record tokenBucket : Type := mkBucket {
  tb_tokens : PrimFloat.float;
  tb_maxTokens : PrimFloat.float;
  tb_refillRate : PrimFloat.float;
  tb_lastRefill : Time;
}.

(** [type RateLimiter struct]. *)
Abbreviation RateLimiter := (gmap string tokenBucket) (only parsing).

Definition NewRateLimiter : RateLimiter := ∅.

Definition SetLimit (now : Time) (queue : string) (rate : PrimFloat.float) (burst : Z)
    (rl : RateLimiter) : RateLimiter :=
  <[queue := mkBucket (float64_of_int64 burst) (float64_of_int64 burst) rate now]> rl.

(** The part of [Allow] that holds the lock of the bucket. *)
Definition refill (now : Time) (tb : tokenBucket) : tokenBucket :=
  let elapsed := Seconds (Sub now (tb_lastRefill tb)) in
  let tokens := PrimFloat.add (tb_tokens tb) (PrimFloat.mul elapsed (tb_refillRate tb)) in
  let tokens := if PrimFloat.ltb (tb_maxTokens tb) tokens then tb_maxTokens tb else tokens in
  mkBucket tokens (tb_maxTokens tb) (tb_refillRate tb) now.

Definition take_token (now : Time) (tb : tokenBucket) : bool * tokenBucket :=
  let tb := refill now tb in
  if PrimFloat.leb PrimFloat.one (tb_tokens tb)
  then (true, mkBucket (PrimFloat.sub (tb_tokens tb) PrimFloat.one) (tb_maxTokens tb)
                (tb_refillRate tb) (tb_lastRefill tb))
  else (false, tb).

Definition Allow (now : Time) (queue : string) (rl : RateLimiter) : bool * RateLimiter :=
  match rl !! queue with
  | None => (true, rl)
  | Some tb => let r := take_token now tb in (r.1, <[queue := r.2]> rl)
  end.

(** What ends a wait of [Wait]: the timer, whose next call of [Allow] reads the
    clock at [now], or the context, with its error. *)
Inductive wakeup : Type :=
  | Tick (now : Time)
  | Done (err : error).

(** [Wait], for the wake-ups it gets; [None] while it is still waiting. *)
Fixpoint Wait (now : Time) (queue : string) (wakes : list wakeup) (rl : RateLimiter) :
    option (option error) * RateLimiter :=
  let r := Allow now queue rl in
  if r.1 then (Some None, r.2)
  else match wakes with
       | [] => (None, r.2)
       | Done err :: _ => (Some (Some err), r.2)
       | Tick now' :: wakes => Wait now' queue wakes r.2
       end.

Definition GetTokens (queue : string) (rl : RateLimiter) : PrimFloat.float :=
  match rl !! queue with
  | None => PrimFloat.opp PrimFloat.one
  | Some tb => tb_tokens tb
  end.

(** [type RateLimitedQueue struct]. *)
Record RateLimitedQueue : Type := mkRateLimitedQueue {
  rq_queueName : string;
  rq_rateLimiter : RateLimiter;
}.

Definition NewRateLimitedQueue (now : Time) (queue : string) (rps : PrimFloat.float)
    (burst : Z) : RateLimitedQueue :=
  mkRateLimitedQueue queue (SetLimit now queue rps burst NewRateLimiter).

(** [EnqueueWithLimit] enqueues nothing: it asks the limiter. The source calls
    [errors.NewQueueError] with a message and [nil]. *)
Definition EnqueueWithLimit (now : Time) : M RateLimitedQueue unit := λ rq,
  let r := Allow now (rq_queueName rq) (rq_rateLimiter rq) in
  let rq' := mkRateLimitedQueue (rq_queueName rq) r.2 in
  if r.1 then (Ok tt, rq')
  else (Err (NewQueueError ("rate limit exceeded for queue: " +:+ rq_queueName rq) "" None), rq').

Definition WaitAndEnqueue (now : Time) (wakes : list wakeup) (rq : RateLimitedQueue) :
    option (option error) * RateLimitedQueue :=
  let r := Wait now (rq_queueName rq) wakes (rq_rateLimiter rq) in
  (r.1, mkRateLimitedQueue (rq_queueName rq) r.2).

End TokenBucket.

(** ** The sliding window *)

Module SlidingWindow.

Record slidingWindow : Type := mkWindow {
  w_limit : Z;
  w_window : Duration;
  w_requests : list Time;
}.

(** [type SlidingWindowRateLimiter struct]. *)
Abbreviation Limiter := (gmap string slidingWindow) (only parsing).

Definition NewSlidingWindowRateLimiter : Limiter := ∅.

(** [make([]time.Time, 0, limit)] panics for a negative capacity. *)
Definition SetLimit (queue : string) (limit : Z) (window : Duration) : M Limiter unit := λ sw,
  if limit <? 0 then (Panic "makeslice: cap out of range", sw)
  else (Ok tt, <[queue := mkWindow limit window []]> sw).

(** The requests after [now.Add(-window)]. *)
Definition valid (now : Time) (window : Duration) (requests : list Time) : list Time :=
  filter (λ req, After req (Add now (wrap64 (- window))) = true) requests.

(** The part of [Allow] that holds the lock of the window. *)
Definition admit_request (now : Time) (w : slidingWindow) : bool * slidingWindow :=
  let requests := valid now (w_window w) (w_requests w) in
  if Z.of_nat (length requests) <? w_limit w
  then (true, mkWindow (w_limit w) (w_window w) (requests ++ [now]))
  else (false, mkWindow (w_limit w) (w_window w) requests).

Definition Allow (now : Time) (queue : string) : M Limiter bool := λ sw,
  match sw !! queue with
  | None => (Ok true, sw)
  | Some w => let r := admit_request now w in (Ok r.1, <[queue := r.2]> sw)
  end.

Definition GetCount (now : Time) (queue : string) : M Limiter Z := λ sw,
  match sw !! queue with
  | None => (Ok 0, sw)
  | Some w => (Ok (Z.of_nat (length (valid now (w_window w) (w_requests w)))), sw)
  end.

End SlidingWindow.
