(* ===== verification/RateLimitProps.v ===== *)
(** * Rate limiting: what the limiters let through *)

From S2P Require Import Prelude Errors GoMonad Job RateLimit.
Import SlidingWindow.

(** ** The sliding window and a log of all admissions

    The specification keeps, for each queue, every request it ever admitted and
    counts those of the last [window]. The limiter forgets the requests that
    left the window. *)

Record log : Type := mkLog { l_limit : Z; l_window : Duration; l_times : list Time }.

Definition recent (now : Time) (window : Duration) (l : list Time) : list Time :=
  filter (λ t, now - window < t) l.

Inductive call : Type :=
  | CallSetLimit (queue : string) (limit : Z) (window : Duration)
  | CallAllow (now : Time) (queue : string)
  | CallGetCount (now : Time) (queue : string).

Inductive answer : Type := Done | Allowed (b : bool) | Count (n : Z).

Definition spec_step (c : call) (s : gmap string log) : answer * gmap string log :=
  match c with
  | CallSetLimit q limit window => (Done, <[q := mkLog limit window []]> s)
  | CallAllow now q =>
      match s !! q with
      | None => (Allowed true, s)
      | Some l =>
          if Z.of_nat (length (recent now (l_window l) (l_times l))) <? l_limit l
          then (Allowed true, <[q := mkLog (l_limit l) (l_window l) (l_times l ++ [now])]> s)
          else (Allowed false, s)
      end
  | CallGetCount now q =>
      match s !! q with
      | None => (Count 0, s)
      | Some l => (Count (Z.of_nat (length (recent now (l_window l) (l_times l)))), s)
      end
  end.

Definition impl_step (c : call) : M (gmap string slidingWindow) answer :=
  match c with
  | CallSetLimit q limit window => SetLimit q limit window ;; mret Done
  | CallAllow now q => b ← Allow now q; mret (Allowed b)
  | CallGetCount now q => n ← GetCount now q; mret (Count n)
  end.

Fixpoint spec_run (calls : list call) (s : gmap string log) : list answer * gmap string log :=
  match calls with
  | [] => ([], s)
  | c :: calls =>
      let r := spec_step c s in
      let r' := spec_run calls r.2 in (r.1 :: r'.1, r'.2)
  end.

Fixpoint impl_run (calls : list call) : M (gmap string slidingWindow) (list answer) :=
  match calls with
  | [] => mret []
  | c :: calls => a ← impl_step c; l ← impl_run calls; mret (a :: l)
  end.

(** The limits are those [make] accepts, and the window can be negated. *)
Definition call_ok (c : call) : Prop :=
  match c with
  | CallSetLimit _ limit window => 0 ≤ limit ∧ min_int64 < window ≤ max_int64
  | _ => True
  end.

(** The time of a call that reads the clock. *)
Definition call_time (c : call) : option Time :=
  match c with
  | CallSetLimit _ _ _ => None
  | CallAllow now _ | CallGetCount now _ => Some now
  end.

Definition times (calls : list call) : list Time := omap call_time calls.

(** *** The refinement *)

(** The window and the log agree on every cutoff from time [T] on. *)
Definition agree (T : Time) (w : slidingWindow) (l : log) : Prop :=
  w_limit w = l_limit l ∧ w_window w = l_window l ∧ min_int64 < l_window l ≤ max_int64 ∧
  ∀ now, T ≤ now → recent now (l_window l) (w_requests w) = recent now (l_window l) (l_times l).

Definition refines (T : Time) (sw : gmap string slidingWindow) (s : gmap string log) : Prop :=
  ∀ q, match sw !! q, s !! q with
       | Some w, Some l => agree T w l
       | None, None => True
       | _, _ => False
       end.

Lemma valid_recent now window l :
  min_int64 < window ≤ max_int64 → valid now window l = recent now window l.
Proof.
  intros Hw. unfold valid, recent, After, Add.
  rewrite wrap64_id by (unfold int64, min_int64, max_int64 in *; lia).
  apply list_filter_iff. intros t. rewrite Z.ltb_lt. lia.
Qed.

Lemma recent_recent now now' window l :
  now ≤ now' → recent now' window (recent now window l) = recent now' window l.
Proof.
  intros Hn. unfold recent. rewrite list_filter_filter. apply list_filter_iff. intros t. lia.
Qed.

Lemma recent_app now window l l' :
  recent now window (l ++ l') = recent now window l ++ recent now window l'.
Proof. apply filter_app. Qed.

Lemma refines_later T T' sw s : T ≤ T' → refines T sw s → refines T' sw s.
Proof.
  intros HT Hr q. specialize (Hr q).
  destruct (sw !! q), (s !! q); try done. destruct Hr as (?&?&?&Ha).
  split_and!; try done; try lia. intros now Hnow. apply Ha. lia.
Qed.

Lemma refines_insert T sw s q w l :
  refines T sw s → agree T w l → refines T (<[q := w]> sw) (<[q := l]> s).
Proof.
  intros Hr Ha q'. destruct (decide (q = q')) as [->|Hne].
  - by rewrite !lookup_insert_eq.
  - rewrite !lookup_insert_ne by done. apply Hr.
Qed.

Lemma refines_insert_l T sw s q w l :
  refines T sw s → s !! q = Some l → agree T w l → refines T (<[q := w]> sw) s.
Proof. intros Hr Hl Ha. rewrite <- (insert_id s q l Hl). by apply refines_insert. Qed.

(** [admit_request] on a window that agrees with the log. *)
Lemma admit_agree now w l :
  agree now w l →
  let n := Z.of_nat (length (recent now (l_window l) (l_times l))) in
  let r := admit_request now w in
  r.1 = (n <? l_limit l) ∧
  agree now r.2 (if n <? l_limit l then mkLog (l_limit l) (l_window l) (l_times l ++ [now]) else l).
Proof.
  intros (Hl & Hw & Hr & Ha). unfold admit_request. rewrite Hl, Hw, valid_recent, Ha by (done || lia).
  assert (Hlater : ∀ now', now ≤ now' →
    recent now' (l_window l) (recent now (l_window l) (l_times l)) =
    recent now' (l_window l) (l_times l)) by (intros; by apply recent_recent).
  destruct (Z.of_nat (length (recent now (l_window l) (l_times l))) <? l_limit l);
    simpl; (split; [done|]); split_and!; simpl; try done; try lia.
  intros now' Hn. by rewrite !recent_app, Hlater.
Qed.

Lemma step_refines T c sw s :
  call_ok c → (∀ t, call_time c = Some t → T ≤ t) → refines T sw s →
  ∃ sw', impl_step c sw = (Ok (spec_step c s).1, sw') ∧
    refines (default T (call_time c)) sw' (spec_step c s).2.
Proof.
  intros Hc HT Hr. destruct c as [q limit window|now q|now q]; simpl in *.
  - unfold SetLimit, mbind, M_bind, mret, M_ret. destruct (Z.ltb_spec limit 0); [lia|].
    eexists. split; [done|]. apply refines_insert; [done|]. split_and!; simpl; done || lia.
  - apply (refines_later _ now) in Hr; [|by apply HT]. pose proof (Hr q) as Hq.
    unfold Allow, mbind, M_bind, mret, M_ret.
    destruct (sw !! q) as [w|] eqn:Ew, (s !! q) as [l|] eqn:El; try done; [|by eexists].
    destruct (admit_agree now w l Hq) as [H1 H2]. rewrite H1. clear Hq H1.
    destruct (Z.of_nat (length (recent now (l_window l) (l_times l))) <? l_limit l);
      eexists; (split; [done|]); [by apply refines_insert|by eapply refines_insert_l].
  - apply (refines_later _ now) in Hr; [|by apply HT]. pose proof (Hr q) as Hq.
    unfold GetCount, mbind, M_bind, mret, M_ret.
    destruct (sw !! q) as [w|], (s !! q) as [l|]; try done; [|by eexists].
    destruct Hq as (Hl & Hw & Hrg & Ha). eexists.
    rewrite Hw, valid_recent, Ha by (done || lia). done.
Qed.

Lemma run_refines T calls sw s :
  Forall call_ok calls → StronglySorted Z.le (T :: times calls) → refines T sw s →
  ∃ sw', impl_run calls sw = (Ok (spec_run calls s).1, sw').
Proof.
  revert T sw s. induction calls as [|c calls IH]; intros T sw s Hc HT Hr; simpl; [by eexists|].
  apply Forall_cons in Hc as [Hc Hcs].
  apply StronglySorted_inv in HT as [Hsort HT].
  destruct (step_refines T c sw s) as (sw1 & E1 & Hr1); [done| |done|].
  { intros t Ht. unfold times in HT. simpl in HT. rewrite Ht in HT. by inversion HT. }
  destruct (IH (default T (call_time c)) sw1 (spec_step c s).2) as (sw2 & E2); [done| |done|].
  { unfold times in *. simpl in *. destruct (call_time c); simpl; [done|]. by constructor. }
  exists sw2. rewrite (bind_Ok _ _ _ _ _ E1), (bind_Ok _ _ _ _ _ E2). done.
Qed.

(** *** The bound *)

(** The times of the requests of a queue that were admitted. *)
Fixpoint granted (q : string) (calls : list call) (answers : list answer) : list Time :=
  match calls, answers with
  | CallAllow now q' :: calls, Allowed b :: answers =>
      (if b && bool_decide (q' = q) then [now] else []) ++ granted q calls answers
  | _ :: calls, _ :: answers => granted q calls answers
  | _, _ => []
  end.

(** The admissions in the window that begins after [t0]. *)
Definition within (t0 : Time) (window : Duration) (l : list Time) : list Time :=
  filter (λ t, t0 < t ≤ t0 + window) l.

Definition bounded (l : log) : Prop :=
  ∀ t0, Z.of_nat (length (within t0 (l_window l) (l_times l))) ≤ l_limit l.

Definition keeps_limit (q : string) (c : call) : Prop :=
  match c with CallSetLimit q' _ _ => q' ≠ q | _ => True end.

(** An admitted request keeps every window within the limit. *)
Lemma bounded_admit now l :
  Z.of_nat (length (recent now (l_window l) (l_times l))) < l_limit l → bounded l →
  bounded (mkLog (l_limit l) (l_window l) (l_times l ++ [now])).
Proof.
  intros Hlt Hb t0. specialize (Hb t0). simpl. unfold within in *.
  rewrite filter_app, length_app, filter_cons, filter_nil.
  case_decide as Hin; simpl; [|lia].
  assert (Hle : (length (filter (λ t, t0 < t ≤ t0 + l_window l)%Z (l_times l)) ≤
    length (recent now (l_window l) (l_times l)))%nat).
  { unfold recent. clear Hlt Hb. induction (l_times l) as [|t ts IH]; [done|].
    rewrite !filter_cons. repeat case_decide; simpl; lia. }
  lia.
Qed.

Lemma spec_run_granted q calls s l :
  Forall (keeps_limit q) calls → s !! q = Some l → bounded l →
  bounded (mkLog (l_limit l) (l_window l) (l_times l ++ granted q calls (spec_run calls s).1)).
Proof.
  revert s l. induction calls as [|c calls IH]; intros s l Hk Hl Hb; simpl.
  { rewrite app_nil_r. by destruct l. }
  apply Forall_cons in Hk as [Hk Hks]. destruct c as [q' limit window|now q'|now q']; simpl in *.
  - apply (IH (<[q' := mkLog limit window []]> s) l); [done| |done].
    by rewrite lookup_insert_ne by done.
  - destruct (s !! q') as [l'|] eqn:Hl'; simpl.
    + destruct (Z.ltb_spec (Z.of_nat (length (recent now (l_window l') (l_times l')))) (l_limit l'));
        simpl; [|by apply IH].
      destruct (decide (q' = q)) as [->|Hne].
      * rewrite bool_decide_true by done. simplify_eq. rewrite (assoc_L (++)).
        apply (IH _ (mkLog (l_limit l) (l_window l) (l_times l ++ [now]))); [done| |].
        -- apply lookup_insert_eq.
        -- by apply bounded_admit.
      * rewrite bool_decide_false by done. apply IH; [done| |done].
        by rewrite lookup_insert_ne by done.
    + rewrite bool_decide_false by congruence. by apply IH.
  - destruct (s !! q') as [l'|]; simpl; by apply IH.
Qed.

Lemma spec_run_app calls1 calls2 s :
  (spec_run (calls1 ++ calls2) s).1 =
    (spec_run calls1 s).1 ++ (spec_run calls2 (spec_run calls1 s).2).1.
Proof. revert s. induction calls1 as [|c calls1 IH]; intros s; simpl; [done|]. by rewrite IH. Qed.

Lemma length_spec_run calls s : length (spec_run calls s).1 = length calls.
Proof. revert s. induction calls as [|c calls IH]; intros s; simpl; [done|]. by rewrite IH. Qed.

(** From a limiter without limits. *)
Lemma run_from_start calls :
  Forall call_ok calls → StronglySorted Z.le (times calls) →
  ∃ sw, impl_run calls NewSlidingWindowRateLimiter = (Ok (spec_run calls ∅).1, sw).
Proof.
  intros Hc Ht. destruct (times calls) as [|t ts] eqn:E.
  - apply (run_refines 0); [done| |by intros q]. rewrite E. by repeat constructor.
  - apply (run_refines t); [done| |by intros q]. rewrite E. constructor; [done|].
    apply StronglySorted_inv in Ht as [_ Ht]. by constructor.
Qed.

(** C35. The sliding window limiter implements its specification: on every
    sequence of calls for any queues at times that do not decrease, it gives
    the answers of a limiter that keeps all admissions for ever, admits a
    request exactly when fewer than [limit] were admitted in the last [window],
    and counts these. What the limiter forgets never matters. *)
Theorem sliding_window_refines_log calls :
  Forall call_ok calls → StronglySorted Z.le (times calls) →
  ∃ sw, impl_run calls NewSlidingWindowRateLimiter = (Ok (spec_run calls ∅).1, sw).
Proof. apply run_from_start. Qed.

(** C36. In no interval of length [window] does the sliding window limiter
    admit more than [limit] requests of a queue, from the moment the limit is
    set and whatever the other queues do. *)
Theorem sliding_window_bound q limit window before calls t0 :
  let history := before ++ CallSetLimit q limit window :: calls in
  Forall call_ok history → StronglySorted Z.le (times history) →
  Forall (keeps_limit q) calls →
  ∃ answers sw, impl_run history NewSlidingWindowRateLimiter = (Ok answers, sw) ∧
    Z.of_nat (length (within t0 window
      (granted q calls (drop (length before + 1) answers)))) ≤ limit.
Proof.
  intros history Hc Ht Hk.
  destruct (run_from_start history Hc Ht) as [sw E].
  exists (spec_run history ∅).1, sw. split; [done|]. unfold history. rewrite spec_run_app.
  rewrite <- (length_spec_run before ∅), <- drop_drop, drop_app_length. simpl. rewrite drop_0.
  apply (spec_run_granted q calls _ (mkLog limit window [])); [done|apply lookup_insert_eq|].
  intros t1. simpl. apply Forall_app in Hc as [_ [[Hlim _] _]%Forall_cons]. done.
Qed.

(** ** The token bucket *)

Module Bucket.
Import TokenBucket.

(** [n] calls of [Allow] at the same time. *)
Fixpoint allows (n : nat) (now : Time) (q : string) (rl : gmap string tokenBucket) :
    list bool * gmap string tokenBucket :=
  match n with
  | O => ([], rl)
  | Datatypes.S n =>
      let r := Allow now q rl in
      let r' := allows n now q r.2 in (r.1 :: r'.1, r'.2)
  end.

Abbreviation flt n := (float64_of_int64 (Z.of_nat n)).

(** The bound of the bursts whose arithmetic is evaluated. *)
Definition max_burst : nat := 128.

(** The arithmetic of the bucket on small integers is exact. *)
Lemma small_floats k :
  (k ≤ max_burst)%nat →
  PrimFloat.add (flt k) PrimFloat.zero = flt k ∧
  PrimFloat.leb PrimFloat.one (flt k) = bool_decide (1 ≤ k)%nat ∧
  PrimFloat.sub (flt (Datatypes.S k)) PrimFloat.one = flt k.
Proof.
  intros Hk.
  assert (H : map (λ k, (PrimFloat.add (flt k) PrimFloat.zero, PrimFloat.leb PrimFloat.one (flt k),
      PrimFloat.sub (flt (Datatypes.S k)) PrimFloat.one)) (seq 0 129) =
    map (λ k, (flt k, bool_decide (1 ≤ k)%nat, flt k)) (seq 0 129)) by (vm_compute; reflexivity).
  apply (f_equal (λ l, l !! k)) in H. rewrite !list_lookup_fmap in H.
  rewrite lookup_seq_lt in H by (unfold max_burst in Hk; lia). simpl in H. by simplify_eq.
Qed.

Lemma small_floats_le k b :
  (k ≤ b ≤ max_burst)%nat → PrimFloat.ltb (flt b) (flt k) = false.
Proof.
  intros Hk.
  assert (H : forallb (λ b, forallb (λ k, negb (PrimFloat.ltb (flt b) (flt k))) (seq 0 (b + 1)))
    (seq 0 129) = true) by (vm_compute; reflexivity).
  rewrite forallb_forall in H. specialize (H b). rewrite forallb_forall in H.
  apply negb_true_iff, H; apply in_seq; unfold max_burst in *; lia.
Qed.

(** A call that no time has passed before. *)
Lemma take_token_now now rate k b :
  PrimFloat.mul PrimFloat.zero rate = PrimFloat.zero → (k ≤ b ≤ max_burst)%nat →
  take_token now (mkBucket (flt k) (flt b) rate now) =
    (bool_decide (1 ≤ k)%nat, mkBucket (flt (pred k)) (flt b) rate now).
Proof.
  intros Hrate Hk. unfold take_token, refill. simpl.
  replace (Seconds (Sub now now)) with PrimFloat.zero
    by (unfold Sub; rewrite Z.sub_diag; vm_compute; reflexivity).
  destruct (small_floats k) as (Hadd & Hleb & _); [lia|].
  rewrite Hrate, Hadd, small_floats_le, Hleb by done.
  destruct k as [|k]; [done|]. rewrite bool_decide_true by lia.
  destruct (small_floats k) as (_ & _ & Hsub); [lia|]. cbn [tb_tokens]. by rewrite Hsub.
Qed.

Lemma allows_bucket n now q rate k b rl :
  PrimFloat.mul PrimFloat.zero rate = PrimFloat.zero → (k ≤ b ≤ max_burst)%nat →
  rl !! q = Some (mkBucket (flt k) (flt b) rate now) →
  (allows (k + n) now q rl).1 = replicate k true ++ replicate n false.
Proof.
  intros Hrate. revert k rl.
  assert (Hempty : ∀ n rl, rl !! q = Some (mkBucket (flt 0) (flt b) rate now) →
    (0 ≤ b ≤ max_burst)%nat → (allows n now q rl).1 = replicate n false).
  { clear n. induction n as [|n IH]; intros rl Hl Hb; [done|]. simpl.
    unfold Allow. rewrite Hl, take_token_now by done. simpl. f_equal.
    apply IH; [apply lookup_insert_eq|done]. }
  induction k as [|k IH]; intros rl Hk Hl; simpl; [apply Hempty; [done|lia]|].
  unfold Allow. rewrite Hl, take_token_now by done. cbn [fst snd].
  rewrite bool_decide_true by lia. f_equal. apply IH; [lia|apply lookup_insert_eq].
Qed.

(** A token bucket with a burst of [burst] tokens (at most 128) admits
    exactly [burst] requests in the instant its limit is set and refuses every
    further one, for every refill rate whose product with 0 is 0, which is
    every rate that is neither negative, infinite nor NaN. *)
Theorem token_bucket_burst rl now q rate (burst extra : nat) :
  PrimFloat.mul PrimFloat.zero rate = PrimFloat.zero → (burst ≤ max_burst)%nat →
  (allows (burst + extra) now q (SetLimit now q rate (Z.of_nat burst) rl)).1 =
    replicate burst true ++ replicate extra false.
Proof.
  intros Hrate Hb. apply (allows_bucket _ _ _ rate burst burst); [done|lia|].
  apply lookup_insert_eq.
Qed.

(** An infinite rate: the second call in the same instant finds NaN tokens, and
    no later call is admitted, although the rate is unlimited. *)
Example infinite_rate_starves :
  let rl := SetLimit 0 "q" PrimFloat.infinity 10 NewRateLimiter in
  let rl := (Allow 0 "q" rl).2 in
  (Allow (100 * Second) "q" rl).1 = false.
Proof. vm_compute. reflexivity. Qed.
End Bucket.

(** ** Witnesses *)

Definition demo_history : list call :=
  [CallSetLimit "other" 1 Second; CallAllow 0 "q"; CallSetLimit "q" 2 Second].

Definition demo_calls : list call :=
  [CallAllow 0 "q"; CallAllow 1 "q"; CallAllow 2 "q"; CallAllow 3 "other"; CallGetCount 4 "q";
   CallAllow Second "q"].

Ltac sorted_times := vm_compute; repeat first [constructor | discriminate].

Lemma sliding_window_refines_log_witness :
  ∃ sw, impl_run (demo_history ++ demo_calls) NewSlidingWindowRateLimiter =
    (Ok (spec_run (demo_history ++ demo_calls) ∅).1, sw).
Proof.
  apply (sliding_window_refines_log (demo_history ++ demo_calls)).
  - repeat constructor; vm_compute; done.
  - sorted_times.
Defined.

Lemma sliding_window_bound_witness :
  ∃ answers sw, impl_run (take 2 demo_history ++ CallSetLimit "q" 2 Second :: demo_calls)
      NewSlidingWindowRateLimiter = (Ok answers, sw) ∧
    Z.of_nat (length (within 0 Second (granted "q" demo_calls
      (drop (length (take 2 demo_history) + 1) answers)))) ≤ 2.
Proof.
  apply (sliding_window_bound "q" 2 Second (take 2 demo_history) demo_calls 0).
  - repeat constructor; vm_compute; done.
  - sorted_times.
  - repeat constructor; done.
Defined.

Lemma token_bucket_burst_witness :
  (Bucket.allows (3 + 2) 7 "q"
    (TokenBucket.SetLimit 7 "q" (float64_of_int64 100) (Z.of_nat 3) ∅)).1 =
    replicate 3 true ++ replicate 2 false.
Proof.
  apply (Bucket.token_bucket_burst ∅ 7 "q" (float64_of_int64 100) 3 2).
  - vm_compute. reflexivity.
  - vm_compute. lia.
Defined.

Example demo_answers :
  (spec_run (demo_history ++ demo_calls) ∅).1 =
    [Done; Allowed true; Done; Allowed true; Allowed true; Allowed false; Allowed true; Count 2;
     Allowed true].
Proof. vm_compute. reflexivity. Qed.
