(* ===== verification/Tenancy.v ===== *)
(** * Tenants (internal/features/tenancy.go)

    The tenant manager keeps the tenants in a map, by identifier, and registers
    a default queue for each through the queue manager. The map holds pointers;
    a tenant that a caller got from [GetTenant] is read, not changed, in the
    program. The metadata of a tenant is an opaque map. *)

From S2P Require Import Prelude Errors GoMonad Job Storage World Manager.

Record ResourceLimit : Type := mkResourceLimit {
  rl_MaxJobs : Z;
  rl_MaxQueues : Z;
  rl_MaxWorkers : Z;
  rl_MaxConcurrency : Z;
  rl_RateLimit : PrimFloat.float;
  rl_StorageQuotaMB : Z;
}.

(** [t_ResourceLimit] is [None] for a nil pointer. *)
Record Tenant : Type := mkTenant {
  t_ID : string;
  t_Name : string;
  t_Queues : list string;
  t_ResourceLimit : option ResourceLimit;
  t_Metadata : gmap string string;
}.

Definition set_t_Queues (x : list string) (t : Tenant) : Tenant :=
  mkTenant (t_ID t) (t_Name t) x (t_ResourceLimit t) (t_Metadata t).
Definition set_t_ResourceLimit (x : option ResourceLimit) (t : Tenant) : Tenant :=
  mkTenant (t_ID t) (t_Name t) (t_Queues t) x (t_Metadata t).

(** The limits [CreateTenant] sets. *)
Definition default_limits : ResourceLimit := {|
  rl_MaxJobs := 10000;
  rl_MaxQueues := 10;
  rl_MaxWorkers := 100;
  rl_MaxConcurrency := 10;
  rl_RateLimit := float64_of_int64 100;
  rl_StorageQuotaMB := 1024;
|}.

(** The configuration of a tenant's default queue, the fields that are not set
    being zero. *)
Definition tenant_queue (id : string) (maxWorkers : Z) : QueueConfig := {|
  c_Name := id +:+ "_default";
  c_MaxWorkers := maxWorkers;
  c_MaxRetries := 3;
  c_RetryStrategy := RetryStrategyExponential;
  c_DefaultTimeout := 0;
  c_Timeout := 0;
  c_Priority := PriorityNormal;
  c_RateLimit := 0;
  c_Weight := 0;
  c_IsPaused := false;
  c_RetryDelay := 0;
  c_MaxRetryDelay := 0;
  c_DeadLetterQueue := "";
|}.

Record TenantManager (S : Type) : Type := mkTenantManager {
  tm_tenants : gmap string Tenant;
  tm_manager : World S;
}.
Arguments mkTenantManager {S}.
Arguments tm_tenants {S}.
Arguments tm_manager {S}.

Section tenancy.
Context {S : Type} `{Storage S} `{Runtime} `{MapRange}.

Definition set_tm_tenants (x : gmap string Tenant) (tm : TenantManager S) : TenantManager S :=
  mkTenantManager x (tm_manager tm).

Definition NewTenantManager (w : World S) : TenantManager S := mkTenantManager ∅ w.

(** A call of the queue manager. *)
Definition on_queues {A} (m : M (World S) A) : M (TenantManager S) A := λ tm,
  let r := m (tm_manager tm) in (r.1, mkTenantManager (tm_tenants tm) r.2).

(** An assignment to the tenant that the map points to. *)
Definition put_tenant (t : Tenant) : M (TenantManager S) unit :=
  modify (λ tm, set_tm_tenants (<[t_ID t := t]> (tm_tenants tm)) tm).

Definition with_limits (t : Tenant) : Tenant :=
  match t_ResourceLimit t with
  | None => set_t_ResourceLimit (Some default_limits) t
  | Some _ => t
  end.

(** [CreateTenant]: the tenant is in the map before its queue is registered. *)
Definition CreateTenant (tenant : Tenant) : M (TenantManager S) unit :=
  if bool_decide (t_ID tenant = "") then throw (Errorf "tenant ID is required")
  else
    tm ← get;
    match tm_tenants tm !! t_ID tenant with
    | Some _ => throw (Errorf ("tenant already exists: " +:+ t_ID tenant))
    | None =>
        let tenant := with_limits tenant in
        put_tenant tenant ;;
        let workers := from_option rl_MaxWorkers 0 (t_ResourceLimit tenant) in
        config ← wrap_err "failed to create default queue"
          (on_queues (RegisterQueue (tenant_queue (t_ID tenant) workers)));
        put_tenant (set_t_Queues [c_Name config] tenant)
    end.

Definition GetTenant (tenantID : string) : M (TenantManager S) Tenant := λ tm,
  match tm_tenants tm !! tenantID with
  | None => (Err (Errorf ("tenant not found: " +:+ tenantID)), tm)
  | Some tenant => (Ok tenant, tm)
  end.

Definition ListTenants : M (TenantManager S) (list Tenant) := λ tm,
  (Ok (range_values (tm_tenants tm)), tm).

(** The loop of [DeleteTenant]: the results of [DeleteQueue] are dropped. *)
Fixpoint delete_queues (queues : list string) : M (TenantManager S) unit :=
  match queues with
  | [] => mret tt
  | queueName :: rest => attempt (on_queues (DeleteQueue queueName)) ;; delete_queues rest
  end.

Definition DeleteTenant (tenantID : string) : M (TenantManager S) unit :=
  tenant ← GetTenant tenantID;
  delete_queues (t_Queues tenant) ;;
  modify (λ tm, set_tm_tenants (delete tenantID (tm_tenants tm)) tm).

(** The message of a limit, [fmt.Errorf("...: %d/%d", n, max)]. *)
Definition limit_exceeded (what : string) (n max : Z) : error :=
  Errorf (what +:+ ": " +:+ pretty n +:+ "/" +:+ pretty max).

Definition nil_dereference {A} : M (TenantManager S) A :=
  panic "invalid memory address or nil pointer dereference".

Definition CheckResourceLimit (tenantID : string) (jobCount : Z) : M (TenantManager S) unit :=
  tenant ← GetTenant tenantID;
  match t_ResourceLimit tenant with
  | None => nil_dereference
  | Some limit =>
      if rl_MaxJobs limit <=? jobCount
      then throw (limit_exceeded "tenant job limit exceeded" jobCount (rl_MaxJobs limit))
      else mret tt
  end.

Definition UpdateResourceLimit (tenantID : string) (limits : option ResourceLimit) :
    M (TenantManager S) unit :=
  tenant ← GetTenant tenantID;
  modify (λ tm, set_tm_tenants
    (<[tenantID := set_t_ResourceLimit limits tenant]> (tm_tenants tm)) tm).

Definition GetTenantQueues (tenantID : string) : M (TenantManager S) (list string) :=
  tenant ← GetTenant tenantID;
  mret (t_Queues tenant).

Definition AddQueueToTenant (tenantID queueName : string) : M (TenantManager S) unit :=
  tenant ← GetTenant tenantID;
  match t_ResourceLimit tenant with
  | None => nil_dereference
  | Some limit =>
      let n := Z.of_nat (length (t_Queues tenant)) in
      if rl_MaxQueues limit <=? n
      then throw (limit_exceeded "tenant queue limit exceeded" n (rl_MaxQueues limit))
      else modify (λ tm, set_tm_tenants
        (<[tenantID := set_t_Queues (t_Queues tenant ++ [queueName]) tenant]> (tm_tenants tm)) tm)
  end.

End tenancy.

(** [WithTenant] and [GetTenantFromContext]: the values of a context under the
    key of the package. *)
Definition WithTenant (ctx : list string) (tenantID : string) : list string := tenantID :: ctx.

Definition GetTenantFromContext (ctx : list string) : string * bool :=
  match ctx with
  | [] => ("", false)
  | tenantID :: _ => (tenantID, true)
  end.
