(* ===== verification/TenancyProps.v ===== *)
(** * Tenants: creation, deletion and quotas *)

From S2P Require Import Prelude Errors GoMonad Job Storage World Manager ManagerProps Tenancy.
From S2P Require MemoryStore MemoryJobs MemoryLaws.

(** ** Quotas, for any backend *)

Section quotas.
Context {S : Type} `{Storage S} `{Runtime} `{MapRange}.
Implicit Types (tm : TenantManager S).

(** The calls of a tenant manager. *)
Inductive tenant_call : Type :=
  | CallCreateTenant (t : Tenant)
  | CallDeleteTenant (id : string)
  | CallCheckResourceLimit (id : string) (n : Z)
  | CallUpdateResourceLimit (id : string) (limits : option ResourceLimit)
  | CallGetTenantQueues (id : string)
  | CallAddQueueToTenant (id queue : string).

Definition run_tenant_call tm (c : tenant_call) : TenantManager S :=
  match c with
  | CallCreateTenant t => (CreateTenant t tm).2
  | CallDeleteTenant id => (DeleteTenant id tm).2
  | CallCheckResourceLimit id n => (CheckResourceLimit id n tm).2
  | CallUpdateResourceLimit id l => (UpdateResourceLimit id l tm).2
  | CallGetTenantQueues id => (GetTenantQueues id tm).2
  | CallAddQueueToTenant id q => (AddQueueToTenant id q tm).2
  end.

(** The queue that a call adds to the tenant: that of an [AddQueueToTenant]
    which returns nil. *)
Definition accepts (id : string) tm (c : tenant_call) : list string :=
  match c with
  | CallAddQueueToTenant id' q =>
      if bool_decide (id' = id) then
        match (AddQueueToTenant id' q tm).1 with Ok _ => [q] | _ => [] end
      else []
  | _ => []
  end.

Fixpoint accepted (id : string) tm (cs : list tenant_call) : list string :=
  match cs with
  | [] => []
  | c :: cs => accepts id tm c ++ accepted id (run_tenant_call tm c) cs
  end.

Definition max_queues (limits : option ResourceLimit) : Z := from_option rl_MaxQueues 0 limits.

(** The limits that a call puts in force. *)
Definition new_limits (id : string) (c : tenant_call) : option (option ResourceLimit) :=
  match c with
  | CallUpdateResourceLimit id' l => if bool_decide (id' = id) then Some l else None
  | _ => None
  end.

(** The greatest of the limits in force during the calls. *)
Definition peak (id : string) (limits : option ResourceLimit) (cs : list tenant_call) : Z :=
  foldl (λ m c, from_option (λ l, Z.max m (max_queues l)) m (new_limits id c)) (max_queues limits) cs.

Definition same_tenants tm tm' : Prop := tm_tenants tm' = tm_tenants tm.

#[local] Instance same_tenants_preorder : PreOrder same_tenants.
Proof. unfold same_tenants. split; [by intros tm|]. intros tm1 tm2 tm3 ??. congruence. Qed.

Lemma on_queues_tenants {A} (m : M (World S) A) : preserves same_tenants (on_queues m).
Proof. by intros tm. Qed.

#[local] Hint Resolve on_queues_tenants : preserve.

Lemma delete_queues_tenants qs : preserves same_tenants (delete_queues qs).
Proof. induction qs as [|q qs IH]; simpl; solve_preserves. Qed.

Lemma with_limits_ID t : t_ID (with_limits t) = t_ID t.
Proof. unfold with_limits. by case_match. Qed.

(** Creating and deleting other tenants leaves a tenant alone. *)
Lemma CreateTenant_others id t t' tm :
  tm_tenants tm !! id = Some t → tm_tenants (CreateTenant t' tm).2 !! id = Some t.
Proof.
  intros Ht. unfold CreateTenant. case_bool_decide; [done|].
  unfold mbind at 1, M_bind at 1, get. destruct (tm_tenants tm !! t_ID t') eqn:E; [done|]. cbv zeta.
  pose proof (with_limits_ID t') as Hid. set (t1 := with_limits t') in *. clearbody t1.
  assert (Hne : t_ID t1 ≠ id) by congruence.
  unfold mbind, M_bind, put_tenant, modify, wrap_err, on_queues. simpl.
  destruct (RegisterQueue _ _) as [[c|e|p] w1]; simpl; by rewrite ?lookup_insert_ne.
Qed.

Lemma DeleteTenant_others id id' t tm :
  tm_tenants tm !! id = Some t → id' ≠ id → tm_tenants (DeleteTenant id' tm).2 !! id = Some t.
Proof.
  intros Ht Hne. unfold DeleteTenant, GetTenant, mbind, M_bind.
  destruct (tm_tenants tm !! id') as [t'|]; [|done].
  pose proof (delete_queues_tenants (t_Queues t') tm) as Hd. unfold same_tenants in Hd.
  destruct (delete_queues (t_Queues t') tm) as [[a|e|p] tm1]; simpl in *; rewrite ?lookup_delete_ne by done;
    congruence.
Qed.

(** One call: the queue it accepts is appended, below the limit in force. *)
Lemma tenant_call_result id t tm c :
  tm_tenants tm !! id = Some t → c ≠ CallDeleteTenant id →
  ∃ t', tm_tenants (run_tenant_call tm c) !! id = Some t' ∧
    t_Queues t' = t_Queues t ++ accepts id tm c ∧
    t_ResourceLimit t' = default (t_ResourceLimit t) (new_limits id c) ∧
    (accepts id tm c = [] ∨
      Z.of_nat (length (t_Queues t')) ≤ max_queues (t_ResourceLimit t)).
Proof.
  intros Ht Hc. destruct c as [t0|id'|id' n|id' l|id'|id' q]; simpl.
  - exists t. rewrite app_nil_r. split_and!; [by apply CreateTenant_others|done|done|by left].
  - exists t. rewrite app_nil_r. split_and!; [apply DeleteTenant_others; congruence|done|done|by left].
  - exists t. rewrite app_nil_r. split_and!; [|done|done|by left].
    unfold CheckResourceLimit, GetTenant, mbind, M_bind.
    destruct (tm_tenants tm !! id') as [t'|]; [|done]. destruct (t_ResourceLimit t'); [by case_match|done].
  - unfold UpdateResourceLimit, GetTenant, mbind, M_bind, modify. rewrite app_nil_r.
    case_bool_decide as E; [subst; rewrite Ht; simpl; rewrite lookup_insert_eq; eexists; by eauto|].
    exists t. split_and!; [|done|done|by left].
    destruct (tm_tenants tm !! id'); simpl; by rewrite ?lookup_insert_ne.
  - exists t. rewrite app_nil_r. split_and!; [|done|done|by left].
    unfold GetTenantQueues, GetTenant, mbind, M_bind. by destruct (tm_tenants tm !! id').
  - unfold AddQueueToTenant, GetTenant, mbind, M_bind, modify.
    case_bool_decide as E.
    + subst. rewrite Ht. destruct (t_ResourceLimit t) as [l|] eqn:El; simpl.
      * destruct (Z.leb_spec (rl_MaxQueues l) (Z.of_nat (length (t_Queues t)))); simpl.
        { exists t. rewrite app_nil_r. by eauto. }
        rewrite lookup_insert_eq. eexists. split_and!; [done..|]. right. simpl. rewrite length_app. simpl. lia.
      * exists t. rewrite app_nil_r. by eauto.
    + exists t. rewrite app_nil_r. split_and!; [|done|done|by left].
      destruct (tm_tenants tm !! id') as [t'|]; [|done]. destruct (t_ResourceLimit t'); [|done].
      case_match; simpl; by rewrite ?lookup_insert_ne.
Qed.

Lemma peak_le id n cs :
  n ≤ foldl (λ m c, from_option (λ l, Z.max m (max_queues l)) m (new_limits id c)) n cs.
Proof.
  revert n. induction cs as [|c cs IH]; intros n; simpl; [done|].
  etransitivity; [|apply IH]. destruct (new_limits id c); simpl; lia.
Qed.

Lemma peak_mono id n m cs :
  n ≤ m →
  foldl (λ m c, from_option (λ l, Z.max m (max_queues l)) m (new_limits id c)) n cs ≤
  foldl (λ m c, from_option (λ l, Z.max m (max_queues l)) m (new_limits id c)) m cs.
Proof.
  revert n m. induction cs as [|c cs IH]; intros n m Hnm; simpl; [done|].
  apply IH. destruct (new_limits id c); simpl; lia.
Qed.

(** C40. The quota of queues. From any state with the tenant, after any
    sequence of calls of the tenant manager that does not delete the tenant
    (creations and deletions of others, checks, changes of its limits to
    anything, nil and lower ones included, and additions of queues), whatever
    the backend answers, the tenant's queues are those it had followed by those
    whose [AddQueueToTenant] returned nil, in order, and their number is at most
    the greatest limit that was in force meanwhile, unless the tenant had more
    before: no addition ever takes a tenant beyond its limit. *)
Theorem tenants_within_quota id t tm (calls : list tenant_call) :
  tm_tenants tm !! id = Some t → CallDeleteTenant id ∉ calls →
  ∃ t', tm_tenants (foldl run_tenant_call tm calls) !! id = Some t' ∧
    t_Queues t' = t_Queues t ++ accepted id tm calls ∧
    Z.of_nat (length (t_Queues t')) ≤
      Z.max (Z.of_nat (length (t_Queues t))) (peak id (t_ResourceLimit t) calls).
Proof.
  unfold peak. revert t tm. induction calls as [|c calls IH]; intros t tm Ht Hdel; simpl.
  { exists t. rewrite app_nil_r. split_and!; [done..|lia]. }
  apply not_elem_of_cons in Hdel as [Hc Hdel].
  destruct (tenant_call_result id t tm c Ht (not_eq_sym Hc)) as (t1 & Ht1 & Hq1 & Hl1 & Hn1).
  destruct (IH t1 _ Ht1 Hdel) as (t' & Ht' & Hq' & Hn'). exists t'. split_and!; [done| |].
  { by rewrite Hq', Hq1, <- (assoc_L (++)). }
  etransitivity; [apply Hn'|]. apply Z.max_lub.
  - destruct Hn1 as [E|Hn1]; [rewrite Hq1, E, app_nil_r; lia|].
    etransitivity; [apply Hn1|]. etransitivity; [|apply Z.le_max_r].
    etransitivity; [|apply peak_le]. destruct (new_limits id c); simpl; lia.
  - etransitivity; [|apply Z.le_max_r]. apply peak_mono. rewrite Hl1.
    destruct (new_limits id c); simpl; lia.
Qed.
End quotas.

(** ** Creation and deletion, for a backend that keeps its contract *)

Section lifecycle.
Context {S : Type} `{L : StorageLaws S} `{R : Runtime} `{MR : MapRange}.
Implicit Types (w : World S) (v : View) (tm : TenantManager S).

(** The configurations that are left when the queues [qs] are deleted: those of
    other queues and of the queues that are not empty. *)
Definition remaining v (qs : list string) (m : gmap string QueueConfig) : gmap string QueueConfig :=
  filter (λ kc, ¬ (kc.1 ∈ qs ∧ v_queue v kc.1 = [])) m.

Lemma remaining_nil v m : remaining v [] m = m.
Proof. apply map_filter_id. intros k c _ [Hin _]. by apply elem_of_nil in Hin. Qed.

#[local] Instance remaining_proper : Proper ((≡) ==> (=) ==> (=) ==> (=)) remaining.
Proof.
  intros v v' Hv qs ? <- m ? <-. apply map_eq. intros k. unfold remaining.
  rewrite !map_lookup_filter. destruct (m !! k); simpl; [|done].
  assert (Hk : v_queue v' k = [] ↔ v_queue v k = []) by (rewrite <- !Permutation_nil_r; by rewrite Hv).
  repeat case_guard; naive_solver.
Qed.

(** One step of the loop. *)
Definition without v (q : string) (m : gmap string QueueConfig) : gmap string QueueConfig :=
  if decide (v_queue v q = []) then delete q m else m.

Lemma remaining_without v q qs m : remaining v qs (without v q m) = remaining v (q :: qs) m.
Proof.
  apply map_eq. intros k. unfold remaining, without. rewrite !map_lookup_filter.
  destruct (decide (v_queue v q = [])) as [Hq|Hq].
  - destruct (decide (k = q)) as [->|Hne].
    + rewrite lookup_delete_eq. destruct (m !! q); simpl; [|done].
      rewrite option_guard_False; [done|]. intros Hn. apply Hn. split; [apply list_elem_of_here|done].
    + rewrite lookup_delete_ne by done. destruct (m !! k); simpl; [|done].
      repeat case_guard; set_solver.
  - destruct (m !! k); simpl; [|done]. repeat case_guard; set_solver.
Qed.

Lemma wp_DeleteQueue q w Q :
  (v_queue (wview w) q = [] → ∀ w',
     then_ w (set_v_configs (delete q (v_configs (wview w))) (wview w))
       (delete q (wo_configs w)) w' → Q (Ok tt) w') →
  (v_queue (wview w) q ≠ [] → ∀ w', then_ w (wview w) (wo_configs w) w' →
     Q (Err (NewQueueError ("cannot delete non-empty queue: " +:+ q) "" None)) w') →
  wp (DeleteQueue q) w Q.
Proof.
  intros HE HN. unfold DeleteQueue. wp_step. wp_op (law_Length q (wo_store w)).
  intros w1 Hw1. cbv beta iota. change (view (wo_store w)) with (wview w) in *.
  destruct (Z.ltb_spec 0 (Z.of_nat (length (v_queue (wview w) q)))).
  - wp_step. apply HN; [|done]. intros E. by rewrite E in H0.
  - wp_step. wp_step. wp_op (law_DeleteQueueConfig q (wo_store w1)).
    intros w2 (Hv2 & Hc2 & Ht2). cbv beta iota. wp_step.
    assert (E : v_queue (wview w) q = []) by (apply nil_length_inv; lia).
    destruct Hw1 as (Hv1 & Hc1 & Ht1). apply HE; [done|].
    apply then_intro; simpl; [|by rewrite Hc2, Hc1|lia].
    change (wview w2 ≡ set_v_configs (delete q (v_configs (wview w))) (wview w)).
    rewrite Hv2. change (view (wo_store w1)) with (wview w1). by rewrite Hv1.
Qed.

(** The world after the loop of [DeleteTenant]. *)
Lemma delete_queues_result qs tm :
  let w := tm_manager tm in
  ∃ w', delete_queues qs tm = (Ok tt, mkTenantManager (tm_tenants tm) w') ∧
    then_ w (set_v_configs (remaining (wview w) qs (v_configs (wview w))) (wview w))
      (remaining (wview w) qs (wo_configs w)) w'.
Proof.
  revert tm. induction qs as [|q qs IH]; intros tm w.
  { exists w. split; [by destruct tm|]. rewrite !remaining_nil. by split_and!. }
  destruct (wp_elim (DeleteQueue q) w (λ r w1, is_Panic r = false ∧
    then_ w (set_v_configs (without (wview w) q (v_configs (wview w))) (wview w))
      (without (wview w) q (wo_configs w)) w1)) as (r & w1 & E & Hr & Hv1 & Hc1 & Ht1).
  { unfold without. apply wp_DeleteQueue; intros Hq w1 Hw1; (split; [done|]).
    - by rewrite !decide_True by done.
    - rewrite !decide_False by done. eapply then_equiv, Hw1. by destruct (wview w). }
  destruct (IH (mkTenantManager (tm_tenants tm) w1)) as (w' & E' & Hv' & Hc' & Ht').
  exists w'. split.
  { simpl. unfold mbind, M_bind, attempt, on_queues. fold w. rewrite E. simpl. by destruct r. }
  simpl in Hv', Hc', Ht'. apply then_intro; [rewrite Hv', Hv1|rewrite Hc', Hc1, Hv1|lia].
  - by rewrite <- remaining_without.
  - by rewrite <- remaining_without.
Qed.
(** A new tenant gets its own queue: the call succeeds, the tenant is
    stored with limits (the defaults when it has none) and with the one queue
    [<id>_default], which is registered in the backend and in the manager with
    the tenant's number of workers and the manager's defaults, and nothing else
    changes. *)
Theorem CreateTenant_new t tm :
  t_ID t ≠ "" → tm_tenants tm !! t_ID t = None →
  let limits := default default_limits (t_ResourceLimit t) in
  let queue := t_ID t +:+ "_default" in
  let config := set_defaults (tenant_queue (t_ID t) (rl_MaxWorkers limits)) in
  let t' := mkTenant (t_ID t) (t_Name t) [queue] (Some limits) (t_Metadata t) in
  let w := tm_manager tm in
  ∃ w', CreateTenant t tm = (Ok tt, mkTenantManager (<[t_ID t := t']> (tm_tenants tm)) w') ∧
    then_ w (set_v_configs (<[queue := config]> (v_configs (wview w))) (wview w))
      (<[queue := config]> (wo_configs w)) w'.
Proof.
  intros Hid Hnew limits queue config t' w.
  destruct (wp_elim (RegisterQueue (tenant_queue (t_ID t) (rl_MaxWorkers limits))) w
    (λ r w', r = Ok config ∧
      then_ w (set_v_configs (<[queue := config]> (v_configs (wview w))) (wview w))
        (<[queue := config]> (wo_configs w)) w')) as (r & w' & E & -> & Hw').
  { apply wp_RegisterQueue; [|by split]. simpl. by destruct (t_ID t). }
  exists w'. split; [|done]. unfold CreateTenant. rewrite bool_decide_false by done.
  unfold mbind at 1, M_bind at 1, get. rewrite Hnew. cbv zeta.
  assert (Hlim : t_ResourceLimit (with_limits t) = Some limits ∧
    t_ID (with_limits t) = t_ID t ∧ t_Name (with_limits t) = t_Name t ∧
    t_Metadata (with_limits t) = t_Metadata t).
  { unfold with_limits, limits. by destruct t as [id name qs [l|] md]. }
  destruct Hlim as (Hl & Hi & Hn & Hm). rewrite Hl, Hi.
  unfold mbind, M_bind, put_tenant, modify, wrap_err, on_queues. simpl.
  change (tm_manager tm) with w. rewrite E. simpl. rewrite Hi, insert_insert_eq.
  unfold set_t_Queues, set_tm_tenants. simpl. rewrite Hi, Hn, Hl, Hm.
  unfold config. rewrite set_defaults_name. done.
Qed.

(** Deleting a tenant removes the tenant and the configurations of those
    of its queues that are empty, in the backend and in the manager, and
    nothing else: a queue that still has jobs keeps its configuration and its
    jobs, and the call succeeds all the same. *)
Theorem DeleteTenant_result id t tm :
  tm_tenants tm !! id = Some t →
  let w := tm_manager tm in
  ∃ w', DeleteTenant id tm = (Ok tt, mkTenantManager (delete id (tm_tenants tm)) w') ∧
    then_ w (set_v_configs (remaining (wview w) (t_Queues t) (v_configs (wview w))) (wview w))
      (remaining (wview w) (t_Queues t) (wo_configs w)) w'.
Proof.
  intros Ht w. destruct (delete_queues_result (t_Queues t) tm) as (w' & E & Hw').
  exists w'. split; [|done]. unfold DeleteTenant, GetTenant, mbind, M_bind. by rewrite Ht, E.
Qed.
End lifecycle.

(** ** Witnesses *)

#[local] Existing Instance demo_runtime.
#[local] Existing Instance map_range_default.
#[local] Existing Instance MemoryLaws.MemoryStorage.
#[local] Existing Instance MemoryLaws.MemoryStorageLaws.

Definition demo_tenant : Tenant := mkTenant "acme" "Acme" [] None ∅.

(** The tenant's limit is lowered to 0 and removed: no further queue is added. *)
Definition demo_tenants : TenantManager MemoryStore.MemoryStore :=
  (CreateTenant demo_tenant (NewTenantManager demo_world)).2.

Definition demo_tenant_calls : list tenant_call :=
  [CallAddQueueToTenant "acme" "mail";
   CallUpdateResourceLimit "acme" (Some (mkResourceLimit 1 0 1 1 (float64_of_int64 0) 1));
   CallAddQueueToTenant "acme" "refused"; CallUpdateResourceLimit "acme" None;
   CallAddQueueToTenant "acme" "panics"; CallDeleteTenant "other"].

Definition demo_stored : Tenant :=
  mkTenant "acme" "Acme" ["acme_default"] (Some default_limits) ∅.

Lemma tenants_within_quota_witness :
  ∃ t', tm_tenants (foldl run_tenant_call demo_tenants demo_tenant_calls) !! "acme" = Some t' ∧
    t_Queues t' = ["acme_default"] ++ accepted "acme" demo_tenants demo_tenant_calls ∧
    Z.of_nat (length (t_Queues t')) ≤
      Z.max 1 (peak "acme" (Some default_limits) demo_tenant_calls).
Proof.
  apply (tenants_within_quota "acme" demo_stored demo_tenants demo_tenant_calls).
  - vm_compute. reflexivity.
  - unfold demo_tenant_calls. set_solver.
Defined.

Example demo_tenant_accepts : accepted "acme" demo_tenants demo_tenant_calls = ["mail"].
Proof. vm_compute. reflexivity. Qed.

Lemma CreateTenant_new_witness :
  let queue := "acme_default" in
  let config := set_defaults (tenant_queue "acme" 100) in
  let t' := mkTenant "acme" "Acme" [queue] (Some default_limits) ∅ in
  let tm := NewTenantManager demo_world in
  ∃ w', CreateTenant demo_tenant tm = (Ok tt, mkTenantManager (<["acme" := t']> (tm_tenants tm)) w') ∧
    then_ demo_world
      (set_v_configs (<[queue := config]> (v_configs (wview demo_world))) (wview demo_world))
      (<[queue := config]> (wo_configs demo_world)) w'.
Proof. apply (CreateTenant_new demo_tenant (NewTenantManager demo_world)); [done|reflexivity]. Defined.

Lemma DeleteTenant_result_witness :
  let t := set_t_Queues ["q"; "empty"] demo_tenant in
  let tm := mkTenantManager {[ "acme" := t ]} demo_world in
  ∃ w', DeleteTenant "acme" tm = (Ok tt, mkTenantManager (delete "acme" (tm_tenants tm)) w') ∧
    then_ demo_world
      (set_v_configs (remaining (wview demo_world) ["q"; "empty"] (v_configs (wview demo_world)))
        (wview demo_world))
      (remaining (wview demo_world) ["q"; "empty"] (wo_configs demo_world)) w'.
Proof.
  intros t tm. apply (DeleteTenant_result "acme" t tm). reflexivity.
Defined.

(** A limit of nil makes the next check panic. *)
Example nil_limit_panics :
  let tm := mkTenantManager {[ "acme" := demo_tenant ]} demo_world in
  is_Panic (CheckResourceLimit "acme" 1 (UpdateResourceLimit "acme" None tm).2).1 = true.
Proof. vm_compute. reflexivity. Qed.
