(* ===== verification/Batching.v ===== *)
(** * Batch processing (internal/features/batching.go)

    Jobs of a registered type are collected and handed to a batch handler when
    the batch is full or its timer fires. The state holds the batches (objects
    that [bp.batches] points to: registering a second handler for a type
    replaces the pointer and leaves the old object behind), the armed timers,
    the goroutines, and the readers-writer lock [bp.mu] as Go implements it: a
    writer announces itself, from then on no new reader enters, and it gets the
    lock once the readers have left. [RegisterBatchHandler] and [AddJob] take
    the lock for writing, [processBatch] for reading, and [Stop] holds it for
    reading while it calls [processBatch] for every type.

    A goroutine is in the middle of one of these calls. What happens under the
    lock of a batch ([b.mu]) or between [Lock] and [Unlock] of [bp.mu] cannot
    block and is one step; likewise [processBatch]'s own [RLock] and
    [RUnlock]. Handlers return, and do
    not call the batch processor; an error of [UpdateJob] is ignored, as in the
    code. *)

From S2P Require Import Prelude Errors GoMonad Job Storage World Manager.

(** A batch handler: its error, and the jobs as it leaves them. *)
Abbreviation processor := (list Job → option error * list Job) (only parsing).

(** A pointer to a batch: the type it was made for and the number of the object. *)
Abbreviation batch_ref := (string * nat)%type (only parsing).

(** [type batch struct]; [b_timer] is the number of the timer it points to. *)
Record batch : Type := mkBatch {
  b_jobs : list Job;
  b_timer : option nat;
  b_processor : processor;
}.

(** A call that needs [bp.mu] for writing. *)
Inductive writer : Type :=
  | Register (jobType : string) (p : processor)
  | Add (j : Job).

(** A goroutine.
    - [Locking]: a writer before [bp.mu.Lock]; [Announced]: one that waits for
      the readers to leave;
    - [Appending]: [AddJob] has its batch and is about to lock it;
    - [Stopping]: [Stop] before its [bp.mu.RLock];
    - [Waiting]: about to call [processBatch] for these types in turn;
      [Taking]: [processBatch] has its batch and is about to lock it;
      [Handling]: it runs the handler; [Updating]: it updates the jobs. [stop]
      tells the goroutine of [Stop], which holds the lock for reading. *)
Inductive task : Type :=
  | Locking (c : writer)
  | Announced (c : writer)
  | Appending (j : Job) (r : batch_ref)
  | Stopping
  | Waiting (types : list string) (stop : bool)
  | Taking (r : batch_ref) (rest : list string) (stop : bool)
  | Handling (p : processor) (jobs : list Job) (rest : list string) (stop : bool)
  | Updating (err : option error) (jobs : list Job) (rest : list string) (stop : bool).

Record BatchProcessor (S : Type) : Type := mkBatchProcessor {
  bp_manager : World S;
  bp_batchSize : Z;
  bp_batchTimeout : Duration;
  bp_batches : gmap string batch_ref;
  bp_objects : gmap batch_ref batch;  (* the batches that exist *)
  bp_stopped : bool;  (* stopCh is closed *)
  bp_timers : gmap nat string;  (* the armed timers and the types they process *)
  bp_next : nat;  (* the number of the next timer or batch *)
  bp_readers : nat;  (* how often [Stop] holds [bp.mu] for reading *)
  bp_tasks : list task;
}.
Arguments mkBatchProcessor {S}.
Arguments bp_manager {S}.
Arguments bp_batchSize {S}.
Arguments bp_batchTimeout {S}.
Arguments bp_batches {S}.
Arguments bp_objects {S}.
Arguments bp_stopped {S}.
Arguments bp_timers {S}.
Arguments bp_next {S}.
Arguments bp_readers {S}.
Arguments bp_tasks {S}.

(** What a step does. *)
Inductive event : Type :=
  | Registered (jobType : string)
  | Added (id : string)
  | Processed (id : string).

(** Does a writer wait for the readers? *)
Definition is_announced (t : task) : bool :=
  match t with Announced _ => true | _ => false end.
Definition writer_waits (ts : list task) : bool := existsb is_announced ts.

Section batching.
Context {S : Type} `{Storage S} `{Runtime} `{MapRange}.
Implicit Types (bp : BatchProcessor S) (r : batch_ref) (b : batch).

Definition set_bp_manager (x : World S) bp : BatchProcessor S :=
  mkBatchProcessor x (bp_batchSize bp) (bp_batchTimeout bp) (bp_batches bp) (bp_objects bp)
    (bp_stopped bp) (bp_timers bp) (bp_next bp) (bp_readers bp) (bp_tasks bp).
Definition set_bp_batches (x : gmap string batch_ref) bp : BatchProcessor S :=
  mkBatchProcessor (bp_manager bp) (bp_batchSize bp) (bp_batchTimeout bp) x (bp_objects bp)
    (bp_stopped bp) (bp_timers bp) (bp_next bp) (bp_readers bp) (bp_tasks bp).
Definition set_bp_objects (x : gmap batch_ref batch) bp : BatchProcessor S :=
  mkBatchProcessor (bp_manager bp) (bp_batchSize bp) (bp_batchTimeout bp) (bp_batches bp) x
    (bp_stopped bp) (bp_timers bp) (bp_next bp) (bp_readers bp) (bp_tasks bp).
Definition set_bp_stopped (x : bool) bp : BatchProcessor S :=
  mkBatchProcessor (bp_manager bp) (bp_batchSize bp) (bp_batchTimeout bp) (bp_batches bp)
    (bp_objects bp) x (bp_timers bp) (bp_next bp) (bp_readers bp) (bp_tasks bp).
Definition set_bp_timers (x : gmap nat string) bp : BatchProcessor S :=
  mkBatchProcessor (bp_manager bp) (bp_batchSize bp) (bp_batchTimeout bp) (bp_batches bp)
    (bp_objects bp) (bp_stopped bp) x (bp_next bp) (bp_readers bp) (bp_tasks bp).
Definition set_bp_next (x : nat) bp : BatchProcessor S :=
  mkBatchProcessor (bp_manager bp) (bp_batchSize bp) (bp_batchTimeout bp) (bp_batches bp)
    (bp_objects bp) (bp_stopped bp) (bp_timers bp) x (bp_readers bp) (bp_tasks bp).
Definition set_bp_readers (x : nat) bp : BatchProcessor S :=
  mkBatchProcessor (bp_manager bp) (bp_batchSize bp) (bp_batchTimeout bp) (bp_batches bp)
    (bp_objects bp) (bp_stopped bp) (bp_timers bp) (bp_next bp) x (bp_tasks bp).
Definition set_bp_tasks (x : list task) bp : BatchProcessor S :=
  mkBatchProcessor (bp_manager bp) (bp_batchSize bp) (bp_batchTimeout bp) (bp_batches bp)
    (bp_objects bp) (bp_stopped bp) (bp_timers bp) (bp_next bp) (bp_readers bp) x.

Definition NewBatchProcessor (w : World S) (batchSize : Z) (batchTimeout : Duration) :
    BatchProcessor S :=
  mkBatchProcessor w (if batchSize =? 0 then 10 else batchSize)
    (if batchTimeout =? 0 then 5 * Second else batchTimeout) ∅ ∅ false ∅ 0 0 [].

(** [RegisterBatchHandler], with the lock: a new batch replaces the one of the
    type. [make([]*job.Job, 0, batchSize)] panics for a negative capacity. *)
Definition RegisterBatchHandler (jobType : string) (p : processor) :
    M (BatchProcessor S) unit := λ bp,
  if bp_batchSize bp <? 0 then (Panic "makeslice: cap out of range", bp)
  else
    let r := (jobType, bp_next bp) in
    (Ok tt, set_bp_next (Datatypes.S (bp_next bp))
      (set_bp_batches (<[jobType := r]> (bp_batches bp))
        (set_bp_objects (<[r := mkBatch [] None p]> (bp_objects bp)) bp))).

(** [time.AfterFunc]: a new timer, armed. *)
Definition AfterFunc (jobType : string) bp : BatchProcessor S :=
  set_bp_next (Datatypes.S (bp_next bp))
    (set_bp_timers (<[bp_next bp := jobType]> (bp_timers bp)) bp).

(** [b.timer.Stop()], if there is a timer. *)
Definition stop_timer (timer : option nat) bp : BatchProcessor S :=
  match timer with
  | Some n => set_bp_timers (delete n (bp_timers bp)) bp
  | None => bp
  end.

(** [go f()]. *)
Definition spawn (t : task) bp : BatchProcessor S := set_bp_tasks (bp_tasks bp ++ [t]) bp.

(** [AddJob], with the lock of its batch: the first job of a batch arms a timer,
    and a full batch is processed at once. *)
Definition AddJob_append (j : Job) (r : batch_ref) bp : BatchProcessor S :=
  match bp_objects bp !! r with
  | None => bp
  | Some b =>
      let jobs := b_jobs b ++ [j] in
      let first := bool_decide (length jobs = 1%nat) in
      let timer := if first then Some (bp_next bp) else b_timer b in
      let bp := if first then AfterFunc (j_Type j) bp else bp in
      let bp := set_bp_objects (<[r := mkBatch jobs timer (b_processor b)]> (bp_objects bp)) bp in
      if bp_batchSize bp <=? Z.of_nat (length jobs)
      then spawn (Waiting [j_Type j] false) (stop_timer timer bp)
      else bp
  end.

(** A timer that fires runs [processBatch] in a goroutine of its own. *)
Definition fire (n : nat) bp : option (BatchProcessor S) :=
  match bp_timers bp !! n with
  | None => None
  | Some jobType =>
      Some (spawn (Waiting [jobType] false) (set_bp_timers (delete n (bp_timers bp)) bp))
  end.

(** The end of [processBatch]: one job of the batch is updated. *)
Definition with_outcome (err : option error) (j : Job) : Job :=
  match err with
  | Some e => set_j_Error (Error e) (set_j_Status StatusFailed j)
  | None => set_j_Status StatusSuccess j
  end.

(** What a writer does once it has the lock; [AddJob] goes on without it. *)
Definition locked_step (c : writer) bp : option task * BatchProcessor S * list event :=
  match c with
  | Register jobType p =>
      match RegisterBatchHandler jobType p bp with
      | (Ok _, bp') => (None, bp', [Registered jobType])
      | (_, bp') => (None, bp', [])
      end
  | Add j =>
      match bp_batches bp !! j_Type j with
      | None => (None, bp, [])
      | Some r => (Some (Appending j r), bp, [])
      end
  end.

(** A step of a goroutine, [None] if it has to wait. In the result the
    goroutine is [None] once it has ended, as also by the panic of
    [RegisterBatchHandler], whose deferred [Unlock] runs. *)
Definition task_step (t : task) bp : option (option task * BatchProcessor S * list event) :=
  match t with
  | Locking c => if writer_waits (bp_tasks bp) then None else Some (Some (Announced c), bp, [])
  | Announced c =>
      if bool_decide (bp_readers bp = 0%nat) then Some (locked_step c bp) else None
  | Appending j r => Some (None, AddJob_append j r bp, [Added (j_ID j)])
  | Stopping =>
      if writer_waits (bp_tasks bp) then None
      else Some (Some (Waiting (map_range (bp_batches bp)).*1 true),
                 set_bp_readers (Datatypes.S (bp_readers bp)) bp, [])
  | Waiting [] stop =>
      Some (None, if stop then set_bp_readers (pred (bp_readers bp)) bp else bp, [])
  | Waiting (jobType :: rest) stop =>
      if writer_waits (bp_tasks bp) then None
      else match bp_batches bp !! jobType with
           | None => Some (Some (Waiting rest stop), bp, [])
           | Some r => Some (Some (Taking r rest stop), bp, [])
           end
  | Taking r rest stop =>
      match bp_objects bp !! r with
      | None => Some (Some (Waiting rest stop), bp, [])
      | Some b =>
          if bool_decide (b_jobs b = []) then Some (Some (Waiting rest stop), bp, [])
          else Some (Some (Handling (b_processor b) (b_jobs b) rest stop),
                     set_bp_objects (<[r := mkBatch [] (b_timer b) (b_processor b)]>
                       (bp_objects bp)) bp, [])
      end
  | Handling p jobs rest stop => let x := p jobs in Some (Some (Updating x.1 x.2 rest stop), bp, [])
  | Updating err [] rest stop => Some (Some (Waiting rest stop), bp, [])
  | Updating err (j :: jobs) rest stop =>
      let x := UpdateJob (with_outcome err j) (bp_manager bp) in
      Some (Some (Updating err jobs rest stop), set_bp_manager x.2 bp, [Processed (j_ID j)])
  end.

(** A step of the [i]th goroutine. The goroutines that the step starts are at the end. *)
Definition run_task (i : nat) bp : option (BatchProcessor S * list event) :=
  match bp_tasks bp !! i with
  | None => None
  | Some t =>
      match task_step t bp with
      | None => None
      | Some (t', bp', evs) =>
          Some (set_bp_tasks (take i (bp_tasks bp') ++ option_list t' ++
                              drop (Datatypes.S i) (bp_tasks bp')) bp', evs)
      end
  end.

(** [Stop] until it asks for the lock; the second call closes a closed channel. *)
Definition Stop : M (BatchProcessor S) unit := λ bp,
  if bp_stopped bp then (Panic "close of closed channel", bp)
  else (Ok tt, spawn Stopping (set_bp_stopped true bp)).

(** A handler may rewrite the jobs of its batch, but keeps their identifiers. *)
Definition keeps_jobs (p : processor) : Prop := ∀ js, j_ID <$> (p js).2 = j_ID <$> js.

(** The steps that happen without a further call: timers and goroutines. *)
Inductive internal_step : BatchProcessor S → list event → BatchProcessor S → Prop :=
  | internal_fire bp n bp' : fire n bp = Some bp' → internal_step bp [] bp'
  | internal_task bp i bp' evs : run_task i bp = Some (bp', evs) → internal_step bp evs bp'.

(** The steps of a batch processor: a call of one of its methods, from any
    goroutine, or an internal step. *)
Inductive batch_step : BatchProcessor S → list event → BatchProcessor S → Prop :=
  | step_register bp jobType p :
      keeps_jobs p → batch_step bp [] (spawn (Locking (Register jobType p)) bp)
  | step_add bp j : batch_step bp [] (spawn (Locking (Add j)) bp)
  | step_stop bp bp' : Stop bp = (Ok tt, bp') → batch_step bp [] bp'
  | step_internal bp evs bp' : internal_step bp evs bp' → batch_step bp evs bp'.

(** Sequences of steps. *)
Inductive batch_steps : BatchProcessor S → list event → BatchProcessor S → Prop :=
  | steps_nil bp : batch_steps bp [] bp
  | steps_snoc bp evs bp' evs' bp'' :
      batch_steps bp evs bp' → batch_step bp' evs' bp'' → batch_steps bp (evs ++ evs') bp''.

(** [n] internal steps. *)
Inductive internal_run : nat → BatchProcessor S → list event → BatchProcessor S → Prop :=
  | run_nil bp : internal_run 0 bp [] bp
  | run_cons n bp evs bp' evs' bp'' :
      internal_step bp evs bp' → internal_run n bp' evs' bp'' →
      internal_run (Datatypes.S n) bp (evs ++ evs') bp''.

End batching.
