(* ===== verification/BatchingProps.v ===== *)
(** * Batch processing: every accepted job is processed once

    The jobs that a batch processor holds, its invariant and that every step
    keeps it, a bound on the steps of its goroutines, and what is left when none
    can go on: replaced batches, or [Stop]'s deadlock with a writer. *)

From S2P Require Import Prelude Errors GoMonad Job Storage World Manager ManagerProps Batching.
From S2P Require MemoryStore MemoryJobs MemoryLaws.

Section props.
Context {S : Type} `{Storage S} `{Runtime} `{MapRange}.
Implicit Types (bp : BatchProcessor S) (b : batch) (t : task) (r : batch_ref).

(** ** The jobs that a state holds *)

Definition ids (js : list Job) : list string := j_ID <$> js.

Definition object_ids (m : gmap batch_ref batch) : list string :=
  mjoin ((λ x, ids (b_jobs x.2)) <$> map_to_list m).

Definition task_ids (t : task) : list string :=
  match t with
  | Handling _ jobs _ _ | Updating _ jobs _ _ => ids jobs
  | _ => []
  end.

Definition tasks_ids (l : list task) : list string := mjoin (task_ids <$> l).

Definition held bp : list string := object_ids (bp_objects bp) ++ tasks_ids (bp_tasks bp).

(** The jobs of the batches that were replaced by a second registration. *)
Definition replaced bp : list string :=
  mjoin ((λ x, if bool_decide (bp_batches bp !! x.1.1 = Some x.1) then []
               else ids (b_jobs x.2)) <$> map_to_list (bp_objects bp)).

(** What a sequence of steps registered, accepted and finished. *)
Definition registered (evs : list event) : list string :=
  omap (λ e, match e with Registered ty => Some ty | _ => None end) evs.
Definition added (evs : list event) : list string :=
  omap (λ e, match e with Added id => Some id | _ => None end) evs.
Definition processed (evs : list event) : list string :=
  omap (λ e, match e with Processed id => Some id | _ => None end) evs.

Lemma registered_app evs evs' : registered (evs ++ evs') = registered evs ++ registered evs'.
Proof. apply omap_app. Qed.
Lemma added_app evs evs' : added (evs ++ evs') = added evs ++ added evs'.
Proof. apply omap_app. Qed.
Lemma processed_app evs evs' : processed (evs ++ evs') = processed evs ++ processed evs'.
Proof. apply omap_app. Qed.

Lemma object_ids_insert m r b :
  object_ids (<[r := b]> m) ≡ₚ ids (b_jobs b) ++ object_ids (delete r m).
Proof.
  unfold object_ids. rewrite <- insert_delete_eq.
  rewrite map_to_list_insert by apply lookup_delete_eq. done.
Qed.

Lemma object_ids_lookup m r b :
  m !! r = Some b → object_ids m ≡ₚ ids (b_jobs b) ++ object_ids (delete r m).
Proof. intros Hb. by rewrite <- object_ids_insert, insert_id. Qed.

Lemma tasks_ids_app l1 l2 : tasks_ids (l1 ++ l2) = tasks_ids l1 ++ tasks_ids l2.
Proof. unfold tasks_ids. by rewrite fmap_app, join_app. Qed.

#[local] Instance tasks_ids_proper : Proper ((≡ₚ) ==> (≡ₚ)) tasks_ids.
Proof. intros l1 l2 Hl. unfold tasks_ids. by rewrite Hl. Qed.

Lemma ids_nil js : ids js = [] ↔ js = [].
Proof. unfold ids. by destruct js. Qed.

(** ** The invariant *)

(** A goroutine that is going to process the batch. *)
Definition attends (t : task) r : Prop :=
  match t with
  | Waiting types _ => r.1 ∈ types
  | Taking r' rest _ => r = r' ∨ r.1 ∈ rest
  | Handling _ _ rest _ | Updating _ _ rest _ => r.1 ∈ rest
  | _ => False
  end.

(** Something will process the batch: a timer or a goroutine. *)
Definition attended bp r : Prop :=
  (∃ n, bp_timers bp !! n = Some r.1) ∨ (∃ t, t ∈ bp_tasks bp ∧ attends t r).

Definition task_ok bp t : Prop :=
  match t with
  | Locking (Register _ p) | Announced (Register _ p) | Handling p _ _ _ => keeps_jobs p
  | Appending j r => r.1 = j_Type j ∧ is_Some (bp_objects bp !! r)
  | _ => True
  end.

Record batch_inv bp : Prop := {
  (* no registered batch is stranded *)
  inv_attended ty r b : bp_batches bp !! ty = Some r → bp_objects bp !! r = Some b →
    b_jobs b ≠ [] → attended bp r;
  inv_refs ty r : bp_batches bp !! ty = Some r → r.1 = ty ∧ is_Some (bp_objects bp !! r);
  (* the timer of a batch is for its type *)
  inv_timer r b n ty : bp_objects bp !! r = Some b → b_timer b = Some n →
    bp_timers bp !! n = Some ty → ty = r.1;
  (* timers and batches are numbered below the next *)
  inv_fresh r b n : bp_objects bp !! r = Some b → b_timer b = Some n → (n < bp_next bp)%nat;
  inv_armed n ty : bp_timers bp !! n = Some ty → (n < bp_next bp)%nat;
  inv_alloc r b : bp_objects bp !! r = Some b → (r.2 < bp_next bp)%nat;
  (* the handlers keep the jobs *)
  inv_processors r b : bp_objects bp !! r = Some b → keeps_jobs (b_processor b);
  inv_tasks t : t ∈ bp_tasks bp → task_ok bp t;
}.

Lemma attended_mono bp bp' r :
  (∀ n, bp_timers bp !! n = Some r.1 → bp_timers bp' !! n = Some r.1) →
  bp_tasks bp ⊆ bp_tasks bp' → attended bp r → attended bp' r.
Proof. intros Ht Hk [[n Hn]|(t & Hin & Hty)]; [left|right]; eauto. Qed.

Lemma task_ok_mono bp bp' t :
  (∀ r, is_Some (bp_objects bp !! r) → is_Some (bp_objects bp' !! r)) → task_ok bp t → task_ok bp' t.
Proof. intros Ho. destruct t as [[]|[]| | | | | | ]; simpl; naive_solver. Qed.

(** *** Registering *)

Lemma inv_register bp ty p :
  batch_inv bp → keeps_jobs p → batch_inv (RegisterBatchHandler ty p bp).2.
Proof.
  intros [H1' H2' H3' H4' H5' H6' H7' H8'] Hp. unfold RegisterBatchHandler.
  destruct (bp_batchSize bp <? 0); [by split|].
  assert (Hnew : bp_objects bp !! (ty, bp_next bp) = None).
  { destruct (bp_objects bp !! _) eqn:E; [|done]. apply H6' in E. simpl in E. lia. }
  split; simpl.
  - intros ty' r b Hty Hb Hne. destruct (decide (ty = ty')) as [<-|Hn].
    + rewrite lookup_insert_eq in Hty. simplify_eq. rewrite lookup_insert_eq in Hb. by simplify_eq.
    + rewrite lookup_insert_ne in Hty by done. destruct (H2' _ _ Hty) as [E _].
      rewrite lookup_insert_ne in Hb by naive_solver. by eapply H1'.
  - intros ty' r Hty. destruct (decide (ty = ty')) as [<-|Hn].
    + rewrite lookup_insert_eq in Hty. simplify_eq. by rewrite lookup_insert_eq.
    + rewrite lookup_insert_ne in Hty by done. destruct (H2' _ _ Hty) as [E ?].
      by rewrite lookup_insert_ne by naive_solver.
  - intros r b n ty'. rewrite lookup_insert. case_decide; intros; simplify_eq/=; by eauto.
  - intros r b n. rewrite lookup_insert. case_decide; intros; simplify_eq/=.
    etrans; [by eapply H4'|lia].
  - intros n ty' Hn. etrans; [by eapply H5'|lia].
  - intros r b. rewrite lookup_insert. case_decide; intros; simplify_eq/=; [lia|].
    etrans; [by eapply H6'|lia].
  - intros r b. rewrite lookup_insert. case_decide; intros; simplify_eq/=; by eauto.
  - intros t Ht. eapply task_ok_mono, H8', Ht. simpl. intros r Hr. rewrite lookup_insert.
    by case_decide.
Qed.

(** *** Adding a job *)

(** The job is appended, and the first of a batch arms a timer. *)
Definition append bp (j : Job) r b : BatchProcessor S :=
  let first := bool_decide (length (b_jobs b ++ [j]) = 1%nat) in
  let timer := if first then Some (bp_next bp) else b_timer b in
  let bp := if first then AfterFunc (j_Type j) bp else bp in
  set_bp_objects (<[r := mkBatch (b_jobs b ++ [j]) timer (b_processor b)]> (bp_objects bp)) bp.

Lemma AddJob_append_eq bp j r b :
  bp_objects bp !! r = Some b →
  ∃ b', bp_objects (append bp j r b) !! r = Some b' ∧
    AddJob_append j r bp = if bp_batchSize bp <=? Z.of_nat (length (b_jobs b ++ [j]))
                  then spawn (Waiting [j_Type j] false) (stop_timer (b_timer b') (append bp j r b))
                  else append bp j r b.
Proof.
  intros Hb. eexists. split; [apply lookup_insert_eq|]. unfold AddJob_append. rewrite Hb. cbv zeta.
  unfold append. destruct (bool_decide _); done.
Qed.

Lemma inv_append bp j r b :
  batch_inv bp → r.1 = j_Type j → bp_objects bp !! r = Some b → batch_inv (append bp j r b).
Proof.
  intros [H1' H2' H3' H4' H5' H6' H7' H8'] Hr Hb. unfold append.
  assert (Hdom : ∀ x r', is_Some (bp_objects bp !! r') → is_Some (<[r := x]> (bp_objects bp) !! r'))
    by (intros x r' Hr'; rewrite lookup_insert; by case_decide).
  destruct (decide (length (b_jobs b ++ [j]) = 1%nat)) as [Hf|Hf].
  - rewrite bool_decide_true by done. split; simpl.
    + intros ty r' b' Hty Hb' Hne. destruct (decide (r.1 = r'.1)) as [E|E].
      { left. exists (bp_next bp). simpl. rewrite <- E, Hr. apply lookup_insert_eq. }
      rewrite lookup_insert_ne in Hb' by naive_solver.
      eapply attended_mono, (H1' ty r' b'); try done.
      simpl. intros n Hn. rewrite lookup_insert_ne; [done|]. specialize (H5' _ _ Hn). lia.
    + intros ty r' Hty. destruct (H2' _ _ Hty). eauto.
    + intros r' b' n ty' Hb' Hn. rewrite !lookup_insert. rewrite lookup_insert in Hb'.
      repeat case_decide; intros; simplify_eq/=; eauto.
      specialize (H4' _ _ _ Hb' Hn). lia.
    + intros r' b' n Hb' Hn. rewrite lookup_insert in Hb'.
      case_decide; simplify_eq/=; [lia|]. specialize (H4' _ _ _ Hb' Hn). lia.
    + intros n ty' Hn. rewrite lookup_insert in Hn. case_decide; simplify_eq/=; [lia|].
      specialize (H5' _ _ Hn). lia.
    + intros r' b' Hb'. rewrite lookup_insert in Hb'.
      case_decide; simplify_eq/=; [specialize (H6' _ _ Hb)|specialize (H6' _ _ Hb')]; lia.
    + intros r' b' Hb'. rewrite lookup_insert in Hb'. case_decide; simplify_eq/=; eauto.
    + intros t Ht. eapply task_ok_mono; [|by apply H8']. apply Hdom.
  - rewrite bool_decide_false by done.
    assert (Hne : b_jobs b ≠ []) by (intros E; by rewrite E in Hf).
    split; simpl; try done.
    all: try (intros r' b' *; rewrite lookup_insert; case_decide; intros; simplify_eq/=; by eauto).
    + intros ty r' Hty. destruct (H2' _ _ Hty). eauto.
    + intros t Ht. eapply task_ok_mono; [|by apply H8']. apply Hdom.
Qed.

Lemma stop_timer_frame o bp :
  bp_batches (stop_timer o bp) = bp_batches bp ∧ bp_objects (stop_timer o bp) = bp_objects bp ∧
  bp_next (stop_timer o bp) = bp_next bp ∧ bp_tasks (stop_timer o bp) = bp_tasks bp ∧
  bp_readers (stop_timer o bp) = bp_readers bp ∧
  ∀ n ty, bp_timers (stop_timer o bp) !! n = Some ty → bp_timers bp !! n = Some ty.
Proof.
  destruct o as [m|]; simpl; split_and!; try done. by intros n ty [_ ?]%lookup_delete_Some.
Qed.

Lemma inv_full bp r b :
  batch_inv bp → bp_objects bp !! r = Some b →
  batch_inv (spawn (Waiting [r.1] false) (stop_timer (b_timer b) bp)).
Proof.
  intros [H1' H2' H3' H4' H5' H6' H7' H8'] Hb.
  destruct (stop_timer_frame (b_timer b) bp) as (E1 & E2 & E3 & E4 & _ & Htm).
  split; simpl; rewrite ?E1, ?E2, ?E3, ?E4; eauto.
  - intros ty r' b' Hty Hb' Hne. unfold attended. simpl. rewrite E4.
    destruct (decide (r'.1 = r.1)) as [E|E].
    { right. exists (Waiting [r.1] false). split; [set_solver|]. simpl. set_solver. }
    destruct (H1' _ _ _ Hty Hb' Hne) as [[n Hn]|(t & Ht & Htt)]; [|right; exists t; set_solver].
    left. exists n. destruct (b_timer b) as [m|] eqn:Em; simpl; [|done].
    rewrite lookup_delete_ne; [done|]. intros ->. apply E. by eapply H3'.
  - intros t [Ht| ->%list_elem_of_singleton]%elem_of_app; [|done].
    eapply task_ok_mono; [|by apply H8']. simpl. by rewrite E2.
Qed.

Lemma inv_AddJob_append bp j r :
  batch_inv bp → r.1 = j_Type j → batch_inv (AddJob_append j r bp).
Proof.
  intros Hinv Hr. destruct (bp_objects bp !! r) as [b|] eqn:Hb.
  - destruct (AddJob_append_eq bp j r b Hb) as (b' & Hb' & ->).
    pose proof (inv_append _ _ _ _ Hinv Hr Hb). rewrite <- Hr. case_match; [by eapply inv_full|done].
  - unfold AddJob_append. by rewrite Hb.
Qed.

(** *** Goroutines *)

Lemma inv_spawn bp t : batch_inv bp → task_ok bp t → batch_inv (spawn t bp).
Proof.
  intros [H1' H2' H3' H4' H5' H6' H7' H8'] Ht. split; simpl; try done.
  - intros ty r b Hty Hb Hne. eapply attended_mono, (H1' ty r b); try done. simpl. set_solver.
  - intros u [Hu| ->%list_elem_of_singleton]%elem_of_app; [|done].
    eapply task_ok_mono; [|by apply H8']. done.
Qed.

Lemma inv_fire bp n bp' : batch_inv bp → fire n bp = Some bp' → batch_inv bp'.
Proof.
  intros [H1' H2' H3' H4' H5' H6' H7' H8'] Hf. unfold fire in Hf.
  destruct (bp_timers bp !! n) as [ty|] eqn:Hn; simplify_eq. split; simpl; try done.
  - intros ty' r b Hty Hb Hne. unfold attended. simpl.
    destruct (H1' _ _ _ Hty Hb Hne) as [[m Hm]|(t & Ht & Htt)]; [|right; exists t; set_solver].
    destruct (decide (n = m)) as [->|Hnm]; [right|left].
    + simplify_eq. exists (Waiting [r.1] false). split; simpl; set_solver.
    + exists m. by rewrite lookup_delete_ne.
  - intros r b m ty'' Hb Hm [_ ?]%lookup_delete_Some. by eapply H3'.
  - intros m ty' [_ ?]%lookup_delete_Some. by eapply H5'.
  - intros u [Hu| ->%list_elem_of_singleton]%elem_of_app; [|done].
    eapply task_ok_mono; [|by apply H8']. done.
Qed.

(** What a step does to the state, its goroutine still there. *)
Lemma inv_task_state bp t (t' : option task) bp' evs :
  batch_inv bp → t ∈ bp_tasks bp → task_step t bp = Some (t', bp', evs) → batch_inv bp'.
Proof.
  intros Hinv Ht E. pose proof (inv_tasks _ Hinv _ Ht) as Hok.
  destruct t as [c|[ty p|j]|j r| |[|ty rest] stop|r rest stop|p jobs rest stop|err [|j jobs] rest stop];
    simpl in E, Hok.
  - repeat case_match; by simplify_eq.
  - case_bool_decide; [|done]. simplify_eq.
    pose proof (inv_register bp ty p Hinv Hok) as Hr.
    destruct (RegisterBatchHandler ty p bp) as [[] bp1] eqn:E1; simplify_eq/=; done.
  - case_bool_decide; [|done]. simplify_eq. by case_match; simplify_eq.
  - simplify_eq. by apply inv_AddJob_append; [|apply Hok].
  - case_match; simplify_eq. destruct Hinv; by split.
  - simplify_eq. destruct Hinv, stop; by split.
  - repeat case_match; by simplify_eq.
  - destruct (bp_objects bp !! r) as [b|] eqn:Hb; [|by simplify_eq].
    case_bool_decide as Hj; simplify_eq; [done|].
    destruct Hinv as [H1' H2' H3' H4' H5' H6' H7' H8'].
    assert (Hdom : ∀ x r', is_Some (bp_objects bp !! r') → is_Some (<[r := x]> (bp_objects bp) !! r'))
      by (intros x r' Hr'; rewrite lookup_insert; by case_decide).
    split; simpl; try done.
    all: try (intros r' b' *; rewrite lookup_insert; case_decide; intros; simplify_eq/=; by eauto).
    + intros ty r' Hty. destruct (H2' _ _ Hty). eauto.
    + intros u Hu. eapply task_ok_mono; [|by apply H8']. apply Hdom.
  - by simplify_eq.
  - by simplify_eq.
  - simplify_eq. destruct Hinv; by split.
Qed.

(** Replacing a goroutine by what remains of it. *)
Lemma inv_replace bp t (t' : option task) l ts :
  batch_inv bp → bp_tasks bp ≡ₚ t :: l → ts ≡ₚ option_list t' ++ l →
  (∀ ty r b, bp_batches bp !! ty = Some r → bp_objects bp !! r = Some b → b_jobs b ≠ [] →
    attends t r → ∃ u, t' = Some u ∧ attends u r) →
  (∀ u, t' = Some u → task_ok bp u) →
  batch_inv (set_bp_tasks ts bp).
Proof.
  intros [H1' H2' H3' H4' H5' H6' H7' H8'] Htasks Hts Hatt Hok.
  assert (Hin : ∀ u, u ∈ ts ↔ u ∈ option_list t' ∨ u ∈ l) by (intros u; by rewrite Hts, elem_of_app).
  assert (Hin' : ∀ u, u ∈ bp_tasks bp ↔ u = t ∨ u ∈ l)
    by (intros u; by rewrite Htasks, elem_of_cons).
  split; simpl; try done.
  - intros ty r b Hty Hb Hne. destruct (H1' _ _ _ Hty Hb Hne) as [?|(u & Hu & Hur)]; [by left|].
    right. simpl. apply Hin' in Hu as [->|Hu].
    + destruct (Hatt _ _ _ Hty Hb Hne Hur) as (u' & -> & ?). exists u'. split; [|done].
      apply Hin. left. simpl. set_solver.
    + exists u. split; [|done]. apply Hin. by right.
  - intros u Hu%Hin. apply (task_ok_mono bp); [done|]. destruct Hu as [Hu|Hu].
    + destruct t'; [|by apply elem_of_nil in Hu]. apply list_elem_of_singleton in Hu as ->. by apply Hok.
    + apply H8', Hin'. by right.
Qed.

(** The goroutine that remains attends to all batches but the one it took. *)
Lemma task_step_attends bp t (t' : option task) bp' evs :
  batch_inv bp → t ∈ bp_tasks bp → task_step t bp = Some (t', bp', evs) →
  (∀ ty r b, bp_batches bp' !! ty = Some r → bp_objects bp' !! r = Some b → b_jobs b ≠ [] →
    attends t r → ∃ u, t' = Some u ∧ attends u r) ∧
  (∀ u, t' = Some u → task_ok bp' u).
Proof.
  intros Hinv Ht E. pose proof (inv_tasks _ Hinv _ Ht) as Hok. pose proof (inv_refs _ Hinv) as Href.
  destruct t as [c|[ty p|j]|j r| |[|ty rest] stop|r rest stop|p jobs rest stop|err [|j jobs] rest stop];
    simpl in E; repeat case_match; simplify_eq.
  all: split; [simpl; try done; try (intros; by set_solver)|intros u Hu; simplify_eq; try done].
  - by destruct (Href (j_Type j) p).
  - intros ty' r' b' Hr' Hb' Hne. intros [->|Hin]; [|by eexists]. simplify_eq.
    by case_bool_decide.
  - intros ty' r' b' Hr' Hb' Hne. intros [->|Hin]; [|by eexists].
    rewrite lookup_insert_eq in Hb'. by simplify_eq.
  - by eapply inv_processors.
Qed.

(** ** Steps and the jobs they hold *)

Lemma AddJob_append_tasks j r bp :
  ∃ new, bp_tasks (AddJob_append j r bp) = bp_tasks bp ++ new ∧
    bp_readers (AddJob_append j r bp) = bp_readers bp ∧ bp_batches (AddJob_append j r bp) = bp_batches bp ∧
    (new = [] ∨ new = [Waiting [j_Type j] false]).
Proof.
  destruct (bp_objects bp !! r) as [b|] eqn:Hb.
  - destruct (AddJob_append_eq bp j r b Hb) as (b' & _ & ->).
    assert (Ha : bp_tasks (append bp j r b) = bp_tasks bp ∧
      bp_readers (append bp j r b) = bp_readers bp ∧ bp_batches (append bp j r b) = bp_batches bp)
      by (unfold append; by destruct (bool_decide _)).
    destruct Ha as (E1 & E2 & E3).
    destruct (stop_timer_frame (b_timer b') (append bp j r b)) as (F1 & _ & _ & F2 & F3 & _).
    case_match.
    + exists [Waiting [j_Type j] false]. simpl. rewrite F1, F2, F3, E1, E2, E3. auto.
    + exists []. rewrite app_nil_r. auto.
  - unfold AddJob_append. rewrite Hb. exists []. rewrite app_nil_r. auto.
Qed.

(** A step keeps the other goroutines and may start one. *)
Lemma task_step_tasks bp t (t' : option task) bp' evs :
  task_step t bp = Some (t', bp', evs) → ∃ new, bp_tasks bp' = bp_tasks bp ++ new.
Proof.
  intros E. destruct t as [c|[ty p|j]|j r| |[|ty rest] stop|r rest stop|p jobs rest stop|err [|j jobs] rest stop];
    simpl in E.
  2: unfold RegisterBatchHandler in E.
  all: repeat case_match; simplify_eq.
  all: try by (exists []; rewrite app_nil_r).
  destruct (AddJob_append_tasks j r bp) as (new & -> & _). by exists new.
Qed.

Lemma run_task_inv i bp bp' evs :
  run_task i bp = Some (bp', evs) →
  ∃ t (t' : option task) bp1 l ts, t ∈ bp_tasks bp ∧ task_step t bp = Some (t', bp1, evs) ∧
    bp_tasks bp1 ≡ₚ t :: l ∧ bp' = set_bp_tasks ts bp1 ∧ ts ≡ₚ option_list t' ++ l.
Proof.
  unfold run_task. destruct (bp_tasks bp !! i) as [t|] eqn:Hi; [|done].
  destruct (task_step t bp) as [[[t' bp1] evs1]|] eqn:E; [|done]. intros Hr. simplify_eq.
  destruct (task_step_tasks _ _ _ _ _ E) as [new Hnew].
  assert (Hi' : bp_tasks bp1 !! i = Some t) by (rewrite Hnew; by apply lookup_app_l_Some).
  exists t, t', bp1, (take i (bp_tasks bp1) ++ drop (Datatypes.S i) (bp_tasks bp1)).
  eexists. split_and!; [by eapply list_elem_of_lookup_2|done| |done|by rewrite Permutation_app_swap_app].
  rewrite <- (take_drop_middle _ _ _ Hi') at 1. solve_Permutation.
Qed.

Lemma held_AddJob_append bp j r :
  is_Some (bp_objects bp !! r) → held (AddJob_append j r bp) ≡ₚ j_ID j :: held bp.
Proof.
  intros [b Hb]. destruct (AddJob_append_eq bp j r b Hb) as (b' & _ & ->).
  assert (Ha : held (append bp j r b) ≡ₚ j_ID j :: held bp).
  { unfold append, held. rewrite (object_ids_lookup _ _ _ Hb).
    destruct (bool_decide _); simpl; rewrite object_ids_insert; simpl; unfold ids;
      rewrite fmap_app; simpl; solve_Permutation. }
  rewrite <- Ha. case_match; [|done]. unfold held.
  destruct (stop_timer_frame (b_timer b') (append bp j r b)) as (_ & F1 & _ & F2 & _).
  simpl. by rewrite F1, F2, tasks_ids_app, app_nil_r.
Qed.

Lemma held_register bp ty p : batch_inv bp → held (RegisterBatchHandler ty p bp).2 ≡ₚ held bp.
Proof.
  intros Hinv. unfold RegisterBatchHandler. destruct (bp_batchSize bp <? 0); [done|].
  unfold held. simpl. rewrite object_ids_insert. simpl. rewrite delete_id; [done|].
  destruct (bp_objects bp !! _) eqn:E; [|done]. apply (inv_alloc _ Hinv) in E. simpl in E. lia.
Qed.

(** The jobs that a step takes out of the state, its goroutine still there. *)
Lemma held_task_step bp t (t' : option task) bp' evs :
  batch_inv bp → t ∈ bp_tasks bp → task_step t bp = Some (t', bp', evs) →
  added evs ++ task_ids t ++ held bp ≡ₚ
    processed evs ++ tasks_ids (option_list t') ++ held bp'.
Proof.
  intros Hinv Ht E. pose proof (inv_tasks _ Hinv _ Ht) as Hok.
  destruct t as [c|[ty p|j]|j r| |[|ty rest] stop|r rest stop|p jobs rest stop|err [|j jobs] rest stop];
    simpl in E, Hok.
  - repeat case_match; by simplify_eq/=.
  - case_bool_decide; [|done]. pose proof (held_register bp ty p Hinv) as Hr.
    destruct (RegisterBatchHandler ty p bp) as [[] bp1]; simplify_eq/=; done.
  - repeat case_match; by simplify_eq/=.
  - simplify_eq. simpl. by rewrite held_AddJob_append by apply Hok.
  - repeat case_match; by simplify_eq/=.
  - by simplify_eq; destruct stop.
  - repeat case_match; by simplify_eq/=.
  - destruct (bp_objects bp !! r) as [b|] eqn:Hb; [case_bool_decide|]; simplify_eq/=; [done| |done].
    unfold held, tasks_ids at 2. simpl.
    rewrite object_ids_insert, (object_ids_lookup _ _ _ Hb). simpl. solve_Permutation.
  - simplify_eq/=. unfold tasks_ids. simpl. unfold ids. by rewrite (Hok jobs), app_nil_r.
  - by simplify_eq/=.
  - simplify_eq/=. unfold tasks_ids. simpl. by rewrite app_nil_r.
Qed.

Lemma held_set_tasks bp l ts ts' :
  bp_tasks bp ≡ₚ l → ts ≡ₚ ts' →
  tasks_ids l ++ held (set_bp_tasks ts bp) ≡ₚ tasks_ids ts' ++ held bp.
Proof. intros Hl Hts. unfold held. simpl. rewrite Hl, Hts. solve_Permutation. Qed.

(** A step of a goroutine keeps the invariant and the jobs. *)
Lemma run_task_sound i bp bp' evs :
  batch_inv bp → run_task i bp = Some (bp', evs) →
  batch_inv bp' ∧ added evs ++ held bp ≡ₚ processed evs ++ held bp'.
Proof.
  intros Hinv Hr. destruct (run_task_inv _ _ _ _ Hr) as (t & t' & bp1 & l & ts & Ht & E & Hl & -> & Hts).
  destruct (task_step_attends _ _ _ _ _ Hinv Ht E) as [Hatt Hok]. split.
  - by eapply inv_replace; [eapply inv_task_state|..].
  - pose proof (held_task_step _ _ _ _ _ Hinv Ht E) as Hh. pose proof (held_set_tasks bp1 _ _ _ Hl Hts) as Hs.
    rewrite tasks_ids_app in Hs. change (tasks_ids (t :: l)) with (task_ids t ++ tasks_ids l) in Hs.
    apply (Permutation_app_inv_l (task_ids t)), (Permutation_app_inv_l (tasks_ids l)).
    trans (tasks_ids l ++ added evs ++ task_ids t ++ held bp); [solve_Permutation|].
    rewrite Hh. trans (processed evs ++ (tasks_ids (option_list t') ++ tasks_ids l) ++ held bp1);
      [solve_Permutation|]. rewrite <- Hs. solve_Permutation.
Qed.

Lemma held_spawn t bp : task_ids t = [] → held (spawn t bp) = held bp.
Proof.
  intros Ht. unfold held. simpl. rewrite tasks_ids_app. unfold tasks_ids at 2. simpl.
  by rewrite Ht, !app_nil_r.
Qed.

Lemma held_fire n bp bp' : fire n bp = Some bp' → held bp' = held bp.
Proof.
  unfold fire. destruct (bp_timers bp !! n) as [ty|]; [|done]. intros E. simplify_eq.
  by rewrite held_spawn.
Qed.

Lemma internal_step_sound bp evs bp' :
  batch_inv bp → internal_step bp evs bp' →
  batch_inv bp' ∧ added evs ++ held bp ≡ₚ processed evs ++ held bp'.
Proof.
  intros Hinv Hst. destruct Hst as [bp n bp' E|bp i bp' evs E]; [|by eapply run_task_sound].
  split; [by eapply inv_fire|]. by rewrite (held_fire _ _ _ E).
Qed.

(** One step keeps the invariant and the jobs. *)
Lemma batch_step_sound bp evs bp' :
  batch_inv bp → batch_step bp evs bp' →
  batch_inv bp' ∧ added evs ++ held bp ≡ₚ processed evs ++ held bp'.
Proof.
  intros Hinv Hst. destruct Hst as [bp ty p Hp|bp j|bp bp' E|bp evs bp' E].
  - split; [by apply inv_spawn|]. by rewrite held_spawn.
  - split; [by apply inv_spawn|]. by rewrite held_spawn.
  - unfold Stop in E. case_match; simplify_eq. split; [|by rewrite held_spawn].
    apply inv_spawn; [destruct Hinv; by split|done].
  - by apply internal_step_sound.
Qed.

Lemma new_inv w size timeout : batch_inv (NewBatchProcessor w size timeout).
Proof. split; simpl; intros; by simplify_map_eq || set_solver. Qed.

Lemma batch_steps_sound w size timeout evs bp :
  batch_steps (NewBatchProcessor w size timeout) evs bp →
  batch_inv bp ∧ added evs ≡ₚ processed evs ++ held bp.
Proof.
  intros Hst. remember (NewBatchProcessor w size timeout) as bp0 eqn:E0.
  induction Hst as [bp|bp evs bp' evs' bp'' Hst IH Hs]; subst.
  - split; [apply new_inv|done].
  - destruct (IH eq_refl) as [Hinv Hp]. destruct (batch_step_sound _ _ _ Hinv Hs) as [Hinv' Hp'].
    split; [done|]. rewrite added_app, processed_app, Hp.
    rewrite <- (assoc_L (++) (processed evs) (processed evs')), <- Hp'.
    solve_Permutation.
Qed.

(** ** The lock *)

(** The goroutine of [Stop] that holds the lock for reading. *)
Definition reads (t : task) : nat :=
  match t with
  | Waiting _ true | Taking _ _ true | Handling _ _ _ true | Updating _ _ _ true => 1
  | _ => 0
  end.

Definition readers_ok bp : Prop := bp_readers bp = sum_list_with reads (bp_tasks bp).

#[local] Instance sum_list_with_proper (f : task → nat) : Proper ((≡ₚ) ==> eq) (sum_list_with f).
Proof. intros l1 l2 Hl. induction Hl; simpl; lia. Qed.

Lemma task_step_readers bp t (t' : option task) bp' evs :
  task_step t bp = Some (t', bp', evs) → (reads t ≤ bp_readers bp)%nat →
  ∃ new, bp_tasks bp' = bp_tasks bp ++ new ∧ sum_list_with reads new = 0%nat ∧
    (bp_readers bp' + reads t = bp_readers bp + sum_list_with reads (option_list t'))%nat.
Proof.
  intros E Hle. destruct t as [c|[ty p|j]|j r| |[|ty rest] stop|r rest stop|p jobs rest stop|err [|j jobs] rest stop];
    simpl in E.
  2: unfold RegisterBatchHandler in E.
  4: { simplify_eq. destruct (AddJob_append_tasks j r bp) as (new & -> & -> & _ & [-> | ->]);
       eexists; (split; [done|]); split; simpl; lia. }
  all: repeat case_match; simplify_eq; exists []; rewrite app_nil_r; (split; [done|]); split; simpl in *; lia.
Qed.

Lemma run_task_readers i bp bp' evs : readers_ok bp → run_task i bp = Some (bp', evs) → readers_ok bp'.
Proof.
  intros Hok Hr. destruct (run_task_inv _ _ _ _ Hr) as (t & t' & bp1 & l & ts & Ht & E & Hl & -> & Hts).
  assert (Hle : (reads t ≤ bp_readers bp)%nat).
  { rewrite Hok. apply list_elem_of_split in Ht as (l1 & l2 & ->).
    rewrite sum_list_with_app. simpl. lia. }
  destruct (task_step_readers _ _ _ _ _ E Hle) as (new & Hnew & Hz & Hc).
  unfold readers_ok in *. simpl. rewrite Hts, sum_list_with_app.
  rewrite Hnew in Hl. apply (sum_list_with_proper reads) in Hl. rewrite sum_list_with_app in Hl.
  simpl in Hl. lia.
Qed.

Lemma internal_step_readers bp evs bp' : readers_ok bp → internal_step bp evs bp' → readers_ok bp'.
Proof.
  intros Hok Hs. destruct Hs as [bp n bp' E|bp i bp' evs E]; [|by eapply run_task_readers].
  unfold fire in E. case_match; simplify_eq. unfold readers_ok in *. simpl.
  rewrite sum_list_with_app, Hok. simpl. lia.
Qed.

Lemma batch_step_readers bp evs bp' : readers_ok bp → batch_step bp evs bp' → readers_ok bp'.
Proof.
  intros Hok Hs. destruct Hs as [bp ty p Hp|bp j|bp bp' E|bp evs bp' E];
    [| |unfold Stop in E; case_match; simplify_eq|by eapply internal_step_readers].
  all: unfold readers_ok in *; simpl; rewrite sum_list_with_app, Hok; simpl; lia.
Qed.

Lemma batch_steps_readers w size timeout evs bp :
  batch_steps (NewBatchProcessor w size timeout) evs bp → readers_ok bp.
Proof.
  intros Hst. remember (NewBatchProcessor w size timeout) as bp0 eqn:E0.
  induction Hst; subst; [done|]. eauto using batch_step_readers.
Qed.

(** [Stop] holds the lock for reading and asks for it again, in [processBatch],
    after a writer has announced itself. *)
Definition deadlocked bp : Prop :=
  ∃ c ty types, Announced c ∈ bp_tasks bp ∧ Waiting (ty :: types) true ∈ bp_tasks bp.

Lemma writer_waits_spec ts : writer_waits ts = true ↔ ∃ c, Announced c ∈ ts.
Proof.
  unfold writer_waits. rewrite existsb_exists. split.
  - intros (t & Hin & Ht). destruct t; try done. exists c. by apply list_elem_of_In.
  - intros (c & Hin). exists (Announced c). split; [by apply list_elem_of_In|done].
Qed.

(** A goroutine that has to wait stays while others take steps. *)
Lemma run_task_blocked i bp bp' evs u :
  u ∈ bp_tasks bp → task_step u bp = None → run_task i bp = Some (bp', evs) → u ∈ bp_tasks bp'.
Proof.
  intros Hu Hb Hr. destruct (run_task_inv _ _ _ _ Hr) as (t & t' & bp1 & l & ts & Ht & E & Hl & -> & Hts).
  destruct (task_step_tasks _ _ _ _ _ E) as [new Hnew]. simpl.
  assert (Hu' : u ∈ bp_tasks bp1) by (rewrite Hnew; set_solver).
  rewrite Hl in Hu'. apply elem_of_cons in Hu' as [->|Hu']; [congruence|].
  rewrite Hts. set_solver.
Qed.

Lemma deadlocked_blocks bp c ty types :
  readers_ok bp → Announced c ∈ bp_tasks bp → Waiting (ty :: types) true ∈ bp_tasks bp →
  task_step (Announced c) bp = None ∧ task_step (Waiting (ty :: types) true) bp = None.
Proof.
  intros Hok Hc Hw. simpl. rewrite (proj2 (writer_waits_spec _)) by eauto. split; [|done].
  rewrite bool_decide_false; [done|]. rewrite Hok.
  apply list_elem_of_split in Hw as (l1 & l2 & ->). rewrite sum_list_with_app. simpl. lia.
Qed.


(** ** Replaced batches *)

(** Every batch belongs to a registration, and is the registered one if its
    type was registered once. *)
Definition registry_ok (evs : list event) bp : Prop :=
  (∀ r b, bp_objects bp !! r = Some b → r.1 ∈ registered evs) ∧
  (NoDup (registered evs) → ∀ r b, bp_objects bp !! r = Some b → bp_batches bp !! r.1 = Some r).

(** What a step does to the batches: nothing, or it registers one. *)
Lemma task_step_registry bp t (t' : option task) bp' evs :
  task_step t bp = Some (t', bp', evs) →
  (registered evs = [] ∧ bp_batches bp' = bp_batches bp ∧ dom (bp_objects bp') = dom (bp_objects bp)) ∨
  ∃ ty n b, registered evs = [ty] ∧ bp_batches bp' = <[ty := (ty, n)]> (bp_batches bp) ∧
    bp_objects bp' = <[(ty, n) := b]> (bp_objects bp).
Proof.
  intros E. destruct t as [c|[ty p|j]|j r| |[|ty rest] stop|r rest stop|p jobs rest stop|err [|j jobs] rest stop];
    simpl in E.
  2: unfold RegisterBatchHandler in E.
  4: { simplify_eq. left. split; [done|]. unfold AddJob_append.
       destruct (bp_objects bp !! r) as [b|] eqn:Hb; [|done].
       assert (Hd : ∀ x, dom (<[r := x]> (bp_objects bp)) = dom (bp_objects bp))
         by (intros x; apply dom_insert_lookup_L; by eexists).
       destruct (bool_decide _), (_ <=? _); simpl; rewrite ?Hd; try done.
       destruct (b_timer b); simpl; by rewrite Hd. }
  all: repeat case_match; simplify_eq; try by left.
  - right. eexists _, _, _. done.
  - left. split_and!; try done. simpl. apply dom_insert_lookup_L. by eexists.
Qed.

Lemma registry_step evs bp evs' bp' :
  registry_ok evs bp → internal_step bp evs' bp' → registry_ok (evs ++ evs') bp'.
Proof.
  intros [Hreg Hone] Hs. destruct Hs as [bp n bp' E|bp i bp' evs' E].
  { unfold fire in E. case_match; simplify_eq. by rewrite app_nil_r. }
  destruct (run_task_inv _ _ _ _ E) as (t & t' & bp1 & l & ts & Ht & E' & Hl & -> & Hts).
  destruct (task_step_registry _ _ _ _ _ E') as [(Er & Eb & Eo)|(ty & n & b & Er & Eb & Eo)];
    unfold registry_ok; simpl; rewrite registered_app, Er, Eb.
  - rewrite app_nil_r. rewrite set_eq in Eo.
    assert (Ho : ∀ r b, bp_objects bp1 !! r = Some b → ∃ b', bp_objects bp !! r = Some b').
    { intros r b Hb. apply elem_of_dom, Eo, elem_of_dom. by eexists. }
    split; intros; edestruct Ho; eauto.
  - rewrite Eo. split.
    + intros r b' Hb. rewrite lookup_insert in Hb. case_decide; simplify_eq/=; set_solver.
    + intros (Hd & Hn & _)%NoDup_app r b' Hb. rewrite lookup_insert in Hb.
      case_decide; simplify_eq/=; [by rewrite lookup_insert_eq|].
      rewrite lookup_insert_ne; [by eapply Hone|]. intros ->. eapply Hn; [by eapply Hreg|set_solver].
Qed.

Lemma batch_steps_registry w size timeout evs bp :
  batch_steps (NewBatchProcessor w size timeout) evs bp → registry_ok evs bp.
Proof.
  intros Hst. remember (NewBatchProcessor w size timeout) as bp0 eqn:E0.
  induction Hst as [bp|bp evs bp' evs' bp'' Hst IH Hs]; subst; [by split|].
  specialize (IH eq_refl). destruct Hs as [bp' ty p Hp|bp' j|bp' bp'' E|bp' evs' bp'' E];
    [| |unfold Stop in E; case_match; simplify_eq|by eapply registry_step].
  all: by rewrite app_nil_r.
Qed.

Lemma replaced_nil evs bp : registry_ok evs bp → NoDup (registered evs) → replaced bp = [].
Proof.
  intros [_ Hone] Hn. unfold replaced. apply join_nil, Forall_fmap, Forall_forall.
  intros [r b] Hin%elem_of_map_to_list. simpl. by rewrite bool_decide_true by (by eapply Hone).
Qed.

(** ** Termination *)

(** Registrations that wait, and a bound on the types that [Stop] will find. *)
Definition registers (t : task) : nat :=
  match t with Locking (Register _ _) | Announced (Register _ _) => 1 | _ => 0 end.
Definition scope bp : nat := size (bp_batches bp) + sum_list_with registers (bp_tasks bp).

(** A bound on the number of internal steps. *)
Definition task_cost (k : nat) (t : task) : nat :=
  match t with
  | Locking (Register _ _) => 2
  | Announced (Register _ _) => 1
  | Locking (Add _) => 15
  | Announced (Add _) => 14
  | Appending _ _ => 13
  | Stopping => 2 + 4 * k
  | Waiting types _ => 1 + 4 * length types
  | Taking _ rest _ => 4 + 4 * length rest
  | Handling _ _ rest _ => 3 + 4 * length rest
  | Updating _ _ rest _ => 2 + 4 * length rest
  end.

Definition cost bp : nat :=
  length (held bp) + sum_list_with (task_cost (scope bp)) (bp_tasks bp) + 6 * size (bp_timers bp).

Lemma task_cost_mono k k' t : (k ≤ k')%nat → (task_cost k t ≤ task_cost k' t)%nat.
Proof. destruct t as [[]|[]| | | | | | ]; simpl; lia. Qed.

Lemma sum_list_with_le {A} (f g : A → nat) l :
  (∀ x, f x ≤ g x)%nat → (sum_list_with f l ≤ sum_list_with g l)%nat.
Proof. intros Hfg. induction l as [|x l IH]; simpl; [done|]. specialize (Hfg x). lia. Qed.

Lemma fire_cost n bp bp' : fire n bp = Some bp' → (cost bp' < cost bp)%nat.
Proof.
  intros E. pose proof (held_fire _ _ _ E) as Hh. unfold fire in E.
  destruct (bp_timers bp !! n) as [ty|] eqn:Hn; [|done]. simplify_eq.
  unfold cost, scope. rewrite Hh. cbn [bp_tasks bp_timers bp_batches spawn set_bp_tasks set_bp_timers].
  rewrite !sum_list_with_app. simpl. rewrite map_size_delete_Some, !Nat.add_0_r by done.
  assert (size (bp_timers bp) ≠ 0)%nat by (intros E%map_size_empty_inv; by rewrite E in Hn).
  lia.
Qed.

Lemma size_insert_le `{Countable K} {A} (m : gmap K A) i x : (size (<[i := x]> m) ≤ Datatypes.S (size m))%nat.
Proof. rewrite map_size_insert. case_match; simpl; lia. Qed.

Lemma stop_timer_size o bp : (size (bp_timers (stop_timer o bp)) ≤ size (bp_timers bp))%nat.
Proof. destruct o; simpl; [|done]. rewrite map_size_delete. case_match; simpl; lia. Qed.

(** What [AddJob] arms and starts. *)
Lemma AddJob_append_cost bp j r new :
  bp_tasks (AddJob_append j r bp) = bp_tasks bp ++ new →
  (sum_list_with (task_cost 0) new + 6 * size (bp_timers (AddJob_append j r bp)) ≤
    11 + 6 * size (bp_timers bp))%nat.
Proof.
  intros Hnew. destruct (AddJob_append_tasks j r bp) as (new' & Hnew' & _ & _ & Hn).
  rewrite Hnew in Hnew'. apply app_inv_head in Hnew' as <-.
  assert (sum_list_with (task_cost 0) new ≤ 5)%nat by (destruct Hn as [-> | ->]; simpl; lia).
  enough (size (bp_timers (AddJob_append j r bp)) ≤ Datatypes.S (size (bp_timers bp)))%nat by lia.
  destruct (bp_objects bp !! r) as [b|] eqn:Hb; [|unfold AddJob_append; rewrite Hb; lia].
  destruct (AddJob_append_eq bp j r b Hb) as (b' & _ & ->).
  assert (size (bp_timers (append bp j r b)) ≤ Datatypes.S (size (bp_timers bp)))%nat.
  { unfold append. destruct (bool_decide _); simpl; [apply size_insert_le|lia]. }
  case_match; [|done]. simpl. etrans; [apply stop_timer_size|done].
Qed.

(** The work that a step leaves is less than its goroutine's. *)
Lemma task_step_cost bp t (t' : option task) bp' evs new :
  batch_inv bp → t ∈ bp_tasks bp → task_step t bp = Some (t', bp', evs) →
  bp_tasks bp' = bp_tasks bp ++ new →
  (size (bp_batches bp') + sum_list_with registers (option_list t' ++ new) ≤
    size (bp_batches bp) + registers t)%nat ∧
  (length (added evs) + sum_list_with (task_cost (scope bp)) (option_list t' ++ new) +
    6 * size (bp_timers bp') < length (processed evs) + task_cost (scope bp) t + 6 * size (bp_timers bp))%nat.
Proof.
  intros Hinv Ht E Hnew.
  destruct t as [c|[ty p|j]|j r| |[|ty rest] stop|r rest stop|p jobs rest stop|err [|j jobs] rest stop];
    simpl in E.
  2: unfold RegisterBatchHandler in E.
  4: { simplify_eq. pose proof (AddJob_append_cost bp j r new Hnew) as Hc.
       destruct (AddJob_append_tasks j r bp) as (new' & Hnew' & _ & -> & Hn).
       rewrite Hnew in Hnew'. apply app_inv_head in Hnew' as <-.
       destruct Hn as [-> | ->]; simpl in *; lia. }
  all: repeat case_match; simplify_eq;
    apply (eq_trans (app_nil_r _)), app_inv_head in Hnew as <-; simpl; split; try lia.
  all: try (destruct c; simpl; lia).
  - pose proof (size_insert_le (bp_batches bp) ty (ty, bp_next bp)). lia.
  - rewrite length_fmap. rewrite (Permutation_length (map_range_perm _)), length_map_to_list.
    unfold scope. lia.
Qed.

Lemma run_task_cost i bp bp' evs :
  batch_inv bp → run_task i bp = Some (bp', evs) → (cost bp' < cost bp)%nat.
Proof.
  intros Hinv Hr. destruct (run_task_sound _ _ _ _ Hinv Hr) as [_ Hp].
  apply Permutation_length in Hp. rewrite !length_app in Hp.
  destruct (run_task_inv _ _ _ _ Hr) as (t & t' & bp1 & l & ts & Ht & E & Hl & -> & Hts).
  destruct (task_step_tasks _ _ _ _ _ E) as [new Hnew].
  destruct (task_step_cost _ _ _ _ _ _ Hinv Ht E Hnew) as [Hs Hc].
  apply elem_of_Permutation in Ht as [l0 Ht].
  assert (Hl' : l ≡ₚ l0 ++ new).
  { apply (Permutation_cons_inv (a := t)). rewrite <- Hl, Hnew, Ht. done. }
  assert (Hsum : ∀ f, sum_list_with f ts =
    (sum_list_with f (option_list t' ++ new) + sum_list_with f l0)%nat).
  { intros f. rewrite Hts, Hl', !sum_list_with_app. lia. }
  assert (Hsum0 : ∀ f, sum_list_with f (bp_tasks bp) = (f t + sum_list_with f l0)%nat).
  { intros f. by rewrite Ht. }
  assert (Hscope : (scope (set_bp_tasks ts bp1) ≤ scope bp)%nat).
  { unfold scope. simpl. rewrite Hsum, Hsum0. lia. }
  pose proof (sum_list_with_le _ _ ts (λ t, task_cost_mono _ _ t Hscope)) as Hle.
  rewrite (Hsum (task_cost (scope bp))) in Hle. unfold cost.
  rewrite (Hsum0 (task_cost (scope bp))). cbn [bp_tasks bp_timers set_bp_tasks]. lia.
Qed.

Lemma internal_step_cost bp evs bp' :
  batch_inv bp → internal_step bp evs bp' → (cost bp' < cost bp)%nat.
Proof.
  intros Hinv Hs. destruct Hs as [bp n bp1 E|bp i bp1 evs1 E]; [by eapply fire_cost|].
  by eapply run_task_cost.
Qed.

Lemma internal_run_steps w size timeout evs bp n evs' bp' :
  batch_steps (NewBatchProcessor w size timeout) evs bp → internal_run n bp evs' bp' →
  batch_steps (NewBatchProcessor w size timeout) (evs ++ evs') bp' ∧ (n + cost bp' ≤ cost bp)%nat.
Proof.
  intros Hst Hr. revert evs Hst. induction Hr as [bp|n bp evs1 bp1 evs' bp' Hs Hr IH]; intros evs Hst.
  - by rewrite app_nil_r.
  - destruct (batch_steps_sound _ _ _ _ _ Hst) as [Hinv _].
    pose proof (internal_step_cost _ _ _ Hinv Hs).
    destruct (IH (evs ++ evs1)) as [Hst' Hc].
    { eapply steps_snoc; [done|]. by apply step_internal. }
    rewrite (assoc_L (++)). split; [done|lia].
Qed.

(** ** When no step is left *)

Definition quiescent bp : Prop := ∀ evs bp', ¬ internal_step bp evs bp'.

Lemma quiescent_blocked bp t : quiescent bp → t ∈ bp_tasks bp → task_step t bp = None.
Proof.
  intros Hq [i Hi]%list_elem_of_lookup_1. destruct (task_step t bp) as [[[t' bp1] evs]|] eqn:E; [|done].
  exfalso. eapply Hq, (internal_task _ i). unfold run_task. by rewrite Hi, E.
Qed.

Lemma quiescent_tasks bp :
  readers_ok bp → quiescent bp → deadlocked bp ∨ bp_tasks bp = [].
Proof.
  intros Hok Hq. destruct (writer_waits (bp_tasks bp)) eqn:Hw.
  - left. apply writer_waits_spec in Hw as [c Hc].
    pose proof (quiescent_blocked _ _ Hq Hc) as Hb. simpl in Hb. case_bool_decide as Hr; [done|].
    assert (∃ t, t ∈ bp_tasks bp ∧ reads t ≠ 0%nat) as (t & Ht & Hrt).
    { rewrite Hok in Hr. clear -Hr. induction (bp_tasks bp) as [|t l IH]; [done|]. simpl in Hr.
      destruct (decide (reads t = 0%nat)) as [E|E]; [|exists t; set_solver].
      destruct IH as (u & ? & ?); [lia|]. exists u. set_solver. }
    pose proof (quiescent_blocked _ _ Hq Ht) as Hbt.
    destruct t as [|?|?| |[|ty types] []|r rest []|p jobs rest []|err [|j jobs] rest []]; simpl in Hbt, Hrt;
      try done; [by eexists _, _, _|by repeat case_match].
  - right. destruct (bp_tasks bp) as [|t l] eqn:Ht; [done|]. exfalso.
    assert (Hin : t ∈ bp_tasks bp) by (rewrite Ht; apply list_elem_of_here).
    pose proof (quiescent_blocked _ _ Hq Hin) as Hb. rewrite <- Ht in Hw.
    destruct t as [|?|?| |[|ty types] ?|r rest ?|p jobs rest ?|err [|j jobs] rest ?]; simpl in Hb;
      rewrite ?Hw in Hb; repeat case_match; try done.
    assert (writer_waits (bp_tasks bp) = true) by (apply writer_waits_spec; eauto). congruence.
Qed.

(** Without a deadlock the jobs that are still held are those of replaced batches. *)
Lemma quiescent_held bp :
  batch_inv bp → quiescent bp → bp_tasks bp = [] → bp_timers bp = ∅ ∧ held bp = replaced bp.
Proof.
  intros Hinv Hq Htasks.
  assert (Htimers : ∀ n, bp_timers bp !! n = None).
  { intros n. destruct (bp_timers bp !! n) as [ty|] eqn:Hn; [|done]. exfalso.
    eapply Hq, (internal_fire _ n). unfold fire. by rewrite Hn. }
  split; [by apply map_empty|].
  unfold held. rewrite Htasks, app_nil_r. unfold object_ids, replaced. f_equal.
  apply list_fmap_ext. intros i [r b] Hi%list_elem_of_lookup_2%elem_of_map_to_list. simpl.
  case_bool_decide as Hr; [|done]. apply ids_nil.
  destruct (decide (b_jobs b = [])) as [?|Hne]; [done|exfalso].
  destruct (inv_attended _ Hinv _ _ _ Hr Hi Hne) as [[n Hn]|(t & Ht & _)].
  - by rewrite Htimers in Hn.
  - rewrite Htasks in Ht. by apply elem_of_nil in Ht.
Qed.

(** C9. The fate of every job that a batch processor accepts. After any
    interleaving of calls of its methods from any number of goroutines
    (registrations, also of a type that has a handler, additions and stops),
    timers and the steps of [processBatch], with handlers that return, do not
    call the processor and keep the identifiers of their jobs, the accepted jobs are those
    processed and those still held in a batch or by a goroutine: none is lost
    from there and none processed twice. The timers and goroutines then make at
    most [cost] more steps whatever their order, and when none can go on, either
    [Stop] has deadlocked with a writer (it holds the read lock, asks for it
    again in [processBatch], and a call of [AddJob] or [RegisterBatchHandler]
    waits in between), or all goroutines have ended, no timer is armed, and every
    accepted job has been processed but those in batches that a second
    registration of their type replaced; with at most one registration per type
    that is every accepted job. *)
Theorem batch_jobs_processed_once w size timeout evs bp :
  batch_steps (NewBatchProcessor w size timeout) evs bp →
  added evs ≡ₚ processed evs ++ held bp ∧
  ∀ n evs' bp', internal_run n bp evs' bp' →
    (n ≤ cost bp)%nat ∧
    (quiescent bp' →
      deadlocked bp' ∨
      bp_tasks bp' = [] ∧ bp_timers bp' = ∅ ∧
      added (evs ++ evs') ≡ₚ processed (evs ++ evs') ++ replaced bp' ∧
      (NoDup (registered (evs ++ evs')) → added (evs ++ evs') ≡ₚ processed (evs ++ evs'))).
Proof.
  intros Hst. split; [by apply batch_steps_sound in Hst as [_ Hp]|].
  intros n evs' bp' Hr. destruct (internal_run_steps _ _ _ _ _ _ _ _ Hst Hr) as [Hst' Hc].
  split; [lia|]. intros Hq. destruct (batch_steps_sound _ _ _ _ _ Hst') as [Hinv Hp].
  destruct (quiescent_tasks bp') as [Hd|Ht]; [by eapply batch_steps_readers|done|by left|right].
  destruct (quiescent_held _ Hinv Hq Ht) as [Htm Hh]. rewrite Hh in Hp. split_and!; try done.
  intros Hn. rewrite (replaced_nil _ _ (batch_steps_registry _ _ _ _ _ Hst') Hn), app_nil_r in Hp. done.
Qed.

Lemma task_step_reading bp t (t' : option task) bp' evs :
  bp_readers bp ≠ 0%nat → task_step t bp = Some (t', bp', evs) → registered evs = [].
Proof.
  intros Hr E. destruct t as [c|[ty p|j]|j r| |[|ty rest] stop|r rest stop|p jobs rest stop|err [|j jobs] rest stop];
    simpl in E; rewrite ?bool_decide_false in E by done; repeat case_match; by simplify_eq.
Qed.

Lemma blocked_step bp c ty types evs bp' :
  readers_ok bp → Announced c ∈ bp_tasks bp → Waiting (ty :: types) true ∈ bp_tasks bp →
  batch_step bp evs bp' →
  Announced c ∈ bp_tasks bp' ∧ Waiting (ty :: types) true ∈ bp_tasks bp' ∧ registered evs = [].
Proof.
  intros Hok Hc Hw Hs. destruct (deadlocked_blocks _ _ _ _ Hok Hc Hw) as [Bc Bw].
  destruct Hs as [bp ty' p Hp|bp j|bp bp' E|bp evs bp' E]; simpl; [set_solver|set_solver| |].
  - unfold Stop in E. case_match; simplify_eq. simpl. set_solver.
  - destruct E as [bp n bp' E|bp i bp' evs E].
    + unfold fire in E. case_match; simplify_eq. simpl. set_solver.
    + split_and!; [eapply run_task_blocked; eauto..|].
      destruct (run_task_inv _ _ _ _ E) as (t & t' & bp1 & l & ts & Ht & E' & _).
      eapply task_step_reading, E'. simpl in Bc. by case_bool_decide.
Qed.

(** The deadlock of [Stop] is for ever. Once the goroutine of [Stop], which
    holds the read lock, is about to ask for it again while a call of [AddJob] or
    [RegisterBatchHandler] waits for the write lock, no further steps of
    goroutines or timers and no new calls resolve it: both still wait, and no
    handler is ever registered again. *)
Theorem batch_deadlock_is_permanent w size timeout evs bp c ty types evs' bp' :
  batch_steps (NewBatchProcessor w size timeout) evs bp →
  Announced c ∈ bp_tasks bp → Waiting (ty :: types) true ∈ bp_tasks bp →
  batch_steps bp evs' bp' →
  Announced c ∈ bp_tasks bp' ∧ Waiting (ty :: types) true ∈ bp_tasks bp' ∧ registered evs' = [].
Proof.
  intros Hst Hc Hw Hst'. apply batch_steps_readers in Hst as Hok. clear Hst.
  enough (Hall : readers_ok bp' ∧ Announced c ∈ bp_tasks bp' ∧
    Waiting (ty :: types) true ∈ bp_tasks bp' ∧ registered evs' = []) by apply Hall.
  induction Hst' as [bp|bp evs1 bp1 evs2 bp2 Hst' IH Hs]; [done|].
  destruct IH as (Hok1 & Hc1 & Hw1 & Hr1); [done..|]. rewrite registered_app, Hr1.
  split; [by eapply batch_step_readers|]. by eapply blocked_step.
Qed.
End props.

(** ** Witnesses *)

#[local] Existing Instance demo_runtime.
#[local] Existing Instance map_range_default.
#[local] Existing Instance MemoryLaws.MemoryStorage.

(** Every batch fails. *)
Definition demo_processor (jobs : list Job) : option error * list Job :=
  (Some (Errorf "no route to host"), jobs).

Definition demo_echo (id : string) : Job := MemoryJobs.demo_job id "q" 1.

(** Calls and goroutine steps, in order, that are possible. *)
Inductive demo_op : Type := DRegister | DAdd (id : string) | DStop | DTask (i : nat) | DFire (n : nat).

Definition demo_do (o : demo_op) (x : BatchProcessor MemoryStore.MemoryStore * list event) :
    option (BatchProcessor MemoryStore.MemoryStore * list event) :=
  let '(bp, evs) := x in
  match o with
  | DRegister => Some (spawn (Locking (Register "echo" demo_processor)) bp, evs ++ [])
  | DAdd id => Some (spawn (Locking (Add (demo_echo id))) bp, evs ++ [])
  | DStop => match Stop bp with (Ok tt, bp') => Some (bp', evs ++ []) | _ => None end
  | DTask i => '(bp', evs') ← run_task i bp; Some (bp', evs ++ evs')
  | DFire n => bp' ← fire n bp; Some (bp', evs ++ [])
  end.

Fixpoint demo_run (os : list demo_op) (x : BatchProcessor MemoryStore.MemoryStore * list event) :
    option (BatchProcessor MemoryStore.MemoryStore * list event) :=
  match os with [] => Some x | o :: os => y ← demo_do o x; demo_run os y end.

Definition demo_new : BatchProcessor MemoryStore.MemoryStore := NewBatchProcessor demo_world 2 0.

Lemma demo_run_steps os bp evs :
  demo_run os (demo_new, []) = Some (bp, evs) → batch_steps demo_new evs bp.
Proof.
  enough (Hgen : ∀ bp0 evs0, batch_steps demo_new evs0 bp0 →
    demo_run os (bp0, evs0) = Some (bp, evs) → batch_steps demo_new evs bp)
    by (apply Hgen, steps_nil).
  induction os as [|o os IH]; intros bp0 evs0 Hst E; [by simplify_eq/=|].
  cbn [demo_run] in E.
  destruct (demo_do o (bp0, evs0)) as [[bp1 evs1]|] eqn:Eo; [|done].
  refine (IH _ _ _ E). destruct o as [|id| |i|n]; simpl in Eo.
  - simplify_eq. eapply steps_snoc; [done|]. by apply step_register.
  - simplify_eq. eapply steps_snoc; [done|]. apply step_add.
  - destruct (Stop bp0) as [[[]| |] bp'] eqn:Es; simplify_eq. eapply steps_snoc; [done|]. by apply step_stop.
  - destruct (run_task i bp0) as [[bp' evs']|] eqn:Er; simplify_eq/=.
    eapply steps_snoc; [done|]. eapply step_internal, internal_task, Er.
  - destruct (fire n bp0) as [bp'|] eqn:Ef; simplify_eq/=.
    eapply steps_snoc; [done|]. eapply step_internal, internal_fire, Ef.
Qed.

(** A handler is registered, and two jobs are added: a batch of two. *)
Definition demo_full : list demo_op :=
  [DRegister; DTask 0; DTask 0; DAdd "1"; DAdd "2"; DTask 0; DTask 0; DTask 1; DTask 1; DTask 0; DTask 0].

(** The goroutine of the full batch takes both jobs and updates them. *)
Example demo_batch_runs :
  (λ x, (held x.1, size (bp_timers x.1), length (bp_tasks x.1), added x.2)) <$>
    demo_run demo_full (demo_new, []) = Some (["1"; "2"], 0%nat, 1%nat, ["1"; "2"]) ∧
  (λ x, (held x.1, length (bp_tasks x.1), processed x.2,
         j_Status <$> MemoryStore.ms_jobs (wo_store (bp_manager x.1)) !! "2")) <$>
    demo_run (demo_full ++ repeat (DTask 0) 7) (demo_new, []) =
    Some ([], 0%nat, ["1"; "2"], Some StatusFailed).
Proof. split; vm_compute; done. Qed.

(** Registering a second handler for a type drops the jobs of its batch: the
    timer that is still armed finds an empty one. *)
Example reregistering_drops_jobs :
  (λ x, (added x.2, processed x.2, replaced x.1, length (bp_tasks x.1), size (bp_timers x.1))) <$>
    demo_run ([DRegister; DTask 0; DTask 0; DAdd "1"; DTask 0; DTask 0; DTask 0;
               DRegister; DTask 0; DTask 0; DFire 1] ++ repeat (DTask 0) 3) (demo_new, []) =
    Some (["1"], [], ["1"], 0%nat, 0%nat).
Proof. vm_compute. reflexivity. Qed.

(** [Stop] and [AddJob]: the writer announces itself after [Stop] has taken the
    read lock and before [processBatch] asks for it. *)
Definition demo_deadlock : list demo_op :=
  [DRegister; DTask 0; DTask 0; DAdd "1"; DTask 0; DTask 0; DTask 0;
   DStop; DTask 0; DAdd "2"; DTask 1].

Example stop_deadlocks :
  (λ x, (added x.2, processed x.2, held x.1, run_task 0 x.1, run_task 1 x.1)) <$>
    demo_run demo_deadlock (demo_new, []) = Some (["1"], [], ["1"], None, None).
Proof. vm_compute. reflexivity. Qed.

Definition demo_end (os : list demo_op) : BatchProcessor MemoryStore.MemoryStore * list event :=
  default (demo_new, []) (demo_run os (demo_new, [])).

Lemma demo_end_steps os :
  is_Some (demo_run os (demo_new, [])) → batch_steps demo_new (demo_end os).2 (demo_end os).1.
Proof. intros [[bp evs] E]. unfold demo_end. rewrite E. by eapply demo_run_steps. Qed.

Lemma batch_jobs_processed_once_witness :
  let bp := (demo_end demo_full).1 in
  let evs := (demo_end demo_full).2 in
  added evs ≡ₚ processed evs ++ held bp ∧
  ∀ n evs' bp', internal_run n bp evs' bp' →
    (n ≤ cost bp)%nat ∧
    (quiescent bp' →
      deadlocked bp' ∨
      bp_tasks bp' = [] ∧ bp_timers bp' = ∅ ∧
      added (evs ++ evs') ≡ₚ processed (evs ++ evs') ++ replaced bp' ∧
      (NoDup (registered (evs ++ evs')) → added (evs ++ evs') ≡ₚ processed (evs ++ evs'))).
Proof.
  intros bp evs. apply (batch_jobs_processed_once demo_world 2 0 evs bp).
  apply demo_end_steps. vm_compute. by eexists.
Defined.

Lemma batch_deadlock_is_permanent_witness :
  let bp := (demo_end demo_deadlock).1 in
  let c := Add (demo_echo "2") in
  Announced c ∈ bp_tasks bp ∧ Waiting ["echo"] true ∈ bp_tasks bp ∧ registered [] = [].
Proof.
  intros bp c.
  apply (batch_deadlock_is_permanent demo_world 2 0 (demo_end demo_deadlock).2 bp c "echo" [] [] bp).
  - apply demo_end_steps. vm_compute. by eexists.
  - vm_compute. right. left.
  - vm_compute. left.
  - apply steps_nil.
Defined.
