(* ===== verification/StorageConfig.v ===== *)
(** * Storage configuration (internal/storage/common.go)

    The configuration records, the default configuration and the timeout of a
    storage operation. No code of the repository reads a [Config]; the backends
    are made from [RedisConfig] and from a type of the PostgreSQL backend. *)

From S2P Require Import Prelude.

(** [type RedisConfig struct]. *)
Record RedisConfig : Type := mkRedisConfig {
  rc_Addr : string;
  rc_Password : string;
  rc_DB : Z;
  rc_PoolSize : Z;
  rc_MinIdleConns : Z;
  rc_MaxRetries : Z;
}.

(** [type PostgresConfig struct]. *)
Record PostgresConfig : Type := mkPostgresConfig {
  pc_DSN : string;
  pc_MaxConnections : Z;
  pc_MaxIdleConnections : Z;
  pc_ConnectionLifetime : Duration;
}.

(** [type Config struct]. *)
Record Config : Type := mkConfig {
  sc_Type : string;
  sc_Redis : option RedisConfig;
  sc_Postgres : option PostgresConfig;
  sc_MaxRetries : Z;
  sc_OperationTimeout : Duration;
}.

Definition DefaultTimeout : Duration := 30 * Second.
Definition DefaultPoolSize : Z := 10.
Definition DefaultMaxRetries : Z := 3.

Definition DefaultConfig : Config := mkConfig "memory" None None DefaultMaxRetries DefaultTimeout.

(** The deadline that [WithContext] gives to [context.WithTimeout], which adds
    the timeout to the clock. *)
Definition WithContext (now : Time) (timeout : Duration) : Time :=
  now + (if timeout =? 0 then DefaultTimeout else timeout).
