(* ===== verification/Decimal.v ===== *)
(** * Decimal numerals

    What the program prints and reads of integers: [%d], [strconv.Atoi], the
    fields of a timestamp and the numbers of a JSON document. *)

From S2P Require Import Prelude.
From Stdlib Require Import Ascii.

(** ** Digits *)

Definition digit (d : Z) : ascii := ascii_of_N (Z.to_N (48 + d)).

Definition digit_of (c : ascii) : option Z :=
  let n := Z.of_N (N_of_ascii c) in
  if (48 <=? n) && (n <=? 57) then Some (n - 48) else None.

Lemma digit_of_digit d : 0 ≤ d < 10 → digit_of (digit d) = Some d.
Proof.
  intros Hd. assert (Hc : d = 0 ∨ d = 1 ∨ d = 2 ∨ d = 3 ∨ d = 4 ∨ d = 5 ∨ d = 6 ∨ d = 7 ∨ d = 8 ∨ d = 9)
    by lia.
  by repeat (destruct Hc as [->|Hc]; [reflexivity|]); subst.
Qed.

(** [s] does not begin with a digit. *)
Definition no_digit (s : string) : bool :=
  match s with String c _ => bool_decide (digit_of c = None) | EmptyString => true end.

(** ** Numerals of a fixed width *)

Fixpoint fixed (w : nat) (n : Z) : string :=
  match w with
  | O => ""
  | S w => String (digit (n / 10 ^ Z.of_nat w)) (fixed w (n mod 10 ^ Z.of_nat w))
  end.

Fixpoint read_fixed (w : nat) (s : string) : option (Z * string) :=
  match w, s with
  | O, _ => Some (0, s)
  | S w, String c s =>
      d ← digit_of c;
      '(n, rest) ← read_fixed w s;
      Some (d * 10 ^ Z.of_nat w + n, rest)
  | S _, EmptyString => None
  end.

Lemma fixed_S w n :
  fixed (S w) n = String (digit (n / 10 ^ Z.of_nat w)) (fixed w (n mod 10 ^ Z.of_nat w)).
Proof. done. Qed.

Lemma pow10_pos w : 0 < 10 ^ Z.of_nat w.
Proof. apply Z.pow_pos_nonneg; lia. Qed.

Lemma pow10_S w : 10 ^ Z.of_nat (S w) = 10 * 10 ^ Z.of_nat w.
Proof. rewrite Nat2Z.inj_succ, Z.pow_succ_r; lia. Qed.

(** The first digit and the rest of a number below [10^(w+1)]. *)
Lemma digit_range w n :
  0 ≤ n < 10 ^ Z.of_nat (S w) →
  0 ≤ n / 10 ^ Z.of_nat w < 10 ∧ 0 ≤ n mod 10 ^ Z.of_nat w < 10 ^ Z.of_nat w.
Proof.
  intros Hn. pose proof (pow10_pos w). rewrite pow10_S in Hn. split; [split|].
  - apply Z.div_pos; lia.
  - apply Z.div_lt_upper_bound; lia.
  - by apply Z.mod_pos_bound.
Qed.

Lemma read_fixed_fixed w n r :
  0 ≤ n < 10 ^ Z.of_nat w → read_fixed w (fixed w n +:+ r) = Some (n, r).
Proof.
  revert n. induction w as [|w IH]; intros n Hn; simpl.
  { f_equal. f_equal. simpl in Hn. lia. }
  destruct (digit_range w n Hn) as [Hd Hm]. rewrite digit_of_digit by done. simpl.
  rewrite IH by done. simpl. f_equal. f_equal. pose proof (pow10_pos w).
  rewrite (Z.div_mod n (10 ^ Z.of_nat w)) at 3; lia.
Qed.

(** ** Numerals of any width *)

Fixpoint read_digits (acc : Z) (s : string) : Z * string :=
  match s with
  | String c s' =>
      match digit_of c with
      | Some d => read_digits (acc * 10 + d) s'
      | None => (acc, s)
      end
  | EmptyString => (acc, s)
  end.

Lemma read_digits_fixed acc w n r :
  0 ≤ n < 10 ^ Z.of_nat w →
  read_digits acc (fixed w n +:+ r) = read_digits (acc * 10 ^ Z.of_nat w + n) r.
Proof.
  revert acc n. induction w as [|w IH]; intros acc n Hn; simpl.
  { simpl in Hn. f_equal. lia. }
  destruct (digit_range w n Hn) as [Hd Hm]. rewrite digit_of_digit by done. simpl.
  rewrite IH by done. f_equal. pose proof (pow10_pos w).
  rewrite (Z.div_mod n (10 ^ Z.of_nat w)) at 3 by lia.
  rewrite Nat2Z.inj_succ, Z.pow_succ_r by lia. lia.
Qed.

Lemma read_digits_stop acc s : no_digit s = true → read_digits acc s = (acc, s).
Proof. destruct s as [|c s]; simpl; [done|]. by intros ->%bool_decide_eq_true. Qed.

(** The number of digits of [n]. *)
Fixpoint count_digits (fuel : nat) (n : Z) : nat :=
  match fuel with
  | O => 1
  | S fuel => if n <? 10 then 1 else S (count_digits fuel (n / 10))
  end.

Definition width (n : Z) : nat := count_digits (Z.to_nat (Z.log2 n)) n.

Lemma count_digits_spec fuel n :
  0 ≤ n < 10 * 2 ^ Z.of_nat fuel → n < 10 ^ Z.of_nat (count_digits fuel n).
Proof.
  revert n. induction fuel as [|fuel IH]; intros n Hn; cbn [count_digits].
  { rewrite Nat2Z.inj_0 in Hn. change (10 ^ Z.of_nat 1) with 10. lia. }
  destruct (Z.ltb_spec n 10); [change (10 ^ Z.of_nat 1) with 10; lia|].
  rewrite pow10_S. rewrite Nat2Z.inj_succ, Z.pow_succ_r in Hn by lia.
  assert (Hd : n / 10 < 10 ^ Z.of_nat (count_digits fuel (n / 10))).
  { apply IH. split; [apply Z.div_pos; lia|]. apply Z.div_lt_upper_bound; lia. }
  pose proof (Z.div_mod n 10 ltac:(lia)). pose proof (Z.mod_pos_bound n 10 ltac:(lia)). lia.
Qed.

Lemma width_spec n : 0 ≤ n → n < 10 ^ Z.of_nat (width n).
Proof.
  intros Hn. apply count_digits_spec. split; [done|].
  destruct (decide (n = 0)) as [->|Hne]; [done|].
  pose proof (Z.log2_spec n ltac:(lia)) as [_ Hl].
  rewrite Z2Nat.id by apply Z.log2_nonneg. rewrite Z.pow_succ_r in Hl by apply Z.log2_nonneg. lia.
Qed.

Lemma width_pos n : (0 < width n)%nat.
Proof. unfold width. destruct (Z.to_nat (Z.log2 n)); simpl; [lia|]. case_match; lia. Qed.

(** A numeral has no zero in front of other digits. *)
Lemma count_digits_least fuel n : 0 < n → 10 ^ Z.of_nat (pred (count_digits fuel n)) ≤ n.
Proof.
  revert n. induction fuel as [|fuel IH]; intros n Hn; cbn [count_digits pred]; [simpl; lia|].
  destruct (Z.ltb_spec n 10); [simpl; lia|]. cbn [pred].
  specialize (IH (n / 10) ltac:(apply Z.div_str_pos; lia)).
  assert (Hc : (0 < count_digits fuel (n / 10))%nat) by (destruct fuel; simpl; [lia|case_match; lia]).
  destruct (count_digits fuel (n / 10)) as [|c]; [lia|]. cbn [pred] in IH. rewrite pow10_S.
  pose proof (Z.div_mod n 10 ltac:(lia)). pose proof (Z.mod_pos_bound n 10 ltac:(lia)). lia.
Qed.

Lemma fixed_width_head n : 0 < n → ∃ d s, fixed (width n) n = String (digit d) s ∧ 0 < d < 10.
Proof.
  intros Hn. pose proof (width_spec n ltac:(lia)) as Hu.
  pose proof (count_digits_least (Z.to_nat (Z.log2 n)) n Hn) as Hl. fold (width n) in Hl.
  pose proof (width_pos n). destruct (width n) as [|w]; [lia|]. simpl. eexists _, _. split; [done|].
  destruct (digit_range w n ltac:(lia)) as [Hd _]. split; [|lia]. cbn [pred] in Hl.
  pose proof (pow10_pos w). apply Z.div_str_pos. lia.
Qed.

(** [strconv.Itoa], and [%d]. *)
Definition itoa (n : Z) : string :=
  if n <? 0 then "-" +:+ fixed (width (- n)) (- n) else fixed (width n) n.

Lemma read_digits_width n r :
  0 ≤ n → no_digit r = true → read_digits 0 (fixed (width n) n +:+ r) = (n, r).
Proof.
  intros Hn Hr. rewrite read_digits_fixed by (split; [done|by apply width_spec]).
  rewrite read_digits_stop by done. f_equal.
Qed.

Lemma fixed_head w n : (0 < w)%nat → 0 ≤ n < 10 ^ Z.of_nat w →
  ∃ d s, fixed w n = String (digit d) s ∧ 0 ≤ d < 10.
Proof.
  intros Hw Hn. destruct w as [|w]; [lia|]. simpl.
  eexists _, _. split; [done|]. by apply digit_range.
Qed.

(** ** [strconv.Atoi]

    The value returned along with an error that the callers drop is 0 for a
    string that is no number, and the nearest [int] for one out of range. *)

Definition read_all (s : string) : option Z :=
  if bool_decide (s = "") then None
  else match read_digits 0 s with
       | (n, EmptyString) => Some n
       | _ => None
       end.

Definition clamp64 (z : Z) : Z := Z.max min_int64 (Z.min max_int64 z).

Definition Atoi (s : string) : Z :=
  match s with
  | String "-" s => clamp64 (- default 0 (read_all s))
  | String "+" s => clamp64 (default 0 (read_all s))
  | _ => clamp64 (default 0 (read_all s))
  end.

Lemma string_app_empty_r s : s +:+ "" = s.
Proof. induction s as [|c s IH]; [done|]. change (String c (s +:+ "") = String c s). by rewrite IH. Qed.

Lemma read_all_fixed n : 0 ≤ n → read_all (fixed (width n) n) = Some n.
Proof.
  intros Hn. unfold read_all.
  destruct (fixed_head (width n) n (width_pos n)) as (d & s & E & Hd); [by auto using width_spec|].
  rewrite bool_decide_false by (by rewrite E).
  by rewrite <- (string_app_empty_r (fixed _ _)), read_digits_width.
Qed.

Lemma Atoi_itoa z : int64 z → Atoi (itoa z) = z.
Proof.
  unfold int64. intros Hz. unfold itoa. destruct (Z.ltb_spec z 0).
  - change (clamp64 (- default 0 (read_all (fixed (width (- z)) (- z)))) = z).
    rewrite read_all_fixed by lia. simpl. unfold clamp64, min_int64, max_int64. lia.
  - destruct (fixed_head (width z) z (width_pos z)) as (d & s & E & Hd); [by auto using width_spec|].
    assert (Hs : Atoi (fixed (width z) z) = clamp64 (default 0 (read_all (fixed (width z) z)))).
    { rewrite E. assert (Hc : d = 0 ∨ d = 1 ∨ d = 2 ∨ d = 3 ∨ d = 4 ∨ d = 5 ∨ d = 6 ∨ d = 7 ∨ d = 8 ∨ d = 9)
        by lia.
      by repeat (destruct Hc as [->|Hc]; [reflexivity|]); subst. }
    rewrite Hs, read_all_fixed by done. simpl. unfold clamp64, min_int64, max_int64. lia.
Qed.
