(* ===== verification/Rfc3339.v ===== *)
(** * Timestamps in JSON documents

    [time.Time] marshals to RFC 3339 with nanoseconds. The model prints an
    instant in UTC and reads any offset. *)

From S2P Require Import Prelude Decimal GoTime.
From Stdlib Require Import Ascii.

(** ** Printing *)

Fixpoint trim_zeros (s : string) : string :=
  match s with
  | EmptyString => ""
  | String c s =>
      let t := trim_zeros s in
      if bool_decide (t = "" ∧ c = "0"%char) then "" else String c t
  end.

(** The fraction of a second: [.999999999] drops the zeros at its end. *)
Definition format_frac (ns : Z) : string :=
  if ns =? 0 then "" else String "." (trim_zeros (fixed 9 ns)).

Definition format_date (n : Z) : string :=
  let '(y, m, d) := civil n in
  fixed 4 y +:+ String "-" (fixed 2 m +:+ String "-" (fixed 2 d)).

Definition format_clock (c : Duration) : string :=
  fixed 2 (c / Hour) +:+ String ":" (fixed 2 (c mod Hour / Minute) +:+
    String ":" (fixed 2 (c mod Minute / Second) +:+ format_frac (c mod Second))).

Definition format_time (t : Time) : string :=
  format_date (t / Day) +:+ String "T" (format_clock (t mod Day) +:+ "Z").

Definition year_of (t : Time) : Z := (civil (t / Day)).1.1.

(** [MarshalJSON] refuses other years. *)
Definition printable (t : Time) : bool := (0 <=? year_of t) && (year_of t <=? 9999).

(** ** Reading *)

Definition expect (c : ascii) (s : string) : option string :=
  match s with
  | String c' s => if bool_decide (c' = c) then Some s else None
  | EmptyString => None
  end.

(** The digits after the point: the [w] first ones count. *)
Fixpoint read_frac (w : nat) (s : string) : Z * string :=
  match s with
  | EmptyString => (0, s)
  | String c s' =>
      match digit_of c with
      | None => (0, s)
      | Some d =>
          match w with
          | O => read_frac O s'
          | S w => let '(n, rest) := read_frac w s' in (d * 10 ^ Z.of_nat w + n, rest)
          end
      end
  end.

Definition parse_frac (s : string) : option (Z * string) :=
  match s with
  | String "." s => if no_digit s then None else Some (read_frac 9 s)
  | _ => Some (0, s)
  end.

(** [Z], or an offset of hours and minutes, and the end of the text. *)
Definition parse_offset (s : string) : option Duration :=
  match s with
  | String "Z" EmptyString => Some 0
  | String c s =>
      sign ← (if bool_decide (c = "+"%char) then Some 1
              else if bool_decide (c = "-"%char) then Some (-1) else None);
      '(h, s) ← read_fixed 2 s;
      s ← expect ":" s;
      '(m, s) ← read_fixed 2 s;
      if bool_decide (s = "") && (h <? 24) && (m <? 60)
      then Some (sign * (h * Hour + m * Minute)) else None
  | EmptyString => None
  end.

Definition parse_date (s : string) : option (Z * string) :=
  '(y, s) ← read_fixed 4 s;
  s ← expect "-" s;
  '(m, s) ← read_fixed 2 s;
  s ← expect "-" s;
  '(d, s) ← read_fixed 2 s;
  if valid_date y m d then Some (day_number y m d, s) else None.

Definition parse_clock (s : string) : option (Duration * string) :=
  '(h, s) ← read_fixed 2 s;
  s ← expect ":" s;
  '(mi, s) ← read_fixed 2 s;
  s ← expect ":" s;
  '(sec, s) ← read_fixed 2 s;
  '(ns, s) ← parse_frac s;
  if (h <? 24) && (mi <? 60) && (sec <? 60)
  then Some (h * Hour + mi * Minute + sec * Second + ns, s) else None.

Definition parse_time (s : string) : option Time :=
  '(n, s) ← parse_date s;
  s ← expect "T" s;
  '(c, s) ← parse_clock s;
  offset ← parse_offset s;
  Some (n * Day + c - offset).

(** ** Reading what was printed *)

Lemma string_app_assoc s1 s2 s3 : (s1 +:+ s2) +:+ s3 = s1 +:+ (s2 +:+ s3).
Proof.
  induction s1 as [|c s1 IH]; [done|].
  change (String c ((s1 +:+ s2) +:+ s3) = String c (s1 +:+ (s2 +:+ s3))). by rewrite IH.
Qed.

Lemma string_app_cons c s1 s2 : String c s1 +:+ s2 = String c (s1 +:+ s2).
Proof. done. Qed.

Lemma string_app_nil s : "" +:+ s = s.
Proof. done. Qed.

#[export] Hint Rewrite string_app_assoc string_app_cons string_app_nil : gorw.

Lemma trim_zeros_nil w n : 0 ≤ n < 10 ^ Z.of_nat w → trim_zeros (fixed w n) = "" → n = 0.
Proof.
  revert n. induction w as [|w IH]; intros n Hn Ht; cbn [fixed trim_zeros] in Ht; [simpl in Hn; lia|].
  destruct (digit_range w n Hn) as [Hd Hm]. case_bool_decide as Hz; [|done]. destruct Hz as [Hz Hc].
  specialize (IH _ Hm Hz). assert (n / 10 ^ Z.of_nat w = 0) as E.
  { apply (f_equal digit_of) in Hc. rewrite digit_of_digit in Hc by done. by injection Hc. }
  rewrite (Z.div_mod n (10 ^ Z.of_nat w)) by (pose proof (pow10_pos w); lia). lia.
Qed.

Lemma read_frac_stop w s : no_digit s = true → read_frac w s = (0, s).
Proof. destruct s as [|c s]; [by destruct w|]. simpl. intros ->%bool_decide_eq_true. by destruct w. Qed.

Lemma read_frac_trim w n r :
  0 ≤ n < 10 ^ Z.of_nat w → no_digit r = true →
  read_frac w (trim_zeros (fixed w n) +:+ r) = (n, r).
Proof.
  revert n. induction w as [|w IH]; intros n Hn Hr; cbn [fixed trim_zeros].
  { rewrite string_app_nil, read_frac_stop by done. simpl in Hn. f_equal. lia. }
  destruct (digit_range w n Hn) as [Hd Hm]. pose proof (pow10_pos w).
  specialize (IH _ Hm Hr). case_bool_decide as Hz.
  - destruct Hz as [Hz Hc]. rewrite string_app_nil, read_frac_stop by done.
    apply trim_zeros_nil in Hz; [|done]. f_equal. apply (f_equal digit_of) in Hc.
    rewrite digit_of_digit in Hc by done. injection Hc as Hc.
    rewrite (Z.div_mod n (10 ^ Z.of_nat w)) by lia. rewrite Hc. lia.
  - rewrite string_app_cons. simpl. rewrite digit_of_digit by done. rewrite IH. f_equal.
    rewrite (Z.div_mod n (10 ^ Z.of_nat w)) at 3 by lia. lia.
Qed.

#[global] Arguments fixed : simpl never.
#[global] Arguments read_fixed : simpl never.

(** Reads the field at the start of the text. *)
Ltac read_step := autorewrite with gorw; rewrite read_fixed_fixed by (simpl; lia); simpl.

Lemma nine_digits : 10 ^ Z.of_nat 9 = Second.
Proof. reflexivity. Qed.

Lemma parse_frac_format ns r :
  0 ≤ ns < Second → no_digit r = true → (∀ s, r ≠ String "." s) →
  parse_frac (format_frac ns +:+ r) = Some (ns, r).
Proof.
  intros Hns Hr Hp. unfold format_frac. destruct (Z.eqb_spec ns 0) as [->|Hne].
  - rewrite string_app_nil. unfold parse_frac. destruct r as [|c r]; [done|].
    destruct (decide (c = "."%char)) as [->|Hc]; [by destruct (Hp r)|].
    repeat (case_match; try done).
  - rewrite string_app_cons. cbn [parse_frac].
    assert (Hd : no_digit (trim_zeros (fixed 9 ns) +:+ r) = false).
    { destruct (trim_zeros (fixed 9 ns)) as [|c s] eqn:E.
      - by apply trim_zeros_nil in E; [|rewrite nine_digits].
      - rewrite string_app_cons. unfold no_digit. apply bool_decide_eq_false. intros Hc.
        pose proof (read_frac_trim 9 ns r ltac:(by rewrite nine_digits) Hr) as Hf.
        rewrite E, string_app_cons in Hf. cbn [read_frac] in Hf. rewrite Hc in Hf.
        apply Hne. by injection Hf. }
    rewrite Hd. f_equal. apply read_frac_trim; [by rewrite nine_digits|done].
Qed.

Lemma civil_bounds n :
  let '(y, m, d) := civil n in valid_date y m d = true ∧ day_number y m d = n ∧ 1 ≤ m ≤ 12 ∧ 1 ≤ d ≤ 31.
Proof.
  pose proof (civil_day_number n) as Hc. destruct (civil n) as [[y m] d]. destruct Hc as [Hv Hn].
  split_and!; try done; unfold valid_date, month_days in Hv; repeat case_match; lia.
Qed.

Lemma parse_date_format n r :
  0 ≤ (civil n).1.1 ≤ 9999 → parse_date (format_date n +:+ r) = Some (n, r).
Proof.
  unfold format_date, parse_date. pose proof (civil_bounds n) as Hc.
  destruct (civil n) as [[y m] d]. simpl. intros Hy. destruct Hc as (Hv & Hn & Hm & Hd).
  do 3 read_step. by rewrite Hv, Hn.
Qed.

Lemma clock_parts c :
  0 ≤ c < Day →
  0 ≤ c / Hour < 24 ∧ 0 ≤ c mod Hour / Minute < 60 ∧ 0 ≤ c mod Minute / Second < 60 ∧
  0 ≤ c mod Second < Second ∧
  c / Hour * Hour + c mod Hour / Minute * Minute + c mod Minute / Second * Second + c mod Second = c.
Proof.
  unfold Day, Hour, Minute, Second. intros Hc.
  pose proof (Z.div_mod c 3600000000000 ltac:(lia)). pose proof (Z.mod_pos_bound c 3600000000000 ltac:(lia)).
  pose proof (Z.div_mod (c mod 3600000000000) 60000000000 ltac:(lia)).
  pose proof (Z.mod_pos_bound (c mod 3600000000000) 60000000000 ltac:(lia)).
  assert (E : (c mod 3600000000000) mod 60000000000 = c mod 60000000000)
    by (apply Z.mod_mod_divide; by exists 60).
  pose proof (Z.div_mod (c mod 60000000000) 1000000000 ltac:(lia)).
  pose proof (Z.mod_pos_bound (c mod 60000000000) 1000000000 ltac:(lia)).
  assert (E2 : (c mod 60000000000) mod 1000000000 = c mod 1000000000)
    by (apply Z.mod_mod_divide; by exists 60).
  change (24 * (60 * (60 * 1000000000))) with 86400000000000 in *.
  change (60 * (60 * 1000000000)) with 3600000000000 in *. change (60 * 1000000000) with 60000000000 in *.
  rewrite E in *. rewrite E2 in *. split_and!; lia.
Qed.

Lemma parse_clock_format c r :
  0 ≤ c < Day → no_digit r = true → (∀ s, r ≠ String "." s) →
  parse_clock (format_clock c +:+ r) = Some (c, r).
Proof.
  intros Hc Hr Hp. destruct (clock_parts c Hc) as (Hh & Hm & Hs & Hns & E).
  unfold format_clock, parse_clock.
  do 3 read_step.
  rewrite parse_frac_format by done. simpl.
  rewrite (proj2 (Z.ltb_lt (c / Hour) 24)), (proj2 (Z.ltb_lt (c mod Hour / Minute) 60)),
    (proj2 (Z.ltb_lt (c mod Minute / Second) 60)) by lia. simpl. by rewrite E.
Qed.

(** An instant of a year that has four digits reads back as itself. *)
Lemma parse_format_time t : printable t = true → parse_time (format_time t) = Some t.
Proof.
  unfold printable, year_of. intros Hy. unfold parse_time, format_time.
  rewrite parse_date_format by lia. simpl.
  pose proof (Z.mod_pos_bound t Day ltac:(done)).
  rewrite parse_clock_format by done. simpl. f_equal. pose proof (Z.div_mod t Day ltac:(done)). lia.
Qed.

Example format_time_example :
  format_time (day_number 2026 3 1 * Day + 12 * Hour + 1500 * 1000000) = "2026-03-01T12:00:01.5Z" ∧
  parse_time "2026-03-01T14:30:01.50+02:30" = parse_time "2026-03-01T12:00:01.5Z".
Proof. vm_compute. done. Qed.
