(* ===== verification/Json.v ===== *)
(** * JSON documents (package encoding/json)

    What the program uses of the package: documents printed as [Marshal] prints
    them and read as [Unmarshal] reads any text. A string or a number of a
    document is its literal, as the raw messages of the program are kept by
    their text. Strings are the bytes of valid UTF-8; the two line separators
    U+2028 and U+2029, which [Marshal] escapes, are not singled out. *)

From S2P Require Import Prelude Decimal Rfc3339.
From Stdlib Require Import Ascii.

(** A document: [JString] has the characters between the quotes, the members
    of an object are in the order of the text. *)
Inductive json : Type :=
  | JNull
  | JBool (b : bool)
  | JNumber (text : string)
  | JString (lit : string)
  | JArray (l : list json)
  | JObject (l : list (string * json)).

Definition dquote : ascii := "034".
Definition backslash : ascii := "092".

(** ** String literals: [quote] and [unquote] *)

Definition hex_digit (n : N) : ascii :=
  if (n <? 10)%N then ascii_of_N (48 + n) else ascii_of_N (87 + n).

Definition unicode_escape (n : N) (k : string) : string :=
  String backslash (String "u" (String "0" (String "0"
    (String (hex_digit (n / 16)) (String (hex_digit (n mod 16)) k))))).

(** The characters that are escaped by a letter, and their letters. *)
Definition letter_of (c : ascii) : option ascii :=
  if bool_decide (c = dquote) then Some dquote
  else if bool_decide (c = backslash) then Some backslash
  else if bool_decide (c = "008"%char) then Some "b"%char
  else if bool_decide (c = "012"%char) then Some "f"%char
  else if bool_decide (c = "010"%char) then Some "n"%char
  else if bool_decide (c = "013"%char) then Some "r"%char
  else if bool_decide (c = "009"%char) then Some "t"%char
  else None.

(** The characters that [Marshal] escapes for HTML. *)
Definition for_html (c : ascii) : bool := bool_decide (c = "<"%char ∨ c = ">"%char ∨ c = "&"%char).

Definition put_char (c : ascii) (k : string) : string :=
  match letter_of c with
  | Some l => String backslash (String l k)
  | None =>
      if (N_of_ascii c <? 32)%N || for_html c then unicode_escape (N_of_ascii c) k else String c k
  end.

Fixpoint quote (s : string) : string :=
  match s with
  | EmptyString => ""
  | String c s => put_char c (quote s)
  end.

Definition hex_of (c : ascii) : option N :=
  let n := N_of_ascii c in
  if (48 <=? n)%N && (n <=? 57)%N then Some (n - 48)%N
  else if (97 <=? n)%N && (n <=? 102)%N then Some (n - 87)%N
  else if (65 <=? n)%N && (n <=? 70)%N then Some (n - 55)%N
  else None.

(** Four hexadecimal digits. *)
Definition read_hex (s : string) : option (N * string) :=
  match s with
  | String a (String b (String c (String d s))) =>
      a ← hex_of a; b ← hex_of b; c ← hex_of c; d ← hex_of d;
      Some (((a * 16 + b) * 16 + c) * 16 + d, s)%N
  | _ => None
  end.

(** The UTF-8 encoding of a code point in front of [k]. *)
Definition put_utf8 (n : N) (k : string) : string :=
  if (n <? 128)%N then String (ascii_of_N n) k
  else if (n <? 2048)%N then
    String (ascii_of_N (192 + n / 64)) (String (ascii_of_N (128 + n mod 64)) k)
  else if (n <? 65536)%N then
    String (ascii_of_N (224 + n / 4096)) (String (ascii_of_N (128 + n / 64 mod 64))
      (String (ascii_of_N (128 + n mod 64)) k))
  else
    String (ascii_of_N (240 + n / 262144)) (String (ascii_of_N (128 + n / 4096 mod 64))
      (String (ascii_of_N (128 + n / 64 mod 64)) (String (ascii_of_N (128 + n mod 64)) k))).

Definition replacement : N := 65533.

Definition of_letter (c : ascii) : option ascii :=
  if bool_decide (c = "b"%char) then Some "008"%char
  else if bool_decide (c = "f"%char) then Some "012"%char
  else if bool_decide (c = "n"%char) then Some "010"%char
  else if bool_decide (c = "r"%char) then Some "013"%char
  else if bool_decide (c = "t"%char) then Some "009"%char
  else if bool_decide (c = dquote ∨ c = backslash ∨ c = "/"%char) then Some c
  else None.

(** The string of a literal; [None] when it is not one. A surrogate is the
    first half of a pair when its second half follows, else it is replaced. *)
Fixpoint unquote (s : string) : option string :=
  match s with
  | EmptyString => Some ""
  | String c s =>
      if bool_decide (c = backslash) then
        match s with
        | String "u" (String h1 (String h2 (String h3 (String h4 s)))) =>
            '(n, _) ← read_hex (String h1 (String h2 (String h3 (String h4 ""))));
            if (n <? 55296)%N || (57343 <? n)%N then t ← unquote s; Some (put_utf8 n t)
            else
              match s with
              | String b (String "u" (String g1 (String g2 (String g3 (String g4 s'))))) =>
                  let low := read_hex (String g1 (String g2 (String g3 (String g4 "")))) in
                  match low with
                  | Some (m, _) =>
                      if bool_decide (b = backslash) && (n <? 56320)%N &&
                         (56320 <=? m)%N && (m <=? 57343)%N
                      then t ← unquote s'; Some (put_utf8 ((n - 55296) * 1024 + (m - 56320) + 65536) t)
                      else t ← unquote s; Some (put_utf8 replacement t)
                  | None => t ← unquote s; Some (put_utf8 replacement t)
                  end
              | _ => t ← unquote s; Some (put_utf8 replacement t)
              end
        | String l s => c ← of_letter l; t ← unquote s; Some (String c t)
        | EmptyString => None
        end
      else if bool_decide (c = dquote) || (N_of_ascii c <? 32)%N then None
      else t ← unquote s; Some (String c t)
  end.

Lemma unquote_put_char c k :
  unquote (put_char c k) = t ← unquote k; Some (String c t).
Proof. by destruct c as [[] [] [] [] [] [] [] []]. Qed.

Lemma unquote_quote s : unquote (quote s) = Some s.
Proof. induction s as [|c s IH]; [done|]. cbn [quote]. by rewrite unquote_put_char, IH. Qed.

(** The literal as [compact] prints it. *)
Fixpoint escape_html (lit : string) : string :=
  match lit with
  | EmptyString => ""
  | String c lit => if for_html c then unicode_escape (N_of_ascii c) (escape_html lit)
                    else String c (escape_html lit)
  end.

Lemma escape_html_put_char c k : escape_html (put_char c k) = put_char c (escape_html k).
Proof. by destruct c as [[] [] [] [] [] [] [] []]. Qed.

Lemma escape_html_quote s : escape_html (quote s) = quote s.
Proof. induction s as [|c s IH]; [done|]. cbn [quote]. by rewrite escape_html_put_char, IH. Qed.

(** ** Printing

    [put v k] is the text of [v] followed by [k]. *)

Definition put_string (lit k : string) : string :=
  String dquote (escape_html lit +:+ String dquote k).

Fixpoint put (v : json) (k : string) : string :=
  match v with
  | JNull => "null" +:+ k
  | JBool true => "true" +:+ k
  | JBool false => "false" +:+ k
  | JNumber text => text +:+ k
  | JString lit => put_string lit k
  | JArray [] => String "[" (String "]" k)
  | JArray (x :: l) => String "[" (put x (
      (fix tail l := match l with
                     | [] => String "]" k
                     | y :: l => String "," (put y (tail l))
                     end) l))
  | JObject [] => String "{" (String "}" k)
  | JObject ((n, x) :: l) => String "{" (put_string n (String ":" (put x (
      (fix tail l := match l with
                     | [] => String "}" k
                     | (m, y) :: l => String "," (put_string m (String ":" (put y (tail l))))
                     end) l))))
  end.

Fixpoint put_tail (l : list json) (k : string) : string :=
  match l with
  | [] => String "]" k
  | y :: l => String "," (put y (put_tail l k))
  end.

Fixpoint put_members (l : list (string * json)) (k : string) : string :=
  match l with
  | [] => String "}" k
  | (m, y) :: l => String "," (put_string m (String ":" (put y (put_members l k))))
  end.

Definition print (v : json) : string := put v "".

Lemma put_array x l k : put (JArray (x :: l)) k = String "[" (put x (put_tail l k)).
Proof.
  cbn [put]. do 2 f_equal. induction l as [|y l IH]; [done|]. cbn [put_tail]. by rewrite <- IH.
Qed.

Lemma put_object n x l k :
  put (JObject ((n, x) :: l)) k = String "{" (put_string n (String ":" (put x (put_members l k)))).
Proof.
  cbn [put]. do 4 f_equal. induction l as [|[m y] l IH]; [done|]. cbn [put_members]. by rewrite <- IH.
Qed.

(** ** Reading *)

Fixpoint skip_space (s : string) : string :=
  match s with
  | String c s' =>
      if bool_decide (c = " "%char ∨ c = "009"%char ∨ c = "010"%char ∨ c = "013"%char)
      then skip_space s' else s
  | EmptyString => s
  end.

(** The text up to the closing quote, and what follows it. *)
Fixpoint until_quote (s : string) : option (string * string) :=
  match s with
  | EmptyString => None
  | String c s =>
      if bool_decide (c = dquote) then Some ("", s)
      else if bool_decide (c = backslash) then
        match s with
        | EmptyString => None
        | String d s => '(t, r) ← until_quote s; Some (String c (String d t), r)
        end
      else '(t, r) ← until_quote s; Some (String c t, r)
  end.

(** A literal, after its opening quote. *)
Definition read_string (s : string) : option (string * string) :=
  '(lit, r) ← until_quote s;
  if bool_decide (unquote lit = None) then None else Some (lit, r).

Definition number_char (c : ascii) : bool :=
  bool_decide (digit_of c ≠ None ∨ c = "-"%char ∨ c = "+"%char ∨ c = "."%char ∨
               c = "e"%char ∨ c = "E"%char).

Fixpoint span_number (s : string) : string * string :=
  match s with
  | String c s' =>
      if number_char c then let '(t, r) := span_number s' in (String c t, r) else ("", s)
  | EmptyString => ("", "")
  end.

(** Digits, one at least. *)
Definition skip_digits (s : string) : option string :=
  if no_digit s then None else Some (read_digits 0 s).2.

Definition skip_int (s : string) : option string :=
  match s with String "0" s => Some s | _ => skip_digits s end.

Definition skip_fraction (s : string) : option string :=
  match s with String "." s => skip_digits s | _ => Some s end.

Definition skip_exponent (s : string) : option string :=
  match s with
  | String c s' =>
      if bool_decide (c = "e"%char ∨ c = "E"%char) then
        match s' with
        | String d s'' =>
            if bool_decide (d = "+"%char ∨ d = "-"%char) then skip_digits s'' else skip_digits s'
        | EmptyString => None
        end
      else Some s
  | EmptyString => Some s
  end.

(** The grammar of numbers; the characters of a number are never followed by
    another of them in a document. *)
Definition is_number (s : string) : bool :=
  bool_decide ((s ← skip_int (match s with String "-" s => s | _ => s end);
                s ← skip_fraction s; skip_exponent s) = Some "").

Definition read_number (s : string) : option (json * string) :=
  let '(t, r) := span_number s in
  if is_number t then Some (JNumber t, r) else None.

Fixpoint strip_prefix (w s : string) : option string :=
  match w, s with
  | EmptyString, _ => Some s
  | String c w, String d s => if bool_decide (c = d) then strip_prefix w s else None
  | String _ _, EmptyString => None
  end.

Definition read_word (w : string) (v : json) (s : string) : option (json * string) :=
  r ← strip_prefix w s; Some (v, r).

(** A value; [read_items] and [read_fields] read the rest of an array or an
    object after its first bracket or a comma. *)
Fixpoint read_value (fuel : nat) (s : string) : option (json * string) :=
  match fuel with
  | O => None
  | S fuel =>
      match skip_space s with
      | String c s' =>
          if bool_decide (c = dquote) then '(t, s) ← read_string s'; Some (JString t, s)
          else if bool_decide (c = "["%char) then
            s ← Some (skip_space s');
            match expect "]" s with
            | Some s => Some (JArray [], s)
            | None => '(l, s) ← read_items fuel s; Some (JArray l, s)
            end
          else if bool_decide (c = "{"%char) then
            s ← Some (skip_space s');
            match expect "}" s with
            | Some s => Some (JObject [], s)
            | None => '(l, s) ← read_fields fuel s; Some (JObject l, s)
            end
          else if bool_decide (c = "n"%char) then read_word "null" JNull (String c s')
          else if bool_decide (c = "t"%char) then read_word "true" (JBool true) (String c s')
          else if bool_decide (c = "f"%char) then read_word "false" (JBool false) (String c s')
          else read_number (String c s')
      | EmptyString => None
      end
  end
with read_items (fuel : nat) (s : string) : option (list json * string) :=
  match fuel with
  | O => None
  | S fuel =>
      '(v, s) ← read_value fuel s;
      match skip_space s with
      | String "," s => '(l, s) ← read_items fuel s; Some (v :: l, s)
      | String "]" s => Some ([v], s)
      | _ => None
      end
  end
with read_fields (fuel : nat) (s : string) : option (list (string * json) * string) :=
  match fuel with
  | O => None
  | S fuel =>
      s ← expect dquote (skip_space s);
      '(n, s) ← read_string s;
      s ← expect ":" (skip_space s);
      '(v, s) ← read_value fuel s;
      match skip_space s with
      | String "," s => '(l, s) ← read_fields fuel s; Some ((n, v) :: l, s)
      | String "}" s => Some ([(n, v)], s)
      | _ => None
      end
  end.

(** The whole text is one value. The fuel is twice its length: of two nested
    calls one consumes a character. *)
Definition parse (s : string) : option json :=
  '(v, rest) ← read_value (2 * String.length s + 2) s;
  if bool_decide (skip_space rest = "") then Some v else None.

Example parse_example :
  parse (String "[" (put_string "a<b" (", {  } , -12.50e3, 7 ]")))
    = Some (JArray [JString "a\u003cb"; JObject []; JNumber "-12.50e3"; JNumber "7"]) ∧
  parse "[01]" = None ∧ parse "[1,]" = None ∧ parse "1 2" = None ∧ parse "-" = None.
Proof. vm_compute. done. Qed.

(** ** Reading what was printed *)

(** The literals and the numbers that [Marshal] prints and that read back. *)
Definition literal_ok (lit : string) : bool :=
  bool_decide (until_quote (lit +:+ String dquote "") = Some (lit, "")) &&
  bool_decide (unquote lit ≠ None) && bool_decide (escape_html lit = lit).

Definition number_ok (t : string) : bool :=
  bool_decide (span_number t = (t, "")) && is_number t.

Fixpoint json_ok (v : json) : bool :=
  match v with
  | JNull | JBool _ => true
  | JNumber t => number_ok t
  | JString lit => literal_ok lit
  | JArray l => forallb json_ok l
  | JObject l => forallb (λ '(n, x), literal_ok n && json_ok x) l
  end.

(** A bound on the nested calls that read a document. *)
Fixpoint depth (v : json) : nat :=
  match v with
  | JArray l => S (foldr (λ x n, S (depth x + n)) O l)
  | JObject l => S (foldr (λ '(_, x) n, S (depth x + n)) O l)
  | _ => 1
  end.

(** Induction on documents. *)
Section json_rect.
Context (P : json → Prop) (Pnull : P JNull) (Pbool : ∀ b, P (JBool b))
  (Pnumber : ∀ t, P (JNumber t)) (Pstring : ∀ s, P (JString s))
  (Parray : ∀ l, Forall P l → P (JArray l))
  (Pobject : ∀ l, Forall (λ '(_, x), P x) l → P (JObject l)).

Fixpoint json_induction (v : json) : P v :=
  match v with
  | JNull => Pnull
  | JBool b => Pbool b
  | JNumber t => Pnumber t
  | JString s => Pstring s
  | JArray l => Parray l ((fix go l : Forall P l :=
      match l with
      | [] => Forall_nil_2 P
      | x :: l => Forall_cons_2 P x l (json_induction x) (go l)
      end) l)
  | JObject l => Pobject l ((fix go l : Forall (λ '(_, x), P x) l :=
      match l with
      | [] => Forall_nil_2 _
      | (n, x) :: l => Forall_cons_2 (λ '(_, x), P x) (n, x) l (json_induction x) (go l)
      end) l)
  end.
End json_rect.

Lemma until_quote_app n : ∀ s t r k,
  (String.length s ≤ n)%nat → until_quote s = Some (t, r) → until_quote (s +:+ k) = Some (t, r +:+ k).
Proof.
  induction n as [|n IH]; intros s t r k Hn; (destruct s as [|c s]; [done|]); simpl in Hn; [lia|].
  rewrite string_app_cons. cbn [until_quote]. case_bool_decide; [by intros [= <- <-]|].
  case_bool_decide.
  - destruct s as [|d s]; [done|]. simpl in Hn. rewrite string_app_cons.
    destruct (until_quote s) as [[t' r']|] eqn:E; [|done]. intros [= <- <-].
    by rewrite (IH s t' r' k) by (done || lia).
  - destruct (until_quote s) as [[t' r']|] eqn:E; [|done]. intros [= <- <-].
    by rewrite (IH s t' r' k) by (done || lia).
Qed.

Lemma read_string_put lit k :
  literal_ok lit = true → read_string (escape_html lit +:+ String dquote k) = Some (lit, k).
Proof.
  unfold literal_ok, read_string. intros. go_simpl.
  replace (escape_html lit +:+ String dquote k) with ((lit +:+ String dquote "") +:+ k)
    by (rewrite string_app_assoc; f_equal; congruence).
  rewrite (until_quote_app _ _ lit "" k (le_n _)) by done. simpl. by rewrite bool_decide_false.
Qed.

Lemma until_quote_put_char c k : ∀ t r,
  until_quote k = Some (t, r) → until_quote (put_char c k) = Some (put_char c t, r).
Proof. intros t r Hk. destruct c as [[] [] [] [] [] [] [] []]; cbv -[until_quote] in *; cbn; by rewrite ?Hk. Qed.

Lemma until_quote_quote s k : until_quote (quote s +:+ String dquote k) = Some (quote s, k).
Proof.
  induction s as [|c s IH]; [done|]. cbn [quote].
  assert (E : ∀ t k, put_char c t +:+ k = put_char c (t +:+ k)).
  { intros. unfold put_char, unicode_escape. by repeat case_match; autorewrite with gorw. }
  rewrite E. by apply until_quote_put_char.
Qed.

Lemma literal_ok_quote s : literal_ok (quote s) = true.
Proof.
  unfold literal_ok. rewrite until_quote_quote, unquote_quote, escape_html_quote.
  by rewrite !bool_decide_true.
Qed.

Lemma digit_number_char d : 0 ≤ d < 10 → number_char (digit d) = true.
Proof. intros Hd. unfold number_char. apply bool_decide_true. left. by rewrite digit_of_digit. Qed.

(** [k] cannot be read as more of a number. *)
Definition delimits (k : string) : bool :=
  match k with String c _ => negb (number_char c) | EmptyString => true end.

Lemma span_number_app t k : span_number t = (t, "") → delimits k = true → span_number (t +:+ k) = (t, k).
Proof.
  intros Ht Hk. induction t as [|c t IH].
  - rewrite string_app_nil. destruct k as [|c k]; [done|]. simpl in *. by apply negb_true_iff in Hk as ->.
  - rewrite string_app_cons. simpl in *. destruct (number_char c); [|done].
    destruct (span_number t) as [t' r]. injection Ht as -> ->. by rewrite IH.
Qed.

Lemma read_number_put t k : number_ok t = true → delimits k = true →
  read_number (t +:+ k) = Some (JNumber t, k).
Proof.
  unfold number_ok, read_number. intros Ht Hk. go_simpl. by rewrite span_number_app, H0.
Qed.

(** [put v] starts with a character that is no space, and selects the case. *)
Lemma read_value_number fuel t k :
  number_ok t = true → delimits k = true → read_value (S fuel) (t +:+ k) = Some (JNumber t, k).
Proof.
  intros Ht Hk. rewrite <- (read_number_put t k) by done.
  unfold number_ok in Ht. go_simpl.
  destruct t as [|c t]; [by vm_compute in H0|]. rewrite string_app_cons. cbn [read_value].
  simpl in H. destruct (number_char c) eqn:Hc; [|done].
  unfold number_char in Hc. apply bool_decide_eq_true in Hc.
  assert (Hd : c = "-"%char ∨ c = "+"%char ∨ c = "."%char ∨ c = "e"%char ∨ c = "E"%char ∨
    digit_of c ≠ None) by tauto.
  clear -Hd. repeat (destruct Hd as [->|Hd]; [done|]).
  destruct c as [[] [] [] [] [] [] [] []]; first [by destruct Hd|reflexivity].
Qed.

Definition reads (v : json) : Prop := ∀ fuel k,
  json_ok v = true → delimits k = true → (depth v ≤ fuel)%nat → read_value fuel (put v k) = Some (v, k).

Lemma read_items_put x l fuel k :
  reads x → Forall reads l → forallb json_ok (x :: l) = true →
  (S (depth x + foldr (λ x n, S (depth x + n)) O l) ≤ fuel)%nat →
  read_items fuel (put x (put_tail l k)) = Some (x :: l, k).
Proof.
  revert x fuel. induction l as [|y l IH]; intros x [|fuel] Hx Hl Hok Hf;
    simpl in Hok, Hf; go_simpl; try lia; cbn [read_items put_tail].
  - by rewrite Hx by (done || lia).
  - apply Forall_cons in Hl as [Hy Hl].
    rewrite Hx by (done || lia). simpl. rewrite IH; [done..| |lia]. simpl. by rewrite H0, H1.
Qed.

Lemma read_fields_put n x l fuel k :
  reads x → Forall (λ '(_, x), reads x) l →
  forallb (λ '(n, x), literal_ok n && json_ok x) ((n, x) :: l) = true →
  (S (depth x + foldr (λ '(_, x) n, S (depth x + n)) O l) ≤ fuel)%nat →
  read_fields fuel (put_string n (String ":" (put x (put_members l k)))) = Some ((n, x) :: l, k).
Proof.
  revert n x fuel. induction l as [|[m y] l IH]; intros n x [|fuel] Hx Hl Hok Hf;
    simpl in Hok, Hf; go_simpl; try lia;
    unfold put_string; cbn [read_fields put_members skip_space expect]; simpl;
    rewrite read_string_put by done; simpl.
  - by rewrite Hx by (done || lia).
  - apply Forall_cons in Hl as [Hy Hl].
    rewrite Hx by (done || lia).
    assert (E : read_fields fuel (put_string m (String ":" (put y (put_members l k)))) = Some ((m, y) :: l, k)).
    { apply IH; [done..| |lia]. simpl. by rewrite H0, H1, H2. }
    unfold put_string in E. simpl in E |- *. by rewrite E.
Qed.

Lemma put_head v k : json_ok v = true → ∃ c s,
  put v k = String c s ∧ skip_space (String c s) = String c s ∧ c ≠ "]"%char.
Proof.
  destruct v as [|[]|t|s|[|x l]|[|[n x] l]]; try (intros _; by eexists _, _).
  simpl. unfold number_ok. intros Ht. go_simpl. destruct t as [|c t]; [by vm_compute in H0|].
  exists c, (t +:+ k). split; [done|]. simpl in H.
  destruct (number_char c) eqn:Hc; [|done]. clear -Hc.
  by destruct c as [[] [] [] [] [] [] [] []].
Qed.

Lemma read_value_put v : reads v.
Proof.
  induction v as [|b|t|s|l IH|l IH] using json_induction; intros [|fuel] k Hok Hk Hf;
    simpl in Hf; try lia.
  - done.
  - by destruct b.
  - by apply read_value_number.
  - cbn [put]. unfold put_string. cbn [read_value skip_space]. simpl. by rewrite read_string_put.
  - destruct l as [|x l]; [done|]. apply Forall_cons in IH as [Hx IH]. rewrite put_array.
    simpl in Hf. assert (E : read_items fuel (put x (put_tail l k)) = Some (x :: l, k))
      by (apply read_items_put; [done..|lia]).
    simpl in Hok. go_simpl. destruct (put_head x (put_tail l k)) as (c & s & Ep & Es & Hc); [done|].
    rewrite Ep in *. cbn [read_value skip_space]. simpl in Es |- *. rewrite Es. simpl.
    rewrite bool_decide_false by done. by rewrite E.
  - destruct l as [|[n x] l]; [done|]. apply Forall_cons in IH as [Hx IH]. rewrite put_object.
    simpl in Hf. pose proof (read_fields_put n x l fuel k Hx IH Hok ltac:(lia)) as E.
    unfold put_string in *. cbn [read_value skip_space]. simpl. by rewrite E.
Qed.

Lemma string_length_app s k : String.length (s +:+ k) = (String.length s + String.length k)%nat.
Proof. induction s as [|c s IH]; [done|]. simpl. by rewrite IH. Qed.

Lemma length_put_string lit k : (String.length k + 2 ≤ String.length (put_string lit k))%nat.
Proof.
  unfold put_string. simpl. rewrite string_length_app. simpl. lia.
Qed.

Lemma depth_put v k : json_ok v = true → (depth v + 2 * String.length k ≤ 2 * String.length (put v k))%nat.
Proof.
  revert k. induction v as [|b|t|s|l IH|l IH] using json_induction; intros k Hok.
  - simpl. rewrite ?string_length_app. lia.
  - destruct b; simpl; rewrite ?string_length_app; lia.
  - simpl in *. rewrite string_length_app. destruct t; [by vm_compute in Hok|]. simpl. lia.
  - cbn [put depth]. pose proof (length_put_string s k). lia.
  - destruct l as [|x l]; [simpl; lia|]. rewrite put_array. cbn [json_ok forallb] in Hok.
    apply andb_true_iff in Hok as [Hx Hok]. apply Forall_cons in IH as [IHx IH].
    specialize (IHx (put_tail l k) Hx). cbn [depth foldr String.length].
    assert (foldr (λ x n, S (depth x + n)) O l + 2 * String.length k ≤ 2 * String.length (put_tail l k))%nat; [|lia].
    clear -Hok IH. induction IH as [|y l Hy IH IHl]; [simpl; lia|].
    cbn [json_ok forallb] in Hok. apply andb_true_iff in Hok as [Hyo Hok].
    specialize (Hy (put_tail l k) Hyo). specialize (IHl Hok). cbn [foldr put_tail String.length]. lia.
  - destruct l as [|[n x] l]; [simpl; lia|]. rewrite put_object. cbn [json_ok forallb] in Hok.
    apply andb_true_iff in Hok as [[Hn Hx]%andb_true_iff Hok]. apply Forall_cons in IH as [IHx IH].
    specialize (IHx (put_members l k) Hx). cbn [depth foldr String.length].
    pose proof (length_put_string n (String ":" (put x (put_members l k)))) as Hl. cbn [String.length] in Hl.
    assert (foldr (λ '(_, x) n, S (depth x + n)) O l + 2 * String.length k ≤
      2 * String.length (put_members l k))%nat; [|lia].
    clear -Hok IH. induction IH as [|[m y] l Hy IH IHl]; [simpl; lia|].
    cbn [json_ok forallb] in Hok. apply andb_true_iff in Hok as [[Hm Hyo]%andb_true_iff Hok].
    specialize (Hy (put_members l k) Hyo). specialize (IHl Hok). cbn [foldr put_members String.length].
    pose proof (length_put_string m (String ":" (put y (put_members l k)))) as Hl. cbn [String.length] in Hl. lia.
Qed.

Lemma parse_print v : json_ok v = true → parse (print v) = Some v.
Proof.
  intros Hok. unfold parse, print. pose proof (depth_put v "" Hok) as Hd. simpl in Hd.
  rewrite read_value_put by (done || lia). done.
Qed.

(** ** Integers *)

(** [strconv.ParseInt(text, 10, 64)] of a number: a fraction, an exponent and a
    value out of range are errors. *)
Definition parse_int (t : string) : option Z :=
  z ← (match t with
       | String "-" t => Z.opp <$> read_all t
       | _ => read_all t
       end);
  if (min_int64 <=? z) && (z <=? max_int64) then Some z else None.

Definition number_of (z : Z) : json := JNumber (itoa z).

Lemma digit_cases d : 0 ≤ d < 10 →
  d = 0 ∨ d = 1 ∨ d = 2 ∨ d = 3 ∨ d = 4 ∨ d = 5 ∨ d = 6 ∨ d = 7 ∨ d = 8 ∨ d = 9.
Proof. lia. Qed.

Lemma parse_int_itoa z : int64 z → parse_int (itoa z) = Some z.
Proof.
  unfold int64. intros Hz. unfold parse_int.
  assert (E : (match itoa z with String "-" t => Z.opp <$> read_all t | _ => read_all (itoa z) end) = Some z).
  { unfold itoa. destruct (Z.ltb_spec z 0).
    - change ((Z.opp <$> read_all (fixed (width (- z)) (- z))) = Some z).
      rewrite read_all_fixed by lia. simpl. f_equal. lia.
    - rewrite read_all_fixed by done.
      destruct (fixed_head (width z) z (width_pos z)) as (d & s & -> & Hd); [by auto using width_spec|].
      pose proof (digit_cases d Hd) as Hc.
      by repeat (destruct Hc as [->|Hc]; [reflexivity|]); subst. }
  rewrite E. simpl. unfold min_int64, max_int64.
  by rewrite (proj2 (Z.leb_le (-2 ^ 63) z)), (proj2 (Z.leb_le z (2 ^ 63 - 1))) by lia.
Qed.

Lemma span_number_fixed w n : 0 ≤ n < 10 ^ Z.of_nat w → span_number (fixed w n) = (fixed w n, "").
Proof.
  revert n. induction w as [|w IH]; intros n Hn; [done|].
  destruct (digit_range w n Hn) as [Hd Hm]. rewrite fixed_S. cbn [span_number].
  by rewrite digit_number_char, IH by done.
Qed.

Lemma skip_int_fixed n : 0 ≤ n → skip_int (fixed (width n) n) = Some "".
Proof.
  intros Hn. destruct (decide (n = 0)) as [->|Hne]; [done|].
  pose proof (read_digits_width n "" Hn eq_refl) as Hr. rewrite string_app_empty_r in Hr.
  destruct (fixed_width_head n ltac:(lia)) as (d & s & E & Hd). rewrite E in *.
  pose proof (digit_cases d ltac:(lia)) as Hc. destruct Hc as [->|Hc]; [lia|].
  transitivity (skip_digits (String (digit d) s)).
  { by repeat (destruct Hc as [->|Hc]; [reflexivity|]); subst. }
  unfold skip_digits. cbn [no_digit]. rewrite digit_of_digit by lia.
  rewrite bool_decide_false by done. by rewrite Hr.
Qed.

Lemma number_ok_itoa z : number_ok (itoa z) = true.
Proof.
  unfold number_ok, itoa, is_number. destruct (Z.ltb_spec z 0) as [Hz|Hz].
  - change ("-" +:+ fixed (width (- z)) (- z)) with (String "-" (fixed (width (- z)) (- z))).
    cbv match. rewrite skip_int_fixed by lia. cbn [span_number].
    rewrite span_number_fixed by (split; [lia|apply width_spec; lia]). by rewrite bool_decide_true.
  - rewrite span_number_fixed by (split; [lia|apply width_spec; lia]).
    assert (E : (match fixed (width z) z with String "-" s => s | _ => fixed (width z) z end) =
      fixed (width z) z).
    { destruct (fixed_head (width z) z (width_pos z)) as (d & s & -> & Hd); [by auto using width_spec|].
      pose proof (digit_cases d Hd) as Hc. by repeat (destruct Hc as [->|Hc]; [reflexivity|]); subst. }
    rewrite E, skip_int_fixed by lia. by rewrite !bool_decide_true.
Qed.
