(* ===== verification/JobJson.v ===== *)
(** * The JSON forms of jobs, queues and workers

    [json.Marshal] and [json.Unmarshal] on the structs of pkg/job, from their
    field tags. The fields that the structs do not declare are not part of the
    document. A raw message that is read is kept in the compact form in which
    it is marshalled again; names of fields are matched without the case of
    ASCII letters. *)

From Stdlib Require Import Ascii.
From S2P Require Import Prelude Job GoTime Decimal Rfc3339 Json.

(** ** Structs *)

(** [members] is [None] when the value cannot be marshalled; [of_members] fills
    the zero value. *)
Class JsonStruct (A : Type) := {
  members : A → option (list (string * json));
  of_members : list (string * json) → option A;
}.

Definition Marshal `{JsonStruct A} (a : A) : option string :=
  l ← members a; Some (print (JObject l)).

Definition Unmarshal `{JsonStruct A} (s : string) : option A :=
  v ← parse s;
  match v with
  | JObject l => of_members l
  | JNull => of_members []
  | _ => None
  end.

Definition lower_char (c : ascii) : ascii :=
  let n := N_of_ascii c in
  if (65 <=? n)%N && (n <=? 90)%N then ascii_of_N (n + 32) else c.

Fixpoint lower (s : string) : string :=
  match s with
  | EmptyString => ""
  | String c s => String (lower_char c) (lower s)
  end.

(** The field called [name] after the members of a document: each member of
    that name assigns to it. *)
Fixpoint field {A} (name : string) (assign : A → json → option A) (a : A)
    (l : list (string * json)) : option A :=
  match l with
  | [] => Some a
  | (n, v) :: l =>
      n ← unquote n;
      a ← (if String.eqb (lower n) name then assign a v else Some a);
      field name assign a l
  end.

(** ** Types of fields *)

Definition to_string (s : string) : json := JString (quote s).

(** [null] leaves a field as it is, or clears a pointer, a slice or a map. *)
Definition a_string (a : string) (v : json) : option string :=
  match v with JNull => Some a | JString lit => unquote lit | _ => None end.

Definition an_int (a : Z) (v : json) : option Z :=
  match v with JNull => Some a | JNumber t => parse_int t | _ => None end.

Definition a_bool (a : bool) (v : json) : option bool :=
  match v with JNull => Some a | JBool b => Some b | _ => None end.

Definition to_time (t : Time) : option json :=
  if printable t then Some (JString (format_time t)) else None.

Definition a_time (a : Time) (v : json) : option Time :=
  match v with JNull => Some a | JString lit => parse_time lit | _ => None end.

Definition a_time_pointer (a : option Time) (v : json) : option (option Time) :=
  match v with JNull => Some None | JString lit => Some <$> parse_time lit | _ => None end.

(** [json.RawMessage]: [nil] is the empty string. *)
Definition to_raw (s : string) : option json :=
  if bool_decide (s = "") then Some JNull else parse s.

Definition a_raw (a : string) (v : json) : option string := Some (print v).

(** [map[string]string]: the keys are sorted. *)
Definition to_map (m : gmap string string) : json :=
  JObject ((λ '(k, v), (quote k, to_string v)) <$>
    sort_slice (λ x y, String.ltb x.1 y.1) (map_to_list m)).

Fixpoint insert_members (m : gmap string string) (l : list (string * json)) :
    option (gmap string string) :=
  match l with
  | [] => Some m
  | (n, v) :: l => n ← unquote n; s ← a_string "" v; insert_members (<[n := s]> m) l
  end.

Definition a_map (a : gmap string string) (v : json) : option (gmap string string) :=
  match v with JNull => Some ∅ | JObject l => insert_members a l | _ => None end.

(** [[]string]. *)
Definition to_strings (l : list string) : json := JArray (to_string <$> l).

Definition strings (a : list string) (v : json) : option (list string) :=
  match v with JNull => Some [] | JArray l => mapM (a_string "") l | _ => None end.

(** The option [omitempty]. *)
Definition omit (b : bool) (name : string) (v : json) : list (string * json) :=
  if b then [] else [(name, v)].

(** A pointer to a time with [omitempty]. *)
Definition time_member (name : string) (t : option Time) : option (list (string * json)) :=
  match t with
  | None => Some []
  | Some t => v ← to_time t; Some [(name, v)]
  end.

(** ** The structs *)

#[export] Instance Job_json : JsonStruct Job := {
  members j :=
    payload ← to_raw (j_Payload j);
    scheduled_at ← time_member "scheduled_at" (j_ScheduledAt j);
    created_at ← to_time (j_CreatedAt j);
    started_at ← time_member "started_at" (j_StartedAt j);
    completed_at ← time_member "completed_at" (j_CompletedAt j);
    result ← to_raw (j_Result j);
    Some ([("id", to_string (j_ID j)); ("type", to_string (j_Type j)); ("payload", payload);
        ("priority", number_of (j_Priority j)); ("status", to_string (j_Status j));
        ("max_retries", number_of (j_MaxRetries j));
        ("current_retry", number_of (j_CurrentRetry j)); ("timeout", number_of (j_Timeout j))]
      ++ scheduled_at ++ [("created_at", created_at)] ++ started_at ++ completed_at
      ++ omit (bool_decide (j_Error j = "")) "error" (to_string (j_Error j))
      ++ omit (bool_decide (j_Result j = "")) "result" result
      ++ omit (bool_decide (j_Metadata j = ∅)) "metadata" (to_map (j_Metadata j))
      ++ [("queue", to_string (j_Queue j)); ("progress", number_of (j_Progress j))]
      ++ omit (bool_decide (j_WorkerID j = "")) "worker_id" (to_string (j_WorkerID j)));
  of_members l :=
    id ← field "id" a_string "" l; type ← field "type" a_string "" l;
    payload ← field "payload" a_raw "" l; priority ← field "priority" an_int 0 l;
    status ← field "status" a_string "" l; max_retries ← field "max_retries" an_int 0 l;
    current_retry ← field "current_retry" an_int 0 l; timeout ← field "timeout" an_int 0 l;
    scheduled_at ← field "scheduled_at" a_time_pointer None l;
    created_at ← field "created_at" a_time 0 l;
    started_at ← field "started_at" a_time_pointer None l;
    completed_at ← field "completed_at" a_time_pointer None l;
    err ← field "error" a_string "" l; result ← field "result" a_raw "" l;
    metadata ← field "metadata" a_map ∅ l; queue ← field "queue" a_string "" l;
    progress ← field "progress" an_int 0 l; worker_id ← field "worker_id" a_string "" l;
    Some (mkJob id type payload priority status max_retries current_retry 0 timeout 0
      scheduled_at created_at 0 started_at completed_at err result metadata queue progress
      worker_id);
}.

#[export] Instance QueueConfig_json : JsonStruct QueueConfig := {
  members c := Some (
    [("name", to_string (c_Name c)); ("max_workers", number_of (c_MaxWorkers c));
      ("max_retries", number_of (c_MaxRetries c));
      ("retry_strategy", to_string (c_RetryStrategy c));
      ("default_timeout", number_of (c_DefaultTimeout c)); ("priority", number_of (c_Priority c))]
    ++ omit (c_RateLimit c =? 0) "rate_limit" (number_of (c_RateLimit c))
    ++ [("weight", number_of (c_Weight c)); ("is_paused", JBool (c_IsPaused c));
      ("retry_delay", number_of (c_RetryDelay c))]
    ++ omit (c_MaxRetryDelay c =? 0) "max_retry_delay" (number_of (c_MaxRetryDelay c))
    ++ omit (bool_decide (c_DeadLetterQueue c = "")) "dead_letter_queue"
         (to_string (c_DeadLetterQueue c)));
  of_members l :=
    name ← field "name" a_string "" l; max_workers ← field "max_workers" an_int 0 l;
    max_retries ← field "max_retries" an_int 0 l;
    retry_strategy ← field "retry_strategy" a_string "" l;
    default_timeout ← field "default_timeout" an_int 0 l; priority ← field "priority" an_int 0 l;
    rate_limit ← field "rate_limit" an_int 0 l; weight ← field "weight" an_int 0 l;
    is_paused ← field "is_paused" a_bool false l; retry_delay ← field "retry_delay" an_int 0 l;
    max_retry_delay ← field "max_retry_delay" an_int 0 l;
    dead_letter_queue ← field "dead_letter_queue" a_string "" l;
    Some (mkQueueConfig name max_workers max_retries retry_strategy default_timeout 0 priority
      rate_limit weight is_paused retry_delay max_retry_delay dead_letter_queue);
}.

(** The zero time of the struct is [None] in the model. *)
Definition zero_time (t : Time) : option Time := if t =? 0 then None else Some t.

#[export] Instance Worker_json : JsonStruct Worker := {
  members w :=
    started_at ← to_time (default 0 (w_StartedAt w));
    last_heartbeat ← to_time (default 0 (w_LastHeartbeat w));
    Some ([("id", to_string (w_ID w)); ("hostname", to_string (w_Hostname w));
        ("started_at", started_at); ("last_heartbeat", last_heartbeat)]
      ++ omit (bool_decide (default "" (w_CurrentJobID w) = "")) "current_job_id"
           (to_string (default "" (w_CurrentJobID w)))
      ++ [("processed_count", number_of (w_ProcessedCount w));
        ("failed_count", number_of (w_FailedCount w)); ("status", to_string (w_Status w));
        ("queues", to_strings (w_Queues w)); ("concurrency", number_of (w_Concurrency w))]
      ++ omit (bool_decide (w_Tags w = ∅)) "tags" (to_map (w_Tags w))
      ++ omit (bool_decide (w_Version w = "")) "version" (to_string (w_Version w)));
  of_members l :=
    id ← field "id" a_string "" l; hostname ← field "hostname" a_string "" l;
    started_at ← field "started_at" a_time 0 l;
    last_heartbeat ← field "last_heartbeat" a_time 0 l;
    current_job_id ← field "current_job_id" a_string "" l;
    processed_count ← field "processed_count" an_int 0 l;
    failed_count ← field "failed_count" an_int 0 l; status ← field "status" a_string "" l;
    queues ← field "queues" strings [] l; concurrency ← field "concurrency" an_int 0 l;
    tags ← field "tags" a_map ∅ l; version ← field "version" a_string "" l;
    Some (mkWorker id hostname (zero_time started_at) (zero_time last_heartbeat)
      (if bool_decide (current_job_id = "") then None else Some current_job_id)
      processed_count failed_count status queues concurrency tags version);
}.

(** ** What survives *)

Definition in_int64 (z : Z) : bool := (min_int64 <=? z) && (z <=? max_int64).

(** A raw message in the form in which it is stored. *)
Definition compact (s : string) : bool :=
  match parse s with
  | Some v => json_ok v && bool_decide (print v = s)
  | None => false
  end.

(** A value of the type that [Marshal] prints, up to [stored], so that it reads
    back. *)
Class JsonLaws (A : Type) `{JsonStruct A} := {
  storable : A → bool;
  stored : A → A;
  members_read a : storable a = true →
    ∃ l, members a = Some l ∧ json_ok (JObject l) = true ∧ of_members l = Some (stored a);
}.

Lemma Unmarshal_Marshal `{JsonLaws A} a : storable a = true →
  ∃ s, Marshal a = Some s ∧ Unmarshal s = Some (stored a).
Proof.
  intros (l & Hl & Hok & Hr)%members_read. unfold Marshal, Unmarshal. rewrite Hl.
  eexists. split; [done|]. by rewrite parse_print.
Qed.

(** ** Fields *)

Section field.
Context {A : Type} (name : string) (assign : A → json → option A).
Implicit Types (a : A) (l : list (string * json)).

Lemma field_other a n v l :
  unquote n = Some n → String.eqb (lower n) name = false →
  field name assign a ((n, v) :: l) = field name assign a l.
Proof. intros Hn Hl. simpl. rewrite Hn. simpl. by rewrite Hl. Qed.

Lemma field_here a c n v l :
  unquote n = Some n → String.eqb (lower n) name = true → assign a v = Some c →
  field name assign a ((n, v) :: l) = field name assign c l.
Proof. intros Hn Hl Ha. simpl. rewrite Hn. simpl. by rewrite Hl, Ha. Qed.

Lemma field_omit_other a b n v l :
  unquote n = Some n → String.eqb (lower n) name = false →
  field name assign a (omit b n v ++ l) = field name assign a l.
Proof. destruct b; [done|]. apply field_other. Qed.

Lemma field_omit_here a c (b : bool) n v l :
  unquote n = Some n → String.eqb (lower n) name = true →
  (if b then Some a else assign a v) = Some c →
  field name assign a (omit b n v ++ l) = field name assign c l.
Proof. destruct b; simpl; [by intros ?? [= ->]|]. apply field_here. Qed.

Lemma field_time_other a t n r l :
  time_member n t = Some r → unquote n = Some n → String.eqb (lower n) name = false →
  field name assign a (r ++ l) = field name assign a l.
Proof.
  intros Ht Hn Hl. revert Ht. destruct t as [t|]; simpl; [|by intros [= <-]].
  destruct (to_time t); simpl; [|done]. intros [= <-]. by apply field_other.
Qed.
End field.

Lemma bind_Some_eq {A B} (m : option A) (k : A → option B) a r : m = Some a → k a = r → m ≫= k = r.
Proof. by intros ->. Qed.

Lemma a_string_to_string a s : a_string a (to_string s) = Some s.
Proof. apply unquote_quote. Qed.

Lemma omit_string s : (if bool_decide (s = "") then Some "" else a_string "" (to_string s)) = Some s.
Proof. case_bool_decide; [by subst|]. apply a_string_to_string. Qed.

Lemma an_int_number a z : in_int64 z = true → an_int a (number_of z) = Some z.
Proof.
  intros Hz. apply parse_int_itoa. unfold in_int64, int64, min_int64, max_int64 in *. lia.
Qed.

Lemma omit_int z : in_int64 z = true → (if z =? 0 then Some 0 else an_int 0 (number_of z)) = Some z.
Proof. intros Hz. destruct (Z.eqb_spec z 0) as [->|_]; [done|]. by apply an_int_number. Qed.

Lemma a_time_to_time a t v : to_time t = Some v → a_time a v = Some t.
Proof.
  unfold to_time. destruct (printable t) eqn:E; [|done]. intros [= <-]. by apply parse_format_time.
Qed.

Lemma field_time_here n t r l : time_member n t = Some r →
  unquote n = Some n → String.eqb (lower n) n = true →
  field n a_time_pointer None (r ++ l) = field n a_time_pointer t l.
Proof.
  intros Ht Hn Hl. revert Ht. destruct t as [t|]; simpl; [|by intros [= <-]].
  unfold to_time. destruct (printable t) eqn:E; simpl; [|done]. intros [= <-].
  apply field_here; [done..|]. simpl. by rewrite parse_format_time.
Qed.

Lemma to_raw_compact s v : compact s = true → to_raw s = Some v → print v = s ∧ json_ok v = true.
Proof.
  unfold compact, to_raw. intros Hc. case_bool_decide as Hs; [by subst|].
  intros Hv. rewrite Hv in Hc. by go_simpl.
Qed.

Lemma omit_raw s v : bool_decide (s = "") || compact s = true → to_raw s = Some v →
  (if bool_decide (s = "") then Some "" else a_raw "" v) = Some s.
Proof.
  case_bool_decide; [by subst|]. simpl. intros Hc Hv. unfold a_raw.
  by destruct (to_raw_compact s v Hc Hv) as [-> _].
Qed.

Lemma insert_members_put l m :
  insert_members m ((λ '(k, v), (quote k, to_string v)) <$> l) =
    Some (foldl (λ m '(k, v), <[k := v]> m) m l).
Proof.
  revert m. induction l as [|[k v] l IH]; intros m; [done|]. cbn [fmap list_fmap insert_members foldl].
  rewrite unquote_quote. cbn [mbind option_bind]. rewrite a_string_to_string. apply IH.
Qed.

Lemma foldl_insert_permutation (l : list (string * string)) (m : gmap string string) :
  NoDup l.*1 → foldl (λ m '(k, v), <[k := v]> m) m l = list_to_map l ∪ m.
Proof.
  revert m. induction l as [|[k v] l IH]; intros m Hnd; simpl; [by rewrite (left_id_L ∅ (∪))|].
  simpl in Hnd. apply NoDup_cons in Hnd as [Hk Hnd]. rewrite IH by done.
  rewrite <- insert_union_l, insert_union_r; [done|]. by apply not_elem_of_list_to_map.
Qed.

Lemma a_map_to_map m : a_map ∅ (to_map m) = Some m.
Proof.
  unfold to_map. cbn [a_map]. rewrite insert_members_put. f_equal.
  pose proof (sort_slice_Permutation (λ x y : string * string, String.ltb x.1 y.1) (map_to_list m)) as Hp.
  assert (Hn : NoDup (sort_slice (λ x y : string * string, String.ltb x.1 y.1) (map_to_list m)).*1).
  { rewrite Hp. apply NoDup_fst_map_to_list. }
  rewrite foldl_insert_permutation by done. rewrite (right_id_L ∅ (∪)).
  rewrite (list_to_map_proper _ _ Hn Hp). apply list_to_map_to_list.
Qed.

Lemma omit_map m : (if bool_decide (m = ∅) then Some ∅ else a_map ∅ (to_map m)) = Some m.
Proof. case_bool_decide; [by subst|]. apply a_map_to_map. Qed.

Lemma strings_to_strings l : strings [] (to_strings l) = Some l.
Proof. unfold to_strings. cbn [strings]. apply mapM_fmap_Some. apply a_string_to_string. Qed.

(** ** Documents that read back *)

Definition member_ok : string * json → bool := λ '(n, x), literal_ok n && json_ok x.

Lemma json_ok_to_string s : json_ok (to_string s) = true.
Proof. apply literal_ok_quote. Qed.

Lemma forallb_fmap {A B} (f : B → bool) (g : A → B) l :
  (∀ x, f (g x) = true) → forallb f (g <$> l) = true.
Proof. intros Hf. induction l as [|x l IH]; [done|]. cbn. by rewrite Hf, IH. Qed.

Lemma json_ok_to_map m : json_ok (to_map m) = true.
Proof. apply forallb_fmap. intros [k v]. simpl. by rewrite !literal_ok_quote. Qed.

Lemma json_ok_to_strings l : json_ok (to_strings l) = true.
Proof. apply forallb_fmap, json_ok_to_string. Qed.

(** The characters of a timestamp are printed as they are. *)
Definition plain (c : ascii) : bool :=
  bool_decide (letter_of c = None) && (32 <=? N_of_ascii c)%N && negb (for_html c).

Fixpoint plain_string (s : string) : bool :=
  match s with EmptyString => true | String c s => plain c && plain_string s end.

Lemma quote_plain s : plain_string s = true → quote s = s.
Proof.
  induction s as [|c s IH]; [done|]. cbn [plain_string quote]. unfold plain, put_char.
  intros [[[Hl%bool_decide_eq_true Hc]%andb_true_iff Hh]%andb_true_iff Hs]%andb_true_iff.
  rewrite IH, Hl by done. apply negb_true_iff in Hh as ->.
  apply N.leb_le in Hc. destruct (N.ltb_spec (N_of_ascii c) 32) as [Hlt|_]; [|done].
  by apply N.lt_nge in Hlt.
Qed.

Lemma plain_app s t : plain_string (s +:+ t) = plain_string s && plain_string t.
Proof. induction s as [|c s IH]; [done|]. simpl. by rewrite IH, andb_assoc. Qed.

Lemma plain_fixed w n : 0 ≤ n < 10 ^ Z.of_nat w → plain_string (fixed w n) = true.
Proof.
  revert n. induction w as [|w IH]; intros n Hn; [done|]. rewrite fixed_S. simpl.
  destruct (digit_range w n Hn) as [Hd Hm]. rewrite IH by done.
  pose proof (digit_cases _ Hd) as Hc. by repeat (destruct Hc as [->|Hc]; [reflexivity|]); rewrite Hc.
Qed.

Lemma plain_trim s : plain_string s = true → plain_string (trim_zeros s) = true.
Proof.
  induction s as [|c s IH]; [done|]. simpl. intros [Hc Hs]%andb_true_iff.
  case_bool_decide; [done|]. simpl. by rewrite Hc, IH.
Qed.

Lemma plain_trim_point s : plain_string s = true → plain_string (String "." (trim_zeros s)) = true.
Proof. intros Hs. simpl. by rewrite plain_trim. Qed.

Lemma plain_format_frac ns : 0 ≤ ns < Second → plain_string (format_frac ns) = true.
Proof.
  intros Hns. unfold format_frac. destruct (ns =? 0); [reflexivity|].
  apply plain_trim_point, plain_fixed. rewrite nine_digits. exact Hns.
Qed.

Lemma plain_format_time t : printable t = true → plain_string (format_time t) = true.
Proof.
  unfold printable, year_of, format_time, format_date, format_clock.
  pose proof (civil_bounds (t / Day)) as Hc. destruct (civil (t / Day)) as [[y m] d]. cbn [fst snd]. intros Hy.
  destruct (clock_parts (t mod Day)) as (Hh & Hm & Hs & Hns & _); [exact (Z.mod_pos_bound t Day ltac:(done))|].
  repeat (rewrite plain_app || cbn [plain_string]).
  rewrite plain_format_frac by done. rewrite !plain_fixed; [reflexivity|split; lia..].
Qed.

Lemma json_ok_to_time t v : to_time t = Some v → json_ok v = true.
Proof.
  unfold to_time. destruct (printable t) eqn:E; [|done]. intros [= <-]. simpl.
  rewrite <- (quote_plain (format_time t)) by (by apply plain_format_time). apply literal_ok_quote.
Qed.

Lemma members_ok_time n t r : literal_ok n = true → time_member n t = Some r → forallb member_ok r = true.
Proof.
  intros Hn. destruct t as [t|]; simpl; [|by intros [= <-]].
  destruct (to_time t) as [v|] eqn:E; simpl; [|done]. intros [= <-]. simpl.
  by rewrite Hn, (json_ok_to_time t v E).
Qed.

Lemma members_ok_omit b n v : literal_ok n = true → (b = false → json_ok v = true) →
  forallb member_ok (omit b n v) = true.
Proof. intros Hn Hv. destruct b; [done|]. simpl. by rewrite Hn, Hv. Qed.

(** ** The laws of the three structs *)

Lemma json_ok_object l : forallb member_ok l = true → json_ok (JObject l) = true.
Proof. done. Qed.

Lemma members_ok_cons n v l : literal_ok n = true → json_ok v = true →
  forallb member_ok l = true → forallb member_ok ((n, v) :: l) = true.
Proof. intros Hn Hv Hl. simpl. by rewrite Hn, Hv. Qed.

Lemma members_ok_app l1 l2 : forallb member_ok l1 = true → forallb member_ok l2 = true →
  forallb member_ok (l1 ++ l2) = true.
Proof. intros H1 H2. by rewrite forallb_app, H1. Qed.

Ltac read_field :=
  eapply bind_Some_eq;
  [ repeat first
      [ rewrite field_other by reflexivity
      | rewrite field_omit_other by reflexivity
      | erewrite field_time_other by (eassumption || reflexivity)
      | erewrite field_here by
          (reflexivity || apply a_string_to_string || (by apply an_int_number) ||
           apply strings_to_strings || (by eapply a_time_to_time))
      | erewrite field_omit_here by
          (reflexivity || apply omit_string || (by apply omit_int) || apply omit_map ||
           (by apply omit_raw))
      | erewrite field_time_here by (eassumption || reflexivity) ];
    reflexivity
  | cbn beta ].

Ltac member_list_ok :=
  apply json_ok_object;
  repeat first
    [ apply members_ok_omit; [reflexivity|intros _]
    | by (eapply members_ok_time; [|eassumption]; reflexivity)
    | apply json_ok_to_string | apply json_ok_to_map | apply json_ok_to_strings
    | apply number_ok_itoa | eassumption | by (eapply json_ok_to_time; eassumption)
    | apply members_ok_app
    | apply members_ok_cons; [reflexivity| |]
    | reflexivity ].

Definition storable_QueueConfig (c : QueueConfig) : bool :=
  forallb in_int64 [c_MaxWorkers c; c_MaxRetries c; c_DefaultTimeout c; c_Priority c; c_RateLimit c;
    c_Weight c; c_RetryDelay c; c_MaxRetryDelay c].

Definition stored_QueueConfig (c : QueueConfig) : QueueConfig := set_c_Timeout 0 c.

Lemma QueueConfig_read c : storable_QueueConfig c = true →
  ∃ l, members c = Some l ∧ json_ok (JObject l) = true ∧ of_members l = Some (stored_QueueConfig c).
Proof.
  unfold storable_QueueConfig. cbn [forallb]. intros Hc.
  repeat (apply andb_true_iff in Hc as [?H Hc]). clear Hc.
  eexists. split; [done|]. split; [member_list_ok|].
  rewrite <- (app_nil_r (_ ++ _)). repeat rewrite <- app_assoc. cbn [app of_members QueueConfig_json].
  do 12 read_field. reflexivity.
Qed.

#[export] Instance QueueConfig_laws : JsonLaws QueueConfig :=
  {| members_read := QueueConfig_read |}.

(** The identifier of the current job is not empty when there is one, and a
    time that is set is not the zero time. *)
Definition storable_Worker (w : Worker) : bool :=
  forallb in_int64 [w_ProcessedCount w; w_FailedCount w; w_Concurrency w] &&
  forallb (λ t, printable (default 0 t) && bool_decide (t ≠ Some 0)) [w_StartedAt w; w_LastHeartbeat w] &&
  bool_decide (w_CurrentJobID w ≠ Some "").

Lemma to_time_printable t : printable t = true → ∃ v, to_time t = Some v.
Proof. unfold to_time. intros ->. by eexists. Qed.

Lemma zero_time_default t : t ≠ Some 0 → zero_time (default 0 t) = t.
Proof. unfold zero_time. destruct t as [t|]; simpl; [|done]. by destruct (Z.eqb_spec t 0) as [->|]. Qed.

Lemma Worker_read w : storable_Worker w = true →
  ∃ l, members w = Some l ∧ json_ok (JObject l) = true ∧ of_members l = Some w.
Proof.
  unfold storable_Worker. cbn [forallb]. intros Hw.
  apply andb_true_iff in Hw as [[Hi Ht]%andb_true_iff Hj%bool_decide_eq_true].
  apply andb_true_iff in Hi as [Hi1 [Hi2 [Hi3 _]%andb_true_iff]%andb_true_iff].
  apply andb_true_iff in Ht as [[Ht1 Hz1%bool_decide_eq_true]%andb_true_iff
    [[Ht2 Hz2%bool_decide_eq_true]%andb_true_iff _]%andb_true_iff].
  destruct (to_time_printable _ Ht1) as [v1 Hv1], (to_time_printable _ Ht2) as [v2 Hv2].
  cbn [members Worker_json]. rewrite Hv1, Hv2. cbn [mbind option_bind].
  eexists. split; [done|]. split; [member_list_ok|].
  rewrite <- (app_nil_r (_ ++ _)). repeat rewrite <- app_assoc. cbn [app of_members Worker_json].
  do 12 read_field. rewrite !zero_time_default by done.
  destruct w as [id h sa lh [cj|] pc fc st qs cc tg ve]; [|done]. simpl in *.
  rewrite bool_decide_false; [done|]. congruence.
Qed.

#[export] Instance Worker_laws : JsonLaws Worker := {| stored := id; members_read := Worker_read |}.

(** A raw message that can be stored. *)
Definition raw_ok (s : string) : bool := bool_decide (s = "") || compact s.

Definition times_ok (j : Job) : bool :=
  printable (j_CreatedAt j) &&
  forallb (λ t, printable (default 0 t)) [j_ScheduledAt j; j_StartedAt j; j_CompletedAt j].

Definition storable_Job (j : Job) : bool :=
  forallb in_int64 [j_Priority j; j_MaxRetries j; j_CurrentRetry j; j_Timeout j; j_Progress j] &&
  times_ok j && raw_ok (j_Payload j) && raw_ok (j_Result j).

Definition set_j_Payload (v : string) (j : Job) : Job :=
  mkJob (j_ID j) (j_Type j) v (j_Priority j) (j_Status j) (j_MaxRetries j)
    (j_CurrentRetry j) (j_RetryCount j) (j_Timeout j) (j_TimeoutSeconds j)
    (j_ScheduledAt j) (j_CreatedAt j) (j_UpdatedAt j) (j_StartedAt j) (j_CompletedAt j)
    (j_Error j) (j_Result j) (j_Metadata j) (j_Queue j) (j_Progress j) (j_WorkerID j).

(** The undeclared fields are lost; no payload becomes [null]. *)
Definition stored_Job (j : Job) : Job :=
  set_j_RetryCount 0 (set_j_TimeoutSeconds 0 (set_j_UpdatedAt 0
    (set_j_Payload (if bool_decide (j_Payload j = "") then "null" else j_Payload j) j))).

Lemma raw_ok_to_raw s : raw_ok s = true → ∃ v, to_raw s = Some v ∧ json_ok v = true ∧
  a_raw "" v = Some (if bool_decide (s = "") then "null" else s).
Proof.
  unfold raw_ok, to_raw. case_bool_decide; [by eexists|]. simpl. unfold compact.
  destruct (parse s) as [v|]; [|done]. intros. go_simpl. by eexists.
Qed.

Lemma time_member_ok name t : printable (default 0 t) = true → ∃ r, time_member name t = Some r.
Proof.
  destruct t as [t|]; simpl; [|by eexists]. intros [v Hv]%to_time_printable. rewrite Hv. by eexists.
Qed.

Lemma Job_read j : storable_Job j = true →
  ∃ l, members j = Some l ∧ json_ok (JObject l) = true ∧ of_members l = Some (stored_Job j).
Proof.
  unfold storable_Job, times_ok. cbn [forallb]. intros Hj.
  apply andb_true_iff in Hj as [[[Hi [Hc Ht]%andb_true_iff]%andb_true_iff Hp]%andb_true_iff Hr].
  repeat (apply andb_true_iff in Hi as [?H Hi]). clear Hi.
  apply andb_true_iff in Ht as [Ht1 [Ht2 [Ht3 _]%andb_true_iff]%andb_true_iff].
  destruct (raw_ok_to_raw _ Hp) as (p & Hp1 & Hp2 & Hp3), (to_time_printable _ Hc) as [c Hc'].
  destruct (time_member_ok "scheduled_at" _ Ht1) as [r1 Hr1],
    (time_member_ok "started_at" _ Ht2) as [r2 Hr2], (time_member_ok "completed_at" _ Ht3) as [r3 Hr3].
  destruct (raw_ok_to_raw _ Hr) as (r & Hr' & Hro & _).
  cbn [members Job_json]. rewrite Hp1, Hr1, Hc', Hr2, Hr3, Hr'. cbn [mbind option_bind].
  eexists. split; [done|]. split; [member_list_ok|].
  rewrite <- (app_nil_r (_ ++ _)). repeat rewrite <- app_assoc. cbn [app of_members Job_json].
  do 18 read_field. injection Hp3 as ->. reflexivity.
Qed.

(** A raw message that is not JSON cannot be marshalled. *)
Lemma Marshal_bad_result j : to_raw (j_Result j) = None → Marshal j = None.
Proof.
  intros Hr. unfold Marshal. cbn [members Job_json].
  destruct (to_raw (j_Payload j)); cbn [mbind option_bind]; [|done].
  destruct (time_member _ (j_ScheduledAt j)); cbn [mbind option_bind]; [|done].
  destruct (to_time (j_CreatedAt j)); cbn [mbind option_bind]; [|done].
  destruct (time_member _ (j_StartedAt j)); cbn [mbind option_bind]; [|done].
  destruct (time_member _ (j_CompletedAt j)); cbn [mbind option_bind]; [|done].
  by rewrite Hr.
Qed.

#[export] Instance Job_laws : JsonLaws Job := {| members_read := Job_read |}.

Example Marshal_QueueConfig_example :
  Marshal (set_c_Timeout 30 (DefaultQueueConfig "mail")) =
    Some (foldr (λ c t, if bool_decide (c = "'"%char) then String dquote t else String c t) ""
      (String.list_ascii_of_string "{'name':'mail','max_workers':10,'max_retries':3,'retry_strategy':'EXPONENTIAL','default_timeout':300000000000,'priority':5,'weight':1,'is_paused':false,'retry_delay':5000000000,'max_retry_delay':3600000000000}")).
Proof. vm_compute. done. Qed.
