(* ===== verification/Redis.v ===== *)
(** * The Redis server and its client (go-redis)

    The commands that the backend sends are the operations of the class
    [RedisClient]: a server is any state with them. [RedisLaws] is what the
    documentation of the commands promises of a server that answers: each
    behaves as the reference commands below do on the data. [SCAN] and
    [SMEMBERS], whose results the documentation leaves open, have laws of
    their own. A server made of the data alone satisfies the laws. *)

From S2P Require Import Prelude Errors GoMonad Decimal Json.

(** ** Data *)

(** A score is a [float64]; the program only makes scores that are integers. *)
Inductive rvalue : Type :=
  | RString (s : string)
  | RZSet (m : gmap string Z)
  | RSet (m : gset string)
  | RHash (m : gmap string string).

Abbreviation DB := (gmap string rvalue).

(** ** Commands *)

(** [GET] and [HGET] return [redis.Nil] for nothing; [SET], [SETNX] are without
    expiration; [ZRANGE] has indices that are not negative; [ZRANGEBYSCORE] is
    from [-inf], with a limit unless the count is 0. [EVAL] runs a script inside
    the server: on the data, and with no other command in between. *)
Class RedisClient (R : Type) := {
  PING : M R unit;
  GET : string → M R (option string);
  SET : string → string → M R unit;
  SETNX : string → string → M R bool;
  EXISTS : string → M R Z;
  DEL : string → M R Z;
  ZADD : string → Z → string → M R unit;
  ZREM : string → string → M R Z;
  ZCARD : string → M R Z;
  ZRANGE : string → nat → nat → M R (list string);
  ZRANGEBYSCORE : string → Z → Z → M R (list string);
  SADD : string → string → M R unit;
  SREM : string → string → M R unit;
  SMEMBERS : string → M R (list string);
  HINCRBY : string → string → Z → M R unit;
  HSET : string → string → string → M R unit;
  HGET : string → string → M R (option string);
  HGETALL : string → M R (gmap string string);
  SCAN : N → string → Z → M R (list string * N);
  EVAL : ∀ {A : Type}, M DB A → M R A;
}.

(** [pipe.Exec]: all the commands are sent; the error is the first one. *)
Fixpoint Exec {R} (pipe : list (M R unit)) : M R unit :=
  match pipe with
  | [] => mret tt
  | c :: pipe =>
      r ← attempt c;
      r' ← attempt (Exec pipe);
      match r, r' with
      | inr e, _ | inl _, inr e => throw e
      | inl _, inl _ => mret tt
      end
  end.

(** ** The order of a sorted set: by score, then by member *)

Definition before_in_set (x y : string * Z) : bool :=
  (x.2 <? y.2) || ((x.2 =? y.2) && String.ltb x.1 y.1).

Definition sorted_set (m : gmap string Z) : list (string * Z) :=
  sort_slice before_in_set (map_to_list m).

Lemma ascii_compare_N a b : Ascii.compare a b = N.compare (Ascii.N_of_ascii a) (Ascii.N_of_ascii b).
Proof. done. Qed.

Lemma string_compare_trans c s1 s2 s3 :
  c ≠ Eq → String.compare s1 s2 = c → String.compare s2 s3 = c → String.compare s1 s3 = c.
Proof.
  intros Hc. revert s2 s3. induction s1 as [|a s1 IH]; intros [|b s2] [|d s3]; simpl; try congruence.
  rewrite !ascii_compare_N. intros H1 H2.
  destruct (N.compare_spec (Ascii.N_of_ascii a) (Ascii.N_of_ascii b)) as [E1|E1|E1],
    (N.compare_spec (Ascii.N_of_ascii b) (Ascii.N_of_ascii d)) as [E2|E2|E2],
    (N.compare_spec (Ascii.N_of_ascii a) (Ascii.N_of_ascii d)) as [E3|E3|E3];
    try (exfalso; lia); try congruence; eauto.
Qed.

Lemma string_ltb_lt s1 s2 : String.ltb s1 s2 = true ↔ String.compare s1 s2 = Lt.
Proof. unfold String.ltb. by destruct (String.compare s1 s2). Qed.

Lemma string_ltb_trans s1 s2 s3 :
  String.ltb s1 s2 = true → String.ltb s2 s3 = true → String.ltb s1 s3 = true.
Proof. rewrite !string_ltb_lt. by apply string_compare_trans. Qed.

Lemma string_ltb_asym s1 s2 : String.ltb s1 s2 = true → String.ltb s2 s1 = false.
Proof.
  rewrite string_ltb_lt. intros H. unfold String.ltb. rewrite String.compare_antisym, H. done.
Qed.

Lemma string_ltb_total s1 s2 : String.ltb s1 s2 = false → String.ltb s2 s1 = false → s1 = s2.
Proof.
  intros H1 H2. apply String.compare_eq_iff. unfold String.ltb in *.
  rewrite (String.compare_antisym s2 s1) in H2. by destruct (String.compare s1 s2).
Qed.

Lemma before_spec x y :
  before_in_set x y = true ↔ x.2 < y.2 ∨ x.2 = y.2 ∧ String.ltb x.1 y.1 = true.
Proof. unfold before_in_set. by rewrite orb_true_iff, andb_true_iff, Z.ltb_lt, Z.eqb_eq. Qed.

Lemma before_asym x y : before_in_set x y = true → before_in_set y x = false.
Proof.
  intros Hx%before_spec. apply not_true_iff_false. intros Hy%before_spec.
  destruct Hx as [|[? Hx]], Hy as [|[? Hy]]; try lia.
  apply string_ltb_asym in Hx. congruence.
Qed.

Lemma before_trans x y z :
  before_in_set x y = true → before_in_set y z = true → before_in_set x z = true.
Proof.
  rewrite !before_spec. intros [|[? Hx]] [|[? Hy]]; [left; lia..|].
  right. split; [congruence|]. by eapply string_ltb_trans.
Qed.

Lemma before_total x y : before_in_set x y = false → before_in_set y x = false → x = y.
Proof.
  destruct x as [m a], y as [n b]. rewrite <- !not_true_iff_false, !before_spec. simpl. intros H1 H2.
  assert (a = b) as <- by lia. f_equal.
  apply string_ltb_total; apply not_true_iff_false; intros ?; [apply H1|apply H2]; auto.
Qed.

Lemma before_neg_trans x y z :
  before_in_set x y = false → before_in_set y z = false → before_in_set x z = false.
Proof.
  intros Hx Hy. destruct (before_in_set x z) eqn:Hz; [|done].
  destruct (before_in_set z y) eqn:Hzy.
  - by rewrite (before_trans _ _ _ Hz Hzy) in Hx.
  - assert (y = z) as -> by by apply before_total. congruence.
Qed.

Lemma sorted_set_sorted m : sorted_by before_in_set (sorted_set m).
Proof. apply sort_slice_sorted; eauto using before_asym, before_neg_trans. Qed.

Lemma elem_of_sorted_set m x v : (x, v) ∈ sorted_set m ↔ m !! x = Some v.
Proof. unfold sorted_set. by rewrite sort_slice_Permutation, elem_of_map_to_list. Qed.

(** The first member comes before all the others. *)
Lemma sorted_set_head m x v l : sorted_set m = (x, v) :: l →
  m !! x = Some v ∧ ∀ y w, m !! y = Some w → y ≠ x → before_in_set (x, v) (y, w) = true.
Proof.
  intros E. pose proof (sorted_set_sorted m) as Hs. unfold sorted_by in Hs. rewrite E in Hs.
  apply StronglySorted_inv in Hs as [_ Hs]. split.
  { apply elem_of_sorted_set. rewrite E. apply list_elem_of_here. }
  intros y w Hy%elem_of_sorted_set Hne. rewrite E in Hy.
  apply elem_of_cons in Hy as [[= -> ->]|Hy]; [done|].
  rewrite Forall_forall in Hs. specialize (Hs _ Hy). simpl in Hs.
  destruct (before_in_set (x, v) (y, w)) eqn:Hb; [done|]. by injection (before_total _ _ Hb Hs).
Qed.

Lemma sorted_set_nil m : sorted_set m = [] ↔ m = ∅.
Proof.
  split; [|by intros ->]. intros E. apply map_empty. intros x. apply eq_None_not_Some.
  intros [v Hv%elem_of_sorted_set]. rewrite E in Hv. by apply elem_of_nil in Hv.
Qed.

(** ** The reference commands *)

Definition wrong_type : string := "WRONGTYPE Operation against a key holding the wrong kind of value".
Definition not_integer : string := "ERR hash value is not an integer".
Definition WRONGTYPE : error := Errorf wrong_type.

(** An empty sorted set, set or hash is no key. *)
Definition put_zset (k : string) (m : gmap string Z) (d : DB) : DB :=
  if bool_decide (m = ∅) then delete k d else <[k := RZSet m]> d.
Definition put_set (k : string) (m : gset string) (d : DB) : DB :=
  if bool_decide (m = ∅) then delete k d else <[k := RSet m]> d.

(** The value at [k] with the type a command expects. *)
Definition as_string (v : option rvalue) : M DB (option string) :=
  match v with None => mret None | Some (RString s) => mret (Some s) | _ => throw WRONGTYPE end.
Definition as_zset (v : option rvalue) : M DB (gmap string Z) :=
  match v with None => mret ∅ | Some (RZSet m) => mret m | _ => throw WRONGTYPE end.
Definition as_set (v : option rvalue) : M DB (gset string) :=
  match v with None => mret ∅ | Some (RSet m) => mret m | _ => throw WRONGTYPE end.
Definition as_hash (v : option rvalue) : M DB (gmap string string) :=
  match v with None => mret ∅ | Some (RHash m) => mret m | _ => throw WRONGTYPE end.

Definition at_key {A} (as_type : option rvalue → M DB A) (k : string) : M DB A :=
  d ← get; as_type (d !! k).

(** The integer in a field, 0 without one. *)
Definition hash_int (v : option string) : option Z :=
  match v with None => Some 0 | Some s => parse_int s end.

Definition in_range (z : Z) : bool := (min_int64 <=? z) && (z <=? max_int64).

Definition prefixed (p k : string) : bool := bool_decide (strip_prefix p k ≠ None).

(** The keys of a page that match a pattern; the patterns of the program are a
    text without special characters and a star. *)
Definition match_pattern (pattern k : string) : bool :=
  match pattern with
  | EmptyString => false
  | _ => prefixed (String.substring 0 (String.length pattern - 1) pattern) k
  end.

#[export] Instance reference : RedisClient DB := {
  PING := mret tt;
  GET := at_key as_string;
  SET k v := modify (<[k := RString v]>);
  SETNX k v := d ← get;
    if bool_decide (d !! k = None) then modify (<[k := RString v]>) ;; mret true else mret false;
  EXISTS k := d ← get; mret (if bool_decide (d !! k = None) then 0 else 1);
  DEL k := d ← get; modify (delete k) ;; mret (if bool_decide (d !! k = None) then 0 else 1);
  ZADD k v x := m ← at_key as_zset k; modify (put_zset k (<[x := v]> m));
  ZREM k x := m ← at_key as_zset k; modify (put_zset k (delete x m)) ;;
    mret (if bool_decide (m !! x = None) then 0 else 1);
  ZCARD k := m ← at_key as_zset k; mret (Z.of_nat (size m));
  ZRANGE k i j := m ← at_key as_zset k; mret (take (S j - i) (drop i (sorted_set m).*1));
  ZRANGEBYSCORE k mx count := m ← at_key as_zset k;
    let l := (filter (λ x, x.2 ≤ mx) (sorted_set m)).*1 in
    mret (if 0 <? count then take (Z.to_nat count) l else l);
  SADD k x := m ← at_key as_set k; modify (put_set k ({[x]} ∪ m));
  SREM k x := m ← at_key as_set k; modify (put_set k (m ∖ {[x]}));
  SMEMBERS k := m ← at_key as_set k; mret (elements m);
  HINCRBY k f n := m ← at_key as_hash k;
    match hash_int (m !! f) with
    | None => throw (Errorf not_integer)
    | Some z =>
        if in_range (z + n) then modify (<[k := RHash (<[f := itoa (z + n)]> m)]>)
        else throw (Errorf "ERR increment or decrement would overflow")
    end;
  HSET k f v := m ← at_key as_hash k; modify (<[k := RHash (<[f := v]> m)]>);
  HGET k f := m ← at_key as_hash k; mret (m !! f);
  HGETALL := at_key as_hash;
  SCAN cursor pattern count := d ← get;
    let keys := (map_to_list d).*1 in
    let next := (cursor + Z.to_N count)%N in
    mret (filter (λ k, match_pattern pattern k = true) (take (Z.to_nat count) (drop (N.to_nat cursor) keys)),
          if (next <? N.of_nat (length keys))%N then next else 0%N);
  EVAL A script := script;
}.

(** ** Laws *)

(** A cursor of [SCAN] has keys that are still to come and a bound on the calls
    that are left; these depend on the data only while it does not change. *)
Class RedisLaws (R : Type) `{RedisClient R} := {
  db : R → DB;
  law_PING : refines db PING PING;
  law_GET k : refines db (GET k) (GET k);
  law_SET k v : refines db (SET k v) (SET k v);
  law_SETNX k v : refines db (SETNX k v) (SETNX k v);
  law_EXISTS k : refines db (EXISTS k) (EXISTS k);
  law_DEL k : refines db (DEL k) (DEL k);
  law_ZADD k v x : refines db (ZADD k v x) (ZADD k v x);
  law_ZREM k x : refines db (ZREM k x) (ZREM k x);
  law_ZCARD k : refines db (ZCARD k) (ZCARD k);
  law_ZRANGE k i j : refines db (ZRANGE k i j) (ZRANGE k i j);
  law_ZRANGEBYSCORE k mx n : refines db (ZRANGEBYSCORE k mx n) (ZRANGEBYSCORE k mx n);
  law_SADD k x : refines db (SADD k x) (SADD k x);
  law_SREM k x : refines db (SREM k x) (SREM k x);
  law_HINCRBY k f n : refines db (HINCRBY k f n) (HINCRBY k f n);
  law_HSET k f v : refines db (HSET k f v) (HSET k f v);
  law_HGET k f : refines db (HGET k f) (HGET k f);
  law_HGETALL k : refines db (HGETALL k) (HGETALL k);
  law_EVAL {A} (script : M DB A) : refines db (EVAL script) script;
  law_SMEMBERS k s :
    (∀ e, (as_set (db s !! k) (db s)).1 = Err e → ∃ s', SMEMBERS k s = (Err e, s') ∧ db s' = db s) ∧
    (∀ m, (as_set (db s !! k) (db s)).1 = Ok m →
      ∃ l s', SMEMBERS k s = (Ok l, s') ∧ db s' = db s ∧ l ≡ₚ elements m);
  scan_rest : DB → string → N → gset string;
  scan_calls : DB → string → N → nat;
  law_scan_start d p : scan_rest d p 0 = dom (filter (λ kv, prefixed p kv.1 = true) d);
  law_SCAN cursor p count s : 0 < count →
    ∃ keys next s', SCAN cursor (p +:+ "*") count s = (Ok (keys, next), s') ∧ db s' = db s ∧
      (∀ k, k ∈ keys → is_Some (db s !! k) ∧ prefixed p k = true) ∧
      scan_rest (db s) p cursor ⊆ list_to_set keys ∪ (if (next =? 0)%N then ∅ else scan_rest (db s) p next) ∧
      (next ≠ 0%N → (scan_calls (db s) p next < scan_calls (db s) p cursor)%nat);
}.

(** ** A server that is its data *)

Lemma strip_prefix_app p k : strip_prefix p (p +:+ k) = Some k.
Proof.
  induction p as [|c p IH]; [done|]. change (strip_prefix (String c p) (String c (p +:+ k)) = Some k).
  simpl. by rewrite bool_decide_true.
Qed.

Lemma strip_prefix_Some p k x : strip_prefix p k = Some x ↔ k = p +:+ x.
Proof.
  split; [|intros ->; apply strip_prefix_app].
  revert k. induction p as [|c p IH]; intros k; [by intros [= ->]|].
  destruct k as [|d k]; simpl; [done|]. case_bool_decide; [|done]. subst.
  intros ->%IH. done.
Qed.

Lemma prefixed_spec p k : prefixed p k = true ↔ ∃ x, k = p +:+ x.
Proof.
  unfold prefixed. rewrite bool_decide_eq_true. destruct (strip_prefix p k) as [x|] eqn:E.
  - split; [|done]. intros _. exists x. by apply strip_prefix_Some.
  - split; [done|]. intros [x Hx%strip_prefix_Some]. congruence.
Qed.

Lemma substring_app p : String.substring 0 (String.length (p +:+ "*") - 1) (p +:+ "*") = p.
Proof.
  rewrite string_length_app. simpl. replace (String.length p + 1 - 1)%nat with (String.length p) by lia.
  induction p as [|c p IH]; [done|].
  change (String c (String.substring 0 (String.length p) (p +:+ "*")) = String c p). by rewrite IH.
Qed.

Lemma match_pattern_star p k : match_pattern (p +:+ "*") k = prefixed p k.
Proof.
  unfold match_pattern. destruct (p +:+ "*") eqn:E; [by destruct p|].
  by rewrite <- E, substring_app.
Qed.

Lemma reference_SCAN cursor p count (d : DB) : 0 < count →
  let rest p c := list_to_set (C := gset string)
    (filter (λ k, prefixed p k = true) (drop (N.to_nat c) (map_to_list d).*1)) in
  let calls (c : N) := (length (map_to_list d).*1 - N.to_nat c)%nat in
  ∃ keys next s', SCAN cursor (p +:+ "*") count d = (Ok (keys, next), s') ∧ s' = d ∧
    (∀ k, k ∈ keys → is_Some (d !! k) ∧ prefixed p k = true) ∧
    rest p cursor ⊆ list_to_set keys ∪ (if (next =? 0)%N then ∅ else rest p next) ∧
    (next ≠ 0%N → (calls next < calls cursor)%nat).
Proof.
  intros Hc rest calls. eexists _, _, d. split; [reflexivity|]. split; [done|]. split_and!.
  - intros k. rewrite list_elem_of_filter, match_pattern_star. intros [Hk Hin]. split; [|done].
    apply elem_of_take in Hin as (i & Hin & _). rewrite lookup_drop in Hin.
    apply list_elem_of_lookup_2, list_elem_of_fmap in Hin as ([k' v] & -> & Hin). apply elem_of_map_to_list in Hin. by eexists.
  - intros k. unfold rest. rewrite elem_of_list_to_set, list_elem_of_filter. intros [Hk Hin].
    rewrite <- (take_drop (Z.to_nat count) (drop _ _)) in Hin. rewrite elem_of_app, drop_drop in Hin.
    rewrite elem_of_union, elem_of_list_to_set, list_elem_of_filter, match_pattern_star.
    destruct Hin as [Hin|Hin]; [by left; split|right].
    assert (Hn : N.to_nat (cursor + Z.to_N count) = (N.to_nat cursor + Z.to_nat count)%nat) by lia.
    destruct (N.ltb_spec (cursor + Z.to_N count) (N.of_nat (length (map_to_list d).*1))) as [Hl|Hl].
    + destruct (N.eqb_spec (cursor + Z.to_N count) 0); [lia|].
      apply elem_of_list_to_set, list_elem_of_filter. by rewrite Hn.
    + rewrite drop_ge in Hin by lia. by apply elem_of_nil in Hin.
  - unfold calls. case_match eqn:E; [|done]. apply N.ltb_lt in E. lia.
Qed.

#[export] Program Instance reference_laws : RedisLaws DB := {|
  db d := d;
  scan_rest d p c := list_to_set
    (filter (λ k, prefixed p k = true) (drop (N.to_nat c) (map_to_list d).*1));
  scan_calls d p c := (length (map_to_list d).*1 - N.to_nat c)%nat;
|}.
Solve Obligations with (try solve [intros; intros ?; apply surjective_pairing]).
Next Obligation.
  intros k s. cbn -[as_set]. unfold at_key, get, mbind, M_bind. simpl. split.
  - intros e He. exists s. destruct (s !! k) as [[]|]; by simplify_eq/=.
  - intros m Hm. exists (elements m), s. destruct (s !! k) as [[]|]; by simplify_eq/=.
Qed.
Next Obligation.
  intros d p. cbv beta. change (N.to_nat 0) with 0%nat. rewrite drop_0. apply set_eq. intros k.
  rewrite elem_of_list_to_set, list_elem_of_filter, elem_of_dom, list_elem_of_fmap. split.
  - intros [Hp ([k' v] & -> & Hv%elem_of_map_to_list)]. exists v.
    apply map_lookup_filter_Some. simpl in *. done.
  - intros [v [Hv Hp]%map_lookup_filter_Some]. split; [done|]. exists (k, v).
    by rewrite elem_of_map_to_list.
Qed.
Next Obligation. intros cursor p count s. apply reference_SCAN. Qed.

(** ** Programs over the commands *)

Section refinement.
Context `{RedisLaws R}.

Lemma refines_EVAL {A} (script : M DB A) : refines db (EVAL script) (EVAL script).
Proof. apply law_EVAL. Qed.

Lemma refines_Exec l l' : Forall2 (refines db) l l' → refines db (Exec l) (Exec l').
Proof.
  induction 1 as [|m f l l' Hm Hl IH]; [apply refines_ret|]. simpl.
  apply refines_bind; [by apply refines_attempt|]. intros r.
  apply refines_bind; [by apply refines_attempt|]. intros r'.
  destruct r, r'; apply refines_ret || apply refines_throw.
Qed.
End refinement.

#[export] Hint Resolve refines_EVAL law_PING law_GET law_SET law_SETNX law_EXISTS law_DEL law_ZADD law_ZREM law_ZCARD
  law_ZRANGE law_ZRANGEBYSCORE law_SADD law_SREM law_HINCRBY law_HSET law_HGET law_HGETALL : refinement.

(** ** The loops over [SCAN]

    [for { keys, cursor, err = Scan(...); ...; if cursor == 0 { break } }]. *)
Fixpoint scan_loop `{RedisClient R} {A} (msg prefix : string) (page : A → list string → M R A)
    (fuel : nat) (cursor : N) (acc : A) : M R A :=
  match fuel with
  | O => panic "out of fuel"
  | S fuel =>
      r ← wrap_err msg (SCAN cursor (prefix +:+ "*") 100);
      acc ← page acc r.1;
      if (r.2 =? 0)%N then mret acc else scan_loop msg prefix page fuel r.2 acc
  end.

Section scan.
Context `{RedisLaws R} {A : Type} (msg prefix : string) (page : A → list string → M R A)
  (f : DB → A → list string → A).

(** Reading a page is a function of the data, which it leaves alone. *)
Context (page_pure : ∀ acc keys s, ∃ s', page acc keys s = (Ok (f (db s) acc keys), s') ∧ db s' = db s).

Lemma scan_loop_from fuel cursor acc s :
  (scan_calls (db s) prefix cursor < fuel)%nat →
  ∃ pages s', scan_loop msg prefix page fuel cursor acc s = (Ok (foldl (f (db s)) acc pages), s') ∧
    db s' = db s ∧ (∀ k, k ∈ concat pages → is_Some (db s !! k) ∧ prefixed prefix k = true) ∧
    scan_rest (db s) prefix cursor ⊆ list_to_set (concat pages).
Proof.
  revert cursor acc s. induction fuel as [|fuel IH]; intros cursor acc s Hf; [lia|].
  destruct (law_SCAN cursor prefix 100 s ltac:(lia)) as (keys & next & s1 & Hs & Hd & Hk & Hr & Hc).
  destruct (page_pure acc keys s1) as (s2 & Hp & Hd2). rewrite Hd in Hp, Hd2.
  cbn [scan_loop]. rewrite (bind_Ok _ _ _ _ _ (wrap_err_Ok _ _ _ _ _ Hs)).
  cbn [fst snd]. rewrite (bind_Ok _ _ _ _ _ Hp).
  destruct (N.eqb_spec next 0) as [->|Hn].
  - exists [keys], s2. split; [done|]. cbn [concat]. rewrite app_nil_r. split_and!; try done.
    by rewrite (right_id_L ∅ (∪)) in Hr.
  - specialize (Hc Hn). destruct (IH next (f (db s) acc keys) s2) as (pages & s3 & Hl & Hd3 & Hk3 & Hr3).
    { rewrite Hd2. lia. }
    rewrite Hd2 in Hl, Hd3, Hk3, Hr3. exists (keys :: pages), s3. split_and!; try done.
    + intros k. cbn [concat]. rewrite elem_of_app. intros [?|?]; auto.
    + cbn [concat]. rewrite list_to_set_app_L. set_solver.
Qed.

(** With a call for every cursor the loop returns, and it has seen the keys. *)
Lemma scan_loop_all fuel acc s :
  (scan_calls (db s) prefix 0 < fuel)%nat →
  ∃ pages s', scan_loop msg prefix page fuel 0 acc s = (Ok (foldl (f (db s)) acc pages), s') ∧
    db s' = db s ∧ ∀ k, k ∈ concat pages ↔ is_Some (db s !! k) ∧ prefixed prefix k = true.
Proof.
  intros Hf. destruct (scan_loop_from fuel 0 acc s Hf) as (pages & s' & Hl & Hd & Hk & Hr).
  exists pages, s'. split_and!; try done. intros k. split; [apply Hk|].
  intros [[v Hv] Hp]. rewrite law_scan_start in Hr.
  assert (Hin : k ∈ dom (filter (λ kv : string * rvalue, prefixed prefix kv.1 = true) (db s))).
  { apply elem_of_dom. exists v. by apply map_lookup_filter_Some. }
  by apply Hr, elem_of_list_to_set in Hin.
Qed.
End scan.
