(* ===== verification/RedisStore.v ===== *)
(** * The Redis backend: jobs (internal/storage/redis/redis.go)

    The keys of the backend and the methods of [JobStore], as programs over the
    commands of the server. Jobs are stored as JSON; the messages of the
    errors of encoding/json are not modelled. *)

From S2P Require Import Prelude Errors GoMonad Job Decimal Rfc3339 Json JobJson Redis StorageConfig.

(** ** Keys *)

Definition keyPrefixJob : string := "job:".
Definition keyPrefixQueue : string := "queue:".
Definition keyPrefixScheduled : string := "scheduled:".
Definition keyPrefixWorker : string := "worker:".
Definition keyPrefixQueueStats : string := "stats:queue:".
Definition keyPrefixJobType : string := "stats:jobtype:".
Definition keyPrefixConfig : string := "config:queue:".
Definition keyPrefixQueuePause : string := "pause:queue:".
Definition keyQueueZSet : string := "zset:".

Definition json_error : error := Errorf "json".

(** [data, err := json.Marshal(v); if err != nil { return fmt.Errorf(msg) }]. *)
Definition marshal {St} `{JsonStruct A} (msg : string) (a : A) : M St string :=
  match Marshal a with
  | Some data => mret data
  | None => throw (Wrapf msg json_error)
  end.

(** [if err := json.Unmarshal(data, &v); err != nil { return fmt.Errorf(msg) }]. *)
Definition unmarshal {St} `{JsonStruct A} (msg : string) (data : string) : M St A :=
  match Unmarshal data with
  | Some a => mret a
  | None => throw (Wrapf msg json_error)
  end.

(** [type JobFilter struct] (storage.go). *)
Record JobFilter : Type := mkJobFilter {
  f_Queue : string;
  f_Status : list string;
  f_Type : string;
  f_WorkerID : string;
  f_CreatedAfter : option Time;
  f_CreatedBefore : option Time;
  f_Limit : Z;
  f_Offset : Z;
  f_SortBy : string;
  f_SortDesc : bool;
}.

(** ** JobStore *)

Section methods.
Context `{RedisClient R}.

(** [NewRedisStore]: the state is that of the client and the server which
    [redis.NewClient] makes from the configuration; the answer to the first
    [PING] decides. *)
Definition NewRedisStore (config : option RedisConfig) : M R unit :=
  match config with
  | None => throw ErrInvalidConfiguration
  | Some _ => wrap_err "failed to connect to Redis" PING
  end.

Definition Create (j : Job) : M R unit :=
  if bool_decide (j_ID j = "") then throw ErrInvalidValue else
  data ← marshal "failed to marshal job" j;
  let key := keyPrefixJob +:+ j_ID j in
  set ← wrap_err "failed to create job" (SETNX key data);
  if negb set then throw ErrJobAlreadyExists else mret tt.

Definition Get (jobID : string) : M R Job :=
  if bool_decide (jobID = "") then throw ErrInvalidValue else
  let key := keyPrefixJob +:+ jobID in
  data ← wrap_err "failed to get job" (GET key);
  match data with
  | None => throw ErrJobNotFound
  | Some data => unmarshal "failed to unmarshal job" data
  end.

Definition Update (j : Job) : M R unit :=
  if bool_decide (j_ID j = "") then throw ErrInvalidValue else
  let key := keyPrefixJob +:+ j_ID j in
  exists_ ← wrap_err "failed to check job existence" (EXISTS key);
  if exists_ =? 0 then throw ErrJobNotFound else
  data ← marshal "failed to marshal job" j;
  wrap_err "failed to update job" (SET key data).

Definition Delete (jobID : string) : M R unit :=
  if bool_decide (jobID = "") then throw ErrInvalidValue else
  let key := keyPrefixJob +:+ jobID in
  result ← wrap_err "failed to delete job" (DEL key);
  if result =? 0 then throw ErrJobNotFound else mret tt.

(** The filters of [List]. *)
Definition selected (filter : JobFilter) (j : Job) : bool :=
  (bool_decide (f_Queue filter = "") || bool_decide (j_Queue j = f_Queue filter)) &&
  (bool_decide (f_Type filter = "") || bool_decide (j_Type j = f_Type filter)) &&
  (bool_decide (f_WorkerID filter = "") || bool_decide (j_WorkerID j = f_WorkerID filter)) &&
  (bool_decide (f_Status filter = []) || bool_decide (j_Status j ∈ f_Status filter)) &&
  match f_CreatedAfter filter with Some t => negb (Before (j_CreatedAt j) t) | None => true end &&
  match f_CreatedBefore filter with Some t => negb (After (j_CreatedAt j) t) | None => true end.

(** The body of the loop of [List] for one page of keys. *)
Fixpoint list_page (filter : JobFilter) (jobs : list Job) (keys : list string) : M R (list Job) :=
  match keys with
  | [] => mret jobs
  | key :: keys =>
      data ← attempt (GET key);
      let jobs :=
        match data with
        | inl (Some data) =>
            match Unmarshal data with
            | Some j => if selected filter j then jobs ++ [j] else jobs
            | None => jobs
            end
        | inl None | inr _ => jobs
        end in
      list_page filter jobs keys
  end.

(** The limit and the offset. *)
Definition paginate (filter : JobFilter) (jobs : list Job) : list Job :=
  let n := Z.of_nat (length jobs) in
  if (0 <? f_Offset filter) && (n <=? f_Offset filter) then [] else
  let jobs := if 0 <? f_Offset filter then drop (Z.to_nat (f_Offset filter)) jobs else jobs in
  if (0 <? f_Limit filter) && (f_Limit filter <? Z.of_nat (length jobs))
  then take (Z.to_nat (f_Limit filter)) jobs else jobs.

Definition List (fuel : nat) (filter : JobFilter) : M R (list Job) :=
  jobs ← scan_loop "failed to scan jobs" keyPrefixJob (list_page filter) fuel 0 [];
  mret (paginate filter jobs).

(** The job with the times that [UpdateStatus] sets. *)
Definition with_status (now : Time) (status : string) (j : Job) : Job :=
  let j := set_j_Status status j in
  let j := if bool_decide (status = StatusRunning) && bool_decide (j_StartedAt j = None)
           then set_j_StartedAt (Some now) j else j in
  if IsTerminal j && bool_decide (j_CompletedAt j = None)
  then set_j_CompletedAt (Some now) j else j.

Definition UpdateStatus (clk : Clock) (jobID status : string) : M R unit :=
  j ← Get jobID; Update (with_status (clk 0%nat) status j).

Definition UpdateProgress (jobID : string) (progress : Z) : M R unit :=
  j ← Get jobID; Update (set_j_Progress progress j).

Definition SetResult (jobID result : string) : M R unit :=
  j ← Get jobID; Update (set_j_Result result j).

Definition SetError (jobID errMsg : string) : M R unit :=
  j ← Get jobID; Update (set_j_Error errMsg j).

Definition Health : M R unit := PING.
End methods.

#[global] Arguments NewRedisStore {R _}.

(** ** Refinement of the reference server *)

Section refinement.
Context `{RedisLaws R}.

Lemma refines_marshal `{JsonStruct A} msg (a : A) : refines db (marshal msg a) (marshal msg a).
Proof. unfold marshal. solve_refines. Qed.

Lemma refines_unmarshal `{JsonStruct A} msg data :
  refines db (unmarshal (A:=A) msg data) (unmarshal msg data).
Proof. unfold unmarshal. solve_refines. Qed.
#[local] Hint Resolve refines_marshal refines_unmarshal : refinement.

Lemma refines_Create j : refines db (Create j) (Create j).
Proof. unfold Create. solve_refines. Qed.

Lemma refines_Get id : refines db (Get id) (Get id).
Proof. unfold Get. solve_refines. Qed.

Lemma refines_Update j : refines db (Update j) (Update j).
Proof. unfold Update. solve_refines. Qed.

Lemma refines_Delete id : refines db (Delete id) (Delete id).
Proof. unfold Delete. solve_refines. Qed.
#[local] Hint Resolve refines_Create refines_Get refines_Update refines_Delete : refinement.

Lemma refines_UpdateStatus clk id st : refines db (UpdateStatus clk id st) (UpdateStatus clk id st).
Proof. unfold UpdateStatus. solve_refines. Qed.

Lemma refines_UpdateProgress id p : refines db (UpdateProgress id p) (UpdateProgress id p).
Proof. unfold UpdateProgress. solve_refines. Qed.

Lemma refines_SetResult id r : refines db (SetResult id r) (SetResult id r).
Proof. unfold SetResult. solve_refines. Qed.

Lemma refines_SetError id e : refines db (SetError id e) (SetError id e).
Proof. unfold SetError. solve_refines. Qed.

Lemma refines_Health : refines db Health Health.
Proof. unfold Health. solve_refines. Qed.
End refinement.

#[export] Hint Resolve refines_marshal refines_unmarshal refines_Create refines_Get refines_Update
  refines_Delete refines_UpdateStatus refines_UpdateProgress refines_SetResult refines_SetError
  refines_Health : refinement.
