(* ===== verification/RedisJobs.v ===== *)
(** * The jobs of the Redis backend

    [JobStore] on a Redis server is a map of jobs: every method returns what
    the map gives and changes it as the map changes; [List] returns once the
    server has returned to the first cursor. *)

From S2P Require Import Prelude Errors GoMonad Job Decimal Rfc3339 Json JobJson Redis RedisStore.

(** ** The map of jobs *)

Abbreviation Jobs := (string → option Job).

Definition jobs_of (d : DB) : Jobs := λ id,
  match d !! (keyPrefixJob +:+ id) with
  | Some (RString data) => Unmarshal data
  | _ => None
  end.

(** Every job is stored under its identifier as [Marshal] prints it. *)
Definition jobs_ok (d : DB) : Prop := ∀ id v, d !! (keyPrefixJob +:+ id) = Some v →
  ∃ data j, v = RString data ∧ Unmarshal data = Some j ∧ storable_Job j = true ∧
    stored_Job j = j ∧ j_ID j = id.

Definition put_job (id : string) (j : option Job) (v : Jobs) : Jobs := λ id',
  if bool_decide (id' = id) then j else v id'.

(** The methods on one job. *)
Inductive job_call : Type :=
  | CCreate (j : Job)
  | CGet (id : string)
  | CUpdate (j : Job)
  | CDelete (id : string)
  | CUpdateStatus (now : Time) (id status : string)
  | CUpdateProgress (id : string) (progress : Z)
  | CSetResult (id result : string)
  | CSetError (id errMsg : string).

Definition job_call_run `{RedisClient R} (c : job_call) : M R (option Job) :=
  match c with
  | CCreate j => Create j ;; mret None
  | CGet id => j ← Get id; mret (Some j)
  | CUpdate j => Update j ;; mret None
  | CDelete id => Delete id ;; mret None
  | CUpdateStatus now id status => UpdateStatus (λ _, now) id status ;; mret None
  | CUpdateProgress id p => UpdateProgress id p ;; mret None
  | CSetResult id r => SetResult id r ;; mret None
  | CSetError id e => SetError id e ;; mret None
  end.

Definition marshal_failed : error := Wrapf "failed to marshal job" json_error.

(** What a map of jobs does with a call. *)
Definition change (id : string) (f : Job → Job) (v : Jobs) : res (option Job) * Jobs :=
  if bool_decide (id = "") then (Err ErrInvalidValue, v) else
  match v id with
  | None => (Err ErrJobNotFound, v)
  | Some j => (Ok None, put_job id (Some (f j)) v)
  end.

Definition job_spec (c : job_call) (v : Jobs) : res (option Job) * Jobs :=
  match c with
  | CCreate j =>
      if bool_decide (j_ID j = "") then (Err ErrInvalidValue, v)
      else match v (j_ID j) with
           | Some _ => (Err ErrJobAlreadyExists, v)
           | None => (Ok None, put_job (j_ID j) (Some (stored_Job j)) v)
           end
  | CGet id =>
      if bool_decide (id = "") then (Err ErrInvalidValue, v)
      else match v id with Some j => (Ok (Some j), v) | None => (Err ErrJobNotFound, v) end
  | CUpdate j => change (j_ID j) (λ _, stored_Job j) v
  | CDelete id =>
      if bool_decide (id = "") then (Err ErrInvalidValue, v)
      else match v id with Some _ => (Ok None, put_job id None v) | None => (Err ErrJobNotFound, v) end
  | CUpdateStatus now id status => change id (with_status now status) v
  | CUpdateProgress id p => change id (set_j_Progress p) v
  | CSetResult id r =>
      if raw_ok r then change id (set_j_Result r) v
      else match change id (set_j_Result r) v with
           | (Ok _, _) => (Err marshal_failed, v)
           | x => x
           end
  | CSetError id e => change id (set_j_Error e) v
  end.

(** The arguments that JSON can store: a result is compact JSON or none at all. *)
Definition call_ok (c : job_call) : bool :=
  match c with
  | CCreate j | CUpdate j => storable_Job j
  | CUpdateStatus now _ _ => printable now
  | CUpdateProgress _ p => in_int64 p
  | CSetResult _ r => raw_ok r || bool_decide (parse r = None)
  | CGet _ | CDelete _ | CSetError _ _ => true
  end.

(** ** Facts *)

Lemma job_key_inj id id' : keyPrefixJob +:+ id = keyPrefixJob +:+ id' → id = id'.
Proof. unfold keyPrefixJob. by intros [= ?]. Qed.

Lemma jobs_of_insert d id data : ∀ id',
  jobs_of (<[keyPrefixJob +:+ id := RString data]> d) id' = put_job id (Unmarshal data) (jobs_of d) id'.
Proof.
  intros id'. unfold jobs_of, put_job. case_bool_decide as E; [subst; by rewrite lookup_insert_eq|].
  rewrite lookup_insert_ne; [done|]. intros Hk%job_key_inj. congruence.
Qed.

Lemma jobs_of_delete d id : ∀ id',
  jobs_of (delete (keyPrefixJob +:+ id) d) id' = put_job id None (jobs_of d) id'.
Proof.
  intros id'. unfold jobs_of, put_job. case_bool_decide as E; [subst; by rewrite lookup_delete_eq|].
  rewrite lookup_delete_ne; [done|]. intros Hk%job_key_inj. congruence.
Qed.

Lemma jobs_ok_insert d id data j : jobs_ok d → Unmarshal data = Some j → storable_Job j = true →
  stored_Job j = j → j_ID j = id → jobs_ok (<[keyPrefixJob +:+ id := RString data]> d).
Proof.
  intros Hd Hu Hs Hst Hid id' v. destruct (decide (id' = id)) as [->|Hne].
  - rewrite lookup_insert_eq. intros [= <-]. by exists data, j.
  - rewrite lookup_insert_ne; [apply Hd|]. intros Hk%job_key_inj. congruence.
Qed.

Lemma jobs_ok_delete d k : jobs_ok d → jobs_ok (delete k d).
Proof. intros Hd id v [_ Hv]%lookup_delete_Some. by apply Hd. Qed.

Lemma jobs_of_Some d id j : jobs_ok d → jobs_of d id = Some j →
  ∃ data, d !! (keyPrefixJob +:+ id) = Some (RString data) ∧ Unmarshal data = Some j ∧
    storable_Job j = true ∧ stored_Job j = j ∧ j_ID j = id.
Proof.
  unfold jobs_of. intros Hd Hj. destruct (d !! _) as [v|] eqn:E; [|done].
  destruct (Hd _ _ E) as (data & j' & -> & Hu & H). rewrite Hu in Hj. simplify_eq. by exists data.
Qed.

Lemma jobs_of_None d id : jobs_ok d → jobs_of d id = None → d !! (keyPrefixJob +:+ id) = None.
Proof.
  unfold jobs_of. intros Hd Hj. destruct (d !! _) as [v|] eqn:E; [|done].
  destruct (Hd _ _ E) as (data & j' & -> & Hu & _). congruence.
Qed.

Lemma print_nonempty v : json_ok v = true → print v ≠ "".
Proof. intros Hv E. apply parse_print in Hv. by rewrite E in Hv. Qed.

Lemma compact_null : compact "null" = true.
Proof. done. Qed.

Lemma stored_idemp j : stored_Job (stored_Job j) = stored_Job j.
Proof. unfold stored_Job. simpl. by repeat case_bool_decide. Qed.

Lemma storable_stored j : storable_Job j = true → storable_Job (stored_Job j) = true.
Proof.
  unfold storable_Job, times_ok, raw_ok. simpl. case_bool_decide as E; [|by rewrite (bool_decide_false _ E)].
  by rewrite compact_null.
Qed.

(** ** The methods on the reference server *)

Lemma marshal_storable `{JsonLaws A} msg (a : A) (d : DB) : storable a = true →
  ∃ data, marshal msg a d = (Ok data, d) ∧ Unmarshal data = Some (stored a).
Proof.
  intros (data & Hm & Hu)%Unmarshal_Marshal. exists data. unfold marshal. by rewrite Hm.
Qed.

Lemma Get_reference id d : jobs_ok d →
  Get id d = (if bool_decide (id = "") then Err ErrInvalidValue
              else match jobs_of d id with Some j => Ok j | None => Err ErrJobNotFound end, d).
Proof.
  intros Hd. unfold Get. case_bool_decide; [done|].
  unfold wrap_err, mbind, M_bind. simpl. unfold at_key, get, mbind, M_bind. simpl.
  destruct (jobs_of d id) as [j|] eqn:E.
  - destruct (jobs_of_Some d id j Hd E) as (data & Hk & Hu & _). rewrite Hk. simpl.
    unfold unmarshal. by rewrite Hu.
  - by rewrite (jobs_of_None d id Hd E).
Qed.

Lemma Update_reference j d : jobs_ok d → storable_Job j = true →
  (j_ID j = "" ∧ Update j d = (Err ErrInvalidValue, d)) ∨
  (j_ID j ≠ "" ∧ jobs_of d (j_ID j) = None ∧ Update j d = (Err ErrJobNotFound, d)) ∨
  (j_ID j ≠ "" ∧ is_Some (jobs_of d (j_ID j)) ∧ ∃ data, Unmarshal data = Some (stored_Job j) ∧
    Update j d = (Ok tt, <[keyPrefixJob +:+ j_ID j := RString data]> d)).
Proof.
  intros Hd Hs. unfold Update. case_bool_decide as Hid; [by left|right].
  unfold wrap_err, mbind, M_bind. simpl.
  destruct (jobs_of d (j_ID j)) as [j0|] eqn:E.
  - right. destruct (jobs_of_Some d _ _ Hd E) as (data0 & Hk & _).
    destruct (marshal_storable (A:=Job) "failed to marshal job" j d) as (data & Hm & Hu); [exact Hs|].
    split_and!; [done|by eexists|]. exists data. split; [done|].
    rewrite bool_decide_false by (by rewrite Hk). simpl. by rewrite Hm.
  - left. split_and!; [done..|]. rewrite bool_decide_true; [done|]. by apply jobs_of_None.
Qed.

(** A method that reads a job, changes it and writes it back. *)
Lemma read_write_reference id f d :
  jobs_ok d →
  (∀ j, jobs_of d id = Some j →
    storable_Job (f j) = true ∧ stored_Job (f j) = f j ∧ j_ID (f j) = j_ID j) →
  ∃ d', ((j ← Get id; Update (f j)) ;; mret None) d = ((change id f (jobs_of d)).1, d') ∧
    jobs_ok d' ∧ ∀ id', jobs_of d' id' = (change id f (jobs_of d)).2 id'.
Proof.
  intros Hd Hf. unfold mbind, M_bind, change. rewrite Get_reference by done.
  case_bool_decide as Hid; [by exists d|].
  destruct (jobs_of d id) as [j|] eqn:E; [|by exists d].
  destruct (Hf j eq_refl) as (Hs & Hst & HID).
  destruct (jobs_of_Some d id j Hd E) as (data & Hk & Hu & Hsj & Hstj & Hidj).
  rewrite Hidj in HID.
  destruct (Update_reference (f j) d Hd Hs) as [[He _]|[(_ & Hn & _)|(_ & _ & data' & Hu' & ->)]];
    [congruence|congruence|].
  rewrite HID. eexists. split_and!; [done| |].
  - apply (jobs_ok_insert _ _ _ (f j)); [done|congruence..].
  - intros id'. rewrite jobs_of_insert, Hu', Hst. done.
Qed.

(** The changes of the methods keep a stored job storable. *)
Lemma stored_fixed j : stored_Job j = j →
  j_Payload j ≠ "" ∧ j_RetryCount j = 0 ∧ j_TimeoutSeconds j = 0 ∧ j_UpdatedAt j = 0.
Proof.
  intros E. split_and!; [|by rewrite <- E..]. intros He.
  apply (f_equal j_Payload) in E. simpl in E. by rewrite He in E.
Qed.

Lemma fixed_stored j : j_Payload j ≠ "" → j_RetryCount j = 0 → j_TimeoutSeconds j = 0 →
  j_UpdatedAt j = 0 → stored_Job j = j.
Proof.
  unfold stored_Job. destruct j; simpl. intros ? -> -> ->. by rewrite bool_decide_false.
Qed.

Lemma with_status_fields now status j :
  let k := with_status now status j in
  j_ID k = j_ID j ∧ j_Payload k = j_Payload j ∧ j_RetryCount k = j_RetryCount j ∧
  j_TimeoutSeconds k = j_TimeoutSeconds j ∧ j_UpdatedAt k = j_UpdatedAt j.
Proof. unfold with_status. by repeat case_match. Qed.

Lemma storable_set_time now j : printable now = true → storable_Job j = true →
  storable_Job (set_j_StartedAt (Some now) j) = true ∧
  storable_Job (set_j_CompletedAt (Some now) j) = true.
Proof.
  intros Hn. unfold storable_Job, times_ok. simpl. rewrite Hn, !andb_true_iff. intuition.
Qed.

Lemma storable_with_status now status j :
  printable now = true → storable_Job j = true → storable_Job (with_status now status j) = true.
Proof.
  intros Hn Hj. unfold with_status.
  assert (Hs : storable_Job (set_j_Status status j) = true) by exact Hj.
  assert (Hs' : storable_Job (set_j_StartedAt (Some now) (set_j_Status status j)) = true)
    by exact (proj1 (storable_set_time now _ Hn Hs)).
  repeat case_match; try done; by apply (storable_set_time now _ Hn).
Qed.

Lemma storable_set_result r j :
  storable_Job j = true → storable_Job (set_j_Result r j) = raw_ok r.
Proof.
  unfold storable_Job, times_ok. simpl. rewrite !andb_true_iff. intros (((Hi&Ht)&Hp)&_).
  destruct Hi as (->&->&->&->&->&_), Ht as (->&->&->&->&_). by rewrite Hp.
Qed.

Lemma storable_set_progress p j :
  storable_Job j = true → storable_Job (set_j_Progress p j) = in_int64 p.
Proof.
  unfold storable_Job, times_ok. simpl. rewrite !andb_true_iff. intros (((Hi&Ht)&Hp)&Hr).
  destruct Hi as (->&->&->&->&_&_), Ht as (->&->&->&->&_). rewrite Hp, Hr. by destruct (in_int64 p).
Qed.

Definition implements (c : job_call) (d : DB) : Prop :=
  ∃ d', job_call_run c d = ((job_spec c (jobs_of d)).1, d') ∧ jobs_ok d' ∧
    ∀ id, jobs_of d' id = (job_spec c (jobs_of d)).2 id.

Lemma implements_Create j d : jobs_ok d → storable_Job j = true → implements (CCreate j) d.
Proof.
  intros Hd Hs. unfold implements. simpl. unfold Create. case_bool_decide as Hid; [by exists d|].
  destruct (marshal_storable (A:=Job) "failed to marshal job" j d) as (data & Hm & Hu); [exact Hs|].
  unfold mbind, M_bind. rewrite Hm. unfold wrap_err. simpl. unfold get, mbind, M_bind. simpl.
  destruct (jobs_of d (j_ID j)) as [j0|] eqn:E.
  - destruct (jobs_of_Some d _ _ Hd E) as (data0 & Hk & _).
    rewrite bool_decide_false by (by rewrite Hk). by exists d.
  - rewrite bool_decide_true by (by apply jobs_of_None). simpl. eexists. split_and!; [done| |].
    + apply (jobs_ok_insert _ _ _ (stored_Job j)); auto using storable_stored, stored_idemp.
    + intros id. by rewrite jobs_of_insert, Hu.
Qed.

Lemma implements_Delete id d : jobs_ok d → implements (CDelete id) d.
Proof.
  intros Hd. unfold implements. simpl. unfold Delete. case_bool_decide as Hid; [by exists d|].
  unfold wrap_err, mbind, M_bind. simpl. unfold get, mbind, M_bind. simpl.
  destruct (jobs_of d id) as [j0|] eqn:E.
  - destruct (jobs_of_Some d _ _ Hd E) as (data0 & Hk & _).
    rewrite bool_decide_false by (by rewrite Hk). eexists. split_and!; [done| |].
    + by apply jobs_ok_delete.
    + intros id'. apply jobs_of_delete.
  - apply jobs_of_None in E; [|done]. rewrite bool_decide_true by done. simpl.
    exists (delete (keyPrefixJob +:+ id) d). by rewrite delete_id.
Qed.

Lemma implements_Update j d : jobs_ok d → storable_Job j = true → implements (CUpdate j) d.
Proof.
  intros Hd Hs. unfold implements. simpl. unfold change, mbind, M_bind.
  destruct (Update_reference j d Hd Hs) as [[He ->]|[(Hne & Hn & ->)|(Hne & [j0 Hj0] & data & Hu & ->)]].
  - rewrite bool_decide_true by done. by exists d.
  - rewrite bool_decide_false, Hn by done. by exists d.
  - rewrite bool_decide_false, Hj0 by done. eexists. split_and!; [done| |].
    + apply (jobs_ok_insert _ _ _ (stored_Job j)); auto using storable_stored, stored_idemp.
    + intros id. by rewrite jobs_of_insert, Hu.
Qed.

(** A result that is not JSON cannot be written. *)
Lemma implements_SetResult_bad id r d :
  jobs_ok d → raw_ok r = false → parse r = None → implements (CSetResult id r) d.
Proof.
  intros Hd Hr Hp. unfold implements. simpl. rewrite Hr. unfold SetResult, mbind, M_bind, change.
  rewrite Get_reference by done. case_bool_decide as Hid; [by exists d|].
  destruct (jobs_of d id) as [j|] eqn:E; [|by exists d]. exists d.
  destruct (jobs_of_Some d id j Hd E) as (data & Hk & Hu & Hs & Hst & Hidj).
  unfold Update. simpl. rewrite bool_decide_false by congruence. rewrite Hidj.
  unfold wrap_err, mbind, M_bind. simpl. rewrite bool_decide_false by (by rewrite Hk). simpl.
  assert (Hm : Marshal (set_j_Result r j) = None).
  { apply Marshal_bad_result. unfold to_raw. simpl. case_bool_decide as He; [by subst|done]. }
  unfold marshal. by rewrite Hm.
Qed.

Lemma implements_all c d : jobs_ok d → call_ok c = true → implements c d.
Proof.
  intros Hd. destruct c as [j|id|j|id|now id st|id p|id r|id e]; simpl; intros Hc.
  - by apply implements_Create.
  - exists d. simpl. unfold mbind, M_bind. rewrite Get_reference by done.
    case_bool_decide; [done|]. by destruct (jobs_of d id).
  - by apply implements_Update.
  - by apply implements_Delete.
  - apply (read_write_reference id (with_status now st) d Hd). intros j Hj.
    destruct (jobs_of_Some d id j Hd Hj) as (data & _ & _ & Hs & (?&?&?&?)%stored_fixed & _).
    destruct (with_status_fields now st j) as (?&?&?&?&?).
    split_and!; [by apply storable_with_status|apply fixed_stored; congruence|done].
  - apply (read_write_reference id (set_j_Progress p) d Hd). intros j Hj.
    destruct (jobs_of_Some d id j Hd Hj) as (data & _ & _ & Hs & (?&?&?&?)%stored_fixed & _).
    split_and!; [by rewrite storable_set_progress|by apply fixed_stored|done].
  - destruct (raw_ok r) eqn:Hr.
    + unfold implements. simpl. rewrite Hr. apply (read_write_reference id (set_j_Result r) d Hd).
      intros j Hj.
      destruct (jobs_of_Some d id j Hd Hj) as (data & _ & _ & Hs & (?&?&?&?)%stored_fixed & _).
      split_and!; [by rewrite storable_set_result|by apply fixed_stored|done].
    + apply implements_SetResult_bad; [done..|]. by apply bool_decide_eq_true in Hc.
  - apply (read_write_reference id (set_j_Error e) d Hd). intros j Hj.
    destruct (jobs_of_Some d id j Hd Hj) as (data & _ & _ & Hs & (?&?&?&?)%stored_fixed & _).
    split_and!; [done|by apply fixed_stored|done].
Qed.

(** ** [JobStore] on a server *)

Section server.
Context `{RedisLaws R}.

Lemma refines_job_call c : refines db (job_call_run c) (job_call_run c).
Proof. unfold job_call_run. solve_refines. Qed.

(** C20. The methods of [JobStore] on one job implement a map: on a server that
    answers, every call returns what the map of the stored jobs gives
    (the identifiers that are empty, taken or unknown included) and changes the
    map, and only it, as specified; a result that is not JSON is refused. *)
Theorem redis_jobs_refine_map c (s : R) :
  jobs_ok (db s) → call_ok c = true →
  jobs_ok (db (job_call_run c s).2) ∧
  (job_call_run c s).1 = (job_spec c (jobs_of (db s))).1 ∧
  ∀ id, jobs_of (db (job_call_run c s).2) id = (job_spec c (jobs_of (db s))).2 id.
Proof.
  intros Hd Hc. destruct (implements_all c (db s) Hd Hc) as (d' & Hr & Hok & Hv).
  destruct (refines_run _ _ _ _ _ _ (refines_job_call c) Hr) as [-> ->]. done.
Qed.

(** ** [List] *)

(** The jobs that the loop keeps of a page. *)
Definition page_jobs (filter : JobFilter) (d : DB) (keys : list string) : list Job :=
  omap (λ k, match d !! k with
             | Some (RString data) => j ← Unmarshal data; if selected filter j then Some j else None
             | _ => None
             end) keys.

Lemma list_page_reference filter acc keys (d : DB) :
  list_page filter acc keys d = (Ok (acc ++ page_jobs filter d keys), d).
Proof.
  revert acc. induction keys as [|k keys IH]; intros acc; simpl; [by rewrite app_nil_r|].
  unfold attempt, mbind, M_bind. simpl. unfold at_key, get, mbind, M_bind. simpl.
  destruct (d !! k) as [[data|m|m|m]|]; simpl; rewrite IH; try done.
  destruct (Unmarshal data) as [j|]; simpl; [|done]. destruct (selected filter j); [|done].
  by rewrite <- app_assoc.
Qed.

Lemma refines_list_page filter acc keys :
  refines db (list_page filter acc keys) (list_page filter acc keys).
Proof.
  revert acc. induction keys as [|k keys IH]; intros acc; simpl; [solve_refines|].
  apply refines_bind; [apply refines_attempt, law_GET|]. intros r. apply IH.
Qed.

Lemma list_page_pure filter acc keys (s : R) :
  ∃ s', list_page filter acc keys s = (Ok (acc ++ page_jobs filter (db s) keys), s') ∧ db s' = db s.
Proof.
  destruct (refines_run _ _ _ s _ _ (refines_list_page filter acc keys)
    (list_page_reference filter acc keys (db s))) as [Hr Hd].
  exists (list_page filter acc keys s).2. split; [|done]. by rewrite <- Hr, <- surjective_pairing.
Qed.

Lemma foldl_pages filter (d : DB) acc pages :
  foldl (λ acc keys, acc ++ page_jobs filter d keys) acc pages = acc ++ page_jobs filter d (concat pages).
Proof.
  revert acc. induction pages as [|p pages IH]; intros acc; simpl; [by rewrite app_nil_r|].
  rewrite IH. unfold page_jobs. by rewrite omap_app, app_assoc.
Qed.

(** [List] ends: after at most as many calls of [SCAN] as the server needs to
    come back to cursor 0, it returns a page of a list that has every stored job
    the filter selects and no other, and the server's data is unchanged. A job
    may be listed more than once, as [SCAN] may return a key more than once. *)
Theorem redis_List_returns fuel filter (s : R) :
  jobs_ok (db s) → (scan_calls (db s) keyPrefixJob 0 < fuel)%nat →
  ∃ jobs, (List fuel filter s).1 = Ok (paginate filter jobs) ∧ db (List fuel filter s).2 = db s ∧
    ∀ j, j ∈ jobs ↔ selected filter j = true ∧ jobs_of (db s) (j_ID j) = Some j.
Proof.
  intros Hok Hf.
  destruct (scan_loop_all "failed to scan jobs" keyPrefixJob (list_page filter)
    (λ d acc keys, acc ++ page_jobs filter d keys) (list_page_pure filter) fuel [] s Hf)
    as (pages & s' & Hl & Hd & Hk).
  rewrite foldl_pages in Hl. simpl in Hl. exists (page_jobs filter (db s) (concat pages)).
  unfold List, mbind, M_bind. rewrite Hl. split_and!; [done..|].
  intros j. unfold page_jobs. rewrite list_elem_of_omap. split.
  - intros (k & Hin & Hj). apply Hk in Hin as [[v Hv] Hp]. apply prefixed_spec in Hp as [id ->].
    destruct (Hok _ _ Hv) as (data & j' & -> & Hu & _ & _ & Hid). rewrite Hv, Hu in Hj. simpl in Hj.
    destruct (selected filter j') eqn:Hs; [|done]. injection Hj as ->. split; [done|].
    unfold jobs_of. by rewrite Hid, Hv.
  - intros [Hs Hj]. destruct (jobs_of_Some _ _ _ Hok Hj) as (data & Hv & Hu & _).
    exists (keyPrefixJob +:+ j_ID j). split.
    + apply Hk. split; [by eexists|]. apply prefixed_spec. by eexists.
    + rewrite Hv, Hu. simpl. by rewrite Hs.
Qed.
End server.

(** ** Witnesses, on the server that is its data *)

Definition demo_job : Job := mkJob "mail-1" "send_email" "[1]" 7 "PENDING" 3 0 2 30 0 None 5 6 None
  None "" "" {[ "k" := "v" ]} "mail" 0 "".

Lemma jobs_ok_empty : jobs_ok ∅.
Proof. intros id v. by rewrite lookup_empty. Qed.

(** A server with the job. *)
Definition demo_db : DB := (Create demo_job ∅).2.

Lemma demo_db_ok : jobs_ok demo_db.
Proof.
  destruct (implements_Create demo_job ∅ jobs_ok_empty) as (d' & Hr & Hok & _); [reflexivity|].
  unfold demo_db. change (job_call_run (CCreate demo_job) ∅)
    with ((Create demo_job ;; mret None : M DB (option Job)) ∅) in Hr.
  unfold mbind, M_bind in Hr. destruct (Create demo_job ∅) as [[a|e|p] d];
    apply (f_equal snd) in Hr; simpl in Hr; by rewrite Hr.
Qed.

Lemma redis_jobs_refine_map_witness :
  (job_call_run (CUpdateStatus 9 "mail-1" StatusRunning) demo_db).1 = Ok None ∧
  j_Status <$> jobs_of (db (job_call_run (CUpdateStatus 9 "mail-1" StatusRunning) demo_db).2) "mail-1" =
    Some StatusRunning.
Proof.
  destruct (redis_jobs_refine_map (R := DB) (CUpdateStatus 9 "mail-1" StatusRunning) demo_db)
    as (_ & -> & ->); [exact demo_db_ok|reflexivity|]. split; vm_compute; reflexivity.
Defined.

Lemma redis_List_returns_witness :
  ∃ jobs, (List 2 (mkJobFilter "mail" [] "" "" None None 0 0 "" false) demo_db).1 = Ok jobs ∧
    ∀ j, j ∈ jobs ↔ selected (mkJobFilter "mail" [] "" "" None None 0 0 "" false) j = true ∧
      jobs_of demo_db (j_ID j) = Some j.
Proof.
  destruct (redis_List_returns (R := DB) 2 (mkJobFilter "mail" [] "" "" None None 0 0 "" false) demo_db)
    as (jobs & Hl & _ & Hj); [exact demo_db_ok|vm_compute; lia|].
  exists jobs. split; [exact Hl|exact Hj].
Defined.
