(* ===== verification/RedisQueue.v ===== *)
(** * The Redis backend: queues (internal/storage/redis/queue.go)

    A queue is a sorted set of job identifiers. The score is computed in
    [float64] from integers; as all the values are integers, a [float64]
    operation is the exact one followed by [round53]. *)

From S2P Require Import Prelude Errors GoMonad Job GoTime Decimal Json Redis RedisStore.

(** ** Integers as [float64] *)

(** The integer with 53 significant bits that is nearest, ties to even. *)
Definition round_bits (n m : Z) : Z :=
  let q := m / 2 ^ n in
  let r := m mod 2 ^ n in
  let up := (2 ^ n <? 2 * r) || ((2 * r =? 2 ^ n) && Z.odd q) in
  (if up then q + 1 else q) * 2 ^ n.

Definition excess_bits (m : Z) : Z := Z.max 0 (Z.log2 m - 52).

Definition round53 (z : Z) : Z :=
  if z <? 0 then - round_bits (excess_bits (- z)) (- z) else round_bits (excess_bits z) z.

(** [float64(-int(priority))*1e10 + float64(time.Now().UnixNano())]. *)
Definition score (priority : Z) (now : Time) : Z :=
  round53 (round53 (round53 (wrap64 (- priority)) * 10 ^ 10) + round53 (UnixNano now)).

(** ** QueueStore *)

Section methods.
Context `{RedisClient R}.

Definition IsQueuePaused (queueName : string) : M R bool :=
  if bool_decide (queueName = "") then throw ErrInvalidValue else
  let key := keyPrefixQueuePause +:+ queueName in
  exists_ ← wrap_err "failed to check queue pause status" (EXISTS key);
  mret (0 <? exists_).

Definition Enqueue (clk : Clock) (queueName jobID : string) (priority : Z) : M R unit :=
  if bool_decide (queueName = "") || bool_decide (jobID = "") then throw ErrInvalidValue else
  paused ← IsQueuePaused queueName;
  if paused : bool then throw ErrQueuePaused else
  let score := score priority (clk 0%nat) in
  let key := keyQueueZSet +:+ queueName in
  wrap_err "failed to enqueue job" (ZADD key score jobID).

(** The script of [Dequeue], which runs on the data. *)
Definition pop_script (key : string) : M DB (option string) :=
  jobs ← ZRANGE key 0 0;
  match jobs with
  | job :: _ => ZREM key job ;; mret (Some job)
  | [] => mret None
  end.

Definition Dequeue (queueName workerID : string) : M R string :=
  if bool_decide (queueName = "") || bool_decide (workerID = "") then throw ErrInvalidValue else
  paused ← IsQueuePaused queueName;
  if paused : bool then throw ErrQueuePaused else
  let key := keyQueueZSet +:+ queueName in
  result ← wrap_err "failed to dequeue job" (EVAL (pop_script key));
  match result with
  | None => throw ErrEmptyQueue
  | Some jobID => mret jobID
  end.

Definition Requeue (clk : Clock) (queueName jobID : string) (priority : Z) : M R unit :=
  Enqueue clk queueName jobID priority.

Definition Remove (queueName jobID : string) : M R unit :=
  if bool_decide (queueName = "") || bool_decide (jobID = "") then throw ErrInvalidValue else
  let key := keyQueueZSet +:+ queueName in
  result ← wrap_err "failed to remove job from queue" (ZREM key jobID);
  if result =? 0 then throw ErrJobNotFound else mret tt.

Definition Length (queueName : string) : M R Z :=
  if bool_decide (queueName = "") then throw ErrInvalidValue else
  let key := keyQueueZSet +:+ queueName in
  wrap_err "failed to get queue length" (ZCARD key).

Definition Peek (queueName : string) : M R string :=
  if bool_decide (queueName = "") then throw ErrInvalidValue else
  let key := keyQueueZSet +:+ queueName in
  jobs ← wrap_err "failed to peek queue" (ZRANGE key 0 0);
  match jobs with
  | [] => throw ErrEmptyQueue
  | job :: _ => mret job
  end.

(** The loop of [GetScheduled]. *)
Fixpoint get_jobs (jobIDs : list string) : M R (list Job) :=
  match jobIDs with
  | [] => mret []
  | jobID :: jobIDs =>
      j ← attempt (Get jobID);
      jobs ← get_jobs jobIDs;
      mret (match j with inl j => j :: jobs | inr _ => jobs end)
  end.

Definition GetScheduled (before : Time) (limit : Z) : M R (list Job) :=
  let key := keyPrefixScheduled +:+ "jobs" in
  jobIDs ← wrap_err "failed to get scheduled jobs" (ZRANGEBYSCORE key (round53 (Unix before)) limit);
  get_jobs jobIDs.

(** The body of the loop of [ListQueues]: the prefix is cut off. *)
Definition queue_names (queues keys : list string) : M R (list string) :=
  mret (queues ++ omap (strip_prefix keyQueueZSet) keys).

Definition ListQueues (fuel : nat) : M R (list string) :=
  scan_loop "failed to scan queues" keyQueueZSet queue_names fuel 0 [].

Definition PauseQueue (queueName : string) : M R unit :=
  if bool_decide (queueName = "") then throw ErrInvalidValue else
  SET (keyPrefixQueuePause +:+ queueName) "1".

Definition ResumeQueue (queueName : string) : M R unit :=
  if bool_decide (queueName = "") then throw ErrInvalidValue else
  DEL (keyPrefixQueuePause +:+ queueName) ;; mret tt.
End methods.

(** ** Refinement of the reference server *)

Section refinement.
Context `{RedisLaws R}.

Lemma refines_IsQueuePaused q : refines db (IsQueuePaused q) (IsQueuePaused q).
Proof. unfold IsQueuePaused. solve_refines. Qed.
#[local] Hint Resolve refines_IsQueuePaused : refinement.

Lemma refines_Enqueue clk q id p : refines db (Enqueue clk q id p) (Enqueue clk q id p).
Proof. unfold Enqueue. solve_refines. Qed.

Lemma refines_Dequeue q w : refines db (Dequeue q w) (Dequeue q w).
Proof. unfold Dequeue. solve_refines. Qed.

Lemma refines_Remove q id : refines db (Remove q id) (Remove q id).
Proof. unfold Remove. solve_refines. Qed.

Lemma refines_Length q : refines db (Length q) (Length q).
Proof. unfold Length. solve_refines. Qed.

Lemma refines_Peek q : refines db (Peek q) (Peek q).
Proof. unfold Peek. solve_refines. Qed.

Lemma refines_get_jobs ids : refines db (get_jobs ids) (get_jobs ids).
Proof. induction ids as [|id ids IH]; simpl; solve_refines. Qed.
#[local] Hint Resolve refines_get_jobs : refinement.

Lemma refines_GetScheduled t n : refines db (GetScheduled t n) (GetScheduled t n).
Proof. unfold GetScheduled. solve_refines. Qed.

Lemma refines_PauseQueue q : refines db (PauseQueue q) (PauseQueue q).
Proof. unfold PauseQueue. solve_refines. Qed.

Lemma refines_ResumeQueue q : refines db (ResumeQueue q) (ResumeQueue q).
Proof. unfold ResumeQueue. solve_refines. Qed.
End refinement.

#[export] Hint Resolve refines_IsQueuePaused refines_Enqueue refines_Dequeue refines_Remove
  refines_Length refines_Peek refines_GetScheduled refines_PauseQueue refines_ResumeQueue : refinement.

Example score_example :
  let now := unix_epoch + 1700000000123456789 in
  score 5 now = 1699999950123456768 ∧ score 5 (now + 255) = score 5 now + 256 ∧
  round53 (2 ^ 53 + 1) = 2 ^ 53 ∧ round53 (- (2 ^ 53 + 3)) = - (2 ^ 53 + 4).
Proof. vm_compute. done. Qed.
