(* ===== verification/RedisWorker.v ===== *)
(** * The Redis backend: workers (internal/storage/redis/worker.go)

    A worker is a document of its own, and its identifier is a member of the
    set [worker:set], whose key is that of a worker called "set". *)

From S2P Require Import Prelude Errors GoMonad Job Json JobJson Redis RedisStore.

(** [w.LastHeartbeat = now], [w.CurrentJobID = jobID]. *)
Definition beat (now : Time) (w : Worker) : Worker := set_w_LastHeartbeat (zero_time now) w.

Definition with_job (jobID : string) (w : Worker) : Worker :=
  if bool_decide (jobID = "")
  then set_w_Status WorkerStatusIdle (set_w_CurrentJobID None w)
  else set_w_Status WorkerStatusProcessing (set_w_CurrentJobID (Some jobID) w).

Definition set_key : string := keyPrefixWorker +:+ "set".

(** ** WorkerStore *)

Section methods.
Context `{RedisClient R}.

Definition Register (w : Worker) : M R unit :=
  if bool_decide (w_ID w = "") then throw ErrInvalidValue else
  data ← marshal "failed to marshal worker" w;
  let key := keyPrefixWorker +:+ w_ID w in
  wrap_err "failed to register worker" (SET key data) ;;
  wrap_err "failed to add worker to set" (SADD set_key (w_ID w)).

Definition Unregister (workerID : string) : M R unit :=
  if bool_decide (workerID = "") then throw ErrInvalidValue else
  let key := keyPrefixWorker +:+ workerID in
  wrap_err "failed to unregister worker" (DEL key) ;;
  wrap_err "failed to remove worker from set" (SREM set_key workerID) ;;
  mret tt.

Definition Get (workerID : string) : M R Worker :=
  if bool_decide (workerID = "") then throw ErrInvalidValue else
  let key := keyPrefixWorker +:+ workerID in
  data ← wrap_err "failed to get worker" (GET key);
  match data with
  | None => throw ErrWorkerNotFound
  | Some data => unmarshal "failed to unmarshal worker" data
  end.

(** The loop of [List]: the workers that cannot be read are skipped. *)
Fixpoint get_workers (workerIDs : list string) : M R (list Worker) :=
  match workerIDs with
  | [] => mret []
  | workerID :: workerIDs =>
      w ← attempt (Get workerID);
      workers ← get_workers workerIDs;
      mret (match w with inl w => w :: workers | inr _ => workers end)
  end.

Definition List : M R (list Worker) :=
  workerIDs ← wrap_err "failed to list workers" (SMEMBERS set_key);
  get_workers workerIDs.

(** [data, err := json.Marshal(w); ...; Set(ctx, keyPrefixWorker+workerID, data, 0)]. *)
Definition save (workerID : string) (w : Worker) : M R unit :=
  data ← marshal "failed to marshal worker" w;
  SET (keyPrefixWorker +:+ workerID) data.

Definition UpdateHeartbeat (clk : Clock) (workerID : string) : M R unit :=
  w ← Get workerID; save workerID (beat (clk 0%nat) w).

Definition UpdateStatus (workerID status : string) : M R unit :=
  w ← Get workerID; save workerID (set_w_Status status w).

Definition SetCurrentJob (workerID jobID : string) : M R unit :=
  w ← Get workerID; save workerID (with_job jobID w).

Definition IncrementProcessed (workerID : string) : M R unit :=
  w ← Get workerID; save workerID (set_w_ProcessedCount (wrap64 (w_ProcessedCount w + 1)) w).

Definition IncrementFailed (workerID : string) : M R unit :=
  w ← Get workerID; save workerID (set_w_FailedCount (wrap64 (w_FailedCount w + 1)) w).

(** [IsAlive] reads the clock for every worker. *)
Fixpoint stale (clk : Clock) (timeout : Duration) (workers : list Worker) : list Worker :=
  match workers with
  | [] => []
  | w :: workers =>
      let rest := stale (λ n, clk (S n)) timeout workers in
      if negb (IsAlive (clk 0%nat) w timeout) then w :: rest else rest
  end.

Definition GetStaleWorkers (clk : Clock) (timeout : Duration) : M R (list Worker) :=
  workers ← List;
  mret (stale clk timeout workers).
End methods.

Section refinement.
Context `{RedisLaws R}.

Lemma refines_Register w : refines db (Register w) (Register w).
Proof. unfold Register. solve_refines. Qed.

Lemma refines_Unregister id : refines db (Unregister id) (Unregister id).
Proof. unfold Unregister. solve_refines. Qed.

Lemma refines_worker_Get id : refines db (Get id) (Get id).
Proof. unfold Get. solve_refines. Qed.

Lemma refines_get_workers ids : refines db (get_workers ids) (get_workers ids).
Proof.
  induction ids as [|id ids IH]; simpl; [solve_refines|].
  apply refines_bind; [apply refines_attempt, refines_worker_Get|]. intros w. solve_refines.
Qed.

Lemma refines_save id w : refines db (save id w) (save id w).
Proof. unfold save. solve_refines. Qed.
End refinement.

#[export] Hint Resolve refines_Register refines_Unregister refines_worker_Get refines_get_workers
  refines_save : refinement.
