(* ===== verification/RedisMetrics.v ===== *)
(** * The Redis backend: metrics and configurations (internal/storage/redis/metrics.go)

    The statistics of a queue or of a job type are the fields of a hash, which
    a pipeline updates; a configuration is a document. *)

From Stdlib Require Import Ascii.
From S2P Require Import Prelude Errors GoMonad Job GoTime Decimal Json JobJson Redis RedisStore RedisQueue.
From S2P Require RedisWorker.

(** ** Values of fields *)

(** [fmt.Sscanf(val, "%d", &x)] with [x] zero before, and kept on an error. *)
Definition scan_digits (s : string) : Z := if no_digit s then 0 else (read_digits 0 s).1.

Definition scan_int (s : string) : Z :=
  match skip_space s with
  | String "-" s => - scan_digits s
  | String "+" s => scan_digits s
  | s => scan_digits s
  end.

Definition Sscanf (val : string) : Z :=
  let z := scan_int val in if in_range z then z else 0.

(** [if val, ok := data[name]; ok { fmt.Sscanf(val, "%d", &x) }]. *)
Definition int_field (data : gmap string string) (name : string) : Z :=
  match data !! name with Some val => Sscanf val | None => 0 end.

(** [time.Unix(sec, 0)]. *)
Definition of_unix (sec : Z) : Time := unix_epoch + sec * Second.

(** [type JobTypeStats struct] (storage.go). *)
Record JobTypeStats : Type := mkJobTypeStats {
  jts_JobType : string;
  jts_TotalCount : Z;
  jts_SuccessCount : Z;
  jts_FailedCount : Z;
  jts_AvgDuration : Duration;
  jts_MinDuration : Duration;
  jts_MaxDuration : Duration;
  jts_LastExecutedAt : Time;
}.

(** ** MetricsStore *)

Section methods.
Context `{RedisClient R}.

Definition RecordJobCreated (clk : Clock) (queueName jobType : string) : M R unit :=
  if bool_decide (queueName = "") then throw ErrInvalidValue else
  let queueStatsKey := keyPrefixQueueStats +:+ queueName in
  let jobTypeKey := keyPrefixJobType +:+ jobType in
  Exec ([HINCRBY queueStatsKey "pending_count" 1;
         HSET queueStatsKey "last_job_at" (itoa (Unix (clk 0%nat)))] ++
        if bool_decide (jobType ≠ "")
        then [HINCRBY jobTypeKey "total_count" 1;
              HSET jobTypeKey "last_executed_at" (itoa (Unix (clk 1%nat)))]
        else []).

(** [n, _ := r.client.HGet(ctx, key, name).Int64()]. *)
Definition hget_int (key name : string) : M R Z :=
  v ← attempt (HGET key name);
  mret (match v with inl (Some val) => Atoi val | inl None | inr _ => 0 end).

Definition RecordJobCompleted (clk : Clock) (queueName jobType : string) (duration : Duration) :
    M R unit :=
  if bool_decide (queueName = "") then throw ErrInvalidValue else
  let queueStatsKey := keyPrefixQueueStats +:+ queueName in
  let pipe := [HINCRBY queueStatsKey "success_count" 1;
               HINCRBY queueStatsKey "running_count" (-1);
               HSET queueStatsKey "last_job_at" (itoa (Unix (clk 0%nat)));
               HINCRBY queueStatsKey "total_duration_ms" (Milliseconds duration);
               HINCRBY queueStatsKey "completed_count" 1] in
  if bool_decide (jobType ≠ "") then
    let jobTypeKey := keyPrefixJobType +:+ jobType in
    minDur ← hget_int jobTypeKey "min_duration_ms";
    maxDur ← hget_int jobTypeKey "max_duration_ms";
    let durationMs := Milliseconds duration in
    Exec (pipe ++ [HINCRBY jobTypeKey "success_count" 1;
                   HINCRBY jobTypeKey "total_duration_ms" (Milliseconds duration)] ++
          (if (minDur =? 0) || (durationMs <? minDur)
           then [HSET jobTypeKey "min_duration_ms" (itoa durationMs)] else []) ++
          (if maxDur <? durationMs
           then [HSET jobTypeKey "max_duration_ms" (itoa durationMs)] else []))
  else Exec pipe.

Definition RecordJobFailed (clk : Clock) (queueName jobType errType : string) : M R unit :=
  if bool_decide (queueName = "") then throw ErrInvalidValue else
  let queueStatsKey := keyPrefixQueueStats +:+ queueName in
  let jobTypeKey := keyPrefixJobType +:+ jobType in
  Exec ([HINCRBY queueStatsKey "failed_count" 1;
         HINCRBY queueStatsKey "running_count" (-1);
         HSET queueStatsKey "last_job_at" (itoa (Unix (clk 0%nat)))] ++
        if bool_decide (jobType ≠ "") then [HINCRBY jobTypeKey "failed_count" 1] else []).

Definition RecordJobRetried (queueName jobType : string) : M R unit :=
  if bool_decide (queueName = "") then throw ErrInvalidValue else
  HINCRBY (keyPrefixQueueStats +:+ queueName) "retried_count" 1.

(** The statistics that the fields of a queue give, without the workers. *)
Definition stats_of_fields (queueName : string) (data : gmap string string) : QueueStats :=
  let totalDuration := int_field data "total_duration_ms" in
  let completedCount := int_field data "completed_count" in
  {| qs_QueueName := queueName;
     qs_PendingCount := int_field data "pending_count";
     qs_RunningCount := int_field data "running_count";
     qs_SuccessCount := int_field data "success_count";
     qs_FailedCount := int_field data "failed_count";
     qs_ActiveWorkers := 0;
     qs_AvgProcessingTime :=
       if 0 <? completedCount then wrap64 (Z.quot totalDuration completedCount * Millisecond) else 0;
     qs_LastJobAt := (λ val, of_unix (Sscanf val)) <$> data !! "last_job_at" |}.

(** One for every occurrence of the queue in a worker that is processing. *)
Definition active_workers (queueName : string) (workers : list Worker) : Z :=
  Z.of_nat (length (filter (λ q, q = queueName)
    (concat (w_Queues <$> filter (λ w, w_Status w = WorkerStatusProcessing) workers)))).

Definition set_qs_ActiveWorkers (v : Z) (q : QueueStats) : QueueStats :=
  mkQueueStats (qs_QueueName q) (qs_PendingCount q) (qs_RunningCount q) (qs_SuccessCount q)
    (qs_FailedCount q) v (qs_AvgProcessingTime q) (qs_LastJobAt q).

Definition GetQueueStats (queueName : string) : M R QueueStats :=
  if bool_decide (queueName = "") then throw ErrInvalidValue else
  data ← wrap_err "failed to get queue stats" (HGETALL (keyPrefixQueueStats +:+ queueName));
  workers ← attempt RedisWorker.List;
  let workers := match workers with inl workers => workers | inr _ => [] end in
  mret (set_qs_ActiveWorkers (active_workers queueName workers) (stats_of_fields queueName data)).

(** The loop of [GetQueueStatsAll]. *)
Fixpoint collect_stats (stats : gmap string QueueStats) (queues : list string) :
    M R (gmap string QueueStats) :=
  match queues with
  | [] => mret stats
  | queueName :: queues =>
      r ← attempt (GetQueueStats queueName);
      collect_stats (match r with inl s => <[queueName := s]> stats | inr _ => stats end) queues
  end.

Definition GetQueueStatsAll (fuel : nat) : M R (gmap string QueueStats) :=
  queues ← ListQueues fuel;
  collect_stats ∅ queues.

Definition job_type_stats (jobType : string) (data : gmap string string) : JobTypeStats :=
  let success := int_field data "success_count" in
  {| jts_JobType := jobType;
     jts_TotalCount := int_field data "total_count";
     jts_SuccessCount := success;
     jts_FailedCount := int_field data "failed_count";
     jts_AvgDuration :=
       if 0 <? success
       then wrap64 (Z.quot (int_field data "total_duration_ms") success * Millisecond) else 0;
     jts_MinDuration := wrap64 (int_field data "min_duration_ms" * Millisecond);
     jts_MaxDuration := wrap64 (int_field data "max_duration_ms" * Millisecond);
     jts_LastExecutedAt :=
       match data !! "last_executed_at" with Some val => of_unix (Sscanf val) | None => 0 end |}.

(** The body of the loop of [GetJobTypeStats]; its argument [since] is not used. *)
Fixpoint type_stats_page (stats : gmap string JobTypeStats) (keys : list string) :
    M R (gmap string JobTypeStats) :=
  match keys with
  | [] => mret stats
  | key :: keys =>
      let jobType := default "" (strip_prefix keyPrefixJobType key) in
      data ← attempt (HGETALL key);
      type_stats_page
        (match data with
         | inl data => <[jobType := job_type_stats jobType data]> stats
         | inr _ => stats
         end) keys
  end.

Definition GetJobTypeStats (fuel : nat) (since : Time) : M R (gmap string JobTypeStats) :=
  scan_loop "failed to scan job type stats" keyPrefixJobType type_stats_page fuel 0 ∅.

(** ** ConfigStore *)

Definition SaveQueueConfig (config : QueueConfig) : M R unit :=
  if bool_decide (c_Name config = "") then throw ErrInvalidValue else
  data ← marshal "failed to marshal queue config" config;
  SET (keyPrefixConfig +:+ c_Name config) data.

Definition GetQueueConfig (queueName : string) : M R QueueConfig :=
  if bool_decide (queueName = "") then throw ErrInvalidValue else
  data ← wrap_err "failed to get queue config" (GET (keyPrefixConfig +:+ queueName));
  match data with
  | None => throw ErrQueueNotFound
  | Some data => unmarshal "failed to unmarshal queue config" data
  end.

Definition DeleteQueueConfig (queueName : string) : M R unit :=
  if bool_decide (queueName = "") then throw ErrInvalidValue else
  result ← wrap_err "failed to delete queue config" (DEL (keyPrefixConfig +:+ queueName));
  if result =? 0 then throw ErrQueueNotFound else mret tt.

(** The body of the loop of [ListQueueConfigs]. *)
Fixpoint config_page (configs : list QueueConfig) (keys : list string) : M R (list QueueConfig) :=
  match keys with
  | [] => mret configs
  | key :: keys =>
      data ← attempt (GET key);
      config_page
        (match data with
         | inl (Some data) =>
             match Unmarshal data with Some config => configs ++ [config] | None => configs end
         | inl None | inr _ => configs
         end) keys
  end.

Definition ListQueueConfigs (fuel : nat) : M R (list QueueConfig) :=
  scan_loop "failed to scan queue configs" keyPrefixConfig config_page fuel 0 [].
End methods.
