(* ===== verification/RedisTypes.v ===== *)
(** * The key space of the Redis backend is well typed

    Every family of keys has one type of value. All the methods of the backend
    keep it so, as long as no worker is called "set", and then no command
    fails for the type of a value. *)

From S2P Require Import Prelude Errors GoMonad Job GoTime Decimal Json JobJson Redis RedisStore RedisQueue.
From S2P Require Import RedisMetrics.
From S2P Require RedisWorker.

(** ** Types of keys *)

Inductive kind : Type := KString | KZSet | KSet | KHash.

Definition value_kind (v : rvalue) : kind :=
  match v with RString _ => KString | RZSet _ => KZSet | RSet _ => KSet | RHash _ => KHash end.

Definition kind_of_key (k : string) : option kind :=
  if prefixed keyPrefixJob k || prefixed keyPrefixConfig k || prefixed keyPrefixQueuePause k
  then Some KString
  else if prefixed keyQueueZSet k then Some KZSet
  else if prefixed keyPrefixQueueStats k || prefixed keyPrefixJobType k then Some KHash
  else if bool_decide (k = RedisWorker.set_key) then Some KSet
  else if prefixed keyPrefixWorker k then Some KString
  else None.

(** A queue that is a key is not empty, and the fields of the statistics are
    numbers. *)
Definition value_ok (v : rvalue) : Prop :=
  match v with
  | RZSet m => m ≠ ∅
  | RHash m => ∀ f t, m !! f = Some t → ∃ z, t = itoa z ∧ int64 z
  | _ => True
  end.

Definition typed (d : DB) : Prop := ∀ k v,
  d !! k = Some v → kind_of_key k = Some (value_kind v) ∧ value_ok v.

Fixpoint type_error (e : error) : bool :=
  match e with
  | Wrapf _ e => type_error e
  | Errorf m => bool_decide (m = wrong_type) || bool_decide (m = not_integer)
  | _ => false
  end.

Definition no_type_error {A} (r : res A) : Prop :=
  match r with Err e => type_error e = false | _ => True end.

(** ** Programs that respect the types *)

Section safe.
Context `{RedisLaws R}.

Definition safe {A} (m : M R A) : Prop := ∀ s,
  typed (db s) → typed (db (m s).2) ∧ no_type_error (m s).1.

Lemma safe_ret {A} (a : A) : safe (mret a).
Proof. by intros s. Qed.

Lemma safe_throw {A} e : type_error e = false → safe (throw (A:=A) e).
Proof. by intros ? s. Qed.

Lemma safe_panic {A} p : safe (panic (A:=A) p).
Proof. by intros s. Qed.

Lemma safe_bind {A B} (m : M R A) (k : A → M R B) : safe m → (∀ a, safe (k a)) → safe (m ≫= k).
Proof.
  intros Hm Hk s Hs. specialize (Hm s Hs). unfold mbind, M_bind.
  destruct (m s) as [[a|e|p] s']; simpl in *; [|done..]. by apply Hk, Hm.
Qed.

Lemma safe_attempt {A} (m : M R A) : safe m → safe (attempt m).
Proof.
  intros Hm s Hs. specialize (Hm s Hs). unfold attempt. destruct (m s) as [[a|e|p] s']; simpl in *; tauto.
Qed.

(** The error of a command of a pipeline is returned. *)
Lemma safe_attempt_bind {A B} (m : M R A) (k : A + error → M R B) :
  safe m → (∀ a, safe (k (inl a))) → (∀ e, type_error e = false → safe (k (inr e))) →
  safe (attempt m ≫= k).
Proof.
  intros Hm Hk He s Hs. specialize (Hm s Hs). unfold attempt, mbind, M_bind.
  destruct (m s) as [[a|e|p] s']; simpl in *; [apply Hk|apply He|]; tauto.
Qed.

Lemma safe_wrap_err {A} msg (m : M R A) : safe m → safe (wrap_err msg m).
Proof. intros Hm s Hs. specialize (Hm s Hs). unfold wrap_err. by destruct (m s) as [[a|e|p] s']. Qed.

Lemma safe_Exec pipe : Forall safe pipe → safe (Exec pipe).
Proof.
  induction 1 as [|c pipe Hc Hp IH]; simpl; [apply safe_ret|].
  apply safe_attempt_bind; [done|intros a|intros e He]; (apply safe_attempt_bind; [done|intros b|intros e' He']);
    by apply safe_ret || apply safe_throw.
Qed.

Lemma safe_refines {A} (m : M R A) f : refines db m f →
  (∀ d, typed d → typed (f d).2 ∧ no_type_error (f d).1) → safe m.
Proof. intros Hm Hf s Hs. specialize (Hf _ Hs). by rewrite Hm in Hf. Qed.

(** *** Commands *)

Lemma typed_insert d k v : typed d → kind_of_key k = Some (value_kind v) → value_ok v →
  typed (<[k := v]> d).
Proof.
  intros Hd Hk Hv k' v'. destruct (decide (k' = k)) as [->|Hne].
  - rewrite lookup_insert_eq. by intros [= <-].
  - rewrite lookup_insert_ne by done. apply Hd.
Qed.

Lemma typed_delete d k : typed d → typed (delete k d).
Proof. intros Hd k' v [_ Hv]%lookup_delete_Some. by apply Hd. Qed.

(** Reading a key of its type. *)
Ltac read_key Hd k Hk :=
  unfold at_key, get, mbind, M_bind; simpl;
  match goal with |- context [?d !! k] =>
    let E := fresh "E" in let Hv := fresh "Hv" in
    destruct (d !! k) as [[]|] eqn:E; simpl;
    [destruct (Hd _ _ E) as [Hv ?]; rewrite Hk in Hv; try (discriminate Hv)..|]; simpl
  end.

Lemma safe_PING : safe PING.
Proof. apply (safe_refines _ _ law_PING). by intros d Hd. Qed.

Lemma safe_GET k : kind_of_key k = Some KString → safe (GET k).
Proof. intros Hk. apply (safe_refines _ _ (law_GET k)). intros d Hd. simpl. by read_key Hd k Hk. Qed.

Lemma safe_SET k v : kind_of_key k = Some KString → safe (SET k v).
Proof. intros Hk. apply (safe_refines _ _ (law_SET k v)). intros d Hd. split; [|done]. by apply typed_insert. Qed.

Lemma safe_SETNX k v : kind_of_key k = Some KString → safe (SETNX k v).
Proof.
  intros Hk. apply (safe_refines _ _ (law_SETNX k v)). intros d Hd. simpl.
  unfold get, mbind, M_bind. simpl. case_bool_decide; simpl; split; try done. by apply typed_insert.
Qed.

Lemma safe_EXISTS k : safe (EXISTS k).
Proof. apply (safe_refines _ _ (law_EXISTS k)). by intros d Hd. Qed.

Lemma safe_DEL k : safe (DEL k).
Proof. apply (safe_refines _ _ (law_DEL k)). intros d Hd. split; [|done]. by apply typed_delete. Qed.

Lemma typed_put_zset d k m : typed d → kind_of_key k = Some KZSet → typed (put_zset k m d).
Proof. intros Hd Hk. unfold put_zset. case_bool_decide; [by apply typed_delete|by apply typed_insert]. Qed.

Lemma typed_put_set d k m : typed d → kind_of_key k = Some KSet → typed (put_set k m d).
Proof. intros Hd Hk. unfold put_set. case_bool_decide; [by apply typed_delete|by apply typed_insert]. Qed.

Lemma safe_ZADD k v x : kind_of_key k = Some KZSet → safe (ZADD k v x).
Proof.
  intros Hk. apply (safe_refines _ _ (law_ZADD k v x)). intros d Hd. simpl.
  read_key Hd k Hk; split; try done; by apply typed_put_zset.
Qed.

Lemma safe_ZREM k x : kind_of_key k = Some KZSet → safe (ZREM k x).
Proof.
  intros Hk. apply (safe_refines _ _ (law_ZREM k x)). intros d Hd. simpl.
  read_key Hd k Hk; split; try done; by apply typed_put_zset.
Qed.

Lemma safe_ZCARD k : kind_of_key k = Some KZSet → safe (ZCARD k).
Proof. intros Hk. apply (safe_refines _ _ (law_ZCARD k)). intros d Hd. simpl. by read_key Hd k Hk. Qed.

Lemma safe_ZRANGE k i j : kind_of_key k = Some KZSet → safe (ZRANGE k i j).
Proof. intros Hk. apply (safe_refines _ _ (law_ZRANGE k i j)). intros d Hd. simpl. by read_key Hd k Hk. Qed.

(** A key of no type does not exist. *)
Lemma safe_ZRANGEBYSCORE k t n : kind_of_key k = None → safe (ZRANGEBYSCORE k t n).
Proof.
  intros Hk. apply (safe_refines _ _ (law_ZRANGEBYSCORE k t n)). intros d Hd. simpl.
  by read_key Hd k Hk.
Qed.

Lemma safe_SADD k x : kind_of_key k = Some KSet → safe (SADD k x).
Proof.
  intros Hk. apply (safe_refines _ _ (law_SADD k x)). intros d Hd. simpl.
  read_key Hd k Hk; split; try done; by apply typed_put_set.
Qed.

Lemma safe_SREM k x : kind_of_key k = Some KSet → safe (SREM k x).
Proof.
  intros Hk. apply (safe_refines _ _ (law_SREM k x)). intros d Hd. simpl.
  read_key Hd k Hk; split; try done; by apply typed_put_set.
Qed.

Lemma safe_SMEMBERS k : kind_of_key k = Some KSet → safe (SMEMBERS k).
Proof.
  intros Hk s Hs. destruct (law_SMEMBERS k s) as [_ Hl].
  assert (∃ m, (as_set (db s !! k) (db s)).1 = Ok m) as [m Hm].
  { destruct (db s !! k) as [v|] eqn:E; [|by eexists]. destruct (Hs _ _ E) as [Hv _].
    rewrite Hk in Hv. destruct v; try done. by eexists. }
  destruct (Hl m Hm) as (l & s' & E & Hd & _). rewrite E. simpl. by rewrite Hd.
Qed.

Lemma value_ok_insert m f z : value_ok (RHash m) → int64 z → value_ok (RHash (<[f := itoa z]> m)).
Proof.
  intros Hm Hz f' t. destruct (decide (f' = f)) as [->|Hne].
  - rewrite lookup_insert_eq. intros [= <-]. by exists z.
  - rewrite lookup_insert_ne by done. apply Hm.
Qed.

Lemma value_ok_empty : value_ok (RHash ∅).
Proof. intros f t. by rewrite lookup_empty. Qed.

Lemma hash_int_ok m f : value_ok (RHash m) → ∃ z, hash_int (m !! f) = Some z.
Proof.
  intros Hm. destruct (m !! f) as [t|] eqn:E; [|by exists 0].
  destruct (Hm _ _ E) as (z & -> & Hz). exists z. by apply parse_int_itoa.
Qed.

Lemma safe_HINCRBY k f n : kind_of_key k = Some KHash → safe (HINCRBY k f n).
Proof.
  intros Hk. apply (safe_refines _ _ (law_HINCRBY k f n)). intros d Hd. simpl.
  assert (Hput : ∀ m, value_ok (RHash m) →
    let r := (match hash_int (m !! f) with
       | None => throw (Errorf not_integer)
       | Some z => if in_range (z + n) then modify (<[k := RHash (<[f := itoa (z + n)]> m)]>)
                   else throw (Errorf "ERR increment or decrement would overflow")
       end : M DB unit) d in typed r.2 ∧ no_type_error r.1).
  { intros m Hm. destruct (hash_int_ok m f Hm) as [z ->]. destruct (in_range (z + n)) eqn:Hr; [|done].
    split; [|done]. apply typed_insert; [done..|]. apply value_ok_insert; [done|].
    unfold in_range, int64, min_int64, max_int64 in *. lia. }
  read_key Hd k Hk; by apply Hput, value_ok_empty || apply Hput.
Qed.

Lemma safe_HSET k f z : kind_of_key k = Some KHash → int64 z → safe (HSET k f (itoa z)).
Proof.
  intros Hk Hz. apply (safe_refines _ _ (law_HSET k f (itoa z))). intros d Hd. simpl.
  read_key Hd k Hk; split; try done;
    (apply typed_insert; [done..|]); apply value_ok_insert; done || apply value_ok_empty.
Qed.

Lemma safe_HGET k f : kind_of_key k = Some KHash → safe (HGET k f).
Proof. intros Hk. apply (safe_refines _ _ (law_HGET k f)). intros d Hd. simpl. by read_key Hd k Hk. Qed.

Lemma safe_HGETALL k : kind_of_key k = Some KHash → safe (HGETALL k).
Proof. intros Hk. apply (safe_refines _ _ (law_HGETALL k)). intros d Hd. simpl. by read_key Hd k Hk. Qed.

Lemma safe_scan_loop {A} msg p (page : A → list string → M R A) fuel cursor acc :
  (∀ acc keys, Forall (λ k, prefixed p k = true) keys → safe (page acc keys)) →
  safe (scan_loop msg p page fuel cursor acc).
Proof.
  intros Hp. revert cursor acc. induction fuel as [|fuel IH]; intros cursor acc; [apply safe_panic|].
  intros s Hs. destruct (law_SCAN cursor p 100 s ltac:(lia)) as (keys & next & s1 & Hsc & Hd & Hk & _).
  cbn [scan_loop]. rewrite (bind_Ok _ _ _ _ _ (wrap_err_Ok _ _ _ _ _ Hsc)). cbn [fst snd].
  rewrite <- Hd in Hs. revert s1 Hsc Hd Hs. intros s1 _ _ Hs. revert s1 Hs.
  apply (safe_bind (page acc keys)).
  - apply Hp. apply Forall_forall. intros k ?. by apply Hk.
  - intros a. case_match; [apply safe_ret|apply IH].
Qed.
End safe.

(** ** The keys of the methods *)

Lemma kind_job id : kind_of_key (keyPrefixJob +:+ id) = Some KString.
Proof. done. Qed.
Lemma kind_config q : kind_of_key (keyPrefixConfig +:+ q) = Some KString.
Proof. done. Qed.
Lemma kind_pause q : kind_of_key (keyPrefixQueuePause +:+ q) = Some KString.
Proof. done. Qed.
Lemma kind_zset q : kind_of_key (keyQueueZSet +:+ q) = Some KZSet.
Proof. done. Qed.
Lemma kind_stats q : kind_of_key (keyPrefixQueueStats +:+ q) = Some KHash.
Proof. done. Qed.
Lemma kind_type t : kind_of_key (keyPrefixJobType +:+ t) = Some KHash.
Proof. done. Qed.
Lemma kind_set : kind_of_key RedisWorker.set_key = Some KSet.
Proof. done. Qed.
Lemma kind_scheduled : kind_of_key (keyPrefixScheduled +:+ "jobs") = None.
Proof. done. Qed.

Lemma kind_worker id : id ≠ "set" → kind_of_key (keyPrefixWorker +:+ id) = Some KString.
Proof.
  intros Hid. transitivity (if bool_decide (keyPrefixWorker +:+ id = RedisWorker.set_key)
                            then Some KSet else Some KString); [done|].
  rewrite bool_decide_false; [done|]. intros E. apply Hid.
  unfold RedisWorker.set_key, keyPrefixWorker in E. by injection E.
Qed.

(** ** The methods *)

Inductive call : Type :=
  | Ping
  | JobCreate (j : Job) | JobGet (id : string) | JobUpdate (j : Job) | JobDelete (id : string)
  | JobList (fuel : nat) (filter : JobFilter) | JobUpdateStatus (clk : Clock) (id status : string)
  | JobUpdateProgress (id : string) (progress : Z) | JobSetResult (id result : string)
  | JobSetError (id errMsg : string)
  | QueueEnqueue (clk : Clock) (q id : string) (priority : Z) | QueueDequeue (q workerID : string)
  | QueueRequeue (clk : Clock) (q id : string) (priority : Z) | QueueRemove (q id : string)
  | QueueLength (q : string) | QueuePeek (q : string) | QueueGetScheduled (before : Time) (limit : Z)
  | QueueList (fuel : nat) | QueuePause (q : string) | QueueResume (q : string)
  | QueueIsPaused (q : string)
  | WorkerRegister (w : Worker) | WorkerUnregister (id : string) | WorkerGet (id : string)
  | WorkerList | WorkerUpdateHeartbeat (clk : Clock) (id : string)
  | WorkerUpdateStatus (id status : string) | WorkerSetCurrentJob (id jobID : string)
  | WorkerIncrementProcessed (id : string) | WorkerIncrementFailed (id : string)
  | WorkerGetStale (clk : Clock) (timeout : Duration)
  | MetricsCreated (clk : Clock) (q t : string) | MetricsCompleted (clk : Clock) (q t : string) (d : Duration)
  | MetricsFailed (clk : Clock) (q t errType : string) | MetricsRetried (q t : string)
  | MetricsStats (q : string) | MetricsStatsAll (fuel : nat) | MetricsTypes (fuel : nat) (since : Time)
  | ConfigSave (c : QueueConfig) | ConfigGet (q : string) | ConfigDelete (q : string)
  | ConfigList (fuel : nat).

(** A call whose value is dropped. *)
Definition run `{RedisClient R} (c : call) : M R unit :=
  let drop {A} (m : M R A) : M R unit := m ;; mret tt in
  match c with
  | Ping => drop Health
  | JobCreate j => drop (Create j) | JobGet id => drop (Get id) | JobUpdate j => drop (Update j)
  | JobDelete id => drop (Delete id) | JobList fuel filter => drop (List fuel filter)
  | JobUpdateStatus clk id st => drop (UpdateStatus clk id st)
  | JobUpdateProgress id p => drop (UpdateProgress id p) | JobSetResult id r => drop (SetResult id r)
  | JobSetError id e => drop (SetError id e)
  | QueueEnqueue clk q id p => drop (Enqueue clk q id p) | QueueDequeue q w => drop (Dequeue q w)
  | QueueRequeue clk q id p => drop (Requeue clk q id p) | QueueRemove q id => drop (Remove q id)
  | QueueLength q => drop (Length q) | QueuePeek q => drop (Peek q)
  | QueueGetScheduled t n => drop (GetScheduled t n) | QueueList fuel => drop (ListQueues fuel)
  | QueuePause q => drop (PauseQueue q) | QueueResume q => drop (ResumeQueue q)
  | QueueIsPaused q => drop (IsQueuePaused q)
  | WorkerRegister w => drop (RedisWorker.Register w)
  | WorkerUnregister id => drop (RedisWorker.Unregister id)
  | WorkerGet id => drop (RedisWorker.Get id) | WorkerList => drop RedisWorker.List
  | WorkerUpdateHeartbeat clk id => drop (RedisWorker.UpdateHeartbeat clk id)
  | WorkerUpdateStatus id st => drop (RedisWorker.UpdateStatus id st)
  | WorkerSetCurrentJob id j => drop (RedisWorker.SetCurrentJob id j)
  | WorkerIncrementProcessed id => drop (RedisWorker.IncrementProcessed id)
  | WorkerIncrementFailed id => drop (RedisWorker.IncrementFailed id)
  | WorkerGetStale clk d => drop (RedisWorker.GetStaleWorkers clk d)
  | MetricsCreated clk q t => drop (RecordJobCreated clk q t)
  | MetricsCompleted clk q t d => drop (RecordJobCompleted clk q t d)
  | MetricsFailed clk q t e => drop (RecordJobFailed clk q t e)
  | MetricsRetried q t => drop (RecordJobRetried q t)
  | MetricsStats q => drop (GetQueueStats q) | MetricsStatsAll fuel => drop (GetQueueStatsAll fuel)
  | MetricsTypes fuel t => drop (GetJobTypeStats fuel t)
  | ConfigSave c => drop (SaveQueueConfig c) | ConfigGet q => drop (GetQueueConfig q)
  | ConfigDelete q => drop (DeleteQueueConfig q) | ConfigList fuel => drop (ListQueueConfigs fuel)
  end.

(** No worker is called "set", and times and durations are in range. *)
Definition allowed (c : call) : Prop :=
  match c with
  | WorkerRegister w => w_ID w ≠ "set"
  | WorkerUnregister id | WorkerGet id | WorkerUpdateHeartbeat _ id | WorkerUpdateStatus id _
  | WorkerSetCurrentJob id _ | WorkerIncrementProcessed id | WorkerIncrementFailed id => id ≠ "set"
  | MetricsCreated clk _ _ | MetricsFailed clk _ _ _ => ∀ n, int64 (Unix (clk n))
  | MetricsCompleted clk _ _ d => (∀ n, int64 (Unix (clk n))) ∧ int64 d
  | _ => True
  end.

Lemma safe_pop_script k : kind_of_key k = Some KZSet → safe (R := DB) (pop_script k).
Proof.
  intros Hk. unfold pop_script. apply safe_bind; [by apply safe_ZRANGE|]. intros [|job jobs]; [apply safe_ret|].
  apply safe_bind; [by apply safe_ZREM|]. intros _. apply safe_ret.
Qed.

Section methods.
Context `{RedisLaws R}.

Lemma safe_EVAL {A} (script : M DB A) : safe (R := DB) script → safe (EVAL script).
Proof using Type. intros Hs. apply (safe_refines _ _ (law_EVAL script)). exact Hs. Qed.

Lemma safe_marshal `{JsonStruct A} msg (a : A) : safe (marshal msg a).
Proof. unfold marshal. case_match; [apply safe_ret|by apply safe_throw]. Qed.

Lemma safe_unmarshal `{JsonStruct A} msg data : safe (unmarshal (A:=A) msg data).
Proof. unfold unmarshal. case_match; [apply safe_ret|by apply safe_throw]. Qed.

#[local] Hint Resolve safe_ret safe_marshal safe_unmarshal safe_GET safe_SET safe_SETNX safe_EXISTS
  safe_DEL safe_ZADD safe_ZREM safe_ZCARD safe_ZRANGE safe_ZRANGEBYSCORE safe_SADD safe_SREM
  safe_EVAL safe_pop_script safe_SMEMBERS safe_HINCRBY safe_HSET safe_HGET safe_HGETALL safe_PING kind_job kind_config
  kind_pause kind_zset kind_stats kind_type kind_set kind_scheduled kind_worker : refinement.

Ltac solve_safe :=
  repeat first
    [ progress (eauto 3 with refinement)
    | by apply safe_throw
    | apply safe_bind; [|intros ?]
    | apply safe_wrap_err
    | apply safe_attempt
    | case_match ].

Lemma safe_Get id : safe (Get id).
Proof. unfold Get. solve_safe. Qed.

Lemma safe_Update j : safe (Update j).
Proof. unfold Update. solve_safe. Qed.

Lemma safe_IsQueuePaused q : safe (IsQueuePaused q).
Proof. unfold IsQueuePaused. solve_safe. Qed.
#[local] Hint Resolve safe_Get safe_Update safe_IsQueuePaused : refinement.

Lemma safe_Enqueue clk q id p : safe (Enqueue clk q id p).
Proof. unfold Enqueue. solve_safe. Qed.

Lemma safe_Dequeue q w : safe (Dequeue q w).
Proof. unfold Dequeue. solve_safe. Qed.

Lemma safe_get_jobs ids : safe (get_jobs ids).
Proof. induction ids as [|id ids IH]; simpl; solve_safe. Qed.

Lemma safe_ListQueues fuel : safe (ListQueues fuel).
Proof. apply safe_scan_loop. intros. apply safe_ret. Qed.

Lemma safe_worker_Get id : id ≠ "set" → safe (RedisWorker.Get id).
Proof. intros Hid. unfold RedisWorker.Get. solve_safe. Qed.
#[local] Hint Resolve safe_worker_Get safe_get_jobs safe_ListQueues : refinement.

Lemma safe_save id w : id ≠ "set" → safe (RedisWorker.save id w).
Proof. intros Hid. unfold RedisWorker.save. solve_safe. Qed.
#[local] Hint Resolve safe_save : refinement.

(** A worker that cannot be read is skipped, whatever the reason. *)
Lemma safe_attempt_Get id : safe (attempt (RedisWorker.Get id)).
Proof.
  apply (safe_refines _ (attempt (RedisWorker.Get id))); [apply refines_attempt, RedisWorker.refines_worker_Get|].
  intros d Hd.
  assert (∃ r, RedisWorker.Get id d = (r, d) ∧ is_Panic r = false) as (r & E & Hr).
  { unfold RedisWorker.Get, wrap_err, mbind, M_bind. case_bool_decide; [by eexists|]. simpl.
    unfold at_key, get, mbind, M_bind. simpl. destruct (d !! _) as [[]|]; simpl; try by eexists.
    unfold unmarshal. case_match; by eexists. }
  unfold attempt. rewrite E. by destruct r.
Qed.

Lemma safe_get_workers ids : safe (RedisWorker.get_workers ids).
Proof.
  induction ids as [|id ids IH]; simpl; [apply safe_ret|].
  apply safe_bind; [apply safe_attempt_Get|]. intros w. solve_safe.
Qed.

Lemma safe_worker_List : safe RedisWorker.List.
Proof. unfold RedisWorker.List. apply safe_bind; [solve_safe|]. apply safe_get_workers. Qed.
#[local] Hint Resolve safe_worker_List : refinement.

Lemma safe_GetQueueStats q : safe (GetQueueStats q).
Proof. unfold GetQueueStats. solve_safe. Qed.
#[local] Hint Resolve safe_GetQueueStats : refinement.

Lemma safe_collect_stats stats queues : safe (collect_stats stats queues).
Proof.
  revert stats. induction queues as [|q queues IH]; intros stats; simpl; [apply safe_ret|].
  apply safe_bind; [solve_safe|]. intros r. apply IH.
Qed.

(** The pages of the four listings. *)
Lemma safe_attempt_GET k : prefixed keyPrefixJob k = true ∨ prefixed keyPrefixConfig k = true →
  safe (attempt (GET k)).
Proof.
  intros Hk. apply safe_attempt, safe_GET.
  by destruct Hk as [[x ->]%prefixed_spec|[x ->]%prefixed_spec].
Qed.

Lemma safe_list_page filter jobs keys : Forall (λ k, prefixed keyPrefixJob k = true) keys →
  safe (list_page filter jobs keys).
Proof.
  intros Hk. revert jobs. induction Hk as [|k keys Hk _ IH]; intros jobs; simpl; [apply safe_ret|].
  apply safe_bind; [apply safe_attempt_GET; auto|]. intros r. apply IH.
Qed.

Lemma safe_config_page configs keys : Forall (λ k, prefixed keyPrefixConfig k = true) keys →
  safe (config_page configs keys).
Proof.
  intros Hk. revert configs. induction Hk as [|k keys Hk _ IH]; intros configs; simpl; [apply safe_ret|].
  apply safe_bind; [apply safe_attempt_GET; auto|]. intros r. apply IH.
Qed.

Lemma safe_type_stats_page stats keys : Forall (λ k, prefixed keyPrefixJobType k = true) keys →
  safe (type_stats_page stats keys).
Proof.
  intros Hk. revert stats. induction Hk as [|k keys Hk _ IH]; intros stats; simpl; [apply safe_ret|].
  apply prefixed_spec in Hk as [t ->]. apply safe_bind; [solve_safe|]. intros r. apply IH.
Qed.

Lemma int64_Milliseconds d : int64 d → int64 (Milliseconds d).
Proof.
  unfold int64, Milliseconds, Millisecond. intros Hd. Z.to_euclidean_division_equations. lia.
Qed.
#[local] Hint Resolve int64_Milliseconds safe_collect_stats : refinement.

Ltac solve_pipe :=
  repeat apply Forall_cons_2; try apply Forall_nil_2; eauto 4 with refinement.

Lemma safe_Completed clk q t d : (∀ n, int64 (Unix (clk n))) → int64 d →
  safe (RecordJobCompleted clk q t d).
Proof.
  intros Hc Hd. unfold RecordJobCompleted, hget_int.
  case_bool_decide; [by apply safe_throw|]. case_bool_decide.
  - apply safe_bind; [solve_safe|]. intros mn. apply safe_bind; [solve_safe|]. intros mx.
    apply safe_Exec. rewrite !Forall_app.
    split_and!; repeat case_match; solve_pipe.
  - apply safe_Exec. solve_pipe.
Qed.

Lemma safe_Created clk q t : (∀ n, int64 (Unix (clk n))) → safe (RecordJobCreated clk q t).
Proof.
  intros Hc. unfold RecordJobCreated. case_bool_decide; [by apply safe_throw|].
  apply safe_Exec. rewrite Forall_app. split; [|case_bool_decide]; solve_pipe.
Qed.

Lemma safe_Failed clk q t e : (∀ n, int64 (Unix (clk n))) → safe (RecordJobFailed clk q t e).
Proof.
  intros Hc. unfold RecordJobFailed. case_bool_decide; [by apply safe_throw|].
  apply safe_Exec. rewrite Forall_app. split; [|case_bool_decide]; solve_pipe.
Qed.

#[local] Hint Resolve safe_Enqueue safe_Dequeue safe_Completed safe_Created safe_Failed : refinement.

Lemma safe_run c : allowed c → safe (run c).
Proof.
  intros Hc. destruct c; simpl in Hc; cbn [run]; apply safe_bind;
    try (intros; apply safe_ret); try (by eauto 3 with refinement).
  - unfold Create. solve_safe.
  - unfold Delete. solve_safe.
  - unfold List. apply safe_bind; [|intros; apply safe_ret]. apply safe_scan_loop, safe_list_page.
  - unfold UpdateStatus. solve_safe.
  - unfold UpdateProgress. solve_safe.
  - unfold SetResult. solve_safe.
  - unfold SetError. solve_safe.
  - unfold Remove. solve_safe.
  - unfold Length. solve_safe.
  - unfold Peek. solve_safe.
  - unfold GetScheduled. solve_safe.
  - unfold PauseQueue. solve_safe.
  - unfold ResumeQueue. solve_safe.
  - unfold RedisWorker.Register. solve_safe.
  - unfold RedisWorker.Unregister. solve_safe.
  - unfold RedisWorker.UpdateHeartbeat. solve_safe.
  - unfold RedisWorker.UpdateStatus. solve_safe.
  - unfold RedisWorker.SetCurrentJob. solve_safe.
  - unfold RedisWorker.IncrementProcessed. solve_safe.
  - unfold RedisWorker.IncrementFailed. solve_safe.
  - unfold RedisWorker.GetStaleWorkers. solve_safe.
  - destruct Hc. eauto 3 with refinement.
  - unfold RecordJobRetried. solve_safe.
  - unfold GetQueueStatsAll. solve_safe.
  - apply safe_scan_loop, safe_type_stats_page.
  - unfold SaveQueueConfig. solve_safe.
  - unfold GetQueueConfig. solve_safe.
  - unfold DeleteQueueConfig. solve_safe.
  - apply safe_scan_loop, safe_config_page.
Qed.
End methods.

(** The calls in order; a call that fails does not stop the next one. *)
Definition run_all `{RedisClient R} (cs : list call) (s : R) : R := foldl (λ s c, (run c s).2) s cs.

(** C25. The key space is well typed: on a server that starts empty, after any
    calls of the backend in which no worker is called "set", every key has the
    type of its family, the fields of the statistics are numbers, and no call
    fails because a key or a field has a value of the wrong type. *)
Theorem redis_key_space_typed `{RedisLaws R} cs (s : R) :
  db s = ∅ → Forall allowed cs →
  typed (db (run_all cs s)) ∧ ∀ c, allowed c → no_type_error (run c (run_all cs s)).1.
Proof.
  intros Hs Hcs. assert (Ht : typed (db (run_all cs s))).
  { assert (Ht : typed (db s)) by (intros k v; by rewrite Hs, lookup_empty).
    clear Hs. unfold run_all. revert s Ht. induction Hcs as [|c cs Hc _ IH]; intros s Ht; [done|].
    simpl. apply IH. by apply safe_run. }
  split; [done|]. intros c Hc. by apply safe_run.
Qed.

Lemma redis_key_space_typed_witness :
  typed (run_all [WorkerRegister (mkWorker "w1" "h" None None None 0 0 "IDLE" ["q"] 1 ∅ "");
                  QueueEnqueue (λ _, 0) "q" "a" 5; MetricsRetried "q" "t"; WorkerList] (∅ : DB)).
Proof.
  refine (proj1 (redis_key_space_typed (R := DB) _ (∅ : DB) _ _)); [reflexivity|].
  repeat apply Forall_cons_2; [discriminate|exact I|exact I|exact I|apply Forall_nil_2].
Defined.
