(* ===== verification/RedisQueueProps.v ===== *)
(** * The order and the content of the queues of the Redis backend

    What the scores do to priorities and times, the refinement of the queue
    methods to sorted sets, and the delivery of a whole queue. *)

From S2P Require Import Prelude Errors GoMonad Job GoTime Decimal Json Redis RedisStore RedisQueue.
From S2P Require Import RedisTypes.

(** ** [round53] *)

Lemma round_bits_parts n m : 0 ≤ n →
  0 < 2 ^ n ∧ m = m / 2 ^ n * 2 ^ n + m mod 2 ^ n ∧ 0 ≤ m mod 2 ^ n < 2 ^ n.
Proof.
  intros Hn. assert (H : 0 < 2 ^ n) by (apply Z.pow_pos_nonneg; lia).
  pose proof (Z.div_mod m (2 ^ n) ltac:(lia)). pose proof (Z.mod_pos_bound m (2 ^ n) H). lia.
Qed.

Lemma round_bits_near n m : 0 ≤ n → - 2 ^ n ≤ 2 * (round_bits n m - m) ≤ 2 ^ n.
Proof.
  intros Hn. destruct (round_bits_parts n m Hn) as (Hp & Hm & Hr). unfold round_bits.
  case_match eqn:E; [|apply orb_false_iff in E as [E _]];
    rewrite ?orb_true_iff, ?andb_true_iff in E; lia.
Qed.

Lemma round_bits_mono n m1 m2 : 0 ≤ n → m1 ≤ m2 → round_bits n m1 ≤ round_bits n m2.
Proof.
  intros Hn Hm. destruct (round_bits_parts n m1 Hn) as (Hp & H1 & Hr1).
  destruct (round_bits_parts n m2 Hn) as (_ & H2 & Hr2). unfold round_bits.
  set (q1 := m1 / 2 ^ n) in *. set (q2 := m2 / 2 ^ n) in *.
  set (r1 := m1 mod 2 ^ n) in *. set (r2 := m2 mod 2 ^ n) in *.
  assert (Hq : q1 ≤ q2) by (subst q1 q2; apply Z.div_le_mono; lia).
  destruct (decide (q1 = q2)) as [Eq|Hne].
  - rewrite <- Eq in *. assert (r1 ≤ r2) by lia.
    destruct (Z.odd q1); rewrite ?andb_true_r, ?andb_false_r, ?orb_false_r; repeat case_match; nia.
  - assert (q1 + 1 ≤ q2) by lia. repeat case_match; nia.
Qed.

Lemma round_bits_multiple n q : 0 ≤ n → round_bits n (q * 2 ^ n) = q * 2 ^ n.
Proof.
  intros Hn. assert (H : 0 < 2 ^ n) by (apply Z.pow_pos_nonneg; lia). unfold round_bits.
  rewrite Z.div_mul, Z.mod_mul by lia.
  rewrite (proj2 (Z.ltb_ge (2 ^ n) (2 * 0))), (proj2 (Z.eqb_neq (2 * 0) (2 ^ n))) by lia. done.
Qed.

Lemma excess_bits_spec m : 0 ≤ m → 0 ≤ excess_bits m ∧ m < 2 ^ (53 + excess_bits m) ∧
  (0 < excess_bits m → 2 ^ (52 + excess_bits m) ≤ m).
Proof.
  intros Hm. unfold excess_bits. split; [lia|].
  destruct (decide (m = 0)) as [->|Hne]; [simpl; lia|].
  pose proof (Z.log2_spec m ltac:(lia)) as [Hl Hu]. split.
  - eapply Z.lt_le_trans; [exact Hu|]. apply Z.pow_le_mono_r; lia.
  - intros He. eapply Z.le_trans; [|exact Hl]. apply Z.pow_le_mono_r; lia.
Qed.

Lemma round_bits_excess_mono m1 m2 : 0 ≤ m1 ≤ m2 →
  round_bits (excess_bits m1) m1 ≤ round_bits (excess_bits m2) m2.
Proof.
  intros Hm. destruct (excess_bits_spec m1 ltac:(lia)) as (He1 & Hu1 & _).
  destruct (excess_bits_spec m2 ltac:(lia)) as (He2 & _ & Hl2).
  assert (Hle : excess_bits m1 ≤ excess_bits m2).
  { unfold excess_bits. pose proof (Z.log2_le_mono m1 m2 ltac:(lia)). lia. }
  destruct (decide (excess_bits m1 = excess_bits m2)) as [<-|Hne].
  { by apply round_bits_mono; lia. }
  specialize (Hl2 ltac:(lia)).
  transitivity (2 ^ 53 * 2 ^ excess_bits m1).
  { rewrite <- round_bits_multiple by done. apply round_bits_mono; [done|].
    rewrite <- Z.pow_add_r by lia. lia. }
  transitivity (2 ^ 52 * 2 ^ excess_bits m2).
  { rewrite <- !Z.pow_add_r by lia. apply Z.pow_le_mono_r; lia. }
  rewrite <- round_bits_multiple by done. apply round_bits_mono; [done|].
  rewrite <- Z.pow_add_r by lia. lia.
Qed.

Lemma round53_mono x y : x ≤ y → round53 x ≤ round53 y.
Proof.
  intros Hxy. unfold round53.
  assert (Hpos : ∀ m, 0 ≤ m → 0 ≤ round_bits (excess_bits m) m).
  { intros m Hm. change 0 with (round_bits (excess_bits 0) 0) at 1. apply round_bits_excess_mono. lia. }
  destruct (Z.ltb_spec x 0), (Z.ltb_spec y 0); try lia.
  - pose proof (round_bits_excess_mono (- y) (- x) ltac:(lia)). lia.
  - pose proof (Hpos (- x) ltac:(lia)). pose proof (Hpos y ltac:(lia)). lia.
  - by apply round_bits_excess_mono.
Qed.

(** An integer below [2^(53+e)] is rounded by at most half of [2^e]. *)
Lemma round53_near e z : 0 ≤ e → - 2 ^ (53 + e) < z < 2 ^ (53 + e) →
  - 2 ^ e ≤ 2 * (round53 z - z) ≤ 2 ^ e.
Proof.
  intros He Hz. assert (Hn : ∀ m, 0 ≤ m < 2 ^ (53 + e) →
    - 2 ^ e ≤ 2 * (round_bits (excess_bits m) m - m) ≤ 2 ^ e).
  { intros m Hm. destruct (excess_bits_spec m ltac:(lia)) as (H1 & _ & _).
    assert (Hle : excess_bits m ≤ e).
    { unfold excess_bits. destruct (decide (m = 0)) as [->|Hne]; [simpl; lia|].
      pose proof (proj1 (Z.log2_lt_pow2 m (53 + e) ltac:(lia)) ltac:(lia)). lia. }
    pose proof (round_bits_near (excess_bits m) m H1).
    pose proof (Z.pow_le_mono_r 2 _ _ ltac:(lia) Hle). lia. }
  unfold round53. destruct (Z.ltb_spec z 0).
  - specialize (Hn (- z) ltac:(lia)). lia.
  - apply Hn. lia.
Qed.

Lemma round53_exact z : - 2 ^ 53 ≤ z ≤ 2 ^ 53 → round53 z = z.
Proof.
  intros Hz. destruct (decide (z = 2 ^ 53)) as [->|H1]; [done|].
  destruct (decide (z = - 2 ^ 53)) as [->|H2]; [done|].
  pose proof (round53_near 0 z ltac:(lia)) as Hn. simpl in Hn. lia.
Qed.

(** ** Scores *)

(** Nanoseconds that a level of priority is worth. *)
Definition level : Duration := 10 * Second.

Definition small_priority (p : Z) : Prop := - 900000 ≤ p ≤ 900000.

(** The time is between 1970 and 2043. *)
Definition current (t : Time) : Prop := 0 ≤ t - unix_epoch < 2 ^ 61.

Lemma score_rounded p t : small_priority p → current t →
  score p t = round53 (- p * level + round53 (t - unix_epoch)).
Proof.
  unfold small_priority, current, score, UnixNano. intros Hp Ht.
  rewrite (wrap64_id (- p)), (wrap64_id (t - unix_epoch)) by (unfold int64; lia).
  rewrite (round53_exact (- p)) by lia. change level with (10 ^ 10).
  by rewrite (round53_exact (- p * 10 ^ 10)) by lia.
Qed.

Lemma score_near p t : small_priority p → current t →
  - 384 ≤ score p t - (t - unix_epoch - p * level) ≤ 384.
Proof.
  intros Hp Ht. rewrite score_rounded by done. unfold small_priority, current in *.
  pose proof (round53_near 8 (t - unix_epoch) ltac:(lia) ltac:(lia)) as H1.
  change (2 ^ 8) with 256 in H1. change level with 10000000000.
  pose proof (round53_near 9 (- p * 10000000000 + round53 (t - unix_epoch)) ltac:(lia) ltac:(lia)) as H2.
  change (2 ^ 9) with 512 in H2. lia.
Qed.

(** What the scores do: jobs of one priority are ordered by the time of
    their [Enqueue]; a level of priority is worth ten seconds, so that a job
    that waits for ten seconds per level longer is delivered before a job of
    higher priority, and within that window the priority decides (the
    rounding of [float64] is worth less than a microsecond). *)
Theorem redis_priority_is_ten_seconds p1 t1 p2 t2 :
  small_priority p1 → small_priority p2 → current t1 → current t2 →
  (p1 = p2 → t1 ≤ t2 → score p1 t1 ≤ score p2 t2) ∧
  (t1 - p1 * level + 768 < t2 - p2 * level → score p1 t1 < score p2 t2).
Proof.
  intros Hp1 Hp2 Ht1 Ht2. split.
  - intros <- Hle. rewrite !score_rounded by done. apply round53_mono.
    pose proof (round53_mono (t1 - unix_epoch) (t2 - unix_epoch) ltac:(lia)). lia.
  - pose proof (score_near p1 t1 Hp1 Ht1). pose proof (score_near p2 t2 Hp2 Ht2). lia.
Qed.

(** A job of priority 0 goes before one of priority 10 enqueued 101 seconds
    later. *)
Lemma redis_priority_is_ten_seconds_witness :
  let now := unix_epoch + 1700000000 * Second in score 0 now < score 10 (now + 101 * Second).
Proof.
  intros now. apply (redis_priority_is_ten_seconds 0 now 10 (now + 101 * Second));
    unfold small_priority, current, level, now, Second; lia.
Defined.

(** ** The queues as sorted sets *)

(** The members of a queue with their scores, and whether it is paused. *)
Definition members_of (d : DB) (q : string) : gmap string Z :=
  match d !! (keyQueueZSet +:+ q) with Some (RZSet m) => m | _ => ∅ end.

Definition paused_of (d : DB) (q : string) : bool :=
  bool_decide (d !! (keyPrefixQueuePause +:+ q) ≠ None).

Record queues : Type := mkQueues {
  members : string → gmap string Z;
  paused : string → bool;
}.

Definition queues_of (d : DB) : queues := mkQueues (members_of d) (paused_of d).

#[export] Instance queues_equiv : Equiv queues := λ v v',
  (∀ q, members v q = members v' q) ∧ (∀ q, paused v q = paused v' q).

Definition set_members (q : string) (m : gmap string Z) (v : queues) : queues :=
  mkQueues (λ q', if bool_decide (q' = q) then m else members v q') (paused v).

Definition set_paused (q : string) (b : bool) (v : queues) : queues :=
  mkQueues (members v) (λ q', if bool_decide (q' = q) then b else paused v q').

Inductive queue_call : Type :=
  | CEnqueue (now : Time) (q id : string) (priority : Z)
  | CDequeue (q workerID : string)
  | CRemove (q id : string)
  | CLength (q : string)
  | CPeek (q : string)
  | CPause (q : string)
  | CResume (q : string)
  | CIsPaused (q : string).

Inductive answer : Type :=
  | ADone
  | AJob (id : string)
  | ACount (n : Z)
  | AFlag (b : bool).

Definition queue_call_run `{RedisClient R} (c : queue_call) : M R answer :=
  match c with
  | CEnqueue now q id p => Enqueue (λ _, now) q id p ;; mret ADone
  | CDequeue q w => id ← Dequeue q w; mret (AJob id)
  | CRemove q id => Remove q id ;; mret ADone
  | CLength q => n ← Length q; mret (ACount n)
  | CPeek q => id ← Peek q; mret (AJob id)
  | CPause q => PauseQueue q ;; mret ADone
  | CResume q => ResumeQueue q ;; mret ADone
  | CIsPaused q => b ← IsQueuePaused q; mret (AFlag b)
  end.

(** The strings that no argument of a call may be empty. *)
Definition names (c : queue_call) : list string :=
  match c with
  | CEnqueue _ q id _ | CRemove q id => [q; id]
  | CDequeue q w => [q; w]
  | CLength q | CPeek q | CPause q | CResume q | CIsPaused q => [q]
  end.

(** The next job: the least score, then the least identifier. *)
Definition next_job (m : gmap string Z) : option string := head (sorted_set m).*1.

Definition queue_spec (c : queue_call) (v : queues) : res answer * queues :=
  if bool_decide ("" ∈ names c) then (Err ErrInvalidValue, v) else
  match c with
  | CEnqueue now q id p =>
      if paused v q then (Err ErrQueuePaused, v)
      else (Ok ADone, set_members q (<[id := score p now]> (members v q)) v)
  | CDequeue q w =>
      if paused v q then (Err ErrQueuePaused, v)
      else match next_job (members v q) with
           | Some id => (Ok (AJob id), set_members q (delete id (members v q)) v)
           | None => (Err ErrEmptyQueue, v)
           end
  | CRemove q id =>
      match members v q !! id with
      | Some _ => (Ok ADone, set_members q (delete id (members v q)) v)
      | None => (Err ErrJobNotFound, v)
      end
  | CLength q => (Ok (ACount (Z.of_nat (size (members v q)))), v)
  | CPeek q =>
      match next_job (members v q) with
      | Some id => (Ok (AJob id), v)
      | None => (Err ErrEmptyQueue, v)
      end
  | CPause q => (Ok ADone, set_paused q true v)
  | CResume q => (Ok ADone, set_paused q false v)
  | CIsPaused q => (Ok (AFlag (paused v q)), v)
  end.

(** *** Facts *)

Lemma zset_key_inj q q' : keyQueueZSet +:+ q = keyQueueZSet +:+ q' → q = q'.
Proof. unfold keyQueueZSet. by intros [= ?]. Qed.

Lemma pause_key_inj q q' : keyPrefixQueuePause +:+ q = keyPrefixQueuePause +:+ q' → q = q'.
Proof. unfold keyPrefixQueuePause. by intros [= ?]. Qed.

Lemma zset_pause_ne q q' : keyQueueZSet +:+ q ≠ keyPrefixQueuePause +:+ q'.
Proof. done. Qed.

Lemma members_lookup d q : typed d →
  at_key as_zset (keyQueueZSet +:+ q) d = (Ok (members_of d q), d).
Proof.
  intros Hd. unfold at_key, members_of, get, mbind, M_bind. simpl.
  destruct (d !! _) as [v|] eqn:E; [|done]. destruct (Hd _ _ E) as [Hv _].
  rewrite kind_zset in Hv. by destruct v.
Qed.

Lemma put_members d q m : queues_of (put_zset (keyQueueZSet +:+ q) m d) ≡ set_members q m (queues_of d).
Proof.
  unfold put_zset. split; intros q'; simpl; unfold members_of, paused_of.
  - destruct (decide (q' = q)) as [->|Hq].
    + rewrite (bool_decide_true (q = q)) by done.
      case_bool_decide; subst; by rewrite ?lookup_delete_eq, ?lookup_insert_eq.
    + rewrite (bool_decide_false (q' = q)) by done.
      case_bool_decide; [rewrite lookup_delete_ne|rewrite lookup_insert_ne]; try done;
        intros E%zset_key_inj; by subst.
  - destruct (bool_decide (m = ∅)); [by rewrite lookup_delete_ne|by rewrite lookup_insert_ne].
Qed.

Lemma put_pause d q v : queues_of (<[keyPrefixQueuePause +:+ q := v]> d) ≡ set_paused q true (queues_of d).
Proof.
  split; intros q'; simpl; unfold members_of, paused_of.
  - by rewrite lookup_insert_ne.
  - destruct (decide (q' = q)) as [->|Hq].
    + by rewrite (bool_decide_true (q = q)), lookup_insert_eq by done.
    + rewrite (bool_decide_false (q' = q)), lookup_insert_ne; [done| |done].
      intros E%pause_key_inj. by subst.
Qed.

Lemma delete_pause d q : queues_of (delete (keyPrefixQueuePause +:+ q) d) ≡ set_paused q false (queues_of d).
Proof.
  split; intros q'; simpl; unfold members_of, paused_of.
  - by rewrite lookup_delete_ne.
  - destruct (decide (q' = q)) as [->|Hq].
    + by rewrite (bool_decide_true (q = q)), lookup_delete_eq by done.
    + rewrite (bool_decide_false (q' = q)), lookup_delete_ne; [done| |done].
      intros E%pause_key_inj. by subst.
Qed.

Lemma IsQueuePaused_reference q (d : DB) : q ≠ "" → IsQueuePaused q d = (Ok (paused_of d q), d).
Proof.
  intros Hq. unfold IsQueuePaused, wrap_err, mbind, M_bind. rewrite bool_decide_false by done.
  simpl. unfold get, mbind, M_bind. simpl. unfold paused_of.
  by destruct (d !! (keyPrefixQueuePause +:+ q)).
Qed.

Lemma bool_decide_empty_names (q id : string) :
  bool_decide ("" ∈ [q; id]) = bool_decide (q = "") || bool_decide (id = "").
Proof. repeat case_bool_decide; set_solver. Qed.

Lemma bool_decide_empty_name (q : string) : bool_decide ("" ∈ [q]) = bool_decide (q = "").
Proof. repeat case_bool_decide; set_solver. Qed.

(** *** The methods on the reference server *)

Lemma ZRANGE_first d q : typed d →
  ZRANGE (keyQueueZSet +:+ q) 0 0 d = (Ok (take 1 (sorted_set (members_of d q)).*1), d).
Proof. intros Hd. simpl. by rewrite (bind_Ok _ _ _ _ _ (members_lookup d q Hd)). Qed.

Lemma ZREM_reference d q x : typed d →
  ZREM (keyQueueZSet +:+ q) x d =
    (Ok (if bool_decide (members_of d q !! x = None) then 0 else 1),
     put_zset (keyQueueZSet +:+ q) (delete x (members_of d q)) d).
Proof. intros Hd. simpl. by rewrite (bind_Ok _ _ _ _ _ (members_lookup d q Hd)). Qed.

Lemma pop_reference d q : typed d →
  pop_script (keyQueueZSet +:+ q) d =
    match next_job (members_of d q) with
    | Some id => (Ok (Some id), put_zset (keyQueueZSet +:+ q) (delete id (members_of d q)) d)
    | None => (Ok None, d)
    end.
Proof.
  intros Hd. unfold pop_script, next_job. rewrite (bind_Ok _ _ _ _ _ (ZRANGE_first d q Hd)).
  destruct (sorted_set (members_of d q)).*1 as [|id l]; [done|]. cbn [take head].
  by rewrite (bind_Ok _ _ _ _ _ (ZREM_reference d q id Hd)).
Qed.

Definition implements_queue (c : queue_call) (d : DB) : Prop :=
  ∃ d', queue_call_run c d = ((queue_spec c (queues_of d)).1, d') ∧
    queues_of d' ≡ (queue_spec c (queues_of d)).2.

#[export] Instance queues_equiv_refl : Reflexive (≡@{queues}).
Proof. by intros v. Qed.

Lemma implements_Enqueue now q id p d : typed d → implements_queue (CEnqueue now q id p) d.
Proof.
  intros Hd. unfold implements_queue, queue_spec. cbn [names queue_call_run].
  rewrite bool_decide_empty_names. unfold Enqueue.
  destruct (bool_decide (q = "") || bool_decide (id = "")) eqn:E; [by exists d|].
  apply orb_false_iff in E as [Hq%bool_decide_eq_false _].
  unfold mbind at 1, M_bind at 1. rewrite (bind_Ok _ _ _ _ _ (IsQueuePaused_reference q d Hq)).
  cbn [paused queues_of]. destruct (paused_of d q); [by exists d|].
  unfold wrap_err. simpl. rewrite (bind_Ok _ _ _ _ _ (members_lookup d q Hd)). simpl.
  eexists. split; [done|]. apply put_members.
Qed.

Lemma implements_Dequeue q w d : typed d → implements_queue (CDequeue q w) d.
Proof.
  intros Hd. unfold implements_queue, queue_spec. cbn [names queue_call_run].
  rewrite bool_decide_empty_names. unfold Dequeue.
  destruct (bool_decide (q = "") || bool_decide (w = "")) eqn:E; [by exists d|].
  apply orb_false_iff in E as [Hq%bool_decide_eq_false _].
  unfold mbind at 1, M_bind at 1. rewrite (bind_Ok _ _ _ _ _ (IsQueuePaused_reference q d Hq)).
  cbn [paused members queues_of]. destruct (paused_of d q); [by exists d|].
  unfold wrap_err, mbind, M_bind. cbn [EVAL reference]. rewrite pop_reference by done.
  destruct (next_job (members_of d q)) as [id|]; [|by exists d].
  eexists. split; [done|]. apply put_members.
Qed.

Lemma implements_Remove q id d : typed d → implements_queue (CRemove q id) d.
Proof.
  intros Hd. unfold implements_queue, queue_spec. cbn [names queue_call_run].
  rewrite bool_decide_empty_names. unfold Remove.
  destruct (bool_decide (q = "") || bool_decide (id = "")) eqn:E; [by exists d|].
  unfold wrap_err, mbind, M_bind. rewrite ZREM_reference by done. cbn [members queues_of].
  destruct (members_of d q !! id) as [v|] eqn:Em.
  - rewrite bool_decide_false by done. simpl. eexists. split; [done|]. apply put_members.
  - rewrite bool_decide_true by done. simpl. rewrite delete_id by done.
    eexists. split; [done|]. split; intros q'; [|apply put_members].
    rewrite (proj1 (put_members d q (members_of d q)) q'). simpl.
    clear. by case_bool_decide; subst.
Qed.

Lemma implements_queue_all c d : typed d → implements_queue c d.
Proof.
  intros Hd. destruct c as [now q id p|q w|q id|q|q|q|q|q];
    [by apply implements_Enqueue|by apply implements_Dequeue|by apply implements_Remove|..];
    unfold implements_queue, queue_spec; cbn [names queue_call_run]; rewrite bool_decide_empty_name;
    [unfold Length|unfold Peek|unfold PauseQueue|unfold ResumeQueue|];
    (destruct (bool_decide (q = "")) eqn:E; [exists d; unfold IsQueuePaused; by rewrite ?E|]).
  - unfold wrap_err. simpl. exists d. unfold mbind, M_bind.
    pose proof (members_lookup d q Hd) as Hm. by rewrite Hm.
  - unfold wrap_err, mbind, M_bind. rewrite ZRANGE_first by done. cbn [members queues_of].
    unfold next_job. exists d. by destruct (sorted_set (members_of d q)).*1.
  - eexists. split; [done|]. apply put_pause.
  - eexists. split; [done|]. apply delete_pause.
  - apply bool_decide_eq_false in E. exists d. unfold mbind, M_bind.
    by rewrite IsQueuePaused_reference.
Qed.

(** ** The queues of a server *)

Section server.
Context `{RedisLaws R}.

Lemma refines_queue_call c : refines db (queue_call_run c) (queue_call_run c).
Proof. unfold queue_call_run. solve_refines. Qed.

Lemma queue_call_refines c (s : R) :
  typed (db s) →
  (queue_call_run c s).1 = (queue_spec c (queues_of (db s))).1 ∧
  queues_of (db (queue_call_run c s).2) ≡ (queue_spec c (queues_of (db s))).2.
Proof.
  intros Hd. destruct (implements_queue_all c (db s) Hd) as (d' & Hr & Hv).
  by destruct (refines_run _ _ _ _ _ _ (refines_queue_call c) Hr) as [-> ->].
Qed.

(** C21. The methods of [QueueStore] implement sorted sets and a flag per queue: on
    a server whose key space is well typed every call returns what the sets
    give and changes them as specified. An [Enqueue] of an identifier that
    waits already replaces its score; [Dequeue] takes the member of the least
    score, the least identifier among equals; a paused queue refuses both. *)
Theorem redis_queues_refine_sorted_sets c (s : R) :
  typed (db s) →
  (queue_call_run c s).1 = (queue_spec c (queues_of (db s))).1 ∧
  queues_of (db (queue_call_run c s).2) ≡ (queue_spec c (queues_of (db s))).2.
Proof.
  intros Hd. destruct (implements_queue_all c (db s) Hd) as (d' & Hr & Hv).
  by destruct (refines_run _ _ _ _ _ _ (refines_queue_call c) Hr) as [-> ->].
Qed.

(** *** Emptying a queue *)

(** One [Dequeue] by each of the workers, in the order the server runs them. *)
Fixpoint drain (q : string) (workers : list string) : M R (list string) :=
  match workers with
  | [] => mret []
  | w :: workers => id ← Dequeue q w; ids ← drain q workers; mret (id :: ids)
  end.

Lemma sorted_set_tail m x v l : sorted_set m = (x, v) :: l → sorted_set (delete x m) = l.
Proof.
  intros E. pose proof (sorted_set_sorted m) as Hs. unfold sorted_by in Hs. rewrite E in Hs.
  apply StronglySorted_inv in Hs as [Hs _]. destruct (sorted_set_head m x v l E) as [Hx _].
  apply (sorted_by_unique before_in_set); [by intros ?? _ _; apply before_total|apply sorted_set_sorted|done|].
  apply (Permutation_cons_inv (a := (x, v))). rewrite <- E. unfold sorted_set.
  rewrite !sort_slice_Permutation. by apply map_to_list_delete.
Qed.

Lemma Dequeue_step q w (s : R) x v l :
  typed (db s) → q ≠ "" → w ≠ "" → paused_of (db s) q = false →
  sorted_set (members_of (db s) q) = (x, v) :: l →
  ∃ s', Dequeue q w s = (Ok x, s') ∧ typed (db s') ∧ paused_of (db s') q = false ∧
    sorted_set (members_of (db s') q) = l.
Proof.
  intros Hd Hq Hw Hp E. pose proof (queue_call_refines (CDequeue q w) s Hd) as [Hr Hv].
  pose proof (safe_Dequeue q w s Hd) as [Hd' _]. unfold queue_spec in Hr, Hv. simpl in Hr, Hv.
  unfold mbind, M_bind in Hr, Hv.
  rewrite bool_decide_false in Hr, Hv by set_solver. rewrite Hp in Hr, Hv. unfold next_job in Hr, Hv.
  rewrite E in Hr, Hv. simpl in Hr, Hv. destruct (Dequeue q w s) as [[id|e|p] s']; simplify_eq/=.
  exists s'. destruct Hv as [Hm Hpa]. specialize (Hm q). specialize (Hpa q). simpl in Hm, Hpa.
  rewrite bool_decide_true in Hm by done. split_and!; [done..|congruence|].
  rewrite Hm. by eapply sorted_set_tail.
Qed.

(** C22. Emptying a queue delivers every waiting job once: as many workers as jobs
    wait, in whatever order the server runs their calls, get the jobs by score
    and then by identifier, no two the same one, and leave the queue empty. *)
Theorem redis_drain_delivers_each_once q workers (s : R) :
  typed (db s) → q ≠ "" → paused_of (db s) q = false → "" ∉ workers →
  length workers = size (members_of (db s) q) →
  (drain q workers s).1 = Ok (sorted_set (members_of (db s) q)).*1 ∧
  members_of (db (drain q workers s).2) q = ∅ ∧
  NoDup (sorted_set (members_of (db s) q)).*1.
Proof.
  intros Hd Hq Hp Hw Hl.
  assert (Hlen : length workers = length (sorted_set (members_of (db s) q))).
  { unfold sorted_set. by rewrite sort_slice_Permutation, length_map_to_list. }
  assert (Hnd : NoDup (sorted_set (members_of (db s) q)).*1).
  { unfold sorted_set. rewrite sort_slice_Permutation. apply NoDup_fst_map_to_list. }
  clear Hl. cut ((drain q workers s).1 = Ok (sorted_set (members_of (db s) q)).*1 ∧
    members_of (db (drain q workers s).2) q = ∅); [tauto|]. clear Hnd. revert s Hd Hp Hlen.
  induction workers as [|w workers IH]; intros s Hd Hp Hlen; simpl.
  - symmetry in Hlen. apply nil_length_inv in Hlen. rewrite Hlen. split; [done|]. by apply sorted_set_nil.
  - destruct (sorted_set (members_of (db s) q)) as [|[x v] l] eqn:E; [done|].
    destruct (Dequeue_step q w s x v l) as (s' & Hs & Hd' & Hp' & E'); [done..|set_solver|done|done|].
    destruct (IH ltac:(set_solver) s' Hd' Hp') as [Hr Hm]; [rewrite E'; by injection Hlen|].
    rewrite (bind_Ok _ _ _ _ _ Hs). rewrite E' in Hr. unfold mbind, M_bind.
    destruct (drain q workers s') as [[ids|e|p] s'']; simpl in Hr |- *; by simplify_eq/=.
Qed.

(** *** [ListQueues] *)

(** [ListQueues] ends and returns the names of the queues that have a waiting
    job and no other, possibly more than once; a queue that is empty is not
    listed, even when it is paused or configured. *)
Theorem redis_ListQueues_nonempty fuel (s : R) :
  typed (db s) → (scan_calls (db s) keyQueueZSet 0 < fuel)%nat →
  ∃ qs, (ListQueues fuel s).1 = Ok qs ∧ ∀ q, q ∈ qs ↔ members_of (db s) q ≠ ∅.
Proof.
  intros Hd Hf.
  assert (Hp : ∀ acc keys (s : R), ∃ s', queue_names acc keys s =
    (Ok (acc ++ omap (strip_prefix keyQueueZSet) keys), s') ∧ db s' = db s) by (intros ?? s'; by exists s').
  destruct (scan_loop_all "failed to scan queues" keyQueueZSet queue_names
    (λ _ acc keys, acc ++ omap (strip_prefix keyQueueZSet) keys) Hp fuel [] s Hf) as (pages & s' & Hl & _ & Hk).
  assert (Hfold : ∀ acc, foldl (λ acc keys, acc ++ omap (strip_prefix keyQueueZSet) keys) acc pages =
    acc ++ omap (strip_prefix keyQueueZSet) (concat pages)).
  { clear. induction pages as [|p pages IH]; intros acc; simpl; [by rewrite app_nil_r|].
    by rewrite IH, omap_app, app_assoc. }
  rewrite Hfold, app_nil_l in Hl. eexists. unfold ListQueues. rewrite Hl. split; [done|].
  intros q. rewrite list_elem_of_omap. unfold members_of. split.
  - intros (k & Hin & ->%strip_prefix_Some). apply Hk in Hin as [[v Hv] _].
    destruct (Hd _ _ Hv) as [Hkind Hok]. rewrite kind_zset in Hkind. rewrite Hv. by destruct v.
  - intros Hm. exists (keyQueueZSet +:+ q). rewrite strip_prefix_app. split; [|done].
    apply Hk. rewrite prefixed_spec. split; [|by eexists].
    destruct (db s !! (keyQueueZSet +:+ q)); [by eexists|done].
Qed.
End server.

(** ** Witnesses, on the server that is its data *)

Lemma typed_empty : typed ∅.
Proof. intros k v. by rewrite lookup_empty. Qed.

(** Two jobs wait: the later one has the higher priority. *)
Definition demo_queue : DB :=
  (Enqueue (λ _, unix_epoch + Second) "mail" "b" 10
    (Enqueue (λ _, unix_epoch) "mail" "a" 0 ∅).2).2.

Lemma demo_queue_typed : typed demo_queue.
Proof.
  assert (Hs : ∀ clock q id p (d : DB), typed d → typed (Enqueue clock q id p d).2)
    by (intros clock q id p d Hd; exact (proj1 (safe_Enqueue clock q id p d Hd))).
  apply Hs, Hs, typed_empty.
Qed.

Lemma redis_queues_refine_sorted_sets_witness :
  (queue_call_run (CDequeue "mail" "w1") demo_queue).1 = Ok (AJob "b").
Proof.
  destruct (redis_queues_refine_sorted_sets (R := DB) (CDequeue "mail" "w1") demo_queue)
    as [-> _]; [exact demo_queue_typed|by vm_compute].
Defined.

Lemma redis_drain_delivers_each_once_witness :
  (drain "mail" ["w1"; "w2"] demo_queue).1 = Ok ["b"; "a"].
Proof.
  destruct (redis_drain_delivers_each_once (R := DB) "mail" ["w1"; "w2"] demo_queue)
    as (-> & _); [exact demo_queue_typed|discriminate|by vm_compute|set_solver|by vm_compute|by vm_compute].
Defined.

Lemma redis_ListQueues_nonempty_witness :
  ∃ qs, (ListQueues 2 demo_queue).1 = Ok qs ∧ ∀ q, q ∈ qs ↔ members_of demo_queue q ≠ ∅.
Proof.
  refine (redis_ListQueues_nonempty (R := DB) 2 demo_queue _ _); [exact demo_queue_typed|vm_compute; lia].
Defined.
