(* ===== verification/RedisMetricsProps.v ===== *)
(** * The statistics of the Redis backend

    What the counters of a queue hold after any events, and what
    [GetQueueStats] makes of them. *)

From Stdlib Require Import Ascii.
From S2P Require Import Prelude Errors GoMonad Job GoTime Decimal Json JobJson Redis RedisStore RedisQueue.
From S2P Require Import RedisMetrics RedisTypes.
From S2P Require RedisWorker.

(** ** Pipelines of field updates *)

Inductive update : Type :=
  | Inc (k f : string) (n : Z)
  | Put (k f : string) (z : Z).

Definition send `{RedisClient R} (u : update) : M R unit :=
  match u with Inc k f n => HINCRBY k f n | Put k f z => HSET k f (itoa z) end.

(** What an update adds to a counter, and how much it can move one. *)
Definition added (k f : string) (u : update) : Z :=
  match u with
  | Inc k' f' n => if bool_decide (k' = k ∧ f' = f) then n else 0
  | Put _ _ _ => 0
  end.

Definition moved (u : update) : Z := match u with Inc _ _ n => Z.abs n | Put _ _ _ => 0 end.

Definition Zsum : list Z → Z := foldr Z.add 0.

Lemma sum_updates_app l1 l2 : Zsum (l1 ++ l2) = Zsum l1 + Zsum l2.
Proof. unfold Zsum. induction l1 as [|x l1 IH]; simpl; lia. Qed.

Lemma added_one k f u : Z.abs (added k f u) ≤ moved u.
Proof. destruct u; cbn [added moved]; [case_bool_decide|]; lia. Qed.

Lemma added_moved k f us : Z.abs (Zsum (added k f <$> us)) ≤ Zsum (moved <$> us).
Proof.
  unfold Zsum. induction us as [|u us IH]; [done|]. cbn [fmap list_fmap foldr].
  destruct u; cbn [added moved]; [case_bool_decide|]; lia.
Qed.

Lemma moved_nonneg us : 0 ≤ Zsum (moved <$> us).
Proof.
  unfold Zsum. induction us as [|u us IH]; [done|]. cbn [fmap list_fmap foldr].
  destruct u; cbn [moved]; lia.
Qed.

(** The fields that are only ever set. *)
Definition settable (f : string) : Prop :=
  f ∈ ["last_job_at"; "last_executed_at"; "min_duration_ms"; "max_duration_ms"].

Definition update_ok (u : update) : Prop :=
  match u with
  | Inc k f _ => kind_of_key k = Some KHash ∧ ¬ settable f
  | Put k f _ => kind_of_key k = Some KHash ∧ settable f
  end.

Definition fields_of (d : DB) (k : string) : gmap string string :=
  match d !! k with Some (RHash m) => m | _ => ∅ end.

Definition hashes_typed (d : DB) : Prop := ∀ k v,
  kind_of_key k = Some KHash → d !! k = Some v → ∃ m, v = RHash m.

(** The counters of [d] are [count]. *)
Definition counts (count : string → string → Z) (d : DB) : Prop := ∀ k f,
  ¬ settable f → hash_int (fields_of d k !! f) = Some (count k f).

Lemma fields_lookup d k : hashes_typed d → kind_of_key k = Some KHash →
  at_key as_hash k d = (Ok (fields_of d k), d).
Proof.
  intros Hd Hk. unfold at_key, fields_of, get, mbind, M_bind. simpl.
  destruct (d !! k) as [v|] eqn:E; [|done]. by destruct (Hd _ _ Hk E) as [m ->].
Qed.

Lemma fields_of_insert d k m k' :
  fields_of (<[k := RHash m]> d) k' = if bool_decide (k' = k) then m else fields_of d k'.
Proof.
  unfold fields_of. case_bool_decide; [subst; by rewrite lookup_insert_eq|by rewrite lookup_insert_ne].
Qed.

Lemma hashes_typed_insert d k m : hashes_typed d → hashes_typed (<[k := RHash m]> d).
Proof. intros Hd k' v Hk [[-> <-]|[_ Hv]]%lookup_insert_Some; [by eexists|by eapply Hd]. Qed.

Lemma send_reference u d count : hashes_typed d → counts count d → update_ok u →
  (∀ k f n, u = Inc k f n → in_range (count k f + n) = true) →
  ∃ d', send u d = (Ok tt, d') ∧ hashes_typed d' ∧ counts (λ k f, count k f + added k f u) d'.
Proof.
  intros Hd Hc Hu Hr. destruct u as [k f n|k f z]; destruct Hu as [Hk Hf]; simpl.
  - rewrite (bind_Ok _ _ _ _ _ (fields_lookup d k Hd Hk)), (Hc k f Hf), (Hr k f n eq_refl).
    eexists. split; [done|]. split; [by apply hashes_typed_insert|].
    intros k' f' Hf'. rewrite fields_of_insert.
    assert (Hz : int64 (count k f + n)).
    { specialize (Hr k f n eq_refl). unfold in_range, int64, min_int64, max_int64 in *. lia. }
    destruct (decide (k' = k)) as [->|Hk'].
    + rewrite (bool_decide_true (k = k)) by done. destruct (decide (f' = f)) as [->|Hne].
      * rewrite lookup_insert_eq, bool_decide_true by done. simpl. by apply parse_int_itoa.
      * rewrite lookup_insert_ne, bool_decide_false by naive_solver. rewrite Z.add_0_r. by apply Hc.
    + rewrite !bool_decide_false by naive_solver. rewrite Z.add_0_r. by apply Hc.
  - rewrite (bind_Ok _ _ _ _ _ (fields_lookup d k Hd Hk)).
    eexists. split; [done|]. split; [by apply hashes_typed_insert|].
    intros k' f' Hf'. rewrite fields_of_insert, Z.add_0_r.
    case_bool_decide as Hk'; [subst|by apply Hc].
    rewrite lookup_insert_ne by (intros <-; done). by apply Hc.
Qed.

(** A pipeline of updates that stay in range succeeds. *)
Lemma Exec_reference us d count : hashes_typed d → counts count d → Forall update_ok us →
  (∀ k f, Z.abs (count k f) + Zsum (moved <$> us) ≤ max_int64) →
  ∃ d', Exec (send <$> us) d = (Ok tt, d') ∧ hashes_typed d' ∧
    counts (λ k f, count k f + Zsum (added k f <$> us)) d'.
Proof.
  intros Hd Hc Hu. revert d count Hd Hc. induction Hu as [|u us Hu _ IH]; intros d count Hd Hc Hr.
  { exists d. split_and!; [done..|]. intros k f Hf. rewrite (Hc k f Hf). simpl. f_equal. lia. }
  pose proof (moved_nonneg us) as Hm.
  assert (Hr' : ∀ k f, Z.abs (count k f) + (moved u + Zsum (moved <$> us)) ≤ max_int64) by exact Hr.
  destruct (send_reference u d count Hd Hc Hu) as (d1 & Hs & Hd1 & Hc1).
  { intros k f n ->. specialize (Hr' k f). cbn [moved] in Hr'.
    unfold in_range, min_int64, max_int64 in *. lia. }
  destruct (IH d1 _ Hd1 Hc1) as (d2 & He & Hd2 & Hc2).
  { intros k f. specialize (Hr' k f). pose proof (added_one k f u). lia. }
  exists d2. split; [|split; [done|]].
  - cbn [fmap list_fmap Exec]. rewrite (bind_Ok _ _ _ _ _ (attempt_Ok _ _ _ _ Hs)).
    rewrite (bind_Ok _ _ _ _ _ (attempt_Ok _ _ _ _ He)). done.
  - intros k f Hf. rewrite (Hc2 k f Hf). f_equal.
    change (Zsum (added k f <$> u :: us)) with (added k f u + Zsum (added k f <$> us)). lia.
Qed.

(** ** Events *)

Inductive event : Type :=
  | Created (clk : Clock) (q t : string)
  | Completed (clk : Clock) (q t : string) (d : Duration)
  | Failed (clk : Clock) (q t errType : string)
  | Retried (q t : string).

Definition record `{RedisClient R} (e : event) : M R unit :=
  match e with
  | Created clk q t => RecordJobCreated clk q t
  | Completed clk q t d => RecordJobCompleted clk q t d
  | Failed clk q t e => RecordJobFailed clk q t e
  | Retried q t => RecordJobRetried q t
  end.

Definition event_queue (e : event) : string :=
  match e with Created _ q _ | Completed _ q _ _ | Failed _ q _ _ | Retried q _ => q end.

(** The amounts of an event, by field. *)
Definition amount (f : string) (e : event) : Z :=
  match e with
  | Created _ _ _ => if bool_decide (f = "pending_count") then 1 else 0
  | Completed _ _ _ d =>
      if bool_decide (f = "success_count" ∨ f = "completed_count") then 1
      else if bool_decide (f = "running_count") then -1
      else if bool_decide (f = "total_duration_ms") then Milliseconds d else 0
  | Failed _ _ _ _ =>
      if bool_decide (f = "failed_count") then 1
      else if bool_decide (f = "running_count") then -1 else 0
  | Retried _ _ => if bool_decide (f = "retried_count") then 1 else 0
  end.

Definition total (q f : string) (es : list event) : Z :=
  Zsum (amount f <$> filter (λ e, event_queue e = q) es).

(** Seven counters, and the durations of a queue and of a job type. *)
Definition weight (e : event) : Z :=
  match e with Completed _ _ _ d => 7 + 2 * Z.abs (Milliseconds d) | _ => 7 end.

(** The updates of an event; those of the extreme durations depend on the state. *)
Definition updates (e : event) (extremes : list update) : list update :=
  let queueStatsKey := keyPrefixQueueStats +:+ event_queue e in
  match e with
  | Created clk q t =>
      [Inc queueStatsKey "pending_count" 1; Put queueStatsKey "last_job_at" (Unix (clk 0%nat))] ++
      if bool_decide (t ≠ "")
      then [Inc (keyPrefixJobType +:+ t) "total_count" 1;
            Put (keyPrefixJobType +:+ t) "last_executed_at" (Unix (clk 1%nat))] else []
  | Completed clk q t d =>
      [Inc queueStatsKey "success_count" 1; Inc queueStatsKey "running_count" (-1);
       Put queueStatsKey "last_job_at" (Unix (clk 0%nat));
       Inc queueStatsKey "total_duration_ms" (Milliseconds d); Inc queueStatsKey "completed_count" 1] ++
      if bool_decide (t ≠ "")
      then [Inc (keyPrefixJobType +:+ t) "success_count" 1;
            Inc (keyPrefixJobType +:+ t) "total_duration_ms" (Milliseconds d)] ++ extremes else []
  | Failed clk q t e =>
      [Inc queueStatsKey "failed_count" 1; Inc queueStatsKey "running_count" (-1);
       Put queueStatsKey "last_job_at" (Unix (clk 0%nat))] ++
      if bool_decide (t ≠ "") then [Inc (keyPrefixJobType +:+ t) "failed_count" 1] else []
  | Retried q t => [Inc queueStatsKey "retried_count" 1]
  end.

Definition is_extreme (u : update) : Prop :=
  ∃ t f z, u = Put (keyPrefixJobType +:+ t) f z ∧ (f = "min_duration_ms" ∨ f = "max_duration_ms").

Lemma updates_ok e ex : Forall is_extreme ex → Forall update_ok (updates e ex).
Proof.
  intros Hx. assert (Hx' : Forall update_ok ex).
  { eapply Forall_impl; [exact Hx|]. intros u (t & f & z & -> & Hf). split; [done|].
    unfold settable. destruct Hf as [-> | ->]; set_solver. }
  assert (Hc : ∀ f, f ∉ ["last_job_at"; "last_executed_at"; "min_duration_ms"; "max_duration_ms"] → ¬ settable f)
    by done.
  destruct e; simpl; repeat (case_bool_decide || apply Forall_cons_2 || apply Forall_nil_2); try done;
    split; try done; unfold settable; rewrite !elem_of_cons, elem_of_nil; naive_solver.
Qed.

Lemma extremes_quiet ex : Forall is_extreme ex → ∀ k f,
  Zsum (added k f <$> ex) = 0 ∧ Zsum (moved <$> ex) = 0.
Proof. induction 1 as [|u ex (t & f & z & -> & _) _ IH]; intros k' f'; simpl; [done|]. by apply IH. Qed.

Lemma stats_type_ne q t : keyPrefixJobType +:+ t ≠ keyPrefixQueueStats +:+ q.
Proof. done. Qed.

Lemma stats_key_inj q q' : keyPrefixQueueStats +:+ q = keyPrefixQueueStats +:+ q' ↔ q = q'.
Proof. split; [|by intros ->]. unfold keyPrefixQueueStats. by intros [= ?]. Qed.

Lemma sum_updates_cons x l : Zsum (x :: l) = x + Zsum l.
Proof. done. Qed.

Lemma added_other q f t g n : added (keyPrefixQueueStats +:+ q) f (Inc (keyPrefixJobType +:+ t) g n) = 0.
Proof. cbn [added]. by rewrite bool_decide_false by (intros [E _]; by apply stats_type_ne in E). Qed.

Lemma added_stats q f q' g n :
  added (keyPrefixQueueStats +:+ q) f (Inc (keyPrefixQueueStats +:+ q') g n) =
    if bool_decide (q' = q) then if bool_decide (f = g) then n else 0 else 0.
Proof.
  cbn [added]. case_bool_decide as H1; rewrite stats_key_inj in H1.
  - destruct H1 as [-> ->]. by rewrite !bool_decide_true.
  - destruct (decide (q' = q)) as [->|]; [|by rewrite bool_decide_false].
    rewrite (bool_decide_true (q = q)), bool_decide_false by naive_solver. done.
Qed.

Lemma updates_added q f e ex : Forall is_extreme ex →
  Zsum (added (keyPrefixQueueStats +:+ q) f <$> updates e ex) =
    if bool_decide (event_queue e = q) then amount f e else 0.
Proof.
  intros Hx. destruct (extremes_quiet ex Hx (keyPrefixQueueStats +:+ q) f) as [Ha _].
  assert (E0 : Zsum [] = 0) by done.
  destruct e as [clk q' t|clk q' t d|clk q' t er|q' t]; cbn [updates event_queue amount app];
    try destruct (bool_decide (t ≠ "")); cbn [app]; rewrite ?fmap_cons, ?fmap_nil;
    rewrite ?sum_updates_cons, ?added_stats, ?added_other, ?Ha, ?E0; cbn [added];
    destruct (bool_decide (q' = q)); try lia;
    repeat case_bool_decide; subst; try lia; naive_solver.
Qed.

Lemma updates_moved e ex : Forall is_extreme ex → Zsum (moved <$> updates e ex) ≤ weight e.
Proof.
  intros Hx. destruct (extremes_quiet ex Hx "" "") as [_ Hm]. assert (E0 : Zsum [] = 0) by done.
  destruct e as [clk q' t|clk q' t d|clk q' t er|q' t]; cbn [updates event_queue weight app];
    try destruct (bool_decide (t ≠ "")); cbn [app]; rewrite ?fmap_cons, ?fmap_nil;
    rewrite ?sum_updates_cons, ?Hm, ?E0; cbn [moved]; lia.
Qed.

Lemma hget_reference k f d : hashes_typed d → kind_of_key k = Some KHash →
  ∃ z, hget_int k f d = (Ok z, d).
Proof.
  intros Hd Hk. unfold hget_int, attempt. simpl.
  unfold mbind at 1, M_bind at 1.
  unfold mbind at 1, M_bind at 1. rewrite (fields_lookup d k Hd Hk). by eexists.
Qed.

(** An event is a pipeline of its updates. *)
Lemma record_reference e d : hashes_typed d → event_queue e ≠ "" →
  ∃ ex, Forall is_extreme ex ∧ record e d = Exec (send <$> updates e ex) d.
Proof.
  intros Hd Hq. destruct e as [clk q t|clk q t dur|clk q t er|q t]; simpl in Hq; cbn [record].
  - exists []. split; [done|]. unfold RecordJobCreated. rewrite bool_decide_false by done.
    cbn [updates event_queue]. by destruct (bool_decide (t ≠ "")).
  - unfold RecordJobCompleted. rewrite (bool_decide_false (q = "")) by done.
    cbn [updates event_queue]. destruct (bool_decide (t ≠ "")); [|by exists []].
    destruct (hget_reference (keyPrefixJobType +:+ t) "min_duration_ms" d Hd eq_refl) as [mn Hmn].
    destruct (hget_reference (keyPrefixJobType +:+ t) "max_duration_ms" d Hd eq_refl) as [mx Hmx].
    rewrite (bind_Ok _ _ _ _ _ Hmn), (bind_Ok _ _ _ _ _ Hmx).
    exists ((if (mn =? 0) || (Milliseconds dur <? mn)
        then [Put (keyPrefixJobType +:+ t) "min_duration_ms" (Milliseconds dur)] else []) ++
       (if mx <? Milliseconds dur
        then [Put (keyPrefixJobType +:+ t) "max_duration_ms" (Milliseconds dur)] else [])).
    split.
    + rewrite Forall_app. split; case_match; repeat constructor; eexists _, _, _; eauto.
    + by destruct ((mn =? 0) || (Milliseconds dur <? mn)), (mx <? Milliseconds dur).
  - exists []. split; [done|]. unfold RecordJobFailed. rewrite bool_decide_false by done.
    cbn [updates event_queue]. by destruct (bool_decide (t ≠ "")).
  - exists []. split; [done|]. unfold RecordJobRetried. rewrite bool_decide_false by done.
    cbn [updates event_queue fmap list_fmap send Exec]. unfold mbind, M_bind, attempt.
    by destruct (HINCRBY _ _ _ d) as [[[]|e|p] d'].
Qed.

(** ** Any events *)

Definition tally (k f : string) (es : list event) : Z :=
  Zsum ((λ e, Zsum (added k f <$> updates e [])) <$> es).

Lemma updates_extremes k f e ex : Forall is_extreme ex →
  Zsum (added k f <$> updates e ex) = Zsum (added k f <$> updates e []).
Proof.
  intros Hx. destruct (extremes_quiet ex Hx k f) as [Ha _]. destruct e as [| |clk q t d|]; cbn [updates]; try done.
  destruct (bool_decide _); [|done]. rewrite !fmap_app, !sum_updates_app, Ha. simpl. lia.
Qed.

Lemma tally_bound k f es : Z.abs (tally k f es) ≤ Zsum (weight <$> es).
Proof.
  unfold tally. induction es as [|e es IH]; [done|]. rewrite !fmap_cons, !sum_updates_cons.
  pose proof (added_moved k f (updates e [])). pose proof (updates_moved e [] (Forall_nil_2 _)). lia.
Qed.

Lemma tally_total q f es : tally (keyPrefixQueueStats +:+ q) f es = total q f es.
Proof.
  unfold tally, total. induction es as [|e es IH]; [done|]. rewrite fmap_cons, sum_updates_cons, IH.
  rewrite updates_added by done. rewrite filter_cons. case_bool_decide.
  - rewrite decide_True by done. by rewrite fmap_cons, sum_updates_cons.
  - by rewrite decide_False.
Qed.

Lemma tally_snoc k f es e : tally k f (es ++ [e]) = tally k f es + Zsum (added k f <$> updates e []).
Proof. unfold tally. rewrite fmap_app, sum_updates_app. simpl. lia. Qed.

Fixpoint record_all `{RedisClient R} (es : list event) : M R unit :=
  match es with
  | [] => mret tt
  | e :: es => record e ;; record_all es
  end.

Lemma record_all_reference es1 es2 d :
  hashes_typed d → counts (λ k f, tally k f es1) d → Forall (λ e, event_queue e ≠ "") es2 →
  Zsum (weight <$> es1 ++ es2) ≤ max_int64 →
  ∃ d', record_all es2 d = (Ok tt, d') ∧ hashes_typed d' ∧ counts (λ k f, tally k f (es1 ++ es2)) d'.
Proof.
  intros Hd Hc Hq. revert es1 d Hd Hc. induction Hq as [|e es2 He _ IH]; intros es1 d Hd Hc Hw.
  { exists d. by rewrite app_nil_r. }
  destruct (record_reference e d Hd He) as (ex & Hx & Hr).
  rewrite cons_middle, (assoc_L (++)) in Hw.
  assert (Hw1 : Zsum (weight <$> es1) + weight e ≤ max_int64).
  { rewrite !fmap_app, !sum_updates_app in Hw. simpl in Hw.
    assert (0 ≤ Zsum (weight <$> es2)); [|lia]. clear. unfold Zsum.
    induction es2 as [|e es IH]; [done|]. rewrite fmap_cons. cbn [foldr]. destruct e; cbn [weight]; lia. }
  destruct (Exec_reference (updates e ex) d _ Hd Hc (updates_ok e ex Hx)) as (d1 & Hs & Hd1 & Hc1).
  { intros k f. pose proof (tally_bound k f es1). pose proof (updates_moved e ex Hx). lia. }
  destruct (IH (es1 ++ [e]) d1 Hd1) as (d2 & Hs2 & Hd2 & Hc2); [|done|].
  { intros k f Hf. rewrite (Hc1 k f Hf), tally_snoc. by rewrite updates_extremes. }
  exists d2. rewrite cons_middle, (assoc_L (++)). split; [|done].
  cbn [record_all]. rewrite <- Hr in Hs. by rewrite (bind_Ok _ _ _ _ _ Hs).
Qed.

Lemma Sscanf_itoa z : int64 z → Sscanf (itoa z) = z.
Proof.
  intros Hz. assert (Hr : in_range z = true) by (unfold int64, in_range, min_int64, max_int64 in *; lia).
  assert (Hp : ∀ n, 0 ≤ n → scan_digits (fixed (width n) n) = n).
  { intros n Hn. pose proof (read_digits_width n "" Hn eq_refl) as H. rewrite string_app_empty_r in H.
    unfold scan_digits. rewrite H. destruct (fixed_head (width n) n (width_pos n)) as (d & t & -> & Hd);
      [by auto using width_spec|]. simpl. rewrite digit_of_digit by done. by rewrite bool_decide_false. }
  unfold Sscanf. assert (E : scan_int (itoa z) = z); [|by rewrite E, Hr].
  unfold itoa. destruct (Z.ltb_spec z 0) as [Hneg|Hpos].
  - change (- scan_digits (fixed (width (- z)) (- z)) = z). rewrite Hp; lia.
  - rewrite <- (Hp z Hpos) at 3. destruct (fixed_head (width z) z (width_pos z)) as (d & t & -> & Hd);
      [by auto using width_spec|]. pose proof (digit_cases d Hd) as Hc.
    by repeat (destruct Hc as [->|Hc]; [reflexivity|]); subst.
Qed.

Lemma int_field_hash m f z : hash_int (m !! f) = Some z → value_ok (RHash m) → int_field m f = z.
Proof.
  unfold hash_int, int_field. intros Hz Hm. destruct (m !! f) as [t|] eqn:E; [|by injection Hz].
  destruct (Hm f t E) as (y & -> & Hy). rewrite parse_int_itoa in Hz by done. injection Hz as ->.
  by apply Sscanf_itoa.
Qed.

Lemma typed_hashes d : typed d → hashes_typed d.
Proof. intros Hd k v Hk Hv. destruct (Hd k v Hv) as [Hkind _]. rewrite Hk in Hkind.
  destruct v; try done. by eexists.
Qed.

Lemma typed_fields d k : typed d → value_ok (RHash (fields_of d k)).
Proof.
  intros Hd. unfold fields_of. destruct (d !! k) as [[]|] eqn:E; try apply value_ok_empty.
  by destruct (Hd _ _ E).
Qed.

(** The readings of the clock and the durations of an event are in range. *)
Definition event_ok (e : event) : Prop :=
  event_queue e ≠ "" ∧
  match e with
  | Created clk _ _ | Failed clk _ _ _ => ∀ n, int64 (Unix (clk n))
  | Completed clk _ _ d => (∀ n, int64 (Unix (clk n))) ∧ int64 d
  | Retried _ _ => True
  end.

Section server.
Context `{RedisLaws R}.

Lemma refines_hget k f : refines db (hget_int k f) (hget_int k f).
Proof. unfold hget_int. solve_refines. Qed.
#[local] Hint Resolve refines_hget : refinement.

Ltac solve_pipe :=
  apply refines_Exec; repeat (apply Forall2_app || apply Forall2_cons_2 || apply Forall2_nil_2 || case_match);
  auto with refinement.

Lemma refines_record e : refines db (record e) (record e).
Proof.
  destruct e; cbn [record];
    [unfold RecordJobCreated|unfold RecordJobCompleted|unfold RecordJobFailed|unfold RecordJobRetried];
    destruct (bool_decide _); auto with refinement.
  - solve_pipe.
  - destruct (bool_decide _); [|solve_pipe].
    apply refines_bind; [auto with refinement|intros mn]. apply refines_bind; [auto with refinement|intros mx].
    solve_pipe.
  - solve_pipe.
Qed.

Lemma safe_record e : event_ok e → safe (record e).
Proof.
  intros [_ He]. destruct e; cbn [record].
  - by apply safe_Created.
  - destruct He. by apply safe_Completed.
  - by apply safe_Failed.
  - unfold RecordJobRetried. case_bool_decide; [by apply safe_throw|by apply safe_HINCRBY].
Qed.

Lemma refines_record_all es : refines db (record_all es) (record_all es).
Proof.
  induction es as [|e es IH]; cbn [record_all]; [apply refines_ret|].
  apply refines_bind; [apply refines_record|by intros _].
Qed.

Lemma safe_record_all es : Forall event_ok es → safe (record_all es).
Proof.
  induction 1 as [|e es He _ IH]; cbn [record_all]; [apply safe_ret|].
  apply safe_bind; [by apply safe_record|by intros _].
Qed.

(** Reading the workers may fail, but it returns. *)
Lemma get_workers_reference ids (d : DB) : ∃ ws, RedisWorker.get_workers ids d = (Ok ws, d).
Proof.
  induction ids as [|id ids [ws IH]]; [by eexists|]. cbn [RedisWorker.get_workers].
  assert (∃ r, attempt (RedisWorker.Get id) d = (Ok r, d)) as [r Hr].
  { unfold attempt, RedisWorker.Get, wrap_err, mbind, M_bind. case_bool_decide; [by eexists|]. simpl.
    unfold at_key, get, mbind, M_bind. simpl. destruct (d !! _) as [[]|]; simpl; try by eexists.
    unfold unmarshal. destruct (Unmarshal _); by eexists. }
  rewrite (bind_Ok _ _ _ _ _ Hr), (bind_Ok _ _ _ _ _ IH). by eexists.
Qed.

Lemma worker_List_returns (s : R) : ∃ r s', attempt RedisWorker.List s = (Ok r, s').
Proof.
  unfold RedisWorker.List. destruct (law_SMEMBERS RedisWorker.set_key s) as [He Ho].
  unfold attempt, mbind, M_bind.
  destruct (as_set (db s !! RedisWorker.set_key) (db s)) as [[m|e|p] d'] eqn:E.
  - destruct (Ho m eq_refl) as (l & s' & Hs & _). rewrite (wrap_err_Ok _ _ _ _ _ Hs).
    destruct (get_workers_reference l (db s')) as [ws Hw].
    pose proof (RedisWorker.refines_get_workers l s') as Hr. rewrite Hw in Hr.
    destruct (RedisWorker.get_workers l s') as [r s'']. injection Hr as <- _. by eexists _, _.
  - destruct (He e eq_refl) as (s' & Hs & _). rewrite (wrap_err_Err _ _ _ _ _ Hs). by eexists _, _.
  - exfalso. by destruct (db s !! RedisWorker.set_key) as [[]|].
Qed.

(** The statistics of a queue after any events on a server that has none yet:
    the counts are those of the events. Nothing takes a job out of the pending
    count, and nothing puts one into the running count, which is the negative
    number of the jobs that ended; the average is over the completed jobs. *)
Theorem redis_queue_stats_exact es q (s : R) :
  typed (db s) → (∀ k, kind_of_key k = Some KHash → db s !! k = None) →
  Forall event_ok es → Zsum (weight <$> es) ≤ max_int64 → q ≠ "" →
  ∃ s1 st, record_all es s = (Ok tt, s1) ∧ (GetQueueStats q s1).1 = Ok st ∧
    qs_PendingCount st = total q "pending_count" es ∧
    qs_SuccessCount st = total q "success_count" es ∧
    qs_FailedCount st = total q "failed_count" es ∧
    qs_RunningCount st = - (total q "success_count" es + total q "failed_count" es) ∧
    qs_AvgProcessingTime st =
      if 0 <? total q "success_count" es
      then wrap64 (Z.quot (total q "total_duration_ms" es) (total q "success_count" es) * Millisecond)
      else 0.
Proof.
  intros Hd Hempty Hes Hw Hq.
  destruct (record_all_reference [] es (db s)) as (d1 & Hr & Hh & Hc); [by apply typed_hashes| | |done|].
  { intros k f Hf. unfold fields_of. destruct (db s !! k) as [[]|] eqn:E; try done.
    exfalso. destruct (Hd _ _ E) as [Hk _]. by rewrite (Hempty k Hk) in E. }
  { eapply Forall_impl; [exact Hes|]. by intros e [He _]. }
  destruct (refines_run _ _ _ s _ _ (refines_record_all es) Hr) as [Hr1 Hd1].
  pose proof (safe_record_all es Hes s Hd) as [Ht1 _].
  destruct (record_all es s) as [r s1]. simpl in Hr1, Hd1, Ht1. subst r.
  pose proof (law_HGETALL (keyPrefixQueueStats +:+ q) s1) as Hg.
  change (HGETALL (keyPrefixQueueStats +:+ q) (db s1))
    with (at_key as_hash (keyPrefixQueueStats +:+ q) (db s1)) in Hg.
  rewrite fields_lookup in Hg by (done || by apply typed_hashes).
  destruct (HGETALL (keyPrefixQueueStats +:+ q) s1) as [r s2] eqn:Es2. simpl in Hg.
  injection Hg as <- Hs2. destruct (worker_List_returns s2) as (ws & s3 & Hl).
  assert (Hf : ∀ f, ¬ settable f →
    int_field (fields_of (db s1) (keyPrefixQueueStats +:+ q)) f = total q f es).
  { intros f Hf. apply int_field_hash; [|by apply typed_fields].
    rewrite Hd1, (Hc (keyPrefixQueueStats +:+ q) f Hf), app_nil_l, tally_total. done. }
  exists s1. eexists. split; [done|]. split.
  - unfold GetQueueStats. rewrite bool_decide_false by done.
    rewrite (bind_Ok _ _ _ _ _ (wrap_err_Ok _ _ _ _ _ Es2)), (bind_Ok _ _ _ _ _ Hl). done.
  - unfold set_qs_ActiveWorkers, stats_of_fields. simpl.
    assert (Hns : ∀ f, f ∉ ["last_job_at"; "last_executed_at"; "min_duration_ms"; "max_duration_ms"] →
      ¬ settable f) by done.
    rewrite !Hf by (apply Hns; set_solver).
    assert (Hcc : total q "completed_count" es = total q "success_count" es).
    { unfold total. f_equal. }
    rewrite Hcc. split_and!; try done. unfold total. clear.
    induction (filter _ es) as [|e l IH]; [done|]. rewrite !fmap_cons, !sum_updates_cons, IH. destruct e; simpl; lia.
Qed.
End server.

(** ** A witness, on the server that is its data *)

Lemma redis_queue_stats_exact_witness : ∃ s1 st,
  record_all [Created (λ _, unix_epoch) "q" "t"; Completed (λ _, unix_epoch) "q" "t" (7 * Millisecond)] (∅ : DB)
    = (Ok tt, s1) ∧
  (GetQueueStats "q" s1).1 = Ok st ∧ qs_PendingCount st = 1 ∧ qs_RunningCount st = -1.
Proof.
  destruct (redis_queue_stats_exact (R := DB)
    [Created (λ _, unix_epoch) "q" "t"; Completed (λ _, unix_epoch) "q" "t" (7 * Millisecond)] "q" ∅)
    as (s1 & st & H1 & H2 & Hp & _ & _ & Hr & _).
  - intros k v Hv. change ((∅ : DB) !! k = Some v) in Hv. by rewrite lookup_empty in Hv.
  - intros k _. exact (lookup_empty (M := gmap string) _).
  - repeat apply Forall_cons_2; try apply Forall_nil_2; (split; [discriminate|]); vm_compute; intuition congruence.
  - by vm_compute.
  - discriminate.
  - exists s1, st. split; [exact H1|]. split; [exact H2|]. rewrite Hp, Hr. by vm_compute.
Defined.
