(* ===== verification/Http.v ===== *)
(** * The HTTP API (internal/api/http/server.go)

    The routes and the handlers, over the queue manager and the scheduler. A
    request has the segments of its path, which [ServeMux] has cleaned and
    decoded (the last one is empty after a final slash); a response has a
    status and the document of its body, which is missing when it cannot be
    encoded, as the error of the encoder is dropped. The connection, the
    headers and the files of the web page are not modelled. *)

From S2P Require Import Prelude Errors GoMonad Job Storage World GoTime.
From S2P Require Import Decimal Rfc3339 Json JobJson Manager Scheduler.

(** ** Requests and responses *)

Record Request : Type := mkRequest {
  rq_Method : string;
  rq_Path : list string;
  rq_Query : gmap string string;
  rq_Body : string;
}.

Record Response : Type := mkResponse {
  rs_Status : Z;
  rs_Body : option json;
}.

Definition MethodGet : string := "GET".
Definition MethodPost : string := "POST".
Definition MethodPut : string := "PUT".
Definition MethodDelete : string := "DELETE".

Definition StatusOK : Z := 200.
Definition StatusCreated : Z := 201.
Definition StatusBadRequest : Z := 400.
Definition StatusNotFound : Z := 404.
Definition StatusMethodNotAllowed : Z := 405.
Definition StatusInternalServerError : Z := 500.

(** [r.URL.Path] and [r.URL.Query().Get(name)]. *)
Definition URL_Path (r : Request) : string := foldr (λ seg p, "/" +:+ seg +:+ p) "" (rq_Path r).
Definition Query (r : Request) (name : string) : string := default "" (rq_Query r !! name).

(** [s[n:]] and [s[:n]]; out of range they panic. *)
Fixpoint slice_from (n : nat) (s : string) : option string :=
  match n, s with
  | O, _ => Some s
  | S n, String _ s => slice_from n s
  | S _, EmptyString => None
  end.

Fixpoint slice_to (n : nat) (s : string) : option string :=
  match n, s with
  | O, _ => Some ""
  | S n, String c s => String c <$> slice_to n s
  | S _, EmptyString => None
  end.

Definition slice {St} (s : option string) : M St string :=
  match s with Some s => mret s | None => panic "slice bounds out of range" end.

(** [json.NewDecoder(body).Decode(&v)]: the first value of the body. *)
Definition Decode `{JsonStruct A} (body : string) : option A :=
  '(v, _) ← read_value (2 * String.length body + 2) body;
  match v with
  | JObject l => of_members l
  | JNull => of_members []
  | _ => None
  end.

(** ** Documents *)

Definition struct_doc `{JsonStruct A} (a : A) : option json := JObject <$> members a.

Definition list_doc `{JsonStruct A} (l : list A) : option json := JArray <$> mapM struct_doc l.

(** A map of documents; [None] when one of them cannot be encoded. *)
Definition map_doc (l : list (string * option json)) : option json :=
  JObject <$> mapM (λ '(k, v), v ← v; Some (quote k, v)) l.

Definition text_doc (s : string) : option json := Some (to_string s).
Definition int_doc (z : Z) : option json := Some (number_of z).

(** [t.Format(time.RFC3339)]: whole seconds. *)
Definition Format (t : Time) : string := format_time (t - t mod Second).

(** [job.QueueStats] is only written. *)
Definition stats_doc (q : QueueStats) : option json :=
  last_job_at ← time_member "last_job_at" (qs_LastJobAt q);
  Some (JObject ([("queue_name", to_string (qs_QueueName q));
      ("pending_count", number_of (qs_PendingCount q)); ("running_count", number_of (qs_RunningCount q));
      ("success_count", number_of (qs_SuccessCount q)); ("failed_count", number_of (qs_FailedCount q));
      ("active_workers", number_of (qs_ActiveWorkers q));
      ("avg_processing_time", number_of (qs_AvgProcessingTime q))] ++ last_job_at)).

Definition schedule_stats_doc (x : ScheduleStats) : option json :=
  map_doc [("disabled_schedules", int_doc (ss_disabled x)); ("enabled_schedules", int_doc (ss_enabled x));
           ("total_runs", int_doc (ss_runs x)); ("total_schedules", int_doc (ss_total x))].

(** [scheduler.Schedule] has no tags. Its payload and metadata, which are maps
    of any values, are the opaque text and the strings of the model. *)
#[export] Instance Schedule_json : JsonStruct Schedule := {
  members x :=
    payload ← to_raw (s_Payload x); next_run ← to_time (s_NextRun x);
    last_run ← (match s_LastRun x with Some t => to_time t | None => Some JNull end);
    created_at ← to_time (s_CreatedAt x); updated_at ← to_time (s_UpdatedAt x);
    Some [("ID", to_string (s_ID x)); ("Name", to_string (s_Name x)); ("JobType", to_string (s_JobType x));
      ("Queue", to_string (s_Queue x)); ("Payload", payload); ("CronExpr", to_string (s_CronExpr x));
      ("Interval", number_of (s_Interval x)); ("NextRun", next_run); ("LastRun", last_run);
      ("Enabled", JBool (s_Enabled x)); ("MaxRuns", number_of (s_MaxRuns x));
      ("RunCount", number_of (s_RunCount x)); ("CreatedAt", created_at); ("UpdatedAt", updated_at);
      ("Metadata", to_map (s_Metadata x))];
  of_members l :=
    id ← field "id" a_string "" l; name ← field "name" a_string "" l;
    jobtype ← field "jobtype" a_string "" l; queue ← field "queue" a_string "" l;
    payload ← field "payload" a_raw "" l; cronexpr ← field "cronexpr" a_string "" l;
    interval ← field "interval" an_int 0 l; nextrun ← field "nextrun" a_time 0 l;
    lastrun ← field "lastrun" a_time_pointer None l; enabled ← field "enabled" a_bool false l;
    maxruns ← field "maxruns" an_int 0 l; runcount ← field "runcount" an_int 0 l;
    createdat ← field "createdat" a_time 0 l; updatedat ← field "updatedat" a_time 0 l;
    metadata ← field "metadata" a_map ∅ l;
    Some (mkSchedule id name jobtype queue payload cronexpr interval nextrun lastrun enabled
      maxruns runcount createdat updatedat metadata);
}.

Definition writeJSON {St} (status : Z) (data : option json) : M St Response :=
  mret (mkResponse status data).

Definition writeError {St} (status : Z) (message : string) : M St Response :=
  writeJSON status (map_doc [("error", text_doc message)]).

Definition message_doc (message : string) : option json := map_doc [("message", text_doc message)].

(** [if err := m; err != nil { s.writeError(w, status, err.Error()); return }]. *)
Definition or_error {St A} (m : M St A) (status : Z) (k : A → M St Response) : M St Response :=
  r ← attempt m;
  match r with
  | inr err => writeError status (Error err)
  | inl a => k a
  end.

(** The same with a message of its own. *)
Definition or_message {St A} (m : M St A) (status : Z) (message : string) (k : A → M St Response) :
    M St Response :=
  r ← attempt m;
  match r with
  | inr _ => writeError status message
  | inl a => k a
  end.

Definition not_allowed {St} : M St Response := writeError StatusMethodNotAllowed "method not allowed".

(** ** Handlers *)

Section handlers.
Context {St : Type} `{Storage St} `{Runtime} `{MapRange} `{Uuids}.
Context (offset : Z).

Definition handleHealth (r : Request) : M (Scheduler St) Response :=
  now ← on_manager Now;
  writeJSON StatusOK (map_doc [("status", text_doc "healthy"); ("time", text_doc (Format now))]).

Definition handleReady (r : Request) : M (Scheduler St) Response :=
  now ← on_manager Now;
  writeJSON StatusOK (map_doc [("status", text_doc "ready"); ("time", text_doc (Format now))]).

Definition set_j_ID (v : string) (j : Job) : Job :=
  mkJob v (j_Type j) (j_Payload j) (j_Priority j) (j_Status j) (j_MaxRetries j)
    (j_CurrentRetry j) (j_RetryCount j) (j_Timeout j) (j_TimeoutSeconds j)
    (j_ScheduledAt j) (j_CreatedAt j) (j_UpdatedAt j) (j_StartedAt j) (j_CompletedAt j)
    (j_Error j) (j_Result j) (j_Metadata j) (j_Queue j) (j_Progress j) (j_WorkerID j).

Definition set_j_CreatedAt (v : Time) (j : Job) : Job :=
  mkJob (j_ID j) (j_Type j) (j_Payload j) (j_Priority j) (j_Status j) (j_MaxRetries j)
    (j_CurrentRetry j) (j_RetryCount j) (j_Timeout j) (j_TimeoutSeconds j)
    (j_ScheduledAt j) v (j_UpdatedAt j) (j_StartedAt j) (j_CompletedAt j)
    (j_Error j) (j_Result j) (j_Metadata j) (j_Queue j) (j_Progress j) (j_WorkerID j).

(** The defaults of a job that is posted. *)
Definition new_job (j : Job) : M (Scheduler St) Job :=
  j ← (if bool_decide (j_ID j = "")
       then now ← on_manager Now; mret (set_j_ID ("job_" +:+ itoa (UnixNano now)) j)
       else mret j);
  let j := set_j_Status StatusPending j in
  created ← on_manager Now;
  let j := set_j_CreatedAt created j in
  updated ← on_manager Now;
  let j := set_j_UpdatedAt updated j in
  if bool_decide (default 0 (j_ScheduledAt j) = 0)
  then now ← on_manager Now; mret (set_j_ScheduledAt (Some now) j)
  else mret j.

Definition handleJobs (r : Request) : M (Scheduler St) Response :=
  if bool_decide (rq_Method r = MethodGet) then
    let queue := Query r "queue" in
    let status := Query r "status" in
    let limit := Atoi (Query r "limit") in
    let off := Atoi (Query r "offset") in
    let limit := if limit =? 0 then 50 else limit in
    or_error (on_manager (ListJobs queue status limit off)) StatusInternalServerError (λ jobs,
    writeJSON StatusOK (map_doc
      [("count", int_doc (Z.of_nat (length jobs))); ("jobs", list_doc jobs);
       ("limit", int_doc limit); ("offset", int_doc off)]))
  else if bool_decide (rq_Method r = MethodPost) then
    match Decode (A:=Job) (rq_Body r) with
    | None => writeError StatusBadRequest "invalid request body"
    | Some j =>
        j ← new_job j;
        or_error (on_manager (Enqueue j)) StatusInternalServerError (λ j,
        writeJSON StatusCreated (struct_doc j))
    end
  else not_allowed.

(** [len("/api/v1/jobs/")] and the like. *)
Definition after_prefix (prefix : string) (r : Request) : M (Scheduler St) string :=
  slice (slice_from (String.length prefix) (URL_Path r)).

Definition before_suffix (suffix s : string) : M (Scheduler St) string :=
  if (String.length s <? String.length suffix)%nat then panic "slice bounds out of range"
  else slice (slice_to (String.length s - String.length suffix) s).

Definition handleJob (r : Request) : M (Scheduler St) Response :=
  id ← after_prefix "/api/v1/jobs/" r;
  if bool_decide (rq_Method r = MethodGet) then
    or_message (on_manager (GetJob id)) StatusNotFound "job not found" (λ j,
    writeJSON StatusOK (struct_doc j))
  else if bool_decide (rq_Method r = MethodDelete) then
    or_error (on_manager (DeleteJob id)) StatusInternalServerError (λ _,
    writeJSON StatusOK (message_doc "job deleted"))
  else not_allowed.

Definition handleCancelJob (r : Request) : M (Scheduler St) Response :=
  if bool_decide (rq_Method r ≠ MethodPost) then not_allowed else
  id ← after_prefix "/api/v1/jobs/" r;
  id ← before_suffix "/cancel" id;
  or_error (on_manager (CancelJob id)) StatusInternalServerError (λ _,
  writeJSON StatusOK (message_doc "job cancelled")).

Definition handleQueues (r : Request) : M (Scheduler St) Response :=
  if bool_decide (rq_Method r = MethodGet) then
    or_error (on_manager ListQueues) StatusInternalServerError (λ queues,
    writeJSON StatusOK (map_doc
      [("count", int_doc (Z.of_nat (length queues))); ("queues", list_doc queues)]))
  else if bool_decide (rq_Method r = MethodPost) then
    match Decode (A:=QueueConfig) (rq_Body r) with
    | None => writeError StatusBadRequest "invalid request body"
    | Some config =>
        or_error (on_manager (RegisterQueue config)) StatusInternalServerError (λ config,
        writeJSON StatusCreated (struct_doc config))
    end
  else not_allowed.

Definition set_c_Name (v : string) (c : QueueConfig) : QueueConfig :=
  mkQueueConfig v (c_MaxWorkers c) (c_MaxRetries c) (c_RetryStrategy c) (c_DefaultTimeout c)
    (c_Timeout c) (c_Priority c) (c_RateLimit c) (c_Weight c) (c_IsPaused c)
    (c_RetryDelay c) (c_MaxRetryDelay c) (c_DeadLetterQueue c).

Definition handleQueue (r : Request) : M (Scheduler St) Response :=
  name ← after_prefix "/api/v1/queues/" r;
  if bool_decide (rq_Method r = MethodGet) then
    or_message (on_manager (GetQueueConfig name)) StatusNotFound "queue not found" (λ config,
    writeJSON StatusOK (struct_doc config))
  else if bool_decide (rq_Method r = MethodPut) then
    match Decode (A:=QueueConfig) (rq_Body r) with
    | None => writeError StatusBadRequest "invalid request body"
    | Some config =>
        let config := set_c_Name name config in
        or_error (on_manager (UpdateQueueConfig config)) StatusInternalServerError (λ _,
        writeJSON StatusOK (struct_doc config))
    end
  else if bool_decide (rq_Method r = MethodDelete) then
    or_error (on_manager (DeleteQueue name)) StatusInternalServerError (λ _,
    writeJSON StatusOK (message_doc "queue deleted"))
  else not_allowed.

Definition handlePauseQueue (r : Request) : M (Scheduler St) Response :=
  if bool_decide (rq_Method r ≠ MethodPost) then not_allowed else
  name ← after_prefix "/api/v1/queues/" r;
  name ← before_suffix "/pause" name;
  or_error (on_manager (PauseQueue name)) StatusInternalServerError (λ _,
  writeJSON StatusOK (message_doc "queue paused")).

Definition handleResumeQueue (r : Request) : M (Scheduler St) Response :=
  if bool_decide (rq_Method r ≠ MethodPost) then not_allowed else
  name ← after_prefix "/api/v1/queues/" r;
  name ← before_suffix "/resume" name;
  or_error (on_manager (ResumeQueue name)) StatusInternalServerError (λ _,
  writeJSON StatusOK (message_doc "queue resumed")).

Definition handleQueueStats (r : Request) : M (Scheduler St) Response :=
  if bool_decide (rq_Method r ≠ MethodGet) then not_allowed else
  name ← after_prefix "/api/v1/queues/" r;
  name ← before_suffix "/stats" name;
  or_error (on_manager (GetQueueStats name)) StatusInternalServerError (λ stats,
  writeJSON StatusOK (stats_doc stats)).

Definition handleSchedules (r : Request) : M (Scheduler St) Response :=
  if bool_decide (rq_Method r = MethodGet) then
    schedules ← ListSchedules;
    writeJSON StatusOK (map_doc
      [("count", int_doc (Z.of_nat (length schedules))); ("schedules", list_doc schedules)])
  else if bool_decide (rq_Method r = MethodPost) then
    match Decode (A:=Schedule) (rq_Body r) with
    | None => writeError StatusBadRequest "invalid request body"
    | Some schedule =>
        or_error (AddSchedule offset schedule) StatusInternalServerError (λ schedule,
        writeJSON StatusCreated (struct_doc schedule))
    end
  else not_allowed.

Definition handleSchedule (r : Request) : M (Scheduler St) Response :=
  id ← after_prefix "/api/v1/schedules/" r;
  if bool_decide (rq_Method r = MethodGet) then
    or_message (GetSchedule id) StatusNotFound "schedule not found" (λ schedule,
    writeJSON StatusOK (struct_doc schedule))
  else if bool_decide (rq_Method r = MethodDelete) then
    or_error (RemoveSchedule id) StatusInternalServerError (λ _,
    writeJSON StatusOK (message_doc "schedule deleted"))
  else not_allowed.

Definition handleMetrics (r : Request) : M (Scheduler St) Response :=
  if bool_decide (rq_Method r ≠ MethodGet) then not_allowed else
  or_error (on_manager GetAllQueueStats) StatusInternalServerError (λ allStats,
  scheduleStats ← GetScheduleStats;
  now ← on_manager Now;
  writeJSON StatusOK (map_doc
    [("queue_stats", map_doc (sort_slice (λ x y, String.ltb x.1 y.1)
        ((λ '(q, s), (q, stats_doc s)) <$> map_to_list allStats)));
     ("schedule_stats", schedule_stats_doc scheduleStats);
     ("timestamp", text_doc (Format now))])).

(** ** Routes *)

Inductive Route : Type :=
  | Dashboard | Web | Health | Ready
  | Jobs | OneJob | Cancel
  | Queues | OneQueue | Pause | Resume | Stats
  | Schedules | OneSchedule | Metrics.

(** The pattern of [setupRoutes] that [ServeMux] selects: the most specific one
    that matches. A wildcard matches a segment that is not empty. *)
Definition same (s t : string) : bool := bool_decide (s = t).

Definition api_route (kind : string) (rest : list string) : Route :=
  if same kind "jobs" then
    match rest with
    | [] => Jobs
    | [id; op] => if negb (same id "") && same op "cancel" then Cancel else OneJob
    | _ => OneJob
    end
  else if same kind "queues" then
    match rest with
    | [] => Queues
    | [name; op] =>
        if same name "" then OneQueue
        else if same op "pause" then Pause
        else if same op "resume" then Resume
        else if same op "stats" then Stats
        else OneQueue
    | _ => OneQueue
    end
  else if same kind "schedules" then
    match rest with [] => Schedules | _ => OneSchedule end
  else if same kind "metrics" then
    match rest with [] => Metrics | _ => Dashboard end
  else Dashboard.

Definition route (path : list string) : Route :=
  match path with
  | [root] =>
      if same root "web" then Web else if same root "health" then Health
      else if same root "ready" then Ready else Dashboard
  | root :: version :: kind :: rest =>
      if same root "web" then Web
      else if same root "api" && same version "v1" then api_route kind rest
      else Dashboard
  | root :: _ => if same root "web" then Web else Dashboard
  | [] => Dashboard
  end.

(** [http.ServeFile] and [http.FileServer], with the files on the disk. *)
Context (ServeFile : Request → Response).

(** The mux and [handleDashboard]. *)
Definition ServeHTTP (r : Request) : M (Scheduler St) Response :=
  match route (rq_Path r) with
  | Dashboard =>
      if bool_decide (URL_Path r ≠ "/") then mret (mkResponse StatusNotFound None)
      else mret (ServeFile r)
  | Web => mret (ServeFile r)
  | Health => handleHealth r
  | Ready => handleReady r
  | Jobs => handleJobs r
  | OneJob => handleJob r
  | Cancel => handleCancelJob r
  | Queues => handleQueues r
  | OneQueue => handleQueue r
  | Pause => handlePauseQueue r
  | Resume => handleResumeQueue r
  | Stats => handleQueueStats r
  | Schedules => handleSchedules r
  | OneSchedule => handleSchedule r
  | Metrics => handleMetrics r
  end.
End handlers.

(** ** The server *)

(** [type Config struct]. *)
Record HttpConfig : Type := mkHttpConfig {
  hc_Address : string;
  hc_Port : Z;
}.

(** The defaults that [NewServer] fills in, and the address it listens on. *)
Definition server_config (config : HttpConfig) : HttpConfig :=
  mkHttpConfig (if bool_decide (hc_Address config = "") then "0.0.0.0" else hc_Address config)
    (if hc_Port config =? 0 then 8080 else hc_Port config).

Definition server_Addr (config : HttpConfig) : string :=
  hc_Address (server_config config) +:+ ":" +:+ itoa (hc_Port (server_config config)).

(** The [http.Server] that [NewServer] makes; its handler is [ServeHTTP]. *)
Record HttpServer : Type := mkHttpServer {
  hs_Addr : string;
  hs_ReadTimeout : Duration;
  hs_WriteTimeout : Duration;
  hs_IdleTimeout : Duration;
}.

Definition NewServer (config : HttpConfig) : HttpServer := {|
  hs_Addr := server_Addr config;
  hs_ReadTimeout := 15 * Second;
  hs_WriteTimeout := 15 * Second;
  hs_IdleTimeout := 60 * Second |}.
