(* ===== verification/HttpProps.v ===== *)
(** * Properties of the HTTP API

    Requests reach the method of the manager or of the scheduler that their path
    names, refused requests change nothing, and a job that is posted can be
    fetched. *)

From S2P Require Import Prelude Errors GoMonad Job Storage World GoTime.
From S2P Require Import Decimal Rfc3339 Json JobJson Manager Scheduler ManagerProps Http.
From S2P Require MemoryStore MemoryLaws MemoryJobs.

(** ** Paths *)

Lemma slice_from_app p s : slice_from (String.length p) (p +:+ s) = Some s.
Proof.
  induction p as [|c p IH]; [by destruct s|].
  change (slice_from (String.length p) (p +:+ s) = Some s). done.
Qed.

Lemma slice_to_app s t : slice_to (String.length s) (s +:+ t) = Some s.
Proof.
  induction s as [|c s IH]; [by destruct t|].
  change (String c <$> slice_to (String.length s) (s +:+ t) = Some (String c s)). by rewrite IH.
Qed.

Section server.
Context {St : Type} `{Storage St} `{Runtime} `{MapRange} `{Uuids}.
Context (offset : Z) (ServeFile : Request → Response).

Abbreviation serve := (ServeHTTP offset ServeFile).

Lemma after_prefix_path prefix rest m query body (s : Scheduler St) segs :
  URL_Path (mkRequest m segs query body) = prefix +:+ rest →
  after_prefix prefix (mkRequest m segs query body) s = (Ok rest, s).
Proof. intros E. unfold after_prefix. by rewrite E, slice_from_app. Qed.

Lemma before_suffix_app name suffix (s : Scheduler St) :
  before_suffix suffix (name +:+ suffix) s = (Ok name, s).
Proof.
  unfold before_suffix. rewrite string_length_app.
  replace (String.length name + String.length suffix <? String.length suffix)%nat with false
    by (symmetry; apply Nat.ltb_ge; lia).
  replace (String.length name + String.length suffix - String.length suffix)%nat
    with (String.length name) by lia.
  by rewrite slice_to_app.
Qed.

(** ** What the endpoints do *)

Inductive endpoint : Type :=
  | EGetJob (id : string) | EDeleteJob (id : string) | ECancelJob (id : string)
  | EGetQueue (name : string) | EPutQueue (name body : string) | EDeleteQueue (name : string)
  | EPause (name : string)
  | EResume (name : string) | EStats (name : string)
  | EGetSchedule (id : string) | EDeleteSchedule (id : string).

(** The name in the path; a wildcard needs one. *)
Definition endpoint_ok (e : endpoint) : Prop :=
  match e with
  | ECancelJob n | EPause n | EResume n | EStats n => n ≠ ""
  | _ => True
  end.

Definition request_of (e : endpoint) : Request :=
  let api := λ m l, mkRequest m ("api" :: "v1" :: l) ∅ "" in
  match e with
  | EGetJob id => api MethodGet ["jobs"; id]
  | EDeleteJob id => api MethodDelete ["jobs"; id]
  | ECancelJob id => api MethodPost ["jobs"; id; "cancel"]
  | EGetQueue n => api MethodGet ["queues"; n]
  | EPutQueue n body => mkRequest MethodPut ["api"; "v1"; "queues"; n] ∅ body
  | EDeleteQueue n => api MethodDelete ["queues"; n]
  | EPause n => api MethodPost ["queues"; n; "pause"]
  | EResume n => api MethodPost ["queues"; n; "resume"]
  | EStats n => api MethodGet ["queues"; n; "stats"]
  | EGetSchedule id => api MethodGet ["schedules"; id]
  | EDeleteSchedule id => api MethodDelete ["schedules"; id]
  end.

(** The response to the outcome of a call; a panic closes the connection. *)
Definition respond {A} (r : res A) (ok : A → option json) (missing : option string) : res Response :=
  match r with
  | Ok a => Ok (mkResponse 200 (ok a))
  | Err e => Ok (match missing with
                 | Some msg => mkResponse 404 (Some (JObject [("error", to_string msg)]))
                 | None => mkResponse 500 (Some (JObject [("error", to_string (Error e))]))
                 end)
  | Panic p => Panic p
  end.

Definition message (m : string) (_ : unit) : option json := Some (JObject [("message", to_string m)]).

(** A call of the manager as an endpoint. *)
Definition by_manager {A} (m : M (World St) A) (ok : A → option json) (missing : option string) :
    M (Scheduler St) Response := λ s,
  let r := m (sc_manager s) in (respond r.1 ok missing, set_sc_manager r.2 s).

Definition by_scheduler {A} (m : M (Scheduler St) A) (ok : A → option json) (missing : option string) :
    M (Scheduler St) Response := λ s,
  let r := m s in (respond r.1 ok missing, r.2).

(** The configuration of a body for the queue that the path names, whatever
    name the body has. *)
Definition config_for (n : string) (c : QueueConfig) : QueueConfig := {|
  c_Name := n; c_MaxWorkers := c_MaxWorkers c; c_MaxRetries := c_MaxRetries c;
  c_RetryStrategy := c_RetryStrategy c; c_DefaultTimeout := c_DefaultTimeout c; c_Timeout := c_Timeout c;
  c_Priority := c_Priority c; c_RateLimit := c_RateLimit c; c_Weight := c_Weight c;
  c_IsPaused := c_IsPaused c; c_RetryDelay := c_RetryDelay c; c_MaxRetryDelay := c_MaxRetryDelay c;
  c_DeadLetterQueue := c_DeadLetterQueue c |}.

Definition endpoint_spec (e : endpoint) : M (Scheduler St) Response :=
  match e with
  | EGetJob id => by_manager (GetJob id) struct_doc (Some "job not found")
  | EDeleteJob id => by_manager (DeleteJob id) (message "job deleted") None
  | ECancelJob id => by_manager (CancelJob id) (message "job cancelled") None
  | EGetQueue n => by_manager (GetQueueConfig n) struct_doc (Some "queue not found")
  | EPutQueue n body => λ s,
      match Decode (A:=QueueConfig) body with
      | Some c => by_manager (UpdateQueueConfig (config_for n c)) (λ _, struct_doc (config_for n c)) None s
      | None => (Ok (mkResponse 400 (Some (JObject [("error", to_string "invalid request body")]))), s)
      end
  | EDeleteQueue n => by_manager (DeleteQueue n) (message "queue deleted") None
  | EPause n => by_manager (PauseQueue n) (message "queue paused") None
  | EResume n => by_manager (ResumeQueue n) (message "queue resumed") None
  | EStats n => by_manager (GetQueueStats n) stats_doc None
  | EGetSchedule id => by_scheduler (GetSchedule id) struct_doc (Some "schedule not found")
  | EDeleteSchedule id => by_scheduler (RemoveSchedule id) (message "schedule deleted") None
  end.

Lemma or_error_manager {A} (m : M (World St) A) ok s :
  or_error (on_manager m) 500 (λ a, writeJSON 200 (ok a)) s = by_manager m ok None s.
Proof.
  unfold or_error, attempt, mbind, M_bind, by_manager, on_manager. by destruct (m _) as [[a|e|p] w].
Qed.

Lemma or_message_manager {A} (m : M (World St) A) ok msg s :
  or_message (on_manager m) 404 msg (λ a, writeJSON 200 (ok a)) s = by_manager m ok (Some msg) s.
Proof.
  unfold or_message, attempt, mbind, M_bind, by_manager, on_manager. by destruct (m _) as [[a|e|p] w].
Qed.

Lemma or_error_scheduler {A} (m : M (Scheduler St) A) ok s :
  or_error m 500 (λ a, writeJSON 200 (ok a)) s = by_scheduler m ok None s.
Proof. unfold or_error, attempt, mbind, M_bind, by_scheduler. by destruct (m s) as [[a|e|p] w]. Qed.

Lemma or_message_scheduler {A} (m : M (Scheduler St) A) ok msg s :
  or_message m 404 msg (λ a, writeJSON 200 (ok a)) s = by_scheduler m ok (Some msg) s.
Proof. unfold or_message, attempt, mbind, M_bind, by_scheduler. by destruct (m s) as [[a|e|p] w]. Qed.

Lemma job_path m id : URL_Path (mkRequest m ["api"; "v1"; "jobs"; id] ∅ "") = "/api/v1/jobs/" +:+ id.
Proof. unfold URL_Path. simpl. by rewrite string_app_empty_r. Qed.

Lemma queue_path m n body : URL_Path (mkRequest m ["api"; "v1"; "queues"; n] ∅ body) = "/api/v1/queues/" +:+ n.
Proof. unfold URL_Path. simpl. by rewrite string_app_empty_r. Qed.

Lemma schedule_path m n :
  URL_Path (mkRequest m ["api"; "v1"; "schedules"; n] ∅ "") = "/api/v1/schedules/" +:+ n.
Proof. unfold URL_Path. simpl. by rewrite string_app_empty_r. Qed.

(** The three-segment routes, whose operation is known. *)
Lemma route_wildcard kind name op : name ≠ "" →
  route ["api"; "v1"; kind; name; op] =
    if same kind "jobs" then if same op "cancel" then Cancel else OneJob
    else if same kind "queues" then
      if same op "pause" then Pause else if same op "resume" then Resume
      else if same op "stats" then Stats else OneQueue
    else if same kind "schedules" then OneSchedule else Dashboard.
Proof.
  intros Hn. unfold route, api_route. change (same "api" "web") with false.
  change (same "api" "api" && same "v1" "v1") with true. cbv iota.
  assert (same name "" = false) as -> by by apply bool_decide_eq_false.
  simpl. by destruct (same kind "metrics").
Qed.

Ltac go_path := erewrite bind_Ok by (apply after_prefix_path; first
  [apply job_path|apply queue_path|apply schedule_path|reflexivity]).

(** C26. The requests that name a job, a queue or a schedule do what the manager
    or the scheduler does with exactly that name: success is 200 with the
    object or a message; an error is 404 where an object is fetched, whatever
    the error is, and 500 with its text elsewhere, also for a name that does
    not exist; a panic of the backend is not answered. The body of a PUT is
    refused with 400 when it is not a configuration; otherwise the queue of the
    path is configured, whatever name the body has. *)
Theorem http_endpoints_reach_manager e (s : Scheduler St) :
  endpoint_ok e → serve (request_of e) s = endpoint_spec e s.
Proof.
  destruct e as [id|id|id|n|n body|n|n|n|n|id|id]; cbn [endpoint_ok request_of endpoint_spec];
    intros Hn; unfold ServeHTTP; cbn [rq_Path]; rewrite ?(route_wildcard _ _ _ Hn);
    match goal with |- context [match ?x with Dashboard => _ | _ => _ end] =>
      let y := eval vm_compute in x in change x with y end; cbv iota.
  - unfold handleJob. go_path. apply or_message_manager.
  - unfold handleJob. go_path. apply or_error_manager.
  - unfold handleCancelJob. cbn [rq_Method]. rewrite bool_decide_false by (intros E; by apply E).
    erewrite bind_Ok by (apply (after_prefix_path _ (id +:+ "/cancel")); reflexivity).
    erewrite bind_Ok by apply before_suffix_app. apply or_error_manager.
  - unfold handleQueue. go_path. apply or_message_manager.
  - unfold handleQueue. go_path. cbn [rq_Method rq_Body].
    rewrite bool_decide_false, bool_decide_true by done.
    destruct (Decode body) as [c|]; [apply (or_error_manager _ (λ _, struct_doc _))|done].
  - unfold handleQueue. go_path. apply or_error_manager.
  - unfold handlePauseQueue. cbn [rq_Method]. rewrite bool_decide_false by (intros E; by apply E).
    erewrite bind_Ok by (apply (after_prefix_path _ (n +:+ "/pause")); reflexivity).
    erewrite bind_Ok by apply before_suffix_app. apply or_error_manager.
  - unfold handleResumeQueue. cbn [rq_Method]. rewrite bool_decide_false by (intros E; by apply E).
    erewrite bind_Ok by (apply (after_prefix_path _ (n +:+ "/resume")); reflexivity).
    erewrite bind_Ok by apply before_suffix_app. apply or_error_manager.
  - unfold handleQueueStats. cbn [rq_Method]. rewrite bool_decide_false by (intros E; by apply E).
    erewrite bind_Ok by (apply (after_prefix_path _ (n +:+ "/stats")); reflexivity).
    erewrite bind_Ok by apply before_suffix_app. apply or_error_manager.
  - unfold handleSchedule. go_path. apply or_message_scheduler.
  - unfold handleSchedule. go_path. apply or_error_scheduler.
Qed.

(** ** Refused requests *)

Definition allowed_methods (x : Route) : option (list string) :=
  match x with
  | Dashboard | Web | Health | Ready => None
  | Jobs | Queues | Schedules => Some [MethodGet; MethodPost]
  | OneJob | OneSchedule => Some [MethodGet; MethodDelete]
  | OneQueue => Some [MethodGet; MethodPut; MethodDelete]
  | Cancel | Pause | Resume => Some [MethodPost]
  | Stats | Metrics => Some [MethodGet]
  end.

(** The requests whose body is read as a struct that it is not. *)
Definition bad_body (r : Request) : Prop :=
  match route (rq_Path r) with
  | Jobs => rq_Method r = MethodPost ∧ Decode (A:=Job) (rq_Body r) = None
  | Queues => rq_Method r = MethodPost ∧ Decode (A:=QueueConfig) (rq_Body r) = None
  | OneQueue => rq_Method r = MethodPut ∧ Decode (A:=QueueConfig) (rq_Body r) = None
  | Schedules => rq_Method r = MethodPost ∧ Decode (A:=Schedule) (rq_Body r) = None
  | _ => False
  end.

Definition wrong_method (r : Request) : Prop :=
  match allowed_methods (route (rq_Path r)) with Some l => rq_Method r ∉ l | None => False end.

(** The path of a route with a prefix has it. *)
Lemma route_prefix r : 
  match route (rq_Path r) with
  | OneJob => ∃ rest, URL_Path r = "/api/v1/jobs/" +:+ rest
  | OneQueue => ∃ rest, URL_Path r = "/api/v1/queues/" +:+ rest
  | OneSchedule => ∃ rest, URL_Path r = "/api/v1/schedules/" +:+ rest
  | _ => True
  end.
Proof.
  destruct r as [m p q b]. unfold URL_Path. cbn [rq_Path]. unfold route.
  destruct p as [|root [|version [|kind rest]]]; try by repeat case_match.
  unfold same. repeat case_bool_decide; subst; try done. unfold api_route, same.
  repeat (case_bool_decide; subst; try done); destruct rest as [|x [|y [|z rest]]]; try done;
    repeat (case_bool_decide; try done); subst; simpl; by eexists.
Qed.

(** A request with a method that its path does not serve, or with a body that
    is not the document its endpoint reads, is refused (405, 400) and leaves
    the jobs, the queues, the schedules and the clock as they are. *)
Theorem http_refused_requests_change_nothing r (s : Scheduler St) :
  (wrong_method r → ∃ body, serve r s = (Ok (mkResponse 405 body), s)) ∧
  (¬ wrong_method r → bad_body r → ∃ body, serve r s = (Ok (mkResponse 400 body), s)).
Proof.
  unfold wrong_method, bad_body, ServeHTTP. pose proof (route_prefix r) as Hp.
  destruct (route (rq_Path r)); cbn [allowed_methods]; (split; [intros Hm|intros _ Hb]); try done;
    try match type of Hp with ex _ => destruct Hp as [rest Hp] end; try (destruct Hb as [Hm Hb]).
  - eexists. unfold handleJobs. by rewrite !bool_decide_false by set_solver.
  - eexists. unfold handleJobs. by rewrite Hm, Hb.
  - eexists. unfold handleJob, after_prefix. rewrite Hp, slice_from_app.
    erewrite bind_Ok by reflexivity. by rewrite !bool_decide_false by set_solver.
  - eexists. unfold handleCancelJob. by rewrite bool_decide_true by set_solver.
  - eexists. unfold handleQueues. by rewrite !bool_decide_false by set_solver.
  - eexists. unfold handleQueues. by rewrite Hm, Hb.
  - eexists. unfold handleQueue, after_prefix. rewrite Hp, slice_from_app.
    erewrite bind_Ok by reflexivity. by rewrite !bool_decide_false by set_solver.
  - eexists. unfold handleQueue, after_prefix. rewrite Hp, slice_from_app.
    erewrite bind_Ok by reflexivity. by rewrite Hm, Hb.
  - eexists. unfold handlePauseQueue. by rewrite bool_decide_true by set_solver.
  - eexists. unfold handleResumeQueue. by rewrite bool_decide_true by set_solver.
  - eexists. unfold handleQueueStats. by rewrite bool_decide_true by set_solver.
  - eexists. unfold handleSchedules. by rewrite !bool_decide_false by set_solver.
  - eexists. unfold handleSchedules. by rewrite Hm, Hb.
  - eexists. unfold handleSchedule, after_prefix. rewrite Hp, slice_from_app.
    erewrite bind_Ok by reflexivity. by rewrite !bool_decide_false by set_solver.
  - eexists. unfold handleMetrics. by rewrite bool_decide_true by set_solver.
Qed.
End server.

(** ** Posting and fetching a job *)

Lemma Decode_Marshal `{JsonLaws A} a body : storable a = true → Marshal a = Some body →
  Decode body = Some (stored a).
Proof.
  intros Hs Hm. destruct (members_read a Hs) as (l & Hl & Hok & Hr).
  unfold Marshal in Hm. rewrite Hl in Hm. injection Hm as <-.
  unfold Decode, print. pose proof (depth_put (JObject l) "" Hok) as Hd. cbn [String.length] in Hd.
  rewrite read_value_put by (done || lia). done.
Qed.

Section post.
Context {St : Type} `{L : StorageLaws St} `{Runtime} `{MapRange} `{Uuids}.
Context (offset : Z) (ServeFile : Request → Response).

Abbreviation serve := (ServeHTTP offset ServeFile).

(** The defaults of a job with an identifier: only the clock moves. *)
Lemma new_job_keeps j (s : Scheduler St) : j_ID j ≠ "" →
  ∃ j' w', new_job j s = (Ok j', set_sc_manager w' s) ∧
    wview w' = wview (sc_manager s) ∧ wo_configs w' = wo_configs (sc_manager s) ∧
    j_ID j' = j_ID j ∧ j_Status j' = StatusPending ∧ j_Type j' = j_Type j ∧
    j_Payload j' = j_Payload j ∧ j_Priority j' = j_Priority j ∧ j_Queue j' = j_Queue j ∧
    j_Metadata j' = j_Metadata j ∧
    (default 0 (j_ScheduledAt j) = 0 → ∃ t, j_ScheduledAt j' = Some t ∧ t ≤ now_of w').
Proof.
  intros Hid. unfold new_job. rewrite bool_decide_false by done.
  unfold on_manager, mbind, M_bind. simpl. destruct s as [w sch u]. simpl.
  case_bool_decide as Hs; eexists _, _; (split; [reflexivity|]); split_and!; try done.
  intros _. eexists. split; [done|]. unfold now_of. apply rt_now_mono. simpl. lia.
Qed.

Definition post_job (body : string) : Request := mkRequest MethodPost ["api"; "v1"; "jobs"] ∅ body.
Definition get_job (id : string) : Request := mkRequest MethodGet ["api"; "v1"; "jobs"; id] ∅ "".

(** The response to a posted job of a new identifier, and the state after it:
    the job that [Enqueue] makes of it waits in its queue. *)
Lemma post_job_enqueues j body (s : Scheduler St) :
  storable_Job j = true → Marshal j = Some body → j_ID j ≠ "" →
  v_jobs (wview (sc_manager s)) !! j_ID j = None →
  ∃ j1 w1 w0 w' d, serve (post_job body) s =
      (Ok (mkResponse 201 (struct_doc (enqueued_job w1 j1))), set_sc_manager w' s) ∧
    wview w1 = wview (sc_manager s) ∧ wo_configs w1 = wo_configs (sc_manager s) ∧
    (j_ID j1 = j_ID j ∧ j_Status j1 = StatusPending ∧ j_Type j1 = j_Type j ∧
     j_Payload j1 = j_Payload (stored_Job j) ∧ j_Priority j1 = j_Priority j ∧ j_Queue j1 = j_Queue j ∧
     j_Metadata j1 = j_Metadata j) ∧
    (default 0 (j_ScheduledAt j) = 0 → ∃ t, j_ScheduledAt j1 = Some t ∧ t ≤ now_of w1) ∧
    ensured (j_Queue (enqueued_job w1 j1)) w1 w0 ∧ wo_configs w' = wo_configs w0 ∧
    v_configs (wview w') = v_configs (wview w0) ∧ enqueued (enqueued_job w1 j1) d w1 w' ∧
    due_time_ok j1 w1 w' d.
Proof.
  intros Hs Hb Hid Hnew.
  destruct (new_job_keeps (stored_Job j) s) as (j1 & w1 & Hj1 & Hv1 & Hc1 & HI & HS & HT & HP & HR & HQ & HM & HA);
    [done|].
  assert (Hw : wp (Enqueue j1) w1 (λ r w', r = Ok (enqueued_job w1 j1) ∧ ∃ w0 d,
      ensured (j_Queue (enqueued_job w1 j1)) w1 w0 ∧ wo_configs w' = wo_configs w0 ∧
      v_configs (wview w') = v_configs (wview w0) ∧ enqueued (enqueued_job w1 j1) d w1 w' ∧
      due_time_ok j1 w1 w' d)).
  { apply wp_Enqueue_new; [by rewrite Hv1, HI|]. intros w0 w' d ? ? ? _ ? ?. split; [done|by exists w0, d]. }
  destruct (wp_elim _ _ _ Hw) as (r & w' & He & -> & w0 & d & Hrest).
  exists j1, w1, w0, w', d. split; [|split_and!; try done; by apply Hrest].
  unfold ServeHTTP. change (route (rq_Path (post_job body))) with Jobs. cbv iota.
  unfold handleJobs. cbn [rq_Method post_job rq_Body].
  rewrite bool_decide_false, bool_decide_true by done.
  rewrite (Decode_Marshal (A:=Job) (H0:=Job_laws) j body Hs Hb). rewrite (bind_Ok _ _ _ _ _ Hj1).
  unfold or_error, attempt, on_manager, mbind, M_bind. simpl. by rewrite He.
Qed.

(** A stored job is the answer to a request for it. *)
Lemma get_job_found id j (s : Scheduler St) : v_jobs (wview (sc_manager s)) !! id = Some j →
  ∃ s', serve (get_job id) s = (Ok (mkResponse 200 (struct_doc j)), s').
Proof.
  intros Hj.
  assert (Hget : GetJob id (sc_manager s) = (Ok j, (GetJob id (sc_manager s)).2)).
  { assert (Hg : wp (GetJob id) (sc_manager s) (λ r _, r = Ok j)) by (unfold GetJob; by apply (wp_st_GetJob _ j)).
    unfold wp in Hg. rewrite <- Hg. apply surjective_pairing. }
  eexists. unfold ServeHTTP. change (route (rq_Path (get_job id))) with OneJob. cbv iota.
  unfold handleJob. erewrite bind_Ok by (apply after_prefix_path, job_path).
  etransitivity; [apply or_message_manager|]. unfold by_manager. by rewrite Hget.
Qed.

(** A job that is posted as JSON under a new identifier is accepted (201),
    can be fetched under it (200, with the document the first response had),
    is PENDING whatever status it was posted with, keeps its type, payload,
    priority and metadata, and waits in its queue, or in the default one. *)
Theorem http_posted_job_is_served j body (s : Scheduler St) :
  storable_Job j = true → Marshal j = Some body → j_ID j ≠ "" →
  v_jobs (wview (sc_manager s)) !! j_ID j = None →
  ∃ j' s1 s2,
    serve (post_job body) s = (Ok (mkResponse 201 (struct_doc j')), s1) ∧
    serve (get_job (j_ID j)) s1 = (Ok (mkResponse 200 (struct_doc j')), s2) ∧
    j_ID j' = j_ID j ∧ j_Status j' = StatusPending ∧ j_Type j' = j_Type j ∧
    j_Payload j' = j_Payload (stored_Job j) ∧ j_Priority j' = j_Priority j ∧
    j_Metadata j' = j_Metadata j ∧
    j_Queue j' = (if bool_decide (j_Queue j = "") then "default" else j_Queue j) ∧
    ∃ x, x ∈ v_queue (wview (sc_manager s1)) (j_Queue j') ∧ wt_job x = j_ID j ∧
      wt_priority x = j_Priority j.
Proof.
  intros Hs Hb Hid Hnew.
  destruct (post_job_enqueues j body s Hs Hb Hid Hnew)
    as (j1 & w1 & w0 & w' & d & Hpost & _ & _ & (HI & HS & HT & HP & HR & HQ & HM) & _ & _ & _ & _ &
        (Hjobs & Hqueue & _ & _) & _).
  destruct (enqueued_job_fields w1 j1) as (Ei & Ep & _ & Eq).
  destruct (get_job_found (j_ID j) (enqueued_job w1 j1) (set_sc_manager w' s)) as (s2 & Hget).
  { cbn [sc_manager set_sc_manager]. rewrite Hjobs, Ei, HI. apply lookup_insert_eq. }
  exists (enqueued_job w1 j1), (set_sc_manager w' s), s2. split; [done|]. split; [done|].
  split_and!; [by rewrite Ei, HI| | | |by rewrite Ep, HR| | |].
  1-4: unfold enqueued_job, job_defaults, default_queue; by repeat case_match.
  - rewrite Eq. unfold default_queue. rewrite HQ. simpl. by repeat case_bool_decide.
  - exists (mkWaiting (j_ID (enqueued_job w1 j1)) (j_Priority (enqueued_job w1 j1)) d).
    split; [|by rewrite Ei, Ep, HI, HR]. simpl. rewrite Hqueue, bool_decide_true by done.
    apply list_elem_of_here.
Qed.
End post.

(** ** Over the in-memory store *)

#[local] Existing Instance MemoryLaws.MemoryStorage.
#[local] Existing Instance MemoryLaws.MemoryStorageLaws.

(** [GET /api/v1/jobs] with a negative offset makes the in-memory store panic
    with a slice out of range, whatever the other parameters are: neither the
    handler, which drops the errors of [Atoi], nor the manager nor the store
    checks it, and the request is not answered. *)
Theorem http_negative_offset_panics `{Runtime} `{MapRange} `{Uuids} (zone : Z) files r
    (s : Scheduler MemoryStore.MemoryStore) :
  rq_Method r = MethodGet → rq_Path r = ["api"; "v1"; "jobs"] → Atoi (Query r "offset") < 0 →
  ∃ why, (ServeHTTP zone files r s).1 = Panic why.
Proof.
  intros Hm Hp Ho. unfold ServeHTTP. rewrite Hp. change (route ["api"; "v1"; "jobs"]) with Jobs. cbv iota.
  unfold handleJobs. rewrite Hm, bool_decide_true by done.
  unfold or_error, attempt, on_manager, mbind, M_bind. simpl.
  unfold use, MemoryStore.ListJobs, MemoryStore.paginate. simpl.
  set (l := sort_slice _ _). set (off := Atoi (Query r "offset")) in *.
  rewrite (proj2 (Z.leb_gt (Z.of_nat (length l)) off)) by lia.
  rewrite (proj2 (Z.ltb_lt off 0)) by done. by eexists.
Qed.

(** ** Witnesses *)

#[local] Existing Instance demo_runtime.
#[local] Existing Instance map_range_default.

Program Definition demo_ids : Uuids := {| uuid_at n := "u" +:+ pretty n |}.
Next Obligation. intros i k [= E]. by simplify_eq. Qed.
Next Obligation. done. Qed.
#[local] Existing Instance demo_ids.

Definition demo_server : Scheduler MemoryStore.MemoryStore := NewScheduler demo_world 0.

Definition demo_files (_ : Request) : Response := mkResponse 200 None.

Definition demo_post : Job := mkJob "mail-1" "send_email" "[1]" 7 "" 0 0 0 0 0 None 0 0 None None "" ""
  ∅ "" 0 "".

Definition demo_request (path : list string) (query : gmap string string) : Request :=
  mkRequest MethodGet path query "".

Lemma http_endpoints_reach_manager_witness :
  ServeHTTP 0 demo_files (request_of (ECancelJob "3")) demo_server = endpoint_spec (ECancelJob "3") demo_server.
Proof. apply (http_endpoints_reach_manager 0 demo_files (ECancelJob "3")). done. Defined.

Lemma http_refused_requests_change_nothing_witness :
  ∃ body, ServeHTTP 0 demo_files (demo_request ["api"; "v1"; "jobs"; "3"; "cancel"] ∅) demo_server =
    (Ok (mkResponse 405 body), demo_server).
Proof.
  apply (http_refused_requests_change_nothing 0 demo_files
    (demo_request ["api"; "v1"; "jobs"; "3"; "cancel"] ∅) demo_server).
  apply (bool_decide_unpack _). vm_compute. exact I.
Defined.

Lemma http_posted_job_is_served_witness : ∃ body j' s1 s2,
  Marshal demo_post = Some body ∧
  ServeHTTP 0 demo_files (post_job body) demo_server = (Ok (mkResponse 201 (struct_doc j')), s1) ∧
  ServeHTTP 0 demo_files (get_job "mail-1") s1 = (Ok (mkResponse 200 (struct_doc j')), s2) ∧
  j_Queue j' = "default".
Proof.
  destruct (Marshal demo_post) as [body|] eqn:E; [|by vm_compute in E].
  destruct (http_posted_job_is_served 0 demo_files demo_post body demo_server)
    as (j' & s1 & s2 & H1 & H2 & _ & _ & _ & _ & _ & _ & Hq & _);
    [reflexivity|exact E|done|reflexivity|].
  by exists body, j', s1, s2.
Defined.

Lemma http_negative_offset_panics_witness : ∃ why,
  (ServeHTTP 0 demo_files (demo_request ["api"; "v1"; "jobs"] {[ "offset" := "-1" ]}) demo_server).1 = Panic why.
Proof. apply (http_negative_offset_panics 0); [done|done|by vm_compute]. Defined.
