(* ===== verification/Postgres.v ===== *)
(** * PostgreSQL: the tables, the values and the server

    The tables of the schema in internal/storage/postgres/postgres.go, with one
    record per row; what the program uses of the values of the server and of
    lib/pq ([PgValues], with the documented behaviour in [PgValuesLaws]); and
    the server itself, which runs a statement on the tables ([Postgres],
    [PostgresLaws]). The queries of the program are translated where it sends
    them, in the files of the backend.

    Columns that no statement reads (the serial identifiers, [enqueued_at],
    [paused_at], [recorded_at]) are left out. The process runs in UTC, as its
    image does: a column [TIMESTAMP] drops the zone of a time. The names that
    the server quotes in its messages are left out. *)

From S2P Require Import Prelude Errors GoMonad Job Json JobJson.

(** ** Rows *)

(** [CREATE TABLE jobs]. *)
Record JobRow : Type := mkJobRow {
  jr_id : string;
  jr_type : string;
  jr_queue : string;
  jr_payload : string;
  jr_result : option string;
  jr_error : option string;
  jr_status : string;
  jr_priority : Z;
  jr_retry_count : Z;
  jr_max_retries : Z;
  jr_timeout_seconds : Z;
  jr_progress : Z;
  jr_metadata : option string;
  jr_created_at : Time;
  jr_updated_at : Time;
  jr_started_at : option Time;
  jr_completed_at : option Time;
  jr_scheduled_at : Time;
}.

(** [CREATE TABLE queues]: the row of a pair of [queue_name] and [job_id], which
    is unique. *)
Record QueueRow : Type := mkQueueRow {
  qr_priority : Z;
  qr_scheduled_for : Time;
}.

(** [CREATE TABLE workers]. *)
Record WorkerRow : Type := mkWorkerRow {
  wr_id : string;
  wr_hostname : string;
  wr_version : string;
  wr_status : string;
  wr_queues : string;
  wr_tags : option string;
  wr_concurrency : Z;
  wr_current_job_id : option string;
  wr_processed_count : Z;
  wr_failed_count : Z;
  wr_started_at : Time;
  wr_last_heartbeat : Time;
  wr_metadata : option string;
}.

(** [CREATE TABLE queue_configs]. *)
Record ConfigRow : Type := mkConfigRow {
  cr_name : string;
  cr_max_workers : Z;
  cr_max_retries : Z;
  cr_retry_strategy : string;
  cr_retry_delay_seconds : Z;
  cr_max_retry_delay_seconds : Z;
  cr_timeout_seconds : Z;
  cr_priority : Z;
  cr_weight : Z;
  cr_rate_limit : Z;
  cr_dead_letter_queue : option string;
  cr_metadata : option string;
  cr_created_at : Time;
  cr_updated_at : Time;
}.

(** [CREATE TABLE metrics]. *)
Record MetricRow : Type := mkMetricRow {
  mr_queue_name : string;
  mr_job_type : string;
  mr_event_type : string;
  mr_duration_ms : option Z;
}.

(** The tables, by their keys. *)
Record DB : Type := mkDB {
  jobs : gmap string JobRow;
  queues : gmap (string * string) QueueRow;
  workers : gmap string WorkerRow;
  queue_configs : gmap string ConfigRow;
  metrics : list MetricRow;
  paused_queues : gset string;
}.

Definition empty_db : DB := mkDB ∅ ∅ ∅ ∅ [] ∅.

Definition set_jobs (x : gmap string JobRow) (d : DB) : DB :=
  mkDB x (queues d) (workers d) (queue_configs d) (metrics d) (paused_queues d).
Definition set_queues (x : gmap (string * string) QueueRow) (d : DB) : DB :=
  mkDB (jobs d) x (workers d) (queue_configs d) (metrics d) (paused_queues d).
Definition set_workers (x : gmap string WorkerRow) (d : DB) : DB :=
  mkDB (jobs d) (queues d) x (queue_configs d) (metrics d) (paused_queues d).
Definition set_queue_configs (x : gmap string ConfigRow) (d : DB) : DB :=
  mkDB (jobs d) (queues d) (workers d) x (metrics d) (paused_queues d).
Definition set_metrics (x : list MetricRow) (d : DB) : DB :=
  mkDB (jobs d) (queues d) (workers d) (queue_configs d) x (paused_queues d).
Definition set_paused_queues (x : gset string) (d : DB) : DB :=
  mkDB (jobs d) (queues d) (workers d) (queue_configs d) (metrics d) x.

(** ** Values *)

(** - [text_ok]: the bytes are a text in the encoding of the server;
    - [as_varchar n]: what a column [VARCHAR(n)] stores of a text;
    - [jsonb]: the text of the document that a column [JSONB] stores of a text;
    - [jsonb_contains]: the operator [@>] on two such texts;
    - [timestamp]: the time that a column [TIMESTAMP] stores;
    - [nil_bytes]: what the driver sends for a nil slice of bytes, [None] being
      [NULL];
    - [AVG]: the average of a column, read as a [float64] and truncated;
    - [heap]: the order in which rows are found;
    - [collation]: the order of texts. *)
Class PgValues := {
  text_ok : string → bool;
  as_varchar : Z → string → option string;
  jsonb : string → option string;
  jsonb_contains : string → string → bool;
  timestamp : Time → Time;
  nil_bytes : option string;
  AVG : list Z → Z;
  heap : ∀ {A : Type}, list A → list A;
  collation : string → string → bool;
}.

(** A document of a map of strings, and one of a list of strings. *)
Definition read_map (s : string) : option (gmap string string) := v ← parse s; a_map ∅ v.
Definition read_strings (s : string) : option (list string) := v ← parse s; strings [] v.

#[global] Arguments read_map : simpl never.
#[global] Arguments read_strings : simpl never.

Definition int4 (z : Z) : bool := (- 2 ^ 31 <=? z) && (z <? 2 ^ 31).

Class PgValuesLaws `{PgValues} := {
  varchar_text n s t : as_varchar n s = Some t → text_ok s = true → text_ok t = true;
  varchar_short n s : Z.of_nat (String.length s) ≤ n → as_varchar n s = Some s;
  jsonb_idemp s t : jsonb s = Some t → jsonb t = Some t;
  jsonb_document s t : jsonb s = Some t → t ≠ "" ∧ is_Some (parse t);
  jsonb_map m t : jsonb (print (to_map m)) = Some t → read_map t = Some m;
  jsonb_strings l t : jsonb (print (to_strings l)) = Some t → read_strings t = Some l;
  jsonb_contains_strings t u l x : read_strings t = Some l → read_strings u = Some [x] →
    jsonb_contains t u = bool_decide (x ∈ l);
  timestamp_idemp t : timestamp (timestamp t) = timestamp t;
  timestamp_mono t t' : t ≤ t' → timestamp t ≤ timestamp t';
  timestamp_near t : Z.abs (timestamp t - t) ≤ 500;
  AVG_exact l : l ≠ [] → foldr (λ x s, Z.abs x + s) 0 l < 2 ^ 53 →
    AVG l = Z.quot (foldr Z.add 0 l) (Z.of_nat (length l));
  heap_perm {A} (l : list A) : heap l ≡ₚ l;
}.

(** ** The server *)

(** - [Query]: a statement ([ExecContext], [QueryContext], [QueryRowContext]);
    - [RowsAffected], [RowsErr]: of a result and of the rows read;
    - [Rollback m]: [m] under [defer tx.Rollback()]. *)
Class Postgres (R : Type) := {
  PingContext : M R unit;
  CreateTables : M R unit;
  Query : ∀ {A : Type}, M DB A → M R A;
  RowsAffected : Z → M R Z;
  RowsErr : M R unit;
  BeginTx : M R unit;
  Commit : M R unit;
  Rollback : ∀ {A : Type}, M R A → M R A;
}.

(** A statement or a transaction that fails leaves the tables as they were. *)
Definition atomically {A} (m : M DB A) : M DB A := λ d,
  match m d with
  | (Ok a, d') => (Ok a, d')
  | (r, _) => (r, d)
  end.

(** A server that answers. *)
Class PostgresLaws (R : Type) `{Postgres R} := {
  data : R → DB;
  law_PingContext : refines data PingContext (mret tt);
  law_CreateTables : refines data CreateTables (mret tt);
  law_Query {A} (m : M DB A) : refines data (Query m) (atomically m);
  law_RowsAffected n : refines data (RowsAffected n) (mret n);
  law_RowsErr : refines data RowsErr (mret tt);
  law_BeginTx : refines data BeginTx (mret tt);
  law_Commit : refines data Commit (mret tt);
  law_Rollback {A} (m : M R A) f : refines data m f → refines data (Rollback m) (atomically f);
}.

(** The server that is its tables. *)
#[export] Instance tables : Postgres DB := {|
  PingContext := mret tt;
  CreateTables := mret tt;
  Query _ m := atomically m;
  RowsAffected n := mret n;
  RowsErr := mret tt;
  BeginTx := mret tt;
  Commit := mret tt;
  Rollback _ m := atomically m;
|}.

#[export] Program Instance tables_laws : PostgresLaws DB := {| data d := d |}.
Solve Obligations with (try solve [intros; intros ?; simpl; done || apply surjective_pairing]).
Next Obligation.
  intros A m f Hm d. simpl. unfold atomically. rewrite (Hm d).
  destruct (m d) as [[a|e|p] d']; done.
Qed.

#[export] Hint Resolve law_PingContext law_CreateTables law_RowsAffected law_RowsErr law_BeginTx
  law_Commit law_Rollback : refinement.

Lemma refines_Query `{PostgresLaws R} {A} (m : M DB A) : refines data (Query m) (Query m).
Proof. apply law_Query. Qed.

Lemma refines_Rollback `{PostgresLaws R} {A} (m : M R A) f :
  refines data m f → refines data (Rollback m) (Rollback f).
Proof. apply law_Rollback. Qed.

#[export] Hint Resolve refines_Query refines_Rollback : refinement.

(** ** Values that satisfy the laws

    Texts have no zero byte, documents are kept as they are, times are rounded
    to microseconds. *)

Definition no_zero_byte (s : string) : bool := bool_decide (String.index 0 (String Ascii.zero "") s = None).

Definition plain_values : PgValues := {|
  text_ok := no_zero_byte;
  as_varchar n s := if Z.of_nat (String.length s) <=? n then Some s else None;
  jsonb s := match parse s with Some _ => Some s | None => None end;
  jsonb_contains t u :=
    match read_strings t, read_strings u with Some l, Some [x] => bool_decide (x ∈ l) | _, _ => false end;
  timestamp t := (t + 500) / 1000 * 1000;
  nil_bytes := None;
  AVG l := Z.quot (foldr Z.add 0 l) (Z.of_nat (length l));
  heap _ l := l;
  collation := String.ltb;
|}.

Lemma plain_values_laws : @PgValuesLaws plain_values.
Proof.
  split; simpl.
  - intros n s t. by destruct (_ <=? _); intros [= <-].
  - intros n s Hs. by rewrite (proj2 (Z.leb_le _ _) Hs).
  - intros s t. destruct (parse s) eqn:E; intros [= <-]. by rewrite E.
  - intros s t. destruct (parse s) eqn:E; intros [= <-]. split; [by intros ->|by rewrite E].
  - intros m t. rewrite parse_print by apply json_ok_to_map. intros [= <-].
    unfold read_map. rewrite parse_print by apply json_ok_to_map. apply a_map_to_map.
  - intros l t. rewrite parse_print by apply json_ok_to_strings. intros [= <-].
    unfold read_strings. rewrite parse_print by apply json_ok_to_strings. apply strings_to_strings.
  - by intros t u l x -> ->.
  - intros t. rewrite <- (Z.add_comm 500), Z.div_add by done. by rewrite (Z.div_small 500), Z.add_0_l.
  - intros t t' Ht. apply Z.mul_le_mono_nonneg_r; [done|]. apply Z.div_le_mono; lia.
  - intros t. pose proof (Z.div_mod (t + 500) 1000). pose proof (Z.mod_pos_bound (t + 500) 1000). lia.
  - done.
  - done.
Qed.
