(* ===== verification/PostgresStore.v ===== *)
(** * The PostgreSQL backend: jobs (internal/storage/postgres/postgres.go, utils.go)

    [NewPostgresStore] and the methods of [JobStore]. The definitions in
    capitals are the queries. *)

From S2P Require Import Prelude Errors GoMonad Job Decimal Json JobJson Postgres.

(** ** Errors of statements *)

Definition bad_text : error := Errorf "pq: invalid byte sequence for encoding".
Definition bad_json : error := Errorf "pq: invalid input syntax for type json".
Definition bad_integer : error := Errorf "pq: value is out of range for type integer".
Definition too_long : error := Errorf "pq: value too long for type character varying".
Definition null_value : error := Errorf "pq: null value violates not-null constraint".
Definition duplicate_key : error := Errorf "pq: duplicate key value violates unique constraint".
Definition foreign_key : error := Errorf "pq: insert or update on table violates foreign key constraint".
Definition inconsistent_types : error := Errorf "pq: inconsistent types deduced for parameter $2".

(** [strings.Contains]. *)
Definition Contains (s sub : string) : bool :=
  bool_decide (String.index 0 sub s ≠ None).

Definition isDuplicateKeyError (err : error) : bool :=
  Contains (Error err) "duplicate key" || Contains (Error err) "UNIQUE constraint".

Definition isForeignKeyError (err : error) : bool :=
  Contains (Error err) "foreign key" || Contains (Error err) "violates foreign key constraint".

(** ** JSON of fields *)

(** [json.Marshal] of a raw message, a map and a list of strings. *)
Definition marshal_raw {St} (msg : string) (s : string) : M St string :=
  match to_raw s with
  | Some v => mret (print v)
  | None => throw (Wrapf msg (Errorf "json"))
  end.

Definition marshal_map (m : gmap string string) : string := print (to_map m).
Definition marshal_strings (l : list string) : string := print (to_strings l).

(** [json.Unmarshal] into a raw message, which gets the bytes. *)
Definition read_raw (s : string) : option string := _ ← parse s; Some s.

Definition unmarshal_with {St A} (read : string → option A) (msg s : string) : M St A :=
  match read s with
  | Some a => mret a
  | None => throw (Wrapf msg (Errorf "json"))
  end.

(** ** Values in statements *)

(** The types of the character columns of [jobs], and of text. *)
Inductive pg_type : Type := VARCHAR | TEXT.

#[export] Instance pg_type_eq_dec : EqDecision pg_type.
Proof. solve_decision. Defined.

Section values.
Context `{PgValues}.

(** The server deduces the type of a parameter from its uses before it sees a
    value: where it is assigned to a column it has the column's type, and where
    it is compared with literals or texts it is a text. A statement that uses a
    parameter at two types is refused. In all statements but [UPDATE_status] the
    uses of a parameter agree. *)
Definition deduced (uses : list pg_type) : M DB unit :=
  if bool_decide (Forall (λ t, head uses = Some t) uses) then mret tt else throw inconsistent_types.

Definition texts (l : list string) : M DB unit :=
  if forallb text_ok l then mret tt else throw bad_text.

Definition integers (l : list Z) : M DB unit :=
  if forallb int4 l then mret tt else throw bad_integer.

Definition json_value (s : string) : M DB string :=
  match jsonb s with Some t => mret t | None => throw bad_json end.

(** A slice of bytes that may be nil, as a document. *)
Definition json_bytes (s : option string) : M DB (option string) :=
  match (if s is Some s then Some s else nil_bytes) with
  | Some s => t ← json_value s; mret (Some t)
  | None => mret None
  end.

Definition varchar (n : Z) (s : string) : M DB string :=
  match as_varchar n s with Some t => mret t | None => throw too_long end.

Definition not_null {A} (x : option A) : M DB A :=
  match x with Some a => mret a | None => throw null_value end.

Definition LIMIT {A} (n : Z) (l : list A) : M DB (list A) :=
  if n <? 0 then throw (Errorf "pq: LIMIT must not be negative") else mret (take (Z.to_nat n) l).

Definition OFFSET {A} (n : Z) (l : list A) : M DB (list A) :=
  if n <? 0 then throw (Errorf "pq: OFFSET must not be negative") else mret (drop (Z.to_nat n) l).

Definition ORDER_BY {A} (before : A → A → bool) (l : list A) : list A := sort_slice before l.

(** ** Queries *)

Definition INSERT_job (j : Job) (payloadJSON metadataJSON : string) : M DB unit :=
  texts [j_ID j; j_Type j; j_Queue j; j_Status j] ;;
  integers [j_Priority j; j_RetryCount j; j_MaxRetries j; j_TimeoutSeconds j; j_Progress j] ;;
  payload ← json_value payloadJSON;
  metadata ← json_value metadataJSON;
  id ← varchar 255 (j_ID j);
  type ← varchar 255 (j_Type j);
  queue ← varchar 255 (j_Queue j);
  status ← varchar 50 (j_Status j);
  scheduled_at ← not_null (j_ScheduledAt j);
  d ← get;
  if bool_decide (jobs d !! id ≠ None) then throw duplicate_key else
  modify (set_jobs (<[id := mkJobRow id type queue payload None None status (j_Priority j)
    (j_RetryCount j) (j_MaxRetries j) (j_TimeoutSeconds j) (j_Progress j) (Some metadata)
    (timestamp (j_CreatedAt j)) (timestamp (j_UpdatedAt j)) None None (timestamp scheduled_at)]> (jobs d))).

Definition SELECT_job (id : string) : M DB (option JobRow) :=
  texts [id] ;;
  d ← get;
  mret (jobs d !! id).

(** The row [id] is changed; the result is the number of rows. *)
Definition UPDATE_job_row (id : string) (f : JobRow → M DB JobRow) : M DB Z :=
  d ← get;
  match jobs d !! id with
  | None => mret 0
  | Some r => r ← f r; modify (set_jobs (<[id := r]> (jobs d))) ;; mret 1
  end.

Definition UPDATE_job (j : Job) (payloadJSON : string) (resultJSON : option string)
    (metadataJSON : string) : M DB Z :=
  texts [j_ID j; j_Type j; j_Queue j; j_Error j; j_Status j] ;;
  integers [j_Priority j; j_RetryCount j; j_MaxRetries j; j_TimeoutSeconds j; j_Progress j] ;;
  payload ← json_value payloadJSON;
  result ← json_bytes resultJSON;
  metadata ← json_value metadataJSON;
  type ← varchar 255 (j_Type j);
  queue ← varchar 255 (j_Queue j);
  status ← varchar 50 (j_Status j);
  UPDATE_job_row (j_ID j) (λ r,
    scheduled_at ← not_null (j_ScheduledAt j);
    mret (mkJobRow (jr_id r) type queue payload result (Some (j_Error j)) status (j_Priority j)
      (j_RetryCount j) (j_MaxRetries j) (j_TimeoutSeconds j) (j_Progress j) (Some metadata)
      (jr_created_at r) (timestamp (j_UpdatedAt j)) (timestamp <$> j_StartedAt j)
      (timestamp <$> j_CompletedAt j) (timestamp scheduled_at))).

(** [ON DELETE CASCADE]: the entries of the job leave the queues. *)
Definition DELETE_job (id : string) : M DB Z :=
  texts [id] ;;
  d ← get;
  match jobs d !! id with
  | None => mret 0
  | Some _ =>
      modify (λ d, set_queues (filter (λ kv, kv.1.2 ≠ id) (queues d)) (set_jobs (delete id (jobs d)) d)) ;;
      mret 1
  end.

Definition SELECT_jobs (queue status : string) (limit offset : Z) : M DB (list JobRow) :=
  texts [queue; status] ;;
  d ← get;
  let rows := filter (λ r, (queue = "" ∨ jr_queue r = queue) ∧ (status = "" ∨ jr_status r = status))
    (heap (map_to_list (jobs d)).*2) in
  rows ← OFFSET offset (ORDER_BY (λ x y, jr_created_at y <? jr_created_at x) rows);
  LIMIT limit rows.

(** [$2] is assigned to [status], and compared with 'running' and with a list. *)
Definition UPDATE_status (id status : string) (now : Time) : M DB Z :=
  deduced [VARCHAR; TEXT; TEXT] ;;
  texts [id; status] ;;
  s ← varchar 50 status;
  let now := timestamp now in
  UPDATE_job_row id (λ r, mret (mkJobRow (jr_id r) (jr_type r) (jr_queue r) (jr_payload r)
    (jr_result r) (jr_error r) s (jr_priority r) (jr_retry_count r) (jr_max_retries r)
    (jr_timeout_seconds r) (jr_progress r) (jr_metadata r) (jr_created_at r) now
    (if bool_decide (status = "running") && bool_decide (jr_started_at r = None)
     then Some now else jr_started_at r)
    (if bool_decide (status ∈ ["success"; "failed"; "cancelled"; "expired"]) &&
        bool_decide (jr_completed_at r = None)
     then Some now else jr_completed_at r)
    (jr_scheduled_at r))).

(** The columns that the next three statements set. *)
Definition with_outcome (result error : option string) (progress : Z) (updated_at : Time) (r : JobRow) :
    JobRow :=
  mkJobRow (jr_id r) (jr_type r) (jr_queue r) (jr_payload r) result error (jr_status r)
    (jr_priority r) (jr_retry_count r) (jr_max_retries r) (jr_timeout_seconds r) progress
    (jr_metadata r) (jr_created_at r) updated_at (jr_started_at r) (jr_completed_at r)
    (jr_scheduled_at r).

Definition UPDATE_progress (id : string) (progress : Z) (now : Time) : M DB Z :=
  texts [id] ;; integers [progress] ;;
  UPDATE_job_row id (λ r, mret (with_outcome (jr_result r) (jr_error r) progress (timestamp now) r)).

Definition UPDATE_result (id : string) (result : option string) (now : Time) : M DB Z :=
  texts [id] ;;
  result ← json_bytes result;
  UPDATE_job_row id (λ r, mret (with_outcome result (jr_error r) (jr_progress r) (timestamp now) r)).

Definition UPDATE_error (id errMsg : string) (now : Time) : M DB Z :=
  texts [id; errMsg] ;;
  UPDATE_job_row id (λ r,
    mret (with_outcome (jr_result r) (Some errMsg) (jr_progress r) (timestamp now) r)).
End values.

(** A slice of bytes of the model is nil when it is empty. *)
Definition bytes (s : string) : option string := if bool_decide (s = "") then None else Some s.

(** ** JobStore *)

(** The configuration that [NewPostgresStore] reads; [storage.PostgresConfig]
    declares other fields. *)
Record PostgresConfig : Type := mkPostgresConfig {
  pg_Host : string;
  pg_Port : Z;
  pg_User : string;
  pg_Password : string;
  pg_Database : string;
  pg_SSLMode : string;
  pg_MaxOpenConns : Z;
  pg_MaxIdleConns : Z;
  pg_ConnMaxLifetime : Duration;
}.

Definition dsn (config : PostgresConfig) : string :=
  "host=" +:+ pg_Host config +:+ " port=" +:+ itoa (pg_Port config) +:+ " user=" +:+ pg_User config +:+
  " password=" +:+ pg_Password config +:+ " dbname=" +:+ pg_Database config +:+
  " sslmode=" +:+ pg_SSLMode config.

Section methods.
Context `{Postgres R} `{PgValues}.

Definition initSchema : M R unit := CreateTables.

(** [Open] is [sql.Open] with the limits of the pool of connections. *)
Definition NewPostgresStore (Open : string → Z → Z → Duration → M R unit) (config : PostgresConfig) :
    M R unit :=
  wrap_err "failed to open database"
    (Open (dsn config) (pg_MaxOpenConns config) (pg_MaxIdleConns config) (pg_ConnMaxLifetime config)) ;;
  wrap_err "failed to ping database" PingContext ;;
  wrap_err "failed to initialize schema" initSchema.

(** [result, err := m; rows, err := result.RowsAffected(); if rows == 0 { return missing }]. *)
Definition affected (missing : error) (msg : string) (m : M R Z) : M R unit :=
  result ← wrap_err msg m;
  rows ← wrap_err "failed to get rows affected" (RowsAffected result);
  if rows =? 0 then throw missing else mret tt.

Definition CreateJob (j : Job) : M R unit :=
  payloadJSON ← marshal_raw "failed to marshal payload" (j_Payload j);
  let metadataJSON := marshal_map (j_Metadata j) in
  r ← attempt (Query (INSERT_job j payloadJSON metadataJSON));
  match r with
  | inl _ => mret tt
  | inr err =>
      if isDuplicateKeyError err then throw ErrJobAlreadyExists
      else throw (Wrapf "failed to create job" err)
  end.

(** What [Scan] and the lines after it make of a row. *)
Definition scan_job (r : JobRow) : M R Job :=
  payload ← unmarshal_with read_raw "failed to unmarshal payload" (jr_payload r);
  metadata ← unmarshal_with read_map "failed to unmarshal metadata" (default "" (jr_metadata r));
  result ← match jr_result r with
           | Some t => unmarshal_with read_raw "failed to unmarshal result" t
           | None => mret ""
           end;
  mret {| j_ID := jr_id r; j_Type := jr_type r; j_Payload := payload; j_Priority := jr_priority r;
          j_Status := jr_status r; j_MaxRetries := jr_max_retries r; j_CurrentRetry := 0;
          j_RetryCount := jr_retry_count r; j_Timeout := 0; j_TimeoutSeconds := jr_timeout_seconds r;
          j_ScheduledAt := Some (jr_scheduled_at r); j_CreatedAt := jr_created_at r;
          j_UpdatedAt := jr_updated_at r; j_StartedAt := jr_started_at r;
          j_CompletedAt := jr_completed_at r; j_Error := default "" (jr_error r);
          j_Result := result; j_Metadata := metadata; j_Queue := jr_queue r;
          j_Progress := jr_progress r; j_WorkerID := "" |}.

Definition GetJob (id : string) : M R Job :=
  r ← wrap_err "failed to get job" (Query (SELECT_job id));
  match r with
  | None => throw ErrJobNotFound
  | Some r => scan_job r
  end.

Definition UpdateJob (j : Job) : M R unit :=
  payloadJSON ← marshal_raw "failed to marshal payload" (j_Payload j);
  let metadataJSON := marshal_map (j_Metadata j) in
  resultJSON ← (if bool_decide (j_Result j = "") then mret None
                else t ← marshal_raw "failed to marshal result" (j_Result j); mret (Some t));
  affected ErrJobNotFound "failed to update job"
    (Query (UPDATE_job j payloadJSON resultJSON metadataJSON)).

Definition DeleteJob (id : string) : M R unit :=
  affected ErrJobNotFound "failed to delete job" (Query (DELETE_job id)).

(** The loop of [ListJobs]. *)
Fixpoint scan_jobs (rows : list JobRow) : M R (list Job) :=
  match rows with
  | [] => mret []
  | r :: rows => j ← scan_job r; l ← scan_jobs rows; mret (j :: l)
  end.

Definition ListJobs (queue status : string) (limit offset : Z) : M R (list Job) :=
  rows ← wrap_err "failed to list jobs" (Query (SELECT_jobs queue status limit offset));
  l ← scan_jobs rows;
  wrap_err "failed during row iteration" RowsErr ;;
  mret l.

Definition UpdateStatus (clk : Clock) (id status : string) : M R unit :=
  affected ErrJobNotFound "failed to update status" (Query (UPDATE_status id status (clk 0%nat))).

Definition UpdateProgress (clk : Clock) (id : string) (progress : Z) : M R unit :=
  affected ErrJobNotFound "failed to update progress" (Query (UPDATE_progress id progress (clk 0%nat))).

Definition SetResult (clk : Clock) (id result : string) : M R unit :=
  affected ErrJobNotFound "failed to set result" (Query (UPDATE_result id (bytes result) (clk 0%nat))).

Definition SetError (clk : Clock) (id errMsg : string) : M R unit :=
  affected ErrJobNotFound "failed to set error" (Query (UPDATE_error id errMsg (clk 0%nat))).
End methods.

(** ** Refinement of the server that is its tables *)

Section refinement.
Context `{PostgresLaws R} `{PgValues}.

Lemma pg_marshal_raw msg s : refines data (marshal_raw msg s) (marshal_raw msg s).
Proof. unfold marshal_raw. solve_refines. Qed.

Lemma pg_unmarshal_with {A} (read : string → option A) msg s :
  refines data (unmarshal_with read msg s) (unmarshal_with read msg s).
Proof. unfold unmarshal_with. solve_refines. Qed.

Lemma pg_affected e msg m f : refines data m f → refines data (affected e msg m) (affected e msg f).
Proof. intros Hm. unfold affected. solve_refines. Qed.
#[local] Hint Resolve pg_marshal_raw pg_unmarshal_with pg_affected : refinement.

Lemma pg_scan_job r : refines data (scan_job r) (scan_job r).
Proof. unfold scan_job. solve_refines. Qed.

Lemma pg_scan_jobs rows : refines data (scan_jobs rows) (scan_jobs rows).
Proof. induction rows as [|r rows IH]; simpl; solve_refines. Qed.
#[local] Hint Resolve pg_scan_job pg_scan_jobs : refinement.

Lemma pg_CreateJob j : refines data (CreateJob j) (CreateJob j).
Proof. unfold CreateJob. solve_refines. Qed.

Lemma pg_GetJob id : refines data (GetJob id) (GetJob id).
Proof. unfold GetJob. solve_refines. Qed.

Lemma pg_UpdateJob j : refines data (UpdateJob j) (UpdateJob j).
Proof. unfold UpdateJob. solve_refines. Qed.

Lemma pg_DeleteJob id : refines data (DeleteJob id) (DeleteJob id).
Proof. unfold DeleteJob. solve_refines. Qed.

Lemma pg_ListJobs q st l o : refines data (ListJobs q st l o) (ListJobs q st l o).
Proof. unfold ListJobs. solve_refines. Qed.

Lemma pg_UpdateStatus clk id st : refines data (UpdateStatus clk id st) (UpdateStatus clk id st).
Proof. unfold UpdateStatus. solve_refines. Qed.

Lemma pg_UpdateProgress clk id p : refines data (UpdateProgress clk id p) (UpdateProgress clk id p).
Proof. unfold UpdateProgress. solve_refines. Qed.

Lemma pg_SetResult clk id r : refines data (SetResult clk id r) (SetResult clk id r).
Proof. unfold SetResult. solve_refines. Qed.

Lemma pg_SetError clk id e : refines data (SetError clk id e) (SetError clk id e).
Proof. unfold SetError. solve_refines. Qed.
End refinement.

#[export] Hint Resolve pg_CreateJob pg_GetJob pg_UpdateJob pg_DeleteJob pg_ListJobs
  pg_UpdateStatus pg_UpdateProgress pg_SetResult pg_SetError pg_marshal_raw pg_unmarshal_with
  pg_affected : refinement.
