(* ===== verification/PostgresQueue.v ===== *)
(** * The PostgreSQL backend: queues (internal/storage/postgres/postgres.go)

    The methods of [QueueStore]. A queue has one entry per job, which the table
    of jobs has to know. *)

From S2P Require Import Prelude Errors GoMonad Job Postgres PostgresStore.

(** ** Queries *)

Section queries.
Context `{PgValues}.

(** The entries of a queue with their jobs, in the order in which they are found. *)
Definition entries (q : string) (d : DB) : list (string * QueueRow) :=
  omap (λ '((queue_name, job_id), r), if bool_decide (queue_name = q) then Some (job_id, r) else None)
    (heap (map_to_list (queues d))).

(** [ORDER BY priority DESC, scheduled_for ASC]. *)
Definition first_served (x y : string * QueueRow) : bool :=
  (qr_priority y.2 <? qr_priority x.2) ||
  ((qr_priority x.2 =? qr_priority y.2) && (qr_scheduled_for x.2 <? qr_scheduled_for y.2)).

(** [INSERT INTO queues ... ON CONFLICT (queue_name, job_id) DO UPDATE]. *)
Definition INSERT_entry (queue jobID : string) (priority : Z) (scheduledFor : Time) : M DB unit :=
  texts [queue; jobID] ;;
  integers [priority] ;;
  queue_name ← varchar 255 queue;
  job_id ← varchar 255 jobID;
  d ← get;
  if bool_decide (queues d !! (queue_name, job_id) = None) && bool_decide (jobs d !! job_id = None)
  then throw foreign_key
  else modify (set_queues (<[(queue_name, job_id) := mkQueueRow priority (timestamp scheduledFor)]> (queues d))).

(** The first entry that is ready; no other transaction holds a lock. *)
Definition SELECT_next (queue : string) (now : Time) : M DB (option string) :=
  texts [queue] ;;
  d ← get;
  mret (head (ORDER_BY first_served
    (filter (λ x, qr_scheduled_for x.2 ≤ timestamp now) (entries queue d))).*1).

Definition DELETE_entry (queue jobID : string) : M DB Z :=
  texts [queue; jobID] ;;
  d ← get;
  modify (set_queues (delete (queue, jobID) (queues d))) ;;
  mret (if bool_decide (queues d !! (queue, jobID) = None) then 0 else 1).

Definition SELECT_count (queue : string) : M DB Z :=
  texts [queue] ;;
  d ← get;
  mret (Z.of_nat (length (entries queue d))).

Definition SELECT_first (queue : string) (count : Z) : M DB (list string) :=
  texts [queue] ;;
  d ← get;
  LIMIT count (ORDER_BY first_served (entries queue d)).*1.

Definition SELECT_until (queue : string) (until : Time) : M DB (list string) :=
  texts [queue] ;;
  d ← get;
  mret (ORDER_BY (λ x y, qr_scheduled_for x.2 <? qr_scheduled_for y.2)
    (filter (λ x, qr_scheduled_for x.2 ≤ timestamp until) (entries queue d))).*1.

Definition INSERT_paused (queue : string) : M DB unit :=
  texts [queue] ;;
  q ← varchar 255 queue;
  modify (λ d, set_paused_queues ({[q]} ∪ paused_queues d) d).

Definition DELETE_paused (queue : string) : M DB unit :=
  texts [queue] ;;
  modify (λ d, set_paused_queues (paused_queues d ∖ {[queue]}) d).

Definition SELECT_paused (queue : string) : M DB bool :=
  texts [queue] ;;
  d ← get;
  mret (bool_decide (queue ∈ paused_queues d)).
End queries.

(** ** QueueStore *)

Section methods.
Context `{Postgres R} `{PgValues}.

Definition Enqueue (clk : Clock) (queue jobID : string) (priority : Z) (delay : Duration) : M R unit :=
  let scheduledFor := Add (clk 0%nat) delay in
  r ← attempt (Query (INSERT_entry queue jobID priority scheduledFor));
  match r with
  | inl _ => mret tt
  | inr err =>
      if isForeignKeyError err then throw ErrJobNotFound
      else throw (Wrapf "failed to enqueue job" err)
  end.

Definition IsQueuePaused (queue : string) : M R bool :=
  wrap_err "failed to check if queue is paused" (Query (SELECT_paused queue)).

(** The transaction of [Dequeue]. *)
Definition claim (clk : Clock) (queue : string) : M R string :=
  jobID ← wrap_err "failed to dequeue job" (Query (SELECT_next queue (clk 0%nat)));
  match jobID with
  | None => throw ErrQueueEmpty
  | Some jobID =>
      wrap_err "failed to remove from queue" (Query (DELETE_entry queue jobID)) ;;
      wrap_err "failed to commit transaction" Commit ;;
      mret jobID
  end.

Definition Dequeue (clk : Clock) (queue : string) : M R string :=
  paused ← IsQueuePaused queue;
  if paused : bool then throw ErrQueuePaused else
  wrap_err "failed to begin transaction" BeginTx ;;
  Rollback (claim clk queue).

Definition Requeue (clk : Clock) (queue jobID : string) (priority : Z) (delay : Duration) : M R unit :=
  Enqueue clk queue jobID priority delay.

Definition Remove (queue jobID : string) : M R unit :=
  affected ErrJobNotFound "failed to remove from queue" (Query (DELETE_entry queue jobID)).

Definition Length (queue : string) : M R Z :=
  wrap_err "failed to get queue length" (Query (SELECT_count queue)).

Definition Peek (queue : string) (count : Z) : M R (list string) :=
  jobIDs ← wrap_err "failed to peek queue" (Query (SELECT_first queue count));
  wrap_err "failed during row iteration" RowsErr ;;
  mret jobIDs.

Definition GetScheduled (queue : string) (until : Time) : M R (list string) :=
  jobIDs ← wrap_err "failed to get scheduled jobs" (Query (SELECT_until queue until));
  wrap_err "failed during row iteration" RowsErr ;;
  mret jobIDs.

Definition PauseQueue (queue : string) : M R unit :=
  wrap_err "failed to pause queue" (Query (INSERT_paused queue)).

Definition ResumeQueue (queue : string) : M R unit :=
  wrap_err "failed to resume queue" (Query (DELETE_paused queue)).
End methods.

(** ** Refinement of the server that is its tables *)

Section refinement.
Context `{PostgresLaws R} `{PgValues}.

Lemma pg_IsQueuePaused q : refines data (IsQueuePaused q) (IsQueuePaused q).
Proof. unfold IsQueuePaused. solve_refines. Qed.
#[local] Hint Resolve pg_IsQueuePaused : refinement.

Lemma pg_Enqueue clk q id p t : refines data (Enqueue clk q id p t) (Enqueue clk q id p t).
Proof. unfold Enqueue. solve_refines. Qed.
#[local] Hint Resolve pg_Enqueue : refinement.

Lemma pg_claim clk q : refines data (claim clk q) (claim clk q).
Proof. unfold claim. solve_refines. Qed.
#[local] Hint Resolve pg_claim : refinement.

Lemma pg_Dequeue clk q : refines data (Dequeue clk q) (Dequeue clk q).
Proof. unfold Dequeue. solve_refines. Qed.

Lemma pg_Requeue clk q id p t : refines data (Requeue clk q id p t) (Requeue clk q id p t).
Proof. unfold Requeue. solve_refines. Qed.

Lemma pg_Remove q id : refines data (Remove q id) (Remove q id).
Proof. unfold Remove. solve_refines. Qed.

Lemma pg_Length q : refines data (Length q) (Length q).
Proof. unfold Length. solve_refines. Qed.

Lemma pg_Peek q n : refines data (Peek q n) (Peek q n).
Proof. unfold Peek. solve_refines. Qed.

Lemma pg_GetScheduled q t : refines data (GetScheduled q t) (GetScheduled q t).
Proof. unfold GetScheduled. solve_refines. Qed.

Lemma pg_PauseQueue q : refines data (PauseQueue q) (PauseQueue q).
Proof. unfold PauseQueue. solve_refines. Qed.

Lemma pg_ResumeQueue q : refines data (ResumeQueue q) (ResumeQueue q).
Proof. unfold ResumeQueue. solve_refines. Qed.
End refinement.

#[export] Hint Resolve pg_IsQueuePaused pg_Enqueue pg_claim pg_Dequeue pg_Requeue pg_Remove
  pg_Length pg_Peek pg_GetScheduled pg_PauseQueue pg_ResumeQueue : refinement.
