(* ===== verification/PostgresWorker.v ===== *)
(** * The PostgreSQL backend: workers (internal/storage/postgres/worker.go)

    The field [Metadata] of a worker, which pkg/job does not declare, is an
    argument of its own and a component of the result. *)

From S2P Require Import Prelude Errors GoMonad Job Json JobJson Postgres PostgresStore.

(** ** Queries *)

Section queries.
Context `{PgValues}.

(** [INSERT INTO workers ... ON CONFLICT (id) DO UPDATE]. *)
Definition INSERT_worker (w : Worker) (queuesJSON tagsJSON metadataJSON : string) : M DB unit :=
  texts [w_ID w; w_Hostname w; w_Version w; w_Status w] ;;
  integers [w_Concurrency w] ;;
  qs ← json_value queuesJSON;
  tags ← json_value tagsJSON;
  metadata ← json_value metadataJSON;
  id ← varchar 255 (w_ID w);
  hostname ← varchar 255 (w_Hostname w);
  version ← varchar 50 (w_Version w);
  status ← varchar 50 (w_Status w);
  let started_at := timestamp (default 0 (w_StartedAt w)) in
  let last_heartbeat := timestamp (default 0 (w_LastHeartbeat w)) in
  d ← get;
  let row :=
    match workers d !! id with
    | None => mkWorkerRow id hostname version status qs (Some tags) (w_Concurrency w) None
        (w_ProcessedCount w) (w_FailedCount w) started_at last_heartbeat (Some metadata)
    | Some r => mkWorkerRow id hostname version status qs (Some tags) (w_Concurrency w)
        (wr_current_job_id r) (wr_processed_count r) (wr_failed_count r) (wr_started_at r)
        last_heartbeat (wr_metadata r)
    end in
  modify (set_workers (<[id := row]> (workers d))).

Definition DELETE_worker (id : string) : M DB Z :=
  texts [id] ;;
  d ← get;
  modify (set_workers (delete id (workers d))) ;;
  mret (if bool_decide (workers d !! id = None) then 0 else 1).

Definition SELECT_worker (id : string) : M DB (option WorkerRow) :=
  texts [id] ;;
  d ← get;
  mret (workers d !! id).

Definition started_later (x y : WorkerRow) : bool := wr_started_at y <? wr_started_at x.

Definition SELECT_workers : M DB (list WorkerRow) :=
  d ← get;
  mret (ORDER_BY started_later (heap (map_to_list (workers d)).*2)).

Definition SELECT_workers_of (queueJSON : string) : M DB (list WorkerRow) :=
  q ← json_value queueJSON;
  d ← get;
  mret (ORDER_BY started_later
    (filter (λ r, jsonb_contains (wr_queues r) q = true) (heap (map_to_list (workers d)).*2))).

Definition SELECT_stale (cutoff : Time) : M DB (list WorkerRow) :=
  d ← get;
  mret (ORDER_BY (λ x y, wr_last_heartbeat x <? wr_last_heartbeat y)
    (filter (λ r, wr_last_heartbeat r < timestamp cutoff) (heap (map_to_list (workers d)).*2))).

Definition UPDATE_worker_row (id : string) (f : WorkerRow → M DB WorkerRow) : M DB Z :=
  d ← get;
  match workers d !! id with
  | None => mret 0
  | Some r => r ← f r; modify (set_workers (<[id := r]> (workers d))) ;; mret 1
  end.

(** A row with the columns that the statements below set. *)
Definition with_columns (status : string) (current_job_id : option string) (processed failed : Z)
    (last_heartbeat : Time) (r : WorkerRow) : WorkerRow :=
  mkWorkerRow (wr_id r) (wr_hostname r) (wr_version r) status (wr_queues r) (wr_tags r)
    (wr_concurrency r) current_job_id processed failed (wr_started_at r) last_heartbeat (wr_metadata r).

Definition UPDATE_heartbeat (id : string) (now : Time) : M DB Z :=
  texts [id] ;;
  UPDATE_worker_row id (λ r, mret (with_columns (wr_status r) (wr_current_job_id r)
    (wr_processed_count r) (wr_failed_count r) (timestamp now) r)).

Definition UPDATE_worker_status (id status : string) : M DB Z :=
  texts [id; status] ;;
  status ← varchar 50 status;
  UPDATE_worker_row id (λ r, mret (with_columns status (wr_current_job_id r)
    (wr_processed_count r) (wr_failed_count r) (wr_last_heartbeat r) r)).

(** [None] is [NULL]. *)
Definition UPDATE_current_job (id : string) (jobID : option string) : M DB Z :=
  texts (id :: option_list jobID) ;;
  current ← match jobID with
            | Some jobID => s ← varchar 255 jobID; mret (Some s)
            | None => mret None
            end;
  UPDATE_worker_row id (λ r, mret (with_columns (wr_status r) current
    (wr_processed_count r) (wr_failed_count r) (wr_last_heartbeat r) r)).

(** [BIGINT] does not wrap around. *)
Definition int8 (z : Z) : M DB Z :=
  if (min_int64 <=? z) && (z <=? max_int64) then mret z else throw (Errorf "pq: bigint out of range").

Definition UPDATE_processed (id : string) : M DB Z :=
  texts [id] ;;
  UPDATE_worker_row id (λ r, n ← int8 (wr_processed_count r + 1);
    mret (with_columns (wr_status r) (wr_current_job_id r) n (wr_failed_count r) (wr_last_heartbeat r) r)).

Definition UPDATE_failed (id : string) : M DB Z :=
  texts [id] ;;
  UPDATE_worker_row id (λ r, n ← int8 (wr_failed_count r + 1);
    mret (with_columns (wr_status r) (wr_current_job_id r) (wr_processed_count r) n (wr_last_heartbeat r) r)).
End queries.

(** ** WorkerStore *)

Section methods.
Context `{Postgres R} `{PgValues}.

Definition RegisterWorker (w : Worker) (metadata : gmap string string) : M R unit :=
  let queuesJSON := marshal_strings (w_Queues w) in
  let tagsJSON := marshal_map (w_Tags w) in
  let metadataJSON := marshal_map metadata in
  wrap_err "failed to register worker" (Query (INSERT_worker w queuesJSON tagsJSON metadataJSON)).

Definition UnregisterWorker (id : string) : M R unit :=
  affected ErrWorkerNotFound "failed to unregister worker" (Query (DELETE_worker id)).

(** What [Scan] and the lines after it make of a row. *)
Definition scan_worker (r : WorkerRow) : M R (Worker * gmap string string) :=
  qs ← unmarshal_with read_strings "failed to unmarshal queues" (wr_queues r);
  tags ← unmarshal_with read_map "failed to unmarshal tags" (default "" (wr_tags r));
  metadata ← unmarshal_with read_map "failed to unmarshal metadata" (default "" (wr_metadata r));
  mret ({| w_ID := wr_id r; w_Hostname := wr_hostname r; w_StartedAt := zero_time (wr_started_at r);
           w_LastHeartbeat := zero_time (wr_last_heartbeat r);
           w_CurrentJobID := wr_current_job_id r; w_ProcessedCount := wr_processed_count r;
           w_FailedCount := wr_failed_count r; w_Status := wr_status r; w_Queues := qs;
           w_Concurrency := wr_concurrency r; w_Tags := tags; w_Version := wr_version r |}, metadata).

Definition GetWorker (id : string) : M R (Worker * gmap string string) :=
  r ← wrap_err "failed to get worker" (Query (SELECT_worker id));
  match r with
  | None => throw ErrWorkerNotFound
  | Some r => scan_worker r
  end.

(** The loop of [ListWorkers] and [GetStaleWorkers]. *)
Fixpoint scan_workers (rows : list WorkerRow) : M R (list (Worker * gmap string string)) :=
  match rows with
  | [] => mret []
  | r :: rows => w ← scan_worker r; l ← scan_workers rows; mret (w :: l)
  end.

Definition ListWorkers (queue : string) : M R (list (Worker * gmap string string)) :=
  let query :=
    if bool_decide (queue = "") then SELECT_workers
    else SELECT_workers_of (marshal_strings [queue]) in
  rows ← wrap_err "failed to list workers" (Query query);
  l ← scan_workers rows;
  wrap_err "failed during row iteration" RowsErr ;;
  mret l.

Definition UpdateHeartbeat (clk : Clock) (id : string) : M R unit :=
  affected ErrWorkerNotFound "failed to update heartbeat" (Query (UPDATE_heartbeat id (clk 0%nat))).

Definition UpdateWorkerStatus (id status : string) : M R unit :=
  affected ErrWorkerNotFound "failed to update worker status" (Query (UPDATE_worker_status id status)).

Definition SetCurrentJob (workerID jobID : string) : M R unit :=
  affected ErrWorkerNotFound "failed to set current job"
    (Query (UPDATE_current_job workerID (if bool_decide (jobID = "") then None else Some jobID))).

Definition IncrementProcessed (workerID : string) : M R unit :=
  affected ErrWorkerNotFound "failed to increment processed count" (Query (UPDATE_processed workerID)).

Definition IncrementFailed (workerID : string) : M R unit :=
  affected ErrWorkerNotFound "failed to increment failed count" (Query (UPDATE_failed workerID)).

Definition GetStaleWorkers (clk : Clock) (threshold : Duration) :
    M R (list (Worker * gmap string string)) :=
  let cutoff := Add (clk 0%nat) (wrap64 (- threshold)) in
  rows ← wrap_err "failed to get stale workers" (Query (SELECT_stale cutoff));
  l ← scan_workers rows;
  wrap_err "failed during row iteration" RowsErr ;;
  mret l.
End methods.

(** ** Refinement of the server that is its tables *)

Section refinement.
Context `{PostgresLaws R} `{PgValues}.

Lemma pg_scan_worker r : refines data (scan_worker r) (scan_worker r).
Proof. unfold scan_worker. solve_refines. Qed.

Lemma pg_scan_workers rows : refines data (scan_workers rows) (scan_workers rows).
Proof. induction rows as [|r rows IH]; simpl; solve_refines. Qed.
#[local] Hint Resolve pg_scan_worker pg_scan_workers : refinement.

Lemma pg_RegisterWorker w m : refines data (RegisterWorker w m) (RegisterWorker w m).
Proof. unfold RegisterWorker. solve_refines. Qed.

Lemma pg_UnregisterWorker id : refines data (UnregisterWorker id) (UnregisterWorker id).
Proof. unfold UnregisterWorker. solve_refines. Qed.

Lemma pg_GetWorker id : refines data (GetWorker id) (GetWorker id).
Proof. unfold GetWorker. solve_refines. Qed.

Lemma pg_ListWorkers q : refines data (ListWorkers q) (ListWorkers q).
Proof. unfold ListWorkers. solve_refines. Qed.

Lemma pg_UpdateHeartbeat clk id : refines data (UpdateHeartbeat clk id) (UpdateHeartbeat clk id).
Proof. unfold UpdateHeartbeat. solve_refines. Qed.

Lemma pg_UpdateWorkerStatus id st :
  refines data (UpdateWorkerStatus id st) (UpdateWorkerStatus id st).
Proof. unfold UpdateWorkerStatus. solve_refines. Qed.

Lemma pg_SetCurrentJob id j : refines data (SetCurrentJob id j) (SetCurrentJob id j).
Proof. unfold SetCurrentJob. solve_refines. Qed.

Lemma pg_IncrementProcessed id : refines data (IncrementProcessed id) (IncrementProcessed id).
Proof. unfold IncrementProcessed. solve_refines. Qed.

Lemma pg_IncrementFailed id : refines data (IncrementFailed id) (IncrementFailed id).
Proof. unfold IncrementFailed. solve_refines. Qed.

Lemma pg_GetStaleWorkers clk d : refines data (GetStaleWorkers clk d) (GetStaleWorkers clk d).
Proof. unfold GetStaleWorkers. solve_refines. Qed.
End refinement.

#[export] Hint Resolve pg_RegisterWorker pg_UnregisterWorker pg_GetWorker pg_ListWorkers
  pg_UpdateHeartbeat pg_UpdateWorkerStatus pg_SetCurrentJob pg_IncrementProcessed
  pg_IncrementFailed pg_GetStaleWorkers : refinement.
