(* ===== verification/PostgresMetrics.v ===== *)
(** * The PostgreSQL backend: metrics and configurations
    (internal/storage/postgres/metrics.go, config.go)

    The field [Metadata] of a configuration, which pkg/job does not declare, is
    an argument of its own and a component of the result. *)

From S2P Require Import Prelude Errors GoMonad Job GoTime Json JobJson Postgres PostgresStore.

(** ** Queries *)

Section queries.
Context `{PgValues}.

Definition INSERT_event (queue jobType event : string) (duration_ms : option Z) : M DB unit :=
  texts [queue; jobType] ;;
  queue_name ← varchar 255 queue;
  job_type ← varchar 255 jobType;
  modify (λ d, set_metrics (metrics d ++ [mkMetricRow queue_name job_type event duration_ms]) d).

(** [COUNT] of the rows of a status. *)
Definition COUNT_status (status : string) (rows : list JobRow) : Z :=
  Z.of_nat (length (filter (λ r, jr_status r = status) rows)).

(** The counts of one queue, with the fields that are scanned. *)
Definition count_statuses (queue : string) (rows : list JobRow) : QueueStats :=
  mkQueueStats queue (COUNT_status "pending" rows) (COUNT_status "running" rows)
    (COUNT_status "success" rows) (COUNT_status "failed" rows) 0 0 None.

Definition SELECT_stats (queue : string) : M DB QueueStats :=
  texts [queue] ;;
  d ← get;
  mret (count_statuses queue (filter (λ r, jr_queue r = queue) (map_to_list (jobs d)).*2)).

(** [GROUP BY queue]: one row per queue. *)
Definition SELECT_stats_all : M DB (list QueueStats) :=
  d ← get;
  let rows := (map_to_list (jobs d)).*2 in
  mret ((λ q, count_statuses q (filter (λ r, jr_queue r = q) rows)) <$>
    heap (remove_dups (jr_queue <$> rows))).

(** [COUNT] and [COALESCE(AVG(duration_ms), 0)], truncated by the conversion of
    the [float64] to a duration. *)
Definition SELECT_type_stats (jobType : string) : M DB (Z * Z) :=
  texts [jobType] ;;
  d ← get;
  let durations := omap mr_duration_ms
    (filter (λ r, mr_job_type r = jobType ∧ mr_event_type r = "completed") (metrics d)) in
  mret (Z.of_nat (length durations), if durations is [] then 0 else AVG durations).

(** [INSERT INTO queue_configs ... ON CONFLICT (name) DO UPDATE]. *)
Definition INSERT_config (c : QueueConfig) (metadataJSON : string) (now : Time) : M DB unit :=
  texts [c_Name c; c_RetryStrategy c; c_DeadLetterQueue c] ;;
  integers [c_MaxWorkers c; c_MaxRetries c; c_RetryDelay c; c_MaxRetryDelay c; c_Timeout c;
            c_Priority c; c_Weight c; c_RateLimit c] ;;
  metadata ← json_value metadataJSON;
  name ← varchar 255 (c_Name c);
  retry_strategy ← varchar 50 (c_RetryStrategy c);
  dead_letter_queue ← varchar 255 (c_DeadLetterQueue c);
  d ← get;
  let created_at :=
    match queue_configs d !! name with Some r => cr_created_at r | None => timestamp now end in
  modify (set_queue_configs (<[name := mkConfigRow name (c_MaxWorkers c) (c_MaxRetries c)
    retry_strategy (c_RetryDelay c) (c_MaxRetryDelay c) (c_Timeout c) (c_Priority c) (c_Weight c)
    (c_RateLimit c) (Some dead_letter_queue) (Some metadata) created_at (timestamp now)]> (queue_configs d))).

Definition SELECT_config (queue : string) : M DB (option ConfigRow) :=
  texts [queue] ;;
  d ← get;
  mret (queue_configs d !! queue).

Definition DELETE_config (queue : string) : M DB Z :=
  texts [queue] ;;
  d ← get;
  modify (set_queue_configs (delete queue (queue_configs d))) ;;
  mret (if bool_decide (queue_configs d !! queue = None) then 0 else 1).

Definition SELECT_configs : M DB (list ConfigRow) :=
  d ← get;
  mret (ORDER_BY (λ x y, collation (cr_name x) (cr_name y)) (heap (map_to_list (queue_configs d)).*2)).
End queries.

Section methods.
Context `{Postgres R} `{PgValues}.

(** ** MetricsStore *)

Definition RecordJobCreated (queue jobType : string) : M R unit :=
  wrap_err "failed to record job created" (Query (INSERT_event queue jobType "created" None)).

Definition RecordJobCompleted (queue jobType : string) (duration : Duration) : M R unit :=
  let durationMs := Milliseconds duration in
  wrap_err "failed to record job completed"
    (Query (INSERT_event queue jobType "completed" (Some durationMs))).

Definition RecordJobFailed (queue jobType : string) : M R unit :=
  wrap_err "failed to record job failed" (Query (INSERT_event queue jobType "failed" None)).

Definition RecordJobRetried (queue jobType : string) : M R unit :=
  wrap_err "failed to record job retried" (Query (INSERT_event queue jobType "retried" None)).

Definition GetQueueStats (queue : string) : M R QueueStats :=
  wrap_err "failed to get queue stats" (Query (SELECT_stats queue)).

Definition GetQueueStatsAll : M R (gmap string QueueStats) :=
  rows ← wrap_err "failed to get all queue stats" (Query SELECT_stats_all);
  let result := foldl (λ m s, <[qs_QueueName s := s]> m) ∅ rows in
  wrap_err "failed during row iteration" RowsErr ;;
  mret result.

Definition GetJobTypeStats (jobType : string) : M R (Z * Duration) :=
  r ← wrap_err "failed to get job type stats" (Query (SELECT_type_stats jobType));
  let '(count, avgMs) := r in
  mret (count, wrap64 (avgMs * Millisecond)).

(** ** ConfigStore *)

Definition SaveQueueConfig (clk : Clock) (config : QueueConfig) (metadata : gmap string string) :
    M R unit :=
  let metadataJSON := marshal_map metadata in
  wrap_err "failed to save queue config" (Query (INSERT_config config metadataJSON (clk 0%nat))).

Definition not_found (queue : string) : error := Errorf ("queue config not found: " +:+ queue).

(** What [Scan] and the lines after it make of a row. *)
Definition scan_config (r : ConfigRow) : M R (QueueConfig * gmap string string) :=
  metadata ← unmarshal_with read_map "failed to unmarshal metadata" (default "" (cr_metadata r));
  mret (mkQueueConfig (cr_name r) (cr_max_workers r) (cr_max_retries r) (cr_retry_strategy r) 0
    (cr_timeout_seconds r) (cr_priority r) (cr_rate_limit r) (cr_weight r) false
    (cr_retry_delay_seconds r) (cr_max_retry_delay_seconds r)
    (default "" (cr_dead_letter_queue r)), metadata).

Definition GetQueueConfig (queue : string) : M R (QueueConfig * gmap string string) :=
  r ← wrap_err "failed to get queue config" (Query (SELECT_config queue));
  match r with
  | None => throw (not_found queue)
  | Some r => scan_config r
  end.

Definition DeleteQueueConfig (queue : string) : M R unit :=
  affected (not_found queue) "failed to delete queue config" (Query (DELETE_config queue)).

(** The loop of [ListQueueConfigs]. *)
Fixpoint scan_configs (rows : list ConfigRow) : M R (list (QueueConfig * gmap string string)) :=
  match rows with
  | [] => mret []
  | r :: rows => c ← scan_config r; l ← scan_configs rows; mret (c :: l)
  end.

Definition ListQueueConfigs : M R (list (QueueConfig * gmap string string)) :=
  rows ← wrap_err "failed to list queue configs" (Query SELECT_configs);
  l ← scan_configs rows;
  wrap_err "failed during row iteration" RowsErr ;;
  mret l.
End methods.

(** ** Refinement of the server that is its tables *)

Section refinement.
Context `{PostgresLaws R} `{PgValues}.

Lemma pg_scan_config r : refines data (scan_config r) (scan_config r).
Proof. unfold scan_config. solve_refines. Qed.

Lemma pg_scan_configs rows : refines data (scan_configs rows) (scan_configs rows).
Proof. induction rows as [|r rows IH]; simpl; solve_refines. Qed.
#[local] Hint Resolve pg_scan_config pg_scan_configs : refinement.

Lemma pg_RecordJobCreated q t : refines data (RecordJobCreated q t) (RecordJobCreated q t).
Proof. unfold RecordJobCreated. solve_refines. Qed.

Lemma pg_RecordJobCompleted q t n :
  refines data (RecordJobCompleted q t n) (RecordJobCompleted q t n).
Proof. unfold RecordJobCompleted. solve_refines. Qed.

Lemma pg_RecordJobFailed q t : refines data (RecordJobFailed q t) (RecordJobFailed q t).
Proof. unfold RecordJobFailed. solve_refines. Qed.

Lemma pg_RecordJobRetried q t : refines data (RecordJobRetried q t) (RecordJobRetried q t).
Proof. unfold RecordJobRetried. solve_refines. Qed.

Lemma pg_GetQueueStats q : refines data (GetQueueStats q) (GetQueueStats q).
Proof. unfold GetQueueStats. solve_refines. Qed.

Lemma pg_GetQueueStatsAll : refines data GetQueueStatsAll GetQueueStatsAll.
Proof. unfold GetQueueStatsAll. solve_refines. Qed.

Lemma pg_GetJobTypeStats t : refines data (GetJobTypeStats t) (GetJobTypeStats t).
Proof. unfold GetJobTypeStats. solve_refines. Qed.

Lemma pg_SaveQueueConfig clk c m : refines data (SaveQueueConfig clk c m) (SaveQueueConfig clk c m).
Proof. unfold SaveQueueConfig. solve_refines. Qed.

Lemma pg_GetQueueConfig q : refines data (GetQueueConfig q) (GetQueueConfig q).
Proof. unfold GetQueueConfig. solve_refines. Qed.

Lemma pg_DeleteQueueConfig q : refines data (DeleteQueueConfig q) (DeleteQueueConfig q).
Proof. unfold DeleteQueueConfig. solve_refines. Qed.

Lemma pg_ListQueueConfigs : refines data ListQueueConfigs ListQueueConfigs.
Proof. unfold ListQueueConfigs. solve_refines. Qed.
End refinement.

#[export] Hint Resolve pg_RecordJobCreated pg_RecordJobCompleted pg_RecordJobFailed
  pg_RecordJobRetried pg_GetQueueStats pg_GetQueueStatsAll pg_GetJobTypeStats pg_SaveQueueConfig
  pg_GetQueueConfig pg_DeleteQueueConfig pg_ListQueueConfigs : refinement.
