(* ===== verification/PostgresInv.v ===== *)
(** * The PostgreSQL backend: the invariant of its tables

    Every entry of a queue has its job, and every document in a column can be
    read back into the field it came from, after any calls of the backend. *)

From S2P Require Import Prelude Errors GoMonad Job Json JobJson Postgres.
From S2P Require PostgresStore PostgresQueue PostgresWorker PostgresMetrics.
Import PostgresStore PostgresQueue PostgresWorker PostgresMetrics.

(** ** The invariant *)

Definition job_row_ok (r : JobRow) : Prop :=
  is_Some (parse (jr_payload r)) ∧ is_Some (read_map (default "" (jr_metadata r))) ∧
  (∀ t, jr_result r = Some t → is_Some (parse t)).

Definition worker_row_ok (r : WorkerRow) : Prop :=
  is_Some (read_strings (wr_queues r)) ∧ is_Some (read_map (default "" (wr_tags r))) ∧
  is_Some (read_map (default "" (wr_metadata r))).

Definition config_row_ok (r : ConfigRow) : Prop := is_Some (read_map (default "" (cr_metadata r))).

Record tables_ok `{PgValues} (d : DB) : Prop := {
  ok_jobs id r : jobs d !! id = Some r → text_ok id = true ∧ jr_id r = id ∧ job_row_ok r;
  ok_entries q id r : queues d !! (q, id) = Some r → is_Some (jobs d !! id);
  ok_workers id r : workers d !! id = Some r → wr_id r = id ∧ worker_row_ok r;
  ok_configs q r : queue_configs d !! q = Some r → cr_name r = q ∧ config_row_ok r;
}.

(** ** Statements *)

Create HintDb pg.

Section statements.
Context `{PgValuesLaws}.

(** [m] keeps the invariant, and [P] holds of its result. *)
Definition keeps {A} (m : M DB A) (P : A → Prop) : Prop := ∀ d, tables_ok d →
  tables_ok (m d).2 ∧ ∀ a, (m d).1 = Ok a → P a.

Lemma keeps_bind {A B} (m : M DB A) (k : A → M DB B) P Q :
  keeps m P → (∀ a, P a → keeps (k a) Q) → keeps (m ≫= k) Q.
Proof.
  intros Hm Hk d Hd. destruct (Hm d Hd) as [Hd' Ha]. unfold mbind, M_bind.
  destruct (m d) as [[a|e|p] d']; simpl in *; [|done..]. by apply Hk; [apply Ha|].
Qed.

Lemma keeps_any {A} (m : M DB A) P : keeps m P → keeps m (λ _, True).
Proof. intros Hm d Hd. by destruct (Hm d Hd). Qed.

Lemma keeps_ret {A} (a : A) (P : A → Prop) : P a → keeps (mret a) P.
Proof. intros Ha d Hd. split; [done|]. by intros ? [= <-]. Qed.

Lemma keeps_throw {A} e (P : A → Prop) : keeps (throw e) P.
Proof. by intros d Hd. Qed.

Lemma keeps_get {B} (k : DB → M DB B) Q :
  (∀ d, tables_ok d → tables_ok (k d d).2 ∧ ∀ a, (k d d).1 = Ok a → Q a) → keeps (get ≫= k) Q.
Proof. intros Hk d Hd. by apply Hk. Qed.

Lemma keeps_deduced uses : keeps (deduced uses) (λ _, True).
Proof. unfold deduced. case_bool_decide; [by apply keeps_ret|apply keeps_throw]. Qed.

Lemma keeps_texts l : keeps (texts l) (λ _, Forall (λ s, text_ok s = true) l).
Proof.
  unfold texts. destruct (forallb text_ok l) eqn:E; [|apply keeps_throw]. apply keeps_ret.
  rewrite Forall_forall. intros x Hx. eapply forallb_forall; [exact E|by apply list_elem_of_In].
Qed.

Lemma keeps_integers l : keeps (integers l) (λ _, forallb int4 l = true).
Proof. unfold integers. destruct (forallb int4 l) eqn:E; [|apply keeps_throw]. by apply keeps_ret. Qed.

Lemma keeps_json_value s : keeps (json_value s) (λ t, jsonb s = Some t).
Proof. unfold json_value. destruct (jsonb s); [by apply keeps_ret|apply keeps_throw]. Qed.

Lemma keeps_varchar n s : keeps (varchar n s) (λ t, as_varchar n s = Some t).
Proof. unfold varchar. destruct (as_varchar n s); [by apply keeps_ret|apply keeps_throw]. Qed.

Lemma keeps_not_null {A} (x : option A) : keeps (not_null x) (λ a, x = Some a).
Proof. destruct x; [by apply keeps_ret|apply keeps_throw]. Qed.

Lemma keeps_int8 z : keeps (int8 z) (λ _, True).
Proof. unfold int8. case_match; [by apply keeps_ret|apply keeps_throw]. Qed.

Lemma keeps_json_bytes s : keeps (json_bytes s) (λ t, ∀ x, t = Some x → is_Some (parse x)).
Proof.
  unfold json_bytes. case_match; [|by apply keeps_ret].
  eapply keeps_bind; [apply keeps_json_value|]. intros t Ht. apply keeps_ret. intros x [= <-].
  by apply jsonb_document in Ht as [_ ?].
Qed.

#[local] Hint Resolve keeps_deduced keeps_texts keeps_integers keeps_json_value keeps_varchar keeps_not_null
  keeps_int8 keeps_json_bytes keeps_throw : pg.

Ltac step := eapply keeps_bind; [eauto with pg|intros ??; cbv beta in *].

(** Documents that the columns keep. *)
Lemma jsonb_parses s t : jsonb s = Some t → is_Some (parse t).
Proof. intros Hs. by apply jsonb_document in Hs as [_ ?]. Qed.

Lemma jsonb_map_reads m t : jsonb (marshal_map m) = Some t → is_Some (read_map t).
Proof. intros Hs. apply jsonb_map in Hs as ->. by eexists. Qed.

Lemma jsonb_strings_reads l t : jsonb (marshal_strings l) = Some t → is_Some (read_strings t).
Proof. intros Hs. apply jsonb_strings in Hs as ->. by eexists. Qed.

#[local] Hint Resolve jsonb_parses jsonb_map_reads jsonb_strings_reads : pg.

(** What a row becomes. *)
Lemma tables_ok_set_job d id r : tables_ok d → text_ok id = true → jr_id r = id → job_row_ok r →
  tables_ok (set_jobs (<[id := r]> (jobs d)) d).
Proof.
  intros [Hj He Hw Hc] Ht Hid Hr. split; simpl; [|intros q id' r' Hq|done|done].
  - intros id' r'. rewrite lookup_insert_Some. intros [[<- <-]|[_ ?]]; [done|by apply Hj].
  - rewrite lookup_insert_is_Some. destruct (decide (id = id')); [by left|right]. eauto.
Qed.

Lemma tables_ok_set_worker d id r : tables_ok d → wr_id r = id → worker_row_ok r →
  tables_ok (set_workers (<[id := r]> (workers d)) d).
Proof.
  intros [Hj He Hw Hc] Hid Hr. split; simpl; [done|done| |done].
  intros id' r'. rewrite lookup_insert_Some. intros [[<- <-]|[_ ?]]; [done|by apply Hw].
Qed.

Lemma tables_ok_set_config d q r : tables_ok d → cr_name r = q → config_row_ok r →
  tables_ok (set_queue_configs (<[q := r]> (queue_configs d)) d).
Proof.
  intros [Hj He Hw Hc] Hid Hr. split; simpl; [done..|].
  intros q' r'. rewrite lookup_insert_Some. intros [[<- <-]|[_ ?]]; [done|by apply Hc].
Qed.

Lemma tables_ok_incl d d' : tables_ok d → jobs d' = jobs d → queues d' ⊆ queues d →
  workers d' ⊆ workers d → queue_configs d' ⊆ queue_configs d → tables_ok d'.
Proof.
  intros [Hj He Hw Hc] Ej Eq Ew Ec. split; [by rewrite Ej| | |].
  - intros q id r Hq. rewrite Ej. eapply He, lookup_weaken; eauto.
  - intros id r Hr. eapply Hw, lookup_weaken; eauto.
  - intros q r Hr. eapply Hc, lookup_weaken; eauto.
Qed.

(** *** Jobs *)

Lemma keeps_INSERT_job j p m : keeps (INSERT_job j p (marshal_map m)) (λ _, True).
Proof.
  unfold INSERT_job. do 9 step.
  apply keeps_get. intros d Hd. case_bool_decide; [done|]. simpl. split; [|done].
  apply tables_ok_set_job; [done| |done|].
  - eapply varchar_text; [eassumption|].
    match goal with Hl : Forall _ _ |- _ => exact (Forall_inv Hl) end.
  - split_and!; simpl; eauto with pg. done.
Qed.

(** A row is computed without touching the tables. *)
Definition row_keeps {A} (m : M DB A) (P : A → Prop) : Prop :=
  ∀ d, (m d).2 = d ∧ ∀ a, (m d).1 = Ok a → P a.

Lemma row_keeps_ret {A} (a : A) (P : A → Prop) : P a → row_keeps (mret a) P.
Proof. intros Ha d. split; [done|]. by intros ? [= <-]. Qed.

Lemma row_keeps_bind {A B} (m : M DB A) (k : A → M DB B) P Q :
  row_keeps m P → (∀ a, P a → row_keeps (k a) Q) → row_keeps (m ≫= k) Q.
Proof.
  intros Hm Hk d. destruct (Hm d) as [Hd Ha]. unfold mbind, M_bind.
  destruct (m d) as [[a|e|p] d']; simpl in *; subst; [|done..]. by apply Hk, Ha.
Qed.

Lemma row_keeps_not_null {A} (x : option A) : row_keeps (not_null x) (λ _, True).
Proof. intros d. by destruct x. Qed.

Lemma row_keeps_int8 z : row_keeps (int8 z) (λ _, True).
Proof. intros d. unfold int8. by case_match. Qed.

Lemma keeps_UPDATE_job_row id f :
  (∀ r, job_row_ok r → row_keeps (f r) (λ r', jr_id r' = jr_id r ∧ job_row_ok r')) →
  keeps (UPDATE_job_row id f) (λ _, True).
Proof.
  intros Hf. apply keeps_get. intros d Hd. destruct (jobs d !! id) as [r|] eqn:Hr; [|done].
  destruct (ok_jobs _ Hd _ _ Hr) as (Ht & Hid & Hok). destruct (Hf r Hok d) as [Hd' Hr'].
  unfold mbind, M_bind. destruct (f r d) as [[r'|e|p] d'] eqn:E; simpl in *; subst; [|done..].
  split; [|done]. destruct (Hr' r' eq_refl). by apply tables_ok_set_job; [| |congruence|].
Qed.

Lemma keeps_UPDATE_worker_row id f :
  (∀ r, worker_row_ok r → row_keeps (f r) (λ r', wr_id r' = wr_id r ∧ worker_row_ok r')) →
  keeps (UPDATE_worker_row id f) (λ _, True).
Proof.
  intros Hf. apply keeps_get. intros d Hd. destruct (workers d !! id) as [r|] eqn:Hr; [|done].
  destruct (ok_workers _ Hd _ _ Hr) as (Hid & Hok). destruct (Hf r Hok d) as [Hd' Hr'].
  unfold mbind, M_bind. destruct (f r d) as [[r'|e|p] d'] eqn:E; simpl in *; subst; [|done..].
  split; [|done]. destruct (Hr' r' eq_refl). by apply tables_ok_set_worker; [|congruence|].
Qed.

Lemma keeps_UPDATE_job j p res m : keeps (UPDATE_job j p res (marshal_map m)) (λ _, True).
Proof.
  unfold UPDATE_job. do 8 step. apply keeps_UPDATE_job_row. intros r _.
  eapply row_keeps_bind; [apply row_keeps_not_null|]. intros t _. apply row_keeps_ret.
  split; [done|]. split_and!; simpl; eauto with pg.
Qed.

Lemma keeps_DELETE_job id : keeps (DELETE_job id) (λ _, True).
Proof.
  unfold DELETE_job. step. apply keeps_get. intros d Hd. destruct (jobs d !! id) as [r|]; [|done].
  split; [|done]. destruct Hd as [Hj He Hw Hc]. split; simpl; [| |done|done].
  - intros id' r' [_ Hr]%lookup_delete_Some. by apply Hj.
  - intros q id' r' [Hr Hne]%map_lookup_filter_Some. simpl in Hne.
    rewrite lookup_delete_ne by done. by eapply He.
Qed.

(** An update of other columns keeps the documents. *)
Lemma job_row_ok_with r r' : job_row_ok r → jr_payload r' = jr_payload r → jr_metadata r' = jr_metadata r →
  (∀ t, jr_result r' = Some t → jr_result r = Some t ∨ is_Some (parse t)) → job_row_ok r'.
Proof.
  intros (Hp & Hm & Hr) Ep Em Er. split_and!; [by rewrite Ep|by rewrite Em|].
  intros t [?|?]%Er; [by apply Hr|done].
Qed.

Lemma keeps_UPDATE_status id st now : keeps (UPDATE_status id st now) (λ _, True).
Proof.
  unfold UPDATE_status. do 3 step. apply keeps_UPDATE_job_row. intros r Hr. apply row_keeps_ret.
  split; [done|]. eapply job_row_ok_with; eauto.
Qed.

Lemma keeps_UPDATE_progress id p now : keeps (UPDATE_progress id p now) (λ _, True).
Proof.
  unfold UPDATE_progress. do 2 step. apply keeps_UPDATE_job_row. intros r Hr. apply row_keeps_ret.
  split; [done|]. eapply job_row_ok_with; eauto.
Qed.

Lemma keeps_UPDATE_result id x now : keeps (UPDATE_result id x now) (λ _, True).
Proof.
  unfold UPDATE_result. do 2 step. apply keeps_UPDATE_job_row. intros r Hr. apply row_keeps_ret.
  split; [done|]. eapply job_row_ok_with; simpl; eauto.
Qed.

Lemma keeps_UPDATE_error id e now : keeps (UPDATE_error id e now) (λ _, True).
Proof.
  unfold UPDATE_error. step. apply keeps_UPDATE_job_row. intros r Hr. apply row_keeps_ret.
  split; [done|]. eapply job_row_ok_with; eauto.
Qed.

(** *** Queues *)

Lemma keeps_INSERT_entry q id p t : keeps (INSERT_entry q id p t) (λ _, True).
Proof.
  unfold INSERT_entry. do 4 step. apply keeps_get. intros d Hd. case_match eqn:E; [done|].
  split; [|done]. destruct Hd as [Hj He Hw Hc]. split; simpl; [done| |done|done].
  intros q' id' r'. rewrite lookup_insert_Some. intros [[[= <- <-] <-]|[_ ?]]; [|by eapply He].
  apply andb_false_iff in E as [E%bool_decide_eq_false|E%bool_decide_eq_false].
  - destruct (queues d !! _) eqn:Eq; [by eapply He|done].
  - by apply not_eq_None_Some.
Qed.

Lemma keeps_DELETE_entry q id : keeps (DELETE_entry q id) (λ _, True).
Proof.
  unfold DELETE_entry. step. apply keeps_get. intros d Hd. split; [|done].
  eapply tables_ok_incl; [done|done|apply delete_subseteq|done..].
Qed.

Lemma keeps_modify (f : DB → DB) : (∀ d, tables_ok d → tables_ok (f d)) → keeps (modify f) (λ _, True).
Proof. intros Hf d Hd. split; [by apply Hf|done]. Qed.

Lemma keeps_INSERT_paused q : keeps (INSERT_paused q) (λ _, True).
Proof.
  unfold INSERT_paused. do 2 step. apply keeps_modify. intros d Hd. by eapply tables_ok_incl.
Qed.

Lemma keeps_DELETE_paused q : keeps (DELETE_paused q) (λ _, True).
Proof. unfold DELETE_paused. step. apply keeps_modify. intros d Hd. by eapply tables_ok_incl. Qed.

(** *** Workers, metrics and configurations *)

Lemma keeps_INSERT_worker w m :
  keeps (INSERT_worker w (marshal_strings (w_Queues w)) (marshal_map (w_Tags w)) (marshal_map m)) (λ _, True).
Proof.
  unfold INSERT_worker. do 9 step. apply keeps_get. intros d Hd. split; [|done]. simpl.
  apply tables_ok_set_worker; [done|by case_match|].
  destruct (workers d !! _) as [r|] eqn:Hr; split_and!; simpl; eauto with pg.
  by destruct (ok_workers _ Hd _ _ Hr) as (_ & _ & _ & ?).
Qed.

Lemma keeps_DELETE_worker id : keeps (DELETE_worker id) (λ _, True).
Proof.
  unfold DELETE_worker. step. apply keeps_get. intros d Hd. split; [|done].
  eapply tables_ok_incl; [done|done|done|apply delete_subseteq|done].
Qed.

Ltac worker_update := apply keeps_UPDATE_worker_row; intros r Hr;
  first [apply row_keeps_ret|eapply row_keeps_bind; [apply row_keeps_int8|intros ? _; apply row_keeps_ret]];
  done.

Lemma keeps_UPDATE_heartbeat id now : keeps (UPDATE_heartbeat id now) (λ _, True).
Proof. unfold UPDATE_heartbeat. step. worker_update. Qed.

Lemma keeps_UPDATE_worker_status id st : keeps (UPDATE_worker_status id st) (λ _, True).
Proof. unfold UPDATE_worker_status. do 2 step. worker_update. Qed.

Lemma keeps_UPDATE_current_job id j : keeps (UPDATE_current_job id j) (λ _, True).
Proof.
  unfold UPDATE_current_job. step. destruct j as [j|].
  - eapply keeps_bind; [step; by apply (keeps_ret _ (λ _, True))|intros ??; worker_update].
  - eapply keeps_bind; [by apply (keeps_ret _ (λ _, True))|intros ??; worker_update].
Qed.

Lemma keeps_UPDATE_processed id : keeps (UPDATE_processed id) (λ _, True).
Proof. unfold UPDATE_processed. step. worker_update. Qed.

Lemma keeps_UPDATE_failed id : keeps (UPDATE_failed id) (λ _, True).
Proof. unfold UPDATE_failed. step. worker_update. Qed.

Lemma keeps_INSERT_event q t e n : keeps (INSERT_event q t e n) (λ _, True).
Proof.
  unfold INSERT_event. do 3 step. apply keeps_modify. intros d Hd. by eapply tables_ok_incl.
Qed.

Lemma keeps_INSERT_config c m now : keeps (INSERT_config c (marshal_map m) now) (λ _, True).
Proof.
  unfold INSERT_config. do 6 step. apply keeps_get. intros d Hd. split; [|done].
  apply tables_ok_set_config; [done|done|]. unfold config_row_ok. simpl. eauto with pg.
Qed.

Lemma keeps_DELETE_config q : keeps (DELETE_config q) (λ _, True).
Proof.
  unfold DELETE_config. step. apply keeps_get. intros d Hd. split; [|done].
  eapply tables_ok_incl; [done|done|done|done|apply delete_subseteq].
Qed.
End statements.

(** ** Calls *)

(** The methods that write. *)
Inductive call : Type :=
  | CCreateJob (j : Job) | CUpdateJob (j : Job) | CDeleteJob (id : string)
  | CUpdateStatus (clk : Clock) (id status : string) | CUpdateProgress (clk : Clock) (id : string) (p : Z)
  | CSetResult (clk : Clock) (id result : string) | CSetError (clk : Clock) (id msg : string)
  | CEnqueue (clk : Clock) (q id : string) (p : Z) (delay : Duration) | CDequeue (clk : Clock) (q : string)
  | CRequeue (clk : Clock) (q id : string) (p : Z) (delay : Duration) | CRemove (q id : string)
  | CPauseQueue (q : string) | CResumeQueue (q : string)
  | CRegisterWorker (w : Worker) (metadata : gmap string string) | CUnregisterWorker (id : string)
  | CUpdateHeartbeat (clk : Clock) (id : string) | CUpdateWorkerStatus (id status : string)
  | CSetCurrentJob (id job : string) | CIncrementProcessed (id : string) | CIncrementFailed (id : string)
  | CRecordJobCreated (q t : string) | CRecordJobCompleted (q t : string) (d : Duration)
  | CRecordJobFailed (q t : string) | CRecordJobRetried (q t : string)
  | CSaveQueueConfig (clk : Clock) (c : QueueConfig) (metadata : gmap string string)
  | CDeleteQueueConfig (q : string).

Section calls.
Context `{Postgres R} `{PgValues}.

Definition run (c : call) : M R unit :=
  match c with
  | CCreateJob j => CreateJob j
  | CUpdateJob j => UpdateJob j
  | CDeleteJob id => DeleteJob id
  | CUpdateStatus clk id status => UpdateStatus clk id status
  | CUpdateProgress clk id p => UpdateProgress clk id p
  | CSetResult clk id result => SetResult clk id result
  | CSetError clk id msg => SetError clk id msg
  | CEnqueue clk q id p delay => Enqueue clk q id p delay
  | CDequeue clk q => Dequeue clk q ;; mret tt
  | CRequeue clk q id p delay => Requeue clk q id p delay
  | CRemove q id => Remove q id
  | CPauseQueue q => PauseQueue q
  | CResumeQueue q => ResumeQueue q
  | CRegisterWorker w metadata => RegisterWorker w metadata
  | CUnregisterWorker id => UnregisterWorker id
  | CUpdateHeartbeat clk id => UpdateHeartbeat clk id
  | CUpdateWorkerStatus id status => UpdateWorkerStatus id status
  | CSetCurrentJob id job => SetCurrentJob id job
  | CIncrementProcessed id => IncrementProcessed id
  | CIncrementFailed id => IncrementFailed id
  | CRecordJobCreated q t => RecordJobCreated q t
  | CRecordJobCompleted q t d => RecordJobCompleted q t d
  | CRecordJobFailed q t => RecordJobFailed q t
  | CRecordJobRetried q t => RecordJobRetried q t
  | CSaveQueueConfig clk c metadata => SaveQueueConfig clk c metadata
  | CDeleteQueueConfig q => DeleteQueueConfig q
  end.

(** The calls in order; a call that fails does not stop the next one. *)
Definition run_all (cs : list call) (s : R) : R := foldl (λ s c, (run c s).2) s cs.
End calls.

Section reachable.
Context `{PgValuesLaws}.

(** A method on the tables keeps the invariant. *)
#[local] Instance kept_preorder : PreOrder (λ d d' : DB, tables_ok d → tables_ok d').
Proof. split; [by intros d|]. intros d1 d2 d3. auto. Qed.

Definition kept {A} : M DB A → Prop := preserves (λ d d', tables_ok d → tables_ok d').

Lemma kept_atomically {A} (m : M DB A) : kept m → kept (atomically m).
Proof. intros Hm d Hd. specialize (Hm d Hd). unfold atomically. by destruct (m d) as [[]]. Qed.

Lemma kept_Query {A} (m : M DB A) P : keeps m P → kept (Query m).
Proof. intros Hm. apply kept_atomically. intros d Hd. by apply Hm. Qed.

Lemma kept_same {A} (m : M DB A) : (∀ d, (m d).2 = d) → kept m.
Proof. intros Hm d Hd. by rewrite Hm. Qed.

Lemma kept_bind {A B} (m : M DB A) (k : A → M DB B) : kept m → (∀ a, kept (k a)) → kept (m ≫= k).
Proof. apply preserves_bind, kept_preorder. Qed.

Lemma kept_attempt {A} (m : M DB A) : kept m → kept (attempt m).
Proof. apply preserves_attempt. Qed.

Lemma kept_wrap_err {A} msg (m : M DB A) : kept m → kept (wrap_err msg m).
Proof. apply preserves_wrap_err. Qed.

#[local] Hint Resolve keeps_INSERT_job keeps_UPDATE_job keeps_DELETE_job keeps_UPDATE_status
  keeps_UPDATE_progress keeps_UPDATE_result keeps_UPDATE_error keeps_INSERT_entry keeps_DELETE_entry
  keeps_INSERT_paused keeps_DELETE_paused keeps_INSERT_worker keeps_DELETE_worker keeps_UPDATE_heartbeat
  keeps_UPDATE_worker_status keeps_UPDATE_current_job keeps_UPDATE_processed keeps_UPDATE_failed
  keeps_INSERT_event keeps_INSERT_config keeps_DELETE_config : pg.

Ltac solve_kept :=
  repeat first
    [ apply kept_bind; [|intros ?]
    | apply kept_wrap_err
    | apply kept_attempt
    | eapply kept_Query; solve [eauto with pg]
    | apply kept_same; intros ?; reflexivity
    | apply kept_atomically
    | case_match ].

Lemma kept_texts l : kept (texts l).
Proof. apply kept_same. intros d. unfold texts. by destruct (forallb _ _). Qed.

Lemma kept_SELECT_paused q : kept (SELECT_paused q).
Proof. apply kept_same. intros d. unfold SELECT_paused, texts. by destruct (forallb _ _). Qed.

Lemma kept_SELECT_next q now : kept (SELECT_next q now).
Proof. apply kept_same. intros d. unfold SELECT_next, texts. by destruct (forallb _ _). Qed.
#[local] Hint Resolve kept_texts kept_SELECT_paused kept_SELECT_next : pg.

Lemma kept_run c : kept (run c).
Proof.
  destruct c; simpl;
    unfold CreateJob, UpdateJob, DeleteJob, UpdateStatus, UpdateProgress, SetResult, SetError, Enqueue,
      Requeue, Enqueue, Dequeue, IsQueuePaused, claim, Remove, PauseQueue, ResumeQueue, RegisterWorker,
      UnregisterWorker, UpdateHeartbeat, UpdateWorkerStatus, SetCurrentJob, IncrementProcessed,
      IncrementFailed, RecordJobCreated, RecordJobCompleted, RecordJobFailed, RecordJobRetried,
      SaveQueueConfig, DeleteQueueConfig, affected, marshal_raw; solve_kept.
  all: try (by eauto with pg).
Qed.

Lemma kept_run_all cs d : tables_ok d → tables_ok (run_all cs d).
Proof. revert d. induction cs as [|c cs IH]; intros d Hd; [done|]. simpl. by apply IH, kept_run. Qed.

Lemma tables_ok_empty : tables_ok empty_db.
Proof. split; intros *; unfold empty_db; simpl; by rewrite lookup_empty. Qed.

(** *** Reading *)

Lemma read_raw_parses t : is_Some (parse t) → read_raw t = Some t.
Proof. unfold read_raw. by intros [v ->]. Qed.

Lemma scan_job_reads r (d : DB) : job_row_ok r → ∃ j, scan_job r d = (Ok j, d) ∧ j_ID j = jr_id r.
Proof.
  intros (Hp & [m Hm] & Hr). unfold scan_job, unmarshal_with, mbind, M_bind.
  rewrite (read_raw_parses _ Hp), Hm. destruct (jr_result r) as [t|]; [|by eexists].
  rewrite (read_raw_parses t) by auto. by eexists.
Qed.

Lemma scan_jobs_reads rows (d : DB) : Forall job_row_ok rows → ∃ l, scan_jobs rows d = (Ok l, d).
Proof.
  induction 1 as [|r rows Hr _ [l IH]]; [by eexists|]. destruct (scan_job_reads r d Hr) as (j & Hj & _).
  exists (j :: l). simpl. by rewrite (bind_Ok _ _ _ _ _ Hj), (bind_Ok _ _ _ _ _ IH).
Qed.

Lemma scan_worker_reads r (d : DB) : worker_row_ok r → ∃ w, scan_worker r d = (Ok w, d).
Proof.
  intros ([q Hq] & [t Ht] & [m Hm]). unfold scan_worker, unmarshal_with, mbind, M_bind.
  rewrite Hq, Ht, Hm. by eexists.
Qed.

Lemma scan_workers_reads rows (d : DB) : Forall worker_row_ok rows → ∃ l, scan_workers rows d = (Ok l, d).
Proof.
  induction 1 as [|r rows Hr _ [l IH]]; [by eexists|]. destruct (scan_worker_reads r d Hr) as (w & Hw).
  exists (w :: l). simpl. by rewrite (bind_Ok _ _ _ _ _ Hw), (bind_Ok _ _ _ _ _ IH).
Qed.

Lemma scan_configs_reads rows (d : DB) : Forall config_row_ok rows → ∃ l, scan_configs rows d = (Ok l, d).
Proof.
  induction 1 as [|r rows [m Hr] _ [l IH]]; [by eexists|]. simpl. unfold scan_config, unmarshal_with.
  rewrite Hr. eexists. unfold mbind, M_bind. simpl. by rewrite IH.
Qed.

Lemma Forall_heap {A} (P : A → Prop) (l : list A) : Forall P l → Forall P (heap l).
Proof. by rewrite (heap_perm l). Qed.

Lemma Forall_ORDER_BY {A} (P : A → Prop) b (l : list A) : Forall P l → Forall P (ORDER_BY b l).
Proof. unfold ORDER_BY. by rewrite sort_slice_Permutation. Qed.

Lemma Forall_values {K} `{Countable K} {A} (P : A → Prop) (m : gmap K A) :
  (∀ k x, m !! k = Some x → P x) → Forall P (map_to_list m).*2.
Proof.
  intros HP. rewrite Forall_fmap, Forall_forall. intros [k x] Hx%elem_of_map_to_list. by eapply HP.
Qed.

Lemma texts_ok l (d : DB) : Forall (λ s, text_ok s = true) l → texts l d = (Ok tt, d).
Proof.
  intros Hl. unfold texts. rewrite (proj2 (forallb_forall _ _)); [done|].
  intros x Hx. rewrite Forall_forall in Hl. by apply Hl, list_elem_of_In.
Qed.

(** What the reading methods return on tables that satisfy the invariant. *)
Lemma GetJob_reads id r d : tables_ok d → jobs d !! id = Some r →
  ∃ j, GetJob id d = (Ok j, d) ∧ j_ID j = id.
Proof.
  intros Hd Hr. destruct (ok_jobs _ Hd _ _ Hr) as (Ht & <- & Hok).
  destruct (scan_job_reads r d Hok) as (j & Hj & Hid). exists j. split; [|done].
  unfold GetJob, wrap_err, Query, tables, atomically, SELECT_job, mbind, M_bind.
  rewrite texts_ok by (by repeat constructor). simpl. by rewrite Hr.
Qed.

Lemma ListJobs_reads q st limit offset d : tables_ok d → text_ok q = true → text_ok st = true →
  0 ≤ limit → 0 ≤ offset → ∃ l, ListJobs q st limit offset d = (Ok l, d).
Proof.
  intros Hd Hq Hst Hl Ho.
  assert (Hs : ∃ rows, Query (SELECT_jobs q st limit offset) d = (Ok rows, d) ∧ Forall job_row_ok rows).
  { unfold Query, tables, atomically, SELECT_jobs, LIMIT, OFFSET, mbind, M_bind.
    rewrite texts_ok by (by repeat constructor). simpl.
    rewrite (proj2 (Z.ltb_ge _ _) Ho), (proj2 (Z.ltb_ge _ _) Hl). eexists. split; [done|].
    apply Forall_take, Forall_drop, Forall_ORDER_BY, Forall_forall.
    intros x [_ Hx]%list_elem_of_filter. revert x Hx. apply Forall_forall, Forall_heap, Forall_values.
    intros k x Hx. by apply (ok_jobs _ Hd) in Hx as (_ & _ & ?). }
  destruct Hs as (rows & Hs & Hok). destruct (scan_jobs_reads rows d Hok) as [l Hr]. exists l.
  unfold ListJobs. by rewrite (bind_Ok _ _ _ _ _ (wrap_err_Ok _ _ _ _ _ Hs)), (bind_Ok _ _ _ _ _ Hr).
Qed.

Lemma ListWorkers_reads d : tables_ok d → ∃ l, ListWorkers "" d = (Ok l, d).
Proof.
  intros Hd. destruct (scan_workers_reads (ORDER_BY started_later (heap (map_to_list (workers d)).*2)) d)
    as [l Hl].
  - apply Forall_ORDER_BY, Forall_heap, Forall_values. intros k x Hx. by apply (ok_workers _ Hd) in Hx as [_ ?].
  - exists l. unfold ListWorkers. rewrite bool_decide_true by done.
    erewrite bind_Ok by (apply wrap_err_Ok; reflexivity). by rewrite (bind_Ok _ _ _ _ _ Hl).
Qed.

Lemma ListQueueConfigs_reads d : tables_ok d → ∃ l, ListQueueConfigs d = (Ok l, d).
Proof.
  intros Hd. destruct (scan_configs_reads (ORDER_BY (λ x y, collation (cr_name x) (cr_name y))
    (heap (map_to_list (queue_configs d)).*2)) d) as [l Hl].
  - apply Forall_ORDER_BY, Forall_heap, Forall_values. intros k x Hx. by apply (ok_configs _ Hd) in Hx as [_ ?].
  - exists l. unfold ListQueueConfigs.
    erewrite bind_Ok by (apply wrap_err_Ok; reflexivity). by rewrite (bind_Ok _ _ _ _ _ Hl).
Qed.

Context `{PostgresLaws R}.

Lemma pg_run c : refines data (run c) (run c).
Proof. destruct c; simpl; auto with refinement. solve_refines. Qed.

Lemma run_all_data cs (s : R) : data (run_all cs s) = run_all cs (data s).
Proof.
  revert s. induction cs as [|c cs IH]; intros s; [done|].
  change (data (run_all cs (run c s).2) = run_all cs (run c (data s)).2).
  by rewrite IH, (pg_run c s).
Qed.

(** C29. After any calls of the backend, on tables that were empty, every entry of a
    queue has its job, so that a job which [Dequeue] delivers can be fetched,
    and every row can be read: no method that reads fails on a document. *)
Theorem postgres_tables_stay_readable cs (s : R) : data s = empty_db →
  let s' := run_all cs s in
  tables_ok (data s') ∧
  (∀ q id, is_Some (queues (data s') !! (q, id)) → ∃ j, (GetJob id s').1 = Ok j ∧ j_ID j = id) ∧
  (∀ q status limit offset, text_ok q = true → text_ok status = true → 0 ≤ limit → 0 ≤ offset →
    ∃ l, (ListJobs q status limit offset s').1 = Ok l) ∧
  (∃ l, (ListWorkers "" s').1 = Ok l) ∧ (∃ l, (ListQueueConfigs s').1 = Ok l).
Proof.
  intros Hs s'. assert (Hd : tables_ok (data s')).
  { unfold s'. rewrite run_all_data, Hs. apply kept_run_all, tables_ok_empty. }
  split; [done|]. split_and!.
  - intros q id [r Hr]. destruct (ok_entries _ Hd _ _ _ Hr) as [row Hrow].
    destruct (GetJob_reads id row _ Hd Hrow) as (j & Hj & Hid).
    exists j. split; [|done]. by destruct (refines_run _ _ _ _ _ _ (pg_GetJob id) Hj).
  - intros q st l o Hq Hst Hl Ho. destruct (ListJobs_reads q st l o _ Hd Hq Hst Hl Ho) as [js Hj].
    exists js. by destruct (refines_run _ _ _ _ _ _ (pg_ListJobs q st l o) Hj).
  - destruct (ListWorkers_reads _ Hd) as [l Hl]. exists l.
    by destruct (refines_run _ _ _ _ _ _ (pg_ListWorkers "") Hl).
  - destruct (ListQueueConfigs_reads _ Hd) as [l Hl]. exists l.
    by destruct (refines_run _ _ _ _ _ _ pg_ListQueueConfigs Hl).
Qed.
End reachable.

(** ** A witness, on the server that is its tables *)

#[local] Existing Instance plain_values.
#[local] Existing Instance plain_values_laws.

Definition demo_job : Job := mkJob "mail-1" "send_email" "[1]" 7 "PENDING" 3 0 2 30 300 (Some 5) 5 6 None
  None "" "" {[ "k" := "v" ]} "mail" 0 "".

Definition demo_calls : list call :=
  [CEnqueue (λ _, 9) "mail" "mail-1" 7 0; CCreateJob demo_job; CEnqueue (λ _, 9) "mail" "mail-1" 7 0;
   CSetResult (λ _, 9) "mail-1" "[2]"].

Lemma postgres_tables_stay_readable_witness :
  is_Some (queues (run_all demo_calls empty_db) !! ("mail", "mail-1")) ∧
  ∃ j, (GetJob "mail-1" (run_all demo_calls empty_db)).1 = Ok j ∧ j_ID j = "mail-1".
Proof.
  destruct (postgres_tables_stay_readable (R := DB) demo_calls empty_db) as (_ & Hj & _); [reflexivity|].
  assert (Hq : is_Some (queues (run_all demo_calls empty_db) !! ("mail", "mail-1"))) by (vm_compute; by eexists).
  split; [exact Hq|]. exact (Hj "mail" "mail-1" Hq).
Defined.
