(* ===== verification/PostgresJobs.v ===== *)
(** * The PostgreSQL backend: jobs

    The methods of [JobStore] against a map from identifiers to jobs, and what
    the backend makes of the statuses of the program. *)

From S2P Require Import Prelude Errors GoMonad Job Json JobJson Postgres PostgresStore PostgresInv.
From S2P Require Import PostgresMetrics.

(** ** The map *)

Section view.
Context `{PgValues}.

(** The job that a row reads as. *)
Definition job_of_row (r : JobRow) : option Job :=
  metadata ← read_map (default "" (jr_metadata r));
  Some {| j_ID := jr_id r; j_Type := jr_type r; j_Payload := jr_payload r; j_Priority := jr_priority r;
          j_Status := jr_status r; j_MaxRetries := jr_max_retries r; j_CurrentRetry := 0;
          j_RetryCount := jr_retry_count r; j_Timeout := 0; j_TimeoutSeconds := jr_timeout_seconds r;
          j_ScheduledAt := Some (jr_scheduled_at r); j_CreatedAt := jr_created_at r;
          j_UpdatedAt := jr_updated_at r; j_StartedAt := jr_started_at r;
          j_CompletedAt := jr_completed_at r; j_Error := default "" (jr_error r);
          j_Result := default "" (jr_result r); j_Metadata := metadata; j_Queue := jr_queue r;
          j_Progress := jr_progress r; j_WorkerID := "" |}.

Definition Jobs : Type := string → option Job.

Definition jobs_of (d : DB) : Jobs := λ id, r ← jobs d !! id; job_of_row r.

Definition put_job (id : string) (j : option Job) (v : Jobs) : Jobs := λ id',
  if bool_decide (id' = id) then j else v id'.

(** ** Jobs that the columns can hold *)

Definition fits_text (n : Z) (s : string) : bool := text_ok s && bool_decide (as_varchar n s = Some s).

Definition raw_doc (s : string) : option string := v ← to_raw s; jsonb (print v).

Definition fits (j : Job) : bool :=
  fits_text 255 (j_ID j) && fits_text 255 (j_Type j) && fits_text 255 (j_Queue j) &&
  fits_text 50 (j_Status j) &&
  forallb int4 [j_Priority j; j_RetryCount j; j_MaxRetries j; j_TimeoutSeconds j; j_Progress j] &&
  bool_decide (is_Some (raw_doc (j_Payload j))) &&
  bool_decide (is_Some (jsonb (marshal_map (j_Metadata j)))) &&
  bool_decide (is_Some (j_ScheduledAt j)).

(** A result that the column can hold: what it stores, [None] being [NULL]. *)
Definition result_doc (s : string) : option (option string) :=
  match (if bool_decide (s = "") then nil_bytes else Some s) with
  | Some s => Some <$> jsonb s
  | None => Some None
  end.

(** The same for [UpdateJob], which compacts the result. *)
Definition updated_doc (s : string) : option (option string) :=
  if bool_decide (s = "") then result_doc "" else v ← to_raw s; Some <$> jsonb (print v).

(** The job that is read back after [CreateJob j] or [UpdateJob j]: times are
    rounded, documents normalised, the fields without a column zero. *)
Definition stored_as (result error : string) (started_at completed_at : option Time) (created_at : Time)
    (j : Job) : Job :=
  {| j_ID := j_ID j; j_Type := j_Type j; j_Payload := default "" (raw_doc (j_Payload j));
     j_Priority := j_Priority j; j_Status := j_Status j; j_MaxRetries := j_MaxRetries j;
     j_CurrentRetry := 0; j_RetryCount := j_RetryCount j; j_Timeout := 0;
     j_TimeoutSeconds := j_TimeoutSeconds j; j_ScheduledAt := timestamp <$> j_ScheduledAt j;
     j_CreatedAt := created_at; j_UpdatedAt := timestamp (j_UpdatedAt j); j_StartedAt := started_at;
     j_CompletedAt := completed_at; j_Error := error; j_Result := result;
     j_Metadata := j_Metadata j; j_Queue := j_Queue j; j_Progress := j_Progress j; j_WorkerID := "" |}.

(** ** Calls and what they should do *)

Inductive job_call : Type :=
  | JCreate (j : Job) | JGet (id : string) | JUpdate (j : Job) | JDelete (id : string)
  | JStatus (now : Time) (id status : string) | JProgress (now : Time) (id : string) (p : Z)
  | JResult (now : Time) (id result : string) | JError (now : Time) (id msg : string).

Definition call_fits (c : job_call) : bool :=
  match c with
  | JCreate j => fits j
  | JUpdate j => fits j && text_ok (j_Error j) &&
      bool_decide (is_Some (updated_doc (j_Result j)))
  | JGet id | JDelete id => text_ok id
  | JStatus _ _ _ => true
  | JProgress _ id p => text_ok id && int4 p
  | JResult _ id result => text_ok id && bool_decide (is_Some (result_doc result))
  | JError _ id msg => text_ok id && text_ok msg
  end.

(** The job [id], changed, or the report that there is none. *)
Definition change (id : string) (f : Job → Job) (v : Jobs) : res (option Job) * Jobs :=
  match v id with
  | Some j => (Ok None, put_job id (Some (f j)) v)
  | None => (Err ErrJobNotFound, v)
  end.

Definition stamped (now : Time) (f : Job → Job) (j : Job) : Job := set_j_UpdatedAt (timestamp now) (f j).

Definition job_spec (c : job_call) (v : Jobs) : res (option Job) * Jobs :=
  match c with
  | JCreate j =>
      match v (j_ID j) with
      | Some _ => (Err ErrJobAlreadyExists, v)
      | None => (Ok None, put_job (j_ID j)
          (Some (stored_as "" "" None None (timestamp (j_CreatedAt j)) j)) v)
      end
  | JGet id =>
      (match v id with Some j => Ok (Some j) | None => Err ErrJobNotFound end, v)
  | JUpdate j =>
      change (j_ID j) (λ old, stored_as
        (default "" (default None (updated_doc (j_Result j)))) (j_Error j)
        (timestamp <$> j_StartedAt j) (timestamp <$> j_CompletedAt j) (j_CreatedAt old) j) v
  | JDelete id =>
      match v id with
      | Some _ => (Ok None, put_job id None v)
      | None => (Err ErrJobNotFound, v)
      end
  | JStatus _ _ _ => (Err (Wrapf "failed to update status" inconsistent_types), v)
  | JProgress now id p => change id (stamped now (set_j_Progress p)) v
  | JResult now id result =>
      change id (stamped now (set_j_Result (default "" (default None (result_doc result))))) v
  | JError now id msg => change id (stamped now (set_j_Error msg)) v
  end.
End view.

Definition job_call_run `{Postgres R} `{PgValues} (c : job_call) : M R (option Job) :=
  match c with
  | JCreate j => CreateJob j ;; mret None
  | JGet id => j ← GetJob id; mret (Some j)
  | JUpdate j => UpdateJob j ;; mret None
  | JDelete id => DeleteJob id ;; mret None
  | JStatus now id status => UpdateStatus (λ _, now) id status ;; mret None
  | JProgress now id p => UpdateProgress (λ _, now) id p ;; mret None
  | JResult now id result => SetResult (λ _, now) id result ;; mret None
  | JError now id msg => SetError (λ _, now) id msg ;; mret None
  end.

(** ** The methods on the tables *)

Section tables.
Context `{PgValuesLaws}.

Lemma bind_texts {B} l (k : unit → M DB B) d :
  Forall (λ s, text_ok s = true) l → (texts l ≫= k) d = k tt d.
Proof. intros Hl. by rewrite (bind_Ok _ _ _ _ _ (texts_ok l d Hl)). Qed.

Lemma bind_integers {B} l (k : unit → M DB B) d : forallb int4 l = true → (integers l ≫= k) d = k tt d.
Proof. intros Hl. unfold integers. by rewrite Hl. Qed.

Lemma bind_json_value {B} s t (k : string → M DB B) d : jsonb s = Some t → (json_value s ≫= k) d = k t d.
Proof. intros Hs. unfold json_value. by rewrite Hs. Qed.

Lemma bind_varchar {B} n s (k : string → M DB B) d : fits_text n s = true → (varchar n s ≫= k) d = k s d.
Proof. unfold fits_text, varchar. by intros [_ ->%bool_decide_eq_true]%andb_true_iff. Qed.

Lemma bind_get {B} (k : DB → M DB B) d : (get ≫= k) d = k d d.
Proof. done. Qed.

Lemma bind_json_bytes {B} s t (k : option string → M DB B) d :
  match (if s is Some s then Some s else nil_bytes) with
  | Some s => Some <$> jsonb s
  | None => Some None
  end = Some t → (json_bytes s ≫= k) d = k t d.
Proof.
  unfold json_bytes, json_value. destruct (if s is Some s then Some s else nil_bytes) as [x|].
  - destruct (jsonb x); [|done]. simpl. by intros [= <-].
  - by intros [= <-].
Qed.

Lemma fits_text_ok n s : fits_text n s = true → text_ok s = true.
Proof. by intros [? _]%andb_true_iff. Qed.

Lemma job_of_row_ok d id r : tables_ok d → jobs d !! id = Some r → is_Some (job_of_row r).
Proof.
  intros Hd Hr. destruct (ok_jobs _ Hd _ _ Hr) as (_ & _ & _ & [m Hm] & _).
  unfold job_of_row. rewrite Hm. by eexists.
Qed.

Lemma pg_jobs_of_None d id : tables_ok d → jobs_of d id = None ↔ jobs d !! id = None.
Proof.
  intros Hd. unfold jobs_of. destruct (jobs d !! id) as [r|] eqn:Hr; [|done].
  destruct (job_of_row_ok _ _ _ Hd Hr) as [j Hj]. simpl. rewrite Hj. done.
Qed.

Lemma pg_jobs_of_insert d id r id' :
  jobs_of (set_jobs (<[id := r]> (jobs d)) d) id' = put_job id (job_of_row r) (jobs_of d) id'.
Proof.
  unfold jobs_of, put_job. simpl. case_bool_decide; [subst; by rewrite lookup_insert_eq|].
  by rewrite lookup_insert_ne.
Qed.

(** The call does on the tables what the specification does on the map. *)
Definition implements (c : job_call) (d : DB) : Prop := ∃ d',
  job_call_run c d = ((job_spec c (jobs_of d)).1, d') ∧
  ∀ id, jobs_of d' id = (job_spec c (jobs_of d)).2 id.

(** A statement that changes one row. *)
Lemma implements_change id f g msg (m : M DB Z) d : tables_ok d → m d = UPDATE_job_row id f d →
  (∀ r j, jobs d !! id = Some r → job_of_row r = Some j →
    ∃ r', f r d = (Ok r', d) ∧ job_of_row r' = Some (g j)) →
  ∃ d', (affected ErrJobNotFound msg (Query m) ;; mret None : M DB (option Job)) d =
      ((change id g (jobs_of d)).1, d') ∧ ∀ id', jobs_of d' id' = (change id g (jobs_of d)).2 id'.
Proof.
  intros Hd Hm Hf. unfold affected, wrap_err, Query, tables, atomically, change, mbind, M_bind.
  rewrite Hm. unfold UPDATE_job_row, mbind, M_bind. simpl.
  destruct (jobs d !! id) as [r|] eqn:Hr.
  - destruct (job_of_row_ok _ _ _ Hd Hr) as [j Hj]. destruct (Hf r j eq_refl Hj) as (r' & -> & Hj').
    assert (E : jobs_of d id = Some j) by (unfold jobs_of; by rewrite Hr).
    rewrite E. eexists. split; [done|]. intros id'. by rewrite pg_jobs_of_insert, Hj'.
  - rewrite (proj2 (pg_jobs_of_None d id Hd) Hr). by eexists.
Qed.

Ltac fit := repeat match goal with
  | H : _ && _ = true |- _ => apply andb_true_iff in H as [? H]
  | H : bool_decide _ = true |- _ => apply bool_decide_eq_true in H
  | H : is_Some _ |- _ => destruct H as [? H]
  end.

Ltac all_texts := repeat constructor; eauto using fits_text_ok.

(** The row of a new job. *)
Definition new_row (j : Job) (payload metadata : string) (scheduled_at : Time) : JobRow :=
  mkJobRow (j_ID j) (j_Type j) (j_Queue j) payload None None (j_Status j) (j_Priority j)
    (j_RetryCount j) (j_MaxRetries j) (j_TimeoutSeconds j) (j_Progress j) (Some metadata)
    (timestamp (j_CreatedAt j)) (timestamp (j_UpdatedAt j)) None None (timestamp scheduled_at).

Lemma run_INSERT_job j p t m t' sched d : fits j = true → jsonb p = Some t → jsonb m = Some t' →
  j_ScheduledAt j = Some sched →
  INSERT_job j p m d =
    match jobs d !! j_ID j with
    | Some _ => (Err duplicate_key, d)
    | None => (Ok tt, set_jobs (<[j_ID j := new_row j t t' sched]> (jobs d)) d)
    end.
Proof.
  intros Hf Hp Hm Hs. unfold fits in Hf. fit. unfold INSERT_job.
  rewrite bind_texts by all_texts. rewrite bind_integers by done.
  rewrite (bind_json_value _ _ _ _ Hp), (bind_json_value _ _ _ _ Hm).
  rewrite !bind_varchar by done. rewrite Hs. unfold mbind, M_bind. simpl.
  destruct (jobs d !! j_ID j); [by rewrite bool_decide_true|by rewrite bool_decide_false by (intros E; by apply E)].
Qed.

Lemma fits_docs j : fits j = true → ∃ v t t' sched, to_raw (j_Payload j) = Some v ∧
  jsonb (print v) = Some t ∧ raw_doc (j_Payload j) = Some t ∧ jsonb (marshal_map (j_Metadata j)) = Some t' ∧
  read_map t' = Some (j_Metadata j) ∧ j_ScheduledAt j = Some sched.
Proof.
  intros Hf. unfold fits in Hf. fit. unfold raw_doc in *.
  destruct (to_raw (j_Payload j)) as [v|] eqn:Hv; [|done]. simpl in *.
  eexists v, _, _, _. split_and!; [done..| |done]. by eapply jsonb_map.
Qed.

Lemma pg_implements_Create j d : tables_ok d → fits j = true → implements (JCreate j) d.
Proof.
  intros Hd Hf. destruct (fits_docs j Hf) as (v & t & t' & sched & Hv & Ht & Hr & Hm & Hrm & Hs).
  unfold implements. cbn [job_call_run job_spec].
  unfold CreateJob, marshal_raw, Query, tables, atomically, attempt, mbind, M_bind. rewrite Hv. simpl.
  rewrite (run_INSERT_job _ _ _ _ _ _ _ Hf Ht Hm Hs). destruct (jobs d !! j_ID j) as [r|] eqn:E.
  - destruct (job_of_row_ok _ _ _ Hd E) as [j' Hj'].
    assert (E' : jobs_of d (j_ID j) = Some j') by (unfold jobs_of; by rewrite E). rewrite E'. by eexists.
  - rewrite (proj2 (pg_jobs_of_None d (j_ID j) Hd) E). eexists. split; [done|].
    intros id. rewrite pg_jobs_of_insert. cbn [snd]. unfold put_job. case_bool_decide; [|done].
    unfold job_of_row, stored_as, new_row. simpl. by rewrite Hrm, Hr, Hs.
Qed.

Lemma implements_Get id d : tables_ok d → text_ok id = true → implements (JGet id) d.
Proof.
  intros Hd Hid. unfold implements. cbn [job_call_run job_spec].
  unfold GetJob, wrap_err, Query, tables, atomically, SELECT_job, mbind, M_bind.
  rewrite texts_ok by all_texts. simpl. destruct (jobs d !! id) as [r|] eqn:E.
  - destruct (job_of_row_ok _ _ _ Hd E) as [j Hj].
    assert (E' : jobs_of d id = Some j) by (unfold jobs_of; by rewrite E). rewrite E'. eexists. split; [|done].
    destruct (ok_jobs _ Hd _ _ E) as (_ & _ & Hp & [m Hm] & Hr).
    unfold scan_job, unmarshal_with, mbind, M_bind. rewrite read_raw_parses, Hm by done. simpl.
    unfold job_of_row in Hj. rewrite Hm in Hj. simpl in Hj.
    destruct (jr_result r) as [t|]; [rewrite (read_raw_parses t) by auto|]; by simplify_eq/=.
  - rewrite (proj2 (pg_jobs_of_None d id Hd) E). by eexists.
Qed.

Lemma bind_same {A B} (m m' : M DB A) (k : A → M DB B) d : m d = m' d → (m ≫= k) d = (m' ≫= k) d.
Proof. intros Hm. unfold mbind, M_bind. by rewrite Hm. Qed.

Lemma marshal_raw_ok msg s v (d : DB) : to_raw s = Some v → marshal_raw msg s d = (Ok (print v), d).
Proof. unfold marshal_raw. by intros ->. Qed.

(** The row of a job that is updated. *)
Definition updated_row (r : JobRow) (j : Job) (payload : string) (result : option string)
    (metadata : string) (scheduled_at : Time) : JobRow :=
  mkJobRow (jr_id r) (j_Type j) (j_Queue j) payload result (Some (j_Error j)) (j_Status j)
    (j_Priority j) (j_RetryCount j) (j_MaxRetries j) (j_TimeoutSeconds j) (j_Progress j)
    (Some metadata) (jr_created_at r) (timestamp (j_UpdatedAt j)) (timestamp <$> j_StartedAt j)
    (timestamp <$> j_CompletedAt j) (timestamp scheduled_at).

Lemma pg_implements_Update j d : tables_ok d → call_fits (JUpdate j) = true → implements (JUpdate j) d.
Proof.
  intros Hd Hf. cbn [call_fits] in Hf. fit.
  destruct (fits_docs j) as (v & t & t' & sched & Hv & Ht & Hr & Hm & Hrm & Hs); [done|].
  unfold implements. cbn [job_call_run job_spec].
  assert (Hres : ∃ res, (∀ (k : option string → M DB unit) d,
      ((if bool_decide (j_Result j = "") then mret None
        else t ← marshal_raw "failed to marshal result" (j_Result j); mret (Some t)) ≫= k) d = k res d) ∧
    match (if res is Some s then Some s else nil_bytes) with
    | Some s => Some <$> jsonb s
    | None => Some None
    end = updated_doc (j_Result j)).
  { unfold updated_doc, result_doc, marshal_raw in *. case_bool_decide; [by exists None|].
    destruct (to_raw (j_Result j)) as [w|]; [|done]. by exists (Some (print w)). }
  destruct Hres as (res & Hres & Hdoc). rewrite Hf in Hdoc |- *.
  assert (Hrun : (UpdateJob j ;; mret None : M DB (option Job)) d =
    (affected ErrJobNotFound "failed to update job"
      (Query (UPDATE_job j (print v) res (marshal_map (j_Metadata j)))) ;; mret None) d).
  { apply bind_same. unfold UpdateJob. rewrite (bind_Ok _ _ _ _ _ (marshal_raw_ok _ _ _ _ Hv)).
    apply Hres. }
  rewrite Hrun. unfold fits in *. fit.
  eapply (implements_change _ (λ r, scheduled_at ← not_null (j_ScheduledAt j);
    mret (updated_row r j t x t' scheduled_at))); [done| |].
  - unfold UPDATE_job. rewrite bind_texts by all_texts. rewrite bind_integers by done.
    by rewrite (bind_json_value _ _ _ _ Ht), (bind_json_bytes _ _ _ _ Hdoc),
      (bind_json_value _ _ _ _ Hm), !bind_varchar by done.
  - intros r old Hrow Hold. rewrite Hs. eexists. split; [reflexivity|].
    unfold job_of_row in Hold |- *. unfold updated_row, stored_as. simpl. rewrite Hrm, Hr, Hs.
    rewrite (proj1 (proj2 (ok_jobs _ Hd _ _ Hrow))).
    by destruct (read_map (default "" (jr_metadata r))); simplify_eq/=.
Qed.

Lemma pg_implements_Delete id d : tables_ok d → text_ok id = true → implements (JDelete id) d.
Proof.
  intros Hd Hid. unfold implements. cbn [job_call_run job_spec].
  unfold DeleteJob, affected, wrap_err, Query, tables, atomically, DELETE_job, mbind, M_bind.
  rewrite texts_ok by all_texts. simpl. destruct (jobs d !! id) as [r|] eqn:E.
  - destruct (job_of_row_ok _ _ _ Hd E) as [j Hj].
    assert (E' : jobs_of d id = Some j) by (unfold jobs_of; by rewrite E). rewrite E'. eexists. split; [done|].
    intros id'. unfold jobs_of, put_job. simpl. case_bool_decide; [subst; by rewrite lookup_delete_eq|].
    by rewrite lookup_delete_ne.
  - rewrite (proj2 (pg_jobs_of_None d id Hd) E). by eexists.
Qed.

(** The statements that set some columns of a row; [run] evaluates the statement. *)
Ltac implements_row run := unfold implements; cbn [job_call_run job_spec];
  unfold UpdateProgress, SetResult, SetError;
  eapply implements_change; [done|run; reflexivity|];
  intros r j Hrow Hj; eexists; split; [reflexivity|];
  unfold job_of_row in *; simpl; destruct (read_map _); by simplify_eq/=.

Lemma implements_progress now id p d : tables_ok d → call_fits (JProgress now id p) = true →
  implements (JProgress now id p) d.
Proof.
  intros Hd Hf. cbn [call_fits] in Hf. fit.
  implements_row ltac:(unfold UPDATE_progress; rewrite bind_texts by all_texts; rewrite bind_integers by (simpl; by rewrite Hf)).
Qed.

Lemma implements_result now id x d : tables_ok d → call_fits (JResult now id x) = true →
  implements (JResult now id x) d.
Proof.
  intros Hd Hf. cbn [call_fits] in Hf. fit.
  implements_row ltac:(unfold UPDATE_result; rewrite bind_texts by all_texts; rewrite (bind_json_bytes _ (default None (result_doc x)))
    by (rewrite Hf; unfold result_doc, bytes in *; by case_bool_decide)).
Qed.

Lemma implements_error now id e d : tables_ok d → call_fits (JError now id e) = true →
  implements (JError now id e) d.
Proof.
  intros Hd Hf. cbn [call_fits] in Hf. fit.
  implements_row ltac:(unfold UPDATE_error; rewrite bind_texts by all_texts).
Qed.

(** The server refuses the statement before it looks at a row. *)
Lemma UPDATE_status_refused id st now d : UPDATE_status id st now d = (Err inconsistent_types, d).
Proof. done. Qed.

Lemma UpdateStatus_refused clk id st d :
  UpdateStatus clk id st d = (Err (Wrapf "failed to update status" inconsistent_types), d).
Proof. done. Qed.

Lemma implements_status now id st d : implements (JStatus now id st) d.
Proof. by exists d. Qed.

Lemma pg_implements_all c d : tables_ok d → call_fits c = true → implements c d.
Proof.
  intros Hd Hf. destruct c; eauto using pg_implements_Create, implements_Get, pg_implements_Update,
    pg_implements_Delete, implements_status, implements_progress, implements_result, implements_error.
Qed.

(** The calls of the invariant. *)
Definition as_call (c : job_call) : option call :=
  match c with
  | JGet _ => None
  | JCreate j => Some (CCreateJob j)
  | JUpdate j => Some (CUpdateJob j)
  | JDelete id => Some (CDeleteJob id)
  | JStatus now id status => Some (CUpdateStatus (λ _, now) id status)
  | JProgress now id p => Some (CUpdateProgress (λ _, now) id p)
  | JResult now id result => Some (CSetResult (λ _, now) id result)
  | JError now id msg => Some (CSetError (λ _, now) id msg)
  end.

Lemma job_call_state c d : tables_ok d → tables_ok (job_call_run c d).2.
Proof.
  assert (Hthen : ∀ (m : M DB unit) d, ((m ;; mret (@None Job) : M DB (option Job)) d).2 = (m d).2).
  { intros m d'. unfold mbind, M_bind. by destruct (m d') as [[]]. }
  intros Hd. destruct (as_call c) as [c'|] eqn:Hc.
  - assert (E : (job_call_run c d).2 = (run c' d).2)
      by (destruct c; simplify_eq/=; first [apply Hthen | done]).
    rewrite E. by apply kept_run.
  - destruct c; simplify_eq/=. unfold GetJob, wrap_err, Query, tables, atomically, SELECT_job, mbind, M_bind.
    unfold texts. destruct (forallb _ _); [|done]. simpl. destruct (jobs d !! id) as [r|] eqn:E; [|done].
    destruct (ok_jobs _ Hd _ _ E) as (_ & _ & Hok). destruct (scan_job_reads r d Hok) as (j & Hj & _).
    by rewrite Hj.
Qed.
End tables.

Section server.
Context `{PgValuesLaws} `{PostgresLaws R}.

Lemma pg_job_call c : refines data (job_call_run c) (job_call_run c).
Proof. destruct c; simpl; solve_refines. Qed.

(** C30. The methods of [JobStore] implement a map from identifiers to jobs: on a
    server with readable rows, every call whose values the columns can hold
    returns what the map gives and changes it as specified. A job is stored
    without its timeout, its worker and its retry counter, with rounded times;
    [CreateJob] does not store a result or an error, and [UpdateStatus] stamps
    only the statuses in lower case. *)
Theorem postgres_jobs_refine_map c (s : R) : tables_ok (data s) → call_fits c = true →
  tables_ok (data (job_call_run c s).2) ∧
  (job_call_run c s).1 = (job_spec c (jobs_of (data s))).1 ∧
  ∀ id, jobs_of (data (job_call_run c s).2) id = (job_spec c (jobs_of (data s))).2 id.
Proof.
  intros Hd Hc. destruct (pg_implements_all c (data s) Hd Hc) as (d' & Hr & Hv).
  pose proof (job_call_state c (data s) Hd) as Hok. rewrite Hr in Hok.
  by destruct (refines_run _ _ _ _ _ _ (pg_job_call c) Hr) as [-> ->].
Qed.

(** ** The statuses of the program *)

Definition program_statuses : list string :=
  [StatusPending; StatusRunning; StatusSuccess; StatusFailed; StatusRetrying; StatusCancelled; StatusExpired].

Lemma COUNT_status_none st rows : st ∈ ["pending"; "running"; "success"; "failed"] →
  Forall (λ r, jr_status r ∈ program_statuses) rows → COUNT_status st rows = 0.
Proof.
  intros Hst Hr. unfold COUNT_status. rewrite filter_none; [done|].
  intros r Hin E. rewrite Forall_forall in Hr. specialize (Hr r Hin) as Hp. rewrite E in Hp.
  unfold program_statuses in Hp. rewrite !elem_of_cons in Hst, Hp. destruct_or!; subst; try done; set_solver.
Qed.

Lemma count_statuses_none q rows : Forall (λ r, jr_status r ∈ program_statuses) rows →
  count_statuses q rows = mkQueueStats q 0 0 0 0 0 0 None.
Proof. intros Hr. unfold count_statuses. by rewrite !COUNT_status_none by (set_solver || done). Qed.

(** The queries compare the statuses with words in lower case, and the program
    writes its statuses in upper case: while all jobs have a status of the
    program, the statistics of every queue count no job. *)
Theorem postgres_statuses_never_match q (s : R) :
  text_ok q = true → (∀ id r, jobs (data s) !! id = Some r → jr_status r ∈ program_statuses) →
  (GetQueueStats q s).1 = Ok (mkQueueStats q 0 0 0 0 0 0 None).
Proof.
  intros Hq Hst.
  assert (Hr : GetQueueStats q (data s) = (Ok (mkQueueStats q 0 0 0 0 0 0 None), data s)).
  { unfold GetQueueStats, wrap_err, Query, tables, atomically, SELECT_stats, mbind, M_bind.
    rewrite texts_ok by (by repeat constructor). simpl. rewrite count_statuses_none; [done|].
    apply Forall_forall. intros r [_ Hr]%list_elem_of_filter.
    apply list_elem_of_fmap in Hr as ([k x] & -> & Hx%elem_of_map_to_list). by eapply Hst. }
  by destruct (refines_run _ _ _ _ _ _ (pg_GetQueueStats q) Hr).
Qed.
End server.

(** ** Witnesses, on the server that is its tables *)

#[local] Existing Instance plain_values.
#[local] Existing Instance plain_values_laws.

Lemma demo_tables_ok : tables_ok (run_all demo_calls empty_db).
Proof. apply kept_run_all, tables_ok_empty. Qed.

Lemma postgres_jobs_refine_map_witness :
  (job_call_run (JProgress 2000 "mail-1" 40) (run_all demo_calls empty_db)).1 = Ok None ∧
  j_Progress <$> jobs_of (data (job_call_run (JProgress 2000 "mail-1" 40) (run_all demo_calls empty_db)).2)
    "mail-1" = Some 40 ∧
  (job_call_run (JStatus 2000 "mail-1" StatusRunning) (run_all demo_calls empty_db)).1 =
    Err (Wrapf "failed to update status" inconsistent_types).
Proof.
  destruct (postgres_jobs_refine_map (R := DB) (JProgress 2000 "mail-1" 40)
    (run_all demo_calls empty_db)) as (_ & -> & ->); [exact demo_tables_ok|by vm_compute|].
  destruct (postgres_jobs_refine_map (R := DB) (JStatus 2000 "mail-1" StatusRunning)
    (run_all demo_calls empty_db)) as (_ & -> & _); [exact demo_tables_ok|reflexivity|].
  split_and!; vm_compute; reflexivity.
Defined.

Lemma postgres_statuses_never_match_witness :
  (GetQueueStats "mail" (run_all demo_calls empty_db)).1 = Ok (mkQueueStats "mail" 0 0 0 0 0 0 None).
Proof.
  apply (postgres_statuses_never_match (R := DB) "mail" (run_all demo_calls empty_db)); [by vm_compute|].
  apply map_Forall_lookup. apply (bool_decide_unpack _). by vm_compute.
Defined.
