(* ===== verification/PostgresQueueProps.v ===== *)
(** * The PostgreSQL backend: queues

    The methods of [QueueStore] against the entries of the queues, and the
    values that the tables refuse. *)

From S2P Require Import Prelude Errors GoMonad Job Json JobJson Postgres PostgresStore PostgresInv.
From S2P Require Import PostgresJobs PostgresQueue PostgresMetrics.

(** ** Entries *)

Section entries.
Context `{PgValuesLaws}.

Lemma elem_of_entries q d id r : (id, r) ∈ entries q d ↔ queues d !! (q, id) = Some r.
Proof.
  unfold entries. rewrite list_elem_of_omap. setoid_rewrite (heap_perm (map_to_list (queues d))).
  split.
  - intros ([[q' id'] r'] & Hin%elem_of_map_to_list & Hq). case_bool_decide; by simplify_eq.
  - intros Hr. exists ((q, id), r). rewrite elem_of_map_to_list, bool_decide_true by done. done.
Qed.

Lemma NoDup_entries q d : NoDup (entries q d).*1.
Proof.
  unfold entries. assert (Hk : NoDup (heap (map_to_list (queues d))).*1).
  { rewrite heap_perm. apply NoDup_fst_map_to_list. }
  revert Hk. generalize (heap (map_to_list (queues d))). intros l.
  induction l as [|[[q' id] r] l IH]; intros Hk; [constructor|].
  apply NoDup_cons in Hk as [Hni Hk]. simpl. case_bool_decide; [|by apply IH]. subst. simpl.
  apply NoDup_cons. split; [|by apply IH]. intros Hin. apply Hni.
  apply list_elem_of_fmap in Hin as ([id' r'] & -> & Hin).
  apply list_elem_of_omap in Hin as ([[q'' id''] r''] & Hin & Hq). case_bool_decide; simplify_eq.
  apply list_elem_of_fmap. eexists. by split; [|exact Hin].
Qed.

Lemma first_served_sorted l : sorted_by first_served (ORDER_BY first_served l).
Proof.
  apply sort_slice_sorted; unfold first_served.
  - intros x y. rewrite !orb_true_iff, !andb_true_iff, !orb_false_iff, !andb_false_iff. lia.
  - intros x y z. rewrite !orb_false_iff, !andb_false_iff. lia.
Qed.

(** An entry that the query of [Dequeue] may pick: it is ready and none that is
    ready has a higher priority, or the same one and an earlier time. *)
Definition next_entry (now : Time) (q : string) (d : DB) (id : string) : Prop := ∃ r,
  queues d !! (q, id) = Some r ∧ qr_scheduled_for r ≤ timestamp now ∧
  ∀ id' r', queues d !! (q, id') = Some r' → qr_scheduled_for r' ≤ timestamp now →
    qr_priority r' < qr_priority r ∨
    (qr_priority r' = qr_priority r ∧ qr_scheduled_for r ≤ qr_scheduled_for r').

Lemma SELECT_next_spec q now d : text_ok q = true →
  (SELECT_next q now d = (Ok None, d) ∧
    ∀ id r, queues d !! (q, id) = Some r → timestamp now < qr_scheduled_for r) ∨
  ∃ id, SELECT_next q now d = (Ok (Some id), d) ∧ next_entry now q d id.
Proof.
  intros Hq. unfold SELECT_next. rewrite bind_texts by (by repeat constructor).
  unfold mbind, M_bind. simpl.
  set (ready := filter _ (entries q d)).
  assert (Hp : ORDER_BY first_served ready ≡ₚ ready) by apply sort_slice_Permutation.
  pose proof (first_served_sorted ready) as Hs.
  destruct (ORDER_BY first_served ready) as [|[id r] l] eqn:E.
  - left. split; [done|]. intros id r Hr%elem_of_entries.
    apply Permutation_nil in Hp. destruct (decide (qr_scheduled_for r ≤ timestamp now)) as [Hle|]; [|lia].
    assert (Hin : (id, r) ∈ ready) by (by apply list_elem_of_filter). rewrite Hp in Hin. set_solver.
  - right. exists id. split; [done|].
    assert (Hin : (id, r) ∈ ready) by (rewrite <- Hp; constructor).
    apply list_elem_of_filter in Hin as [Hle Hin%elem_of_entries]. exists r. split_and!; [done..|].
    intros id' r' Hin' Hle'. assert (Hr : (id', r') ∈ (id, r) :: l).
    { rewrite Hp. apply list_elem_of_filter. split; [done|]. by apply elem_of_entries. }
    apply elem_of_cons in Hr as [[= -> ->]|Hr]; [lia|]. apply StronglySorted_inv in Hs as [_ Hs].
    rewrite Forall_forall in Hs. specialize (Hs _ Hr). unfold first_served in Hs. simpl in Hs.
    rewrite orb_false_iff, andb_false_iff in Hs. lia.
Qed.
End entries.

Lemma NoDup_filter_fst {A B} (P : A * B → Prop) `{!∀ x, Decision (P x)} (l : list (A * B)) :
  NoDup l.*1 → NoDup (filter P l).*1.
Proof.
  induction l as [|[a b] l IH]; simpl; [done|]. intros [Hni Hl]%NoDup_cons.
  rewrite filter_cons. case_decide; [|by apply IH]. simpl. apply NoDup_cons. split; [|by apply IH].
  intros ([a' b'] & -> & [_ Hin]%list_elem_of_filter)%list_elem_of_fmap. apply Hni.
  apply list_elem_of_fmap. by exists (a', b').
Qed.

(** ** The methods of [QueueStore] *)

Inductive queue_call : Type :=
  | QEnqueue (now : Time) (q id : string) (p : Z) (delay : Duration) | QDequeue (now : Time) (q : string)
  | QRemove (q id : string) | QLength (q : string) | QPeek (q : string) (count : Z)
  | QScheduled (q : string) (until : Time) | QPause (q : string) | QResume (q : string) | QPaused (q : string).

Inductive answer : Type :=
  | ADone | AJob (id : string) | ACount (n : Z) | AJobs (ids : list string) | AFlag (b : bool).

Definition queue_call_run `{Postgres R} `{PgValues} (c : queue_call) : M R answer :=
  match c with
  | QEnqueue now q id p delay => Enqueue (λ _, now) q id p delay ;; mret ADone
  | QDequeue now q => id ← Dequeue (λ _, now) q; mret (AJob id)
  | QRemove q id => Remove q id ;; mret ADone
  | QLength q => n ← Length q; mret (ACount n)
  | QPeek q count => ids ← Peek q count; mret (AJobs ids)
  | QScheduled q until => ids ← GetScheduled q until; mret (AJobs ids)
  | QPause q => PauseQueue q ;; mret ADone
  | QResume q => ResumeQueue q ;; mret ADone
  | QPaused q => b ← IsQueuePaused q; mret (AFlag b)
  end.

Section spec.
Context `{PgValues}.

Definition queue_call_fits (c : queue_call) : bool :=
  match c with
  | QEnqueue _ q id p _ => fits_text 255 q && fits_text 255 id && int4 p
  | QRemove q id => text_ok q && text_ok id
  | QPause q => fits_text 255 q
  | QDequeue _ q | QLength q | QPeek q _ | QScheduled q _ | QResume q | QPaused q => text_ok q
  end.

(** What a call returns and leaves. *)
Definition queue_spec (c : queue_call) (d : DB) (r : res answer) (d' : DB) : Prop :=
  match c with
  | QEnqueue now q id p delay =>
      if decide (is_Some (jobs d !! id))
      then r = Ok ADone ∧
        d' = set_queues (<[(q, id) := mkQueueRow p (timestamp (Add now delay))]> (queues d)) d
      else r = Err ErrJobNotFound ∧ d' = d
  | QDequeue now q =>
      if decide (q ∈ paused_queues d) then r = Err ErrQueuePaused ∧ d' = d else
      (r = Err ErrQueueEmpty ∧ d' = d ∧
        ∀ id e, queues d !! (q, id) = Some e → timestamp now < qr_scheduled_for e) ∨
      ∃ id, r = Ok (AJob id) ∧ d' = set_queues (delete (q, id) (queues d)) d ∧ next_entry now q d id
  | QRemove q id =>
      if decide (is_Some (queues d !! (q, id)))
      then r = Ok ADone ∧ d' = set_queues (delete (q, id) (queues d)) d
      else r = Err ErrJobNotFound ∧ d' = d
  | QLength q => r = Ok (ACount (Z.of_nat (length (entries q d)))) ∧ d' = d
  | QPeek q count =>
      if decide (count < 0) then (∃ e, r = Err e) ∧ d' = d else
      d' = d ∧ ∃ l, r = Ok (AJobs (take (Z.to_nat count) l.*1)) ∧
        l ≡ₚ entries q d ∧ sorted_by first_served l
  | QScheduled q until =>
      d' = d ∧ ∃ ids, r = Ok (AJobs ids) ∧ NoDup ids ∧
        ∀ id, id ∈ ids ↔ ∃ e, queues d !! (q, id) = Some e ∧ qr_scheduled_for e ≤ timestamp until
  | QPause q => r = Ok ADone ∧ d' = set_paused_queues ({[q]} ∪ paused_queues d) d
  | QResume q => r = Ok ADone ∧ d' = set_paused_queues (paused_queues d ∖ {[q]}) d
  | QPaused q => r = Ok (AFlag (bool_decide (q ∈ paused_queues d))) ∧ d' = d
  end.
End spec.

Section queues.
Context `{PgValuesLaws}.

(** A statement that only reads. *)
Lemma Query_Ok {A} (m : M DB A) (a : A) (d d' : DB) : m d = (Ok a, d') → Query m d = (Ok a, d').
Proof. intros Hm. simpl. unfold atomically. by rewrite Hm. Qed.

Lemma IsQueuePaused_ok q d : text_ok q = true →
  IsQueuePaused q d = (Ok (bool_decide (q ∈ paused_queues d)), d).
Proof.
  intros Hq. apply wrap_err_Ok, Query_Ok. unfold SELECT_paused. by rewrite bind_texts by (by repeat constructor).
Qed.

Lemma DELETE_entry_ok q id d : text_ok q = true → text_ok id = true →
  DELETE_entry q id d = (Ok (if bool_decide (queues d !! (q, id) = None) then 0 else 1),
    set_queues (delete (q, id) (queues d)) d).
Proof. intros Hq Hid. unfold DELETE_entry. by rewrite bind_texts by (by repeat constructor). Qed.

Lemma entry_text_ok d q id r : tables_ok d → queues d !! (q, id) = Some r → text_ok id = true.
Proof. intros Hd Hr. destruct (ok_entries _ Hd _ _ _ Hr) as [j Hj]. by apply (ok_jobs _ Hd) in Hj as [? _]. Qed.

Lemma Dequeue_ok now q d : tables_ok d → text_ok q = true → q ∉ paused_queues d →
  (Dequeue (λ _, now) q d = (Err ErrQueueEmpty, d) ∧
    ∀ id e, queues d !! (q, id) = Some e → timestamp now < qr_scheduled_for e) ∨
  ∃ id, Dequeue (λ _, now) q d = (Ok id, set_queues (delete (q, id) (queues d)) d) ∧ next_entry now q d id.
Proof.
  intros Hd Hq Hp. unfold Dequeue. rewrite (bind_Ok _ _ _ _ _ (IsQueuePaused_ok q d Hq)), bool_decide_false by done.
  destruct (SELECT_next_spec q now d Hq) as [[Hs Hall]|(id & Hs & Hn)]; [left|right; exists id]; (split; [|done]);
    unfold claim; simpl; unfold mbind, M_bind, atomically; simpl; unfold wrap_err, atomically; rewrite Hs; [done|].
  destruct Hn as (r & Hr & _).
  rewrite DELETE_entry_ok by (done || by eapply entry_text_ok). done.
Qed.

Lemma delete_absent d q id : queues d !! (q, id) = None → set_queues (delete (q, id) (queues d)) d = d.
Proof. intros Hn. rewrite delete_id by done. by destruct d. Qed.

Lemma Enqueue_ok now q id p delay d : tables_ok d → queue_call_fits (QEnqueue now q id p delay) = true →
  Enqueue (λ _, now) q id p delay d =
    if decide (is_Some (jobs d !! id))
    then (Ok tt, set_queues (<[(q, id) := mkQueueRow p (timestamp (Add now delay))]> (queues d)) d)
    else (Err ErrJobNotFound, d).
Proof.
  intros Hd Hf. cbn [queue_call_fits] in Hf. apply andb_true_iff in Hf as [[Hq Hid]%andb_true_iff Hp].
  assert (Hi : INSERT_entry q id p (Add now delay) d =
    if decide (is_Some (jobs d !! id))
    then (Ok tt, set_queues (<[(q, id) := mkQueueRow p (timestamp (Add now delay))]> (queues d)) d)
    else (Err foreign_key, d)).
  { unfold INSERT_entry. rewrite bind_texts by (repeat constructor; eauto using fits_text_ok).
    rewrite bind_integers by (simpl; by rewrite Hp). rewrite !bind_varchar by done.
    unfold mbind, M_bind. simpl. case_decide as Hj.
    - rewrite (bool_decide_false (jobs d !! id = None)) by (intros E; rewrite E in Hj; by destruct Hj).
      by rewrite andb_false_r.
    - apply eq_None_not_Some in Hj. rewrite !bool_decide_true; [done|done|].
      apply eq_None_not_Some. intros [r Hr]. apply (ok_entries _ Hd) in Hr. rewrite Hj in Hr. by destruct Hr. }
  unfold Enqueue, Query, tables, atomically, attempt, mbind, M_bind. rewrite Hi. by case_decide.
Qed.

Lemma Remove_ok q id d : text_ok q = true → text_ok id = true →
  Remove q id d = if decide (is_Some (queues d !! (q, id)))
                  then (Ok tt, set_queues (delete (q, id) (queues d)) d) else (Err ErrJobNotFound, d).
Proof.
  intros Hq Hid. unfold Remove, affected, wrap_err, Query, tables, atomically, mbind, M_bind.
  rewrite DELETE_entry_ok by done. case_decide as Hr; simpl.
  - rewrite bool_decide_false by (by apply not_eq_None_Some). done.
  - apply eq_None_not_Some in Hr. rewrite bool_decide_true by done. simpl. by rewrite delete_absent.
Qed.

Lemma queue_call_tables c d : tables_ok d → queue_call_fits c = true →
  ∃ r d', queue_call_run c d = (r, d') ∧ queue_spec c d r d'.
Proof.
  intros Hd Hf. destruct c as [now q id p delay|now q|q id|q|q n|q t|q|q|q];
    cbn [queue_spec queue_call_run]; unfold mbind, M_bind.
  - rewrite (Enqueue_ok _ _ _ _ _ d Hd Hf). case_decide; by eexists _, _.
  - cbn [queue_call_fits] in Hf. case_decide as Hp.
    + unfold Dequeue. rewrite (bind_Ok _ _ _ _ _ (IsQueuePaused_ok q d Hf)), bool_decide_true by done.
      by eexists _, _.
    + destruct (Dequeue_ok now q d Hd Hf Hp) as [[-> Hall]|(id & -> & Hn)]; eexists _, _; (split; [done|]); eauto.
  - cbn [queue_call_fits] in Hf. apply andb_true_iff in Hf as [Hq Hid]. rewrite Remove_ok by done.
    case_decide; by eexists _, _.
  - eexists _, _. split; [|done]. unfold Length.
    erewrite wrap_err_Ok; [done|]. apply Query_Ok. unfold SELECT_count.
    by rewrite bind_texts by (by repeat constructor).
  - cbn [queue_call_fits] in Hf. unfold Peek. case_decide as Hn.
    + unfold wrap_err, Query, tables, atomically, SELECT_first, LIMIT, mbind, M_bind.
      rewrite texts_ok by (by repeat constructor). simpl. rewrite (proj2 (Z.ltb_lt n 0) Hn).
      eexists _, _. split; [done|]. split; [by eexists|done].
    + assert (Hq : Query (SELECT_first q n) d =
        (Ok (take (Z.to_nat n) (ORDER_BY first_served (entries q d)).*1), d)).
      { apply Query_Ok. unfold SELECT_first. rewrite bind_texts by (by repeat constructor).
        unfold LIMIT, mbind, M_bind. simpl. by rewrite (proj2 (Z.ltb_ge n 0)) by lia. }
      rewrite (bind_Ok _ _ _ _ _ (wrap_err_Ok _ _ _ _ _ Hq)). eexists _, _. split; [done|].
      split; [done|]. eexists. split; [done|]. split; [apply sort_slice_Permutation|apply first_served_sorted].
  - cbn [queue_call_fits] in Hf. unfold GetScheduled.
    set (ids := (ORDER_BY (λ x y, qr_scheduled_for x.2 <? qr_scheduled_for y.2)
      (filter (λ x, qr_scheduled_for x.2 ≤ timestamp t) (entries q d))).*1).
    assert (Hq : Query (SELECT_until q t) d = (Ok ids, d)).
    { apply Query_Ok. unfold SELECT_until. by rewrite bind_texts by (by repeat constructor). }
    rewrite (bind_Ok _ _ _ _ _ (wrap_err_Ok _ _ _ _ _ Hq)). eexists _, _. split; [done|].
    split; [done|]. exists ids. split; [done|]. unfold ids, ORDER_BY. split.
    + rewrite sort_slice_Permutation. apply NoDup_filter_fst, NoDup_entries.
    + intros id. rewrite sort_slice_Permutation, list_elem_of_fmap. split.
      * intros ([id' e] & -> & [Hle Hin%elem_of_entries]%list_elem_of_filter). by exists e.
      * intros (e & He & Hle). exists (id, e). split; [done|]. apply list_elem_of_filter.
        split; [done|]. by apply elem_of_entries.
  - cbn [queue_call_fits] in Hf. eexists _, _. split; [|done]. unfold PauseQueue.
    erewrite wrap_err_Ok; [done|]. apply Query_Ok. unfold INSERT_paused.
    rewrite bind_texts by (repeat constructor; eauto using fits_text_ok). by rewrite bind_varchar.
  - eexists _, _. split; [|done]. unfold ResumeQueue.
    erewrite wrap_err_Ok; [done|]. apply Query_Ok. unfold DELETE_paused.
    by rewrite bind_texts by (by repeat constructor).
  - rewrite (IsQueuePaused_ok q d Hf). by eexists _, _.
Qed.
End queues.

Section server.
Context `{PgValuesLaws} `{PostgresLaws R}.

Lemma pg_queue_call c : refines data (queue_call_run c) (queue_call_run c).
Proof. destruct c; simpl; solve_refines. Qed.

(** C27. The methods of [QueueStore] implement a table with one entry per job of a
    queue: on a server with readable rows every call returns what the table
    gives and changes it as specified. [Enqueue] of a job that waits replaces
    its priority and its time; [Dequeue] takes an entry that is ready, of the
    highest priority and, among these, of the earliest time. *)
Theorem postgres_queues_refine_entries c (s : R) : tables_ok (data s) → queue_call_fits c = true →
  queue_spec c (data s) (queue_call_run c s).1 (data (queue_call_run c s).2).
Proof.
  intros Hd Hf. destruct (queue_call_tables c (data s) Hd Hf) as (r & d' & Hr & Hspec).
  by destruct (refines_run _ _ _ _ _ _ (pg_queue_call c) Hr) as [-> ->].
Qed.
End server.

(** ** A witness, on the server that is its tables *)

#[local] Existing Instance plain_values.
#[local] Existing Instance plain_values_laws.

Lemma postgres_queues_refine_entries_witness :
  (queue_call_run (QRemove "mail" "mail-1") (run_all demo_calls empty_db)).1 = Ok ADone.
Proof.
  pose proof (postgres_queues_refine_entries (R := DB) (QRemove "mail" "mail-1")
    (run_all demo_calls empty_db) demo_tables_ok eq_refl) as Hspec.
  cbn [queue_spec] in Hspec. rewrite decide_True in Hspec by (vm_compute; by eexists). exact (proj1 Hspec).
Defined.
