(* ===== verification/PostgresConfigs.v ===== *)
(** * The PostgreSQL backend: configurations, and what the tables refuse *)

From S2P Require Import Prelude Errors GoMonad Job Json JobJson Postgres PostgresStore PostgresInv.
From S2P Require Import PostgresJobs PostgresMetrics.

(** The configuration that is read back: two fields have no column. *)
Definition stored_config (c : QueueConfig) : QueueConfig :=
  mkQueueConfig (c_Name c) (c_MaxWorkers c) (c_MaxRetries c) (c_RetryStrategy c) 0 (c_Timeout c)
    (c_Priority c) (c_RateLimit c) (c_Weight c) false (c_RetryDelay c) (c_MaxRetryDelay c)
    (c_DeadLetterQueue c).

Section configs.
Context `{PgValues}.

Definition config_integers (c : QueueConfig) : list Z :=
  [c_MaxWorkers c; c_MaxRetries c; c_RetryDelay c; c_MaxRetryDelay c; c_Timeout c; c_Priority c;
   c_Weight c; c_RateLimit c].

Definition config_fits (c : QueueConfig) (metadata : gmap string string) : bool :=
  fits_text 255 (c_Name c) && fits_text 50 (c_RetryStrategy c) && fits_text 255 (c_DeadLetterQueue c) &&
  forallb int4 (config_integers c) && bool_decide (is_Some (jsonb (marshal_map metadata))).
End configs.

Section tables.
Context `{PgValuesLaws}.

Lemma SaveQueueConfig_ok clk c m d : config_fits c m = true → ∃ r,
  SaveQueueConfig clk c m d = (Ok tt, set_queue_configs (<[c_Name c := r]> (queue_configs d)) d) ∧
  scan_config r d = (Ok (stored_config c, m), d).
Proof.
  intros Hf. unfold config_fits in Hf.
  apply andb_true_iff in Hf as [[[[Hn Hr]%andb_true_iff Hd]%andb_true_iff Hi]%andb_true_iff Hm].
  apply bool_decide_eq_true in Hm as [t Ht].
  assert (Hq : ∃ r, INSERT_config c (marshal_map m) (clk 0%nat) d =
      (Ok tt, set_queue_configs (<[c_Name c := r]> (queue_configs d)) d) ∧
      scan_config r d = (Ok (stored_config c, m), d)).
  { eexists. split.
    - unfold INSERT_config. rewrite bind_texts by (repeat constructor; eauto using fits_text_ok).
      rewrite bind_integers by done. rewrite (bind_json_value _ _ _ _ Ht), !bind_varchar by done. reflexivity.
    - unfold scan_config, unmarshal_with, mbind, M_bind. simpl. by rewrite (jsonb_map _ _ Ht). }
  destruct Hq as (r & Hq & Hs). exists r. split; [|done].
  apply wrap_err_Ok. simpl. unfold atomically. by rewrite Hq.
Qed.

(** A statement whose numbers do not fit. *)
Lemma bind_integers_bad {B} l (k : unit → M DB B) d : forallb int4 l = false → (integers l ≫= k) d = (Err bad_integer, d).
Proof. intros Hl. unfold integers. by rewrite Hl. Qed.

Lemma SaveQueueConfig_bad clk c m d : forallb int4 (config_integers c) = false →
  ∃ e, SaveQueueConfig clk c m d = (Err (Wrapf "failed to save queue config" e), d).
Proof.
  intros Hi. assert (He : ∃ e, INSERT_config c (marshal_map m) (clk 0%nat) d = (Err e, d)).
  { unfold INSERT_config.
    destruct (forallb text_ok [c_Name c; c_RetryStrategy c; c_DeadLetterQueue c]) eqn:E.
    - erewrite bind_Ok by (unfold texts; rewrite E; reflexivity).
      rewrite bind_integers_bad by done. by eexists.
    - unfold texts. rewrite E. by eexists. }
  destruct He as [e He]. exists e. apply wrap_err_Err. simpl. unfold atomically. by rewrite He.
Qed.

(** The call fails and leaves the tables. *)
Definition fails {A} (m : M DB A) (d : DB) : Prop := ∃ e, m d = (Err e, d).

(** The values of a statement are checked without touching the tables. *)
Lemma fails_after {A B} (m : M DB A) (k : A → M DB B) d :
  (∃ a, m d = (Ok a, d)) ∨ fails m d → (∀ a, fails (k a) d) → fails (m ≫= k) d.
Proof.
  intros [[a Hm]|[e Hm]] Hk.
  - destruct (Hk a) as [e He]. exists e. by rewrite (bind_Ok _ _ _ _ _ Hm).
  - exists e. unfold mbind, M_bind. by rewrite Hm.
Qed.

Definition checks {A} (m : M DB A) : Prop := ∀ d, (∃ a, m d = (Ok a, d)) ∨ fails m d.

Lemma checks_texts l : checks (texts l).
Proof. intros d. unfold texts, fails. case_match; eauto. Qed.

Lemma checks_integers l : checks (integers l).
Proof. intros d. unfold integers, fails. case_match; eauto. Qed.

Lemma checks_json_value s : checks (json_value s).
Proof. intros d. unfold json_value, fails. case_match; eauto. Qed.

Lemma checks_varchar n s : checks (varchar n s).
Proof. intros d. unfold varchar, fails. case_match; eauto. Qed.

(** A row without a time for [scheduled_at]. *)
Lemma CreateJob_unscheduled j d : j_ScheduledAt j = None → ∃ e, CreateJob j d = (Err e, d).
Proof.
  intros Hs. unfold CreateJob, marshal_raw. destruct (to_raw (j_Payload j)) as [v|]; [|by eexists].
  assert (He : fails (INSERT_job j (print v) (marshal_map (j_Metadata j))) d).
  { unfold INSERT_job. repeat (apply fails_after; [first [apply checks_texts|apply checks_integers|apply checks_json_value|apply checks_varchar]|intros ?]).
    rewrite Hs. by eexists. }
  destruct He as [e He]. unfold attempt, Query, tables, atomically, mbind, M_bind. simpl. rewrite He.
  destruct (isDuplicateKeyError e); by eexists.
Qed.
End tables.

Section server.
Context `{PgValuesLaws} `{PostgresLaws R}.

Lemma scan_config_state row (d d' : DB) : (scan_config row d).1 = (scan_config row d').1.
Proof. unfold scan_config, unmarshal_with, mbind, M_bind. by destruct (read_map _). Qed.

Lemma GetQueueConfig_reads (s : R) q : (GetQueueConfig q s).1 =
  if text_ok q then
    match queue_configs (data s) !! q with
    | Some row => (scan_config row (data s)).1
    | None => Err (not_found q)
    end
  else Err (Wrapf "failed to get queue config" bad_text).
Proof.
  pose proof (f_equal fst (pg_GetQueueConfig q s)) as E. simpl in E. rewrite <- E.
  unfold GetQueueConfig, wrap_err, Query, tables, atomically, SELECT_config, texts, mbind, M_bind. simpl.
  rewrite andb_true_r. destruct (text_ok q); [|done]. simpl. by destruct (queue_configs (data s) !! q).
Qed.

(** A configuration whose values the columns can hold is read back as it was
    saved, with its metadata, except for the default timeout and the flag of a
    paused queue, which have no column; the other configurations stay. *)
Theorem postgres_config_roundtrip clk c m (s : R) : config_fits c m = true →
  let r := SaveQueueConfig clk c m s in
  r.1 = Ok tt ∧ (GetQueueConfig (c_Name c) r.2).1 = Ok (stored_config c, m) ∧
  ∀ q, q ≠ c_Name c → (GetQueueConfig q r.2).1 = (GetQueueConfig q s).1.
Proof.
  intros Hf r. destruct (SaveQueueConfig_ok clk c m (data s) Hf) as (row & Hr & Hs).
  destruct (refines_run _ _ _ _ _ _ (pg_SaveQueueConfig clk c m) Hr) as [H1' H2']. fold r in H1', H2'.
  pose proof (GetQueueConfig_reads r.2) as Hread. split; [done|]. split.
  - rewrite Hread, H2'. cbn [queue_configs set_queue_configs]. rewrite lookup_insert_eq.
    unfold config_fits in Hf. rewrite !andb_true_iff in Hf. destruct Hf as [[[[Hn _] _] _] _].
    rewrite (fits_text_ok _ _ Hn). by rewrite (scan_config_state row _ (data s)), Hs.
  - intros q Hq. rewrite Hread, (GetQueueConfig_reads s), H2'. cbn [queue_configs set_queue_configs].
    rewrite lookup_insert_ne by done. destruct (text_ok q); [|done].
    destruct (queue_configs (data s) !! q); [apply scan_config_state|done].
Qed.

(** What the tables refuse, with nothing changed: the default configuration of
    pkg/job, whose delays are nanoseconds and do not fit a column of seconds,
    and every configuration with a number of more than 32 bits; a job without
    a scheduled time, whose column is [NOT NULL]. *)
Theorem postgres_refuses_defaults clk (s : R) :
  (∀ q m, ∃ e, (SaveQueueConfig clk (DefaultQueueConfig q) m s).1 = Err e ∧
    data (SaveQueueConfig clk (DefaultQueueConfig q) m s).2 = data s) ∧
  (∀ c m, forallb int4 (config_integers c) = false → ∃ e, (SaveQueueConfig clk c m s).1 = Err e ∧
    data (SaveQueueConfig clk c m s).2 = data s) ∧
  (∀ j, j_ScheduledAt j = None → ∃ e, (CreateJob j s).1 = Err e ∧ data (CreateJob j s).2 = data s).
Proof.
  assert (Hbad : ∀ c m, forallb int4 (config_integers c) = false →
    ∃ e, (SaveQueueConfig clk c m s).1 = Err e ∧ data (SaveQueueConfig clk c m s).2 = data s).
  { intros c m Hc. destruct (SaveQueueConfig_bad clk c m (data s) Hc) as [e He]. eexists.
    exact (refines_run _ _ _ _ _ _ (pg_SaveQueueConfig clk c m) He). }
  split_and!; [intros q m; by apply Hbad|done|].
  intros j Hj. destruct (CreateJob_unscheduled j (data s) Hj) as [e He]. exists e.
  exact (refines_run _ _ _ _ _ _ (pg_CreateJob j) He).
Qed.
End server.

(** ** A witness, on the server that is its tables *)

#[local] Existing Instance plain_values.
#[local] Existing Instance plain_values_laws.

Lemma postgres_config_roundtrip_witness :
  (GetQueueConfig "mail" (SaveQueueConfig (λ _, 0)
    (mkQueueConfig "mail" 10 3 "FIXED" (5 * Minute) 300 5 0 1 true 60 3600 "") ∅ empty_db).2).1 =
  Ok (mkQueueConfig "mail" 10 3 "FIXED" 0 300 5 0 1 false 60 3600 "", ∅).
Proof.
  destruct (postgres_config_roundtrip (R := DB) (λ _, 0)
    (mkQueueConfig "mail" 10 3 "FIXED" (5 * Minute) 300 5 0 1 true 60 3600 "") ∅ empty_db) as (_ & E & _);
    [by vm_compute|exact E].
Defined.
