(* ===== verification/PostgresSteps.v ===== *)
(** * The PostgreSQL backend: concurrent calls of [Dequeue]

    The statements of many workers in any order, with the row locks of
    [FOR UPDATE SKIP LOCKED] and the transactions that end in [Commit] or in the
    deferred [Rollback]. *)

From S2P Require Import Prelude Errors GoMonad Job Json JobJson Postgres PostgresStore PostgresInv.
From S2P Require Import PostgresJobs PostgresQueue PostgresQueueProps.

(** ** Steps *)

(** Where a worker is in [Dequeue]; a worker that is in none has no phase. *)
Inductive phase : Type :=
  | Checked (q : string)
  | Holds (q id : string)
  | Deleted (q id : string).

(** The row that a phase has locked. *)
Definition held (p : phase) : option (string * string) :=
  match p with Checked _ => None | Holds q id | Deleted q id => Some (q, id) end.

(** The committed tables, the workers, the entries that were delivered and
    those that were inserted. *)
Record PgState : Type := mkPgState {
  pg_tables : DB;
  pg_workers : gmap nat phase;
  pg_delivered : list (nat * (string * string));
  pg_inserted : list (string * string);
}.

Definition pg_start (d : DB) : PgState := mkPgState d ∅ [] [].

Definition locked (ws : gmap nat phase) (k : string * string) : Prop :=
  map_Exists (λ _ p, held p = Some k) ws.

(** The rows that [SKIP LOCKED] sees. *)
Definition unlocked (ws : gmap nat phase) (d : DB) : DB :=
  set_queues (filter (λ kv, ¬ locked ws kv.1) (queues d)) d.

Section steps.
Context `{PgValues}.

(** The statements of [Dequeue]. A statement of another method that writes a
    locked row waits; the rows it inserts are logged. *)
Inductive pg_step : PgState → PgState → Prop :=
  | step_check w q d ws del ins :
      ws !! w = None → SELECT_paused q d = (Ok false, d) →
      pg_step (mkPgState d ws del ins) (mkPgState d (<[w := Checked q]> ws) del ins)
  | step_select w q now id d ws del ins :
      ws !! w = Some (Checked q) →
      (SELECT_next q now (unlocked ws d)).1 = Ok (Some id) →
      pg_step (mkPgState d ws del ins) (mkPgState d (<[w := Holds q id]> ws) del ins)
  | step_empty w q now d ws del ins :
      ws !! w = Some (Checked q) → (SELECT_next q now (unlocked ws d)).1 = Ok None →
      pg_step (mkPgState d ws del ins) (mkPgState d (delete w ws) del ins)
  | step_delete w q id d ws del ins :
      ws !! w = Some (Holds q id) → (∃ n d', DELETE_entry q id d = (Ok n, d')) →
      pg_step (mkPgState d ws del ins) (mkPgState d (<[w := Deleted q id]> ws) del ins)
  | step_commit w q id n d d' ws del ins :
      ws !! w = Some (Deleted q id) → DELETE_entry q id d = (Ok n, d') →
      pg_step (mkPgState d ws del ins) (mkPgState d' (delete w ws) ((w, (q, id)) :: del) ins)
  | step_rollback w p d ws del ins :
      ws !! w = Some p →
      pg_step (mkPgState d ws del ins) (mkPgState d (delete w ws) del ins)
  | step_other d d' ws del ins :
      (∀ k, locked ws k → queues d' !! k = queues d !! k) →
      pg_step (mkPgState d ws del ins)
        (mkPgState d' ws del (elements (dom (queues d') ∖ dom (queues d)) ++ ins)).

(** How often an entry was delivered or inserted. *)
Definition delivered (k : string * string) (st : PgState) : nat :=
  length (filter (λ x, x.2 = k) (pg_delivered st)).
Definition inserted (k : string * string) (st : PgState) : nat :=
  length (filter (λ x, x = k) (pg_inserted st)).
Definition waits (k : string * string) (st : PgState) : nat :=
  if decide (is_Some (queues (pg_tables st) !! k)) then 1 else 0.
End steps.

Section invariant.
Context `{PgValuesLaws}.

(** A locked row is in the table, and has one owner. *)
Definition locks_ok (st : PgState) : Prop :=
  (∀ w p k, pg_workers st !! w = Some p → held p = Some k → is_Some (queues (pg_tables st) !! k)) ∧
  (∀ w w' p p' k, pg_workers st !! w = Some p → pg_workers st !! w' = Some p' →
    held p = Some k → held p' = Some k → w = w').

Lemma SELECT_next_inv q now d id : (SELECT_next q now d).1 = Ok (Some id) → next_entry now q d id.
Proof.
  intros Hs. destruct (text_ok q) eqn:Hq.
  - destruct (SELECT_next_spec q now d Hq) as [[E _]|(id' & E & Hn)]; rewrite E in Hs; by simplify_eq/=.
  - unfold SELECT_next, texts, mbind, M_bind in Hs. simpl in Hs. by rewrite Hq in Hs.
Qed.

Lemma DELETE_entry_inv q id d n d' : DELETE_entry q id d = (Ok n, d') →
  d' = set_queues (delete (q, id) (queues d)) d.
Proof.
  unfold DELETE_entry, texts, mbind, M_bind. destruct (forallb _ _); simpl; by intros [=].
Qed.

Lemma locks_ok_phase st w p : locks_ok st →
  (∀ k, held p = Some k → is_Some (queues (pg_tables st) !! k) ∧
    ∀ w' p', w' ≠ w → pg_workers st !! w' = Some p' → held p' ≠ Some k) →
  locks_ok (mkPgState (pg_tables st) (<[w := p]> (pg_workers st)) (pg_delivered st) (pg_inserted st)).
Proof.
  intros [H1 H2] Hp. split; simpl.
  - intros w' p' k. rewrite lookup_insert_Some. intros [[<- <-]|[Hne Hw]] Hk; [by apply Hp|by eapply H1].
  - intros w1 w2 p1 p2 k. rewrite !lookup_insert_Some.
    intros [[<- <-]|[Hn1 Hw1]] [[<- <-]|[Hn2 Hw2]] Hk1 Hk2; [done| | |by eapply H2].
    + exfalso. by eapply (proj2 (Hp _ Hk1) w2 p2).
    + exfalso. by eapply (proj2 (Hp _ Hk2) w1 p1).
Qed.

Lemma locks_ok_end st w : locks_ok st →
  locks_ok (mkPgState (pg_tables st) (delete w (pg_workers st)) (pg_delivered st) (pg_inserted st)).
Proof.
  intros [H1 H2]. split; simpl.
  - intros w' p' k [_ Hw]%lookup_delete_Some. by eapply H1.
  - intros w1 w2 p1 p2 k [_ Hw1]%lookup_delete_Some [_ Hw2]%lookup_delete_Some. by eapply H2.
Qed.

(** A row that [SKIP LOCKED] returns is locked by nobody. *)
Lemma select_free ws d q now id : (SELECT_next q now (unlocked ws d)).1 = Ok (Some id) →
  is_Some (queues d !! (q, id)) ∧ ∀ w p, ws !! w = Some p → held p ≠ Some (q, id).
Proof.
  intros (r & Hr & _)%SELECT_next_inv. simpl in Hr.
  apply map_lookup_filter_Some in Hr as [Hr Hfree]. split; [by eexists|].
  intros w p Hw Hp. apply Hfree. by exists w, p.
Qed.

Lemma pg_step_locks st st' : pg_step st st' → locks_ok st → locks_ok st'.
Proof.
  intros Hstep Hok.
  destruct Hstep as [w q d ws del ins|w q now id d ws del ins Hw Hs|w q now d ws del ins|w q id d ws del ins Hw _
    |w q id n d d' ws del ins Hw ->%DELETE_entry_inv|w p d ws del ins|d d' ws del ins Hd].
  - by apply (locks_ok_phase (mkPgState d ws del ins)).
  - apply (locks_ok_phase (mkPgState d ws del ins)); [done|]. intros k [= <-].
    destruct (select_free _ _ _ _ _ Hs) as [? Hfree]. split; [done|]. intros w' p' _. by apply Hfree.
  - by apply (locks_ok_end (mkPgState d ws del ins)).
  - apply (locks_ok_phase (mkPgState d ws del ins)); [done|]. intros k [= <-].
    destruct Hok as [H1 H2]. split; [by eapply (H1 w)|].
    intros w' p' Hne Hw' Hp'. apply Hne. by eapply H2.
  - pose proof (locks_ok_end (mkPgState d ws del ins) w Hok) as [H1 H2]. simpl in *. split; [|done].
    simpl. intros w' p k Hw' Hp. rewrite lookup_delete_ne; [by eapply H1|]. intros <-.
    apply lookup_delete_Some in Hw' as [Hne Hw']. apply Hne. by eapply (proj2 Hok).
  - by apply (locks_ok_end (mkPgState d ws del ins)).
  - destruct Hok as [H1 H2]. split; simpl; [|done]. intros w p k Hw Hp.
    rewrite Hd by (by exists w, p). by eapply H1.
Qed.

(** The deliveries and the entry that waits come from insertions. *)
Definition counted (d : DB) (st : PgState) : Prop := ∀ k,
  (delivered k st + waits k st ≤ waits k (pg_start d) + inserted k st)%nat.

Lemma pg_step_counted d0 st st' : pg_step st st' → locks_ok st → counted d0 st → counted d0 st'.
Proof.
  intros Hstep Hok Hc k. specialize (Hc k).
  destruct Hstep as [| | | |w q id n d d' ws del ins Hw ->%DELETE_entry_inv| |d d' ws del ins Hd]; try done.
  - destruct Hok as [H1 _]. specialize (H1 w _ _ Hw eq_refl). unfold delivered, inserted, waits in *. simpl in *.
    rewrite filter_cons. destruct (decide (k = (q, id))) as [->|Hne]; simpl.
    + rewrite (decide_True (P := (q, id) = (q, id))) by done. rewrite decide_True in Hc by done. simpl.
      rewrite lookup_delete_eq, (decide_False (P := is_Some None)) by (by intros []). lia.
    + rewrite (decide_False (P := (q, id) = k)) by done. by rewrite lookup_delete_ne.
  - unfold delivered, inserted, waits in *. simpl in *. rewrite filter_app, length_app.
    destruct (decide (is_Some (queues d' !! k))) as [Hin|]; [|lia].
    destruct (decide (is_Some (queues d !! k))) as [|Hni]; [lia|].
    assert (Hel : k ∈ elements (dom (queues d') ∖ dom (queues d))).
    { rewrite elem_of_elements, elem_of_difference, !elem_of_dom. done. }
    assert (Hk : k ∈ filter (λ x, x = k) (elements (dom (queues d') ∖ dom (queues d))))
      by (by apply list_elem_of_filter).
    destruct (filter _ (elements _)); [set_solver|simpl; lia].
Qed.

(** C28. However the statements of concurrent calls of [Dequeue] interleave with
    each other, with commits and rollbacks and with the other methods: two
    workers never hold the same entry; a locked entry stays in the table until
    its commit, so that a rollback loses nothing; and an entry is delivered at
    most once for every time it was inserted. *)
Theorem postgres_claims_are_exclusive d0 st : rtc pg_step (pg_start d0) st →
  (∀ w w' p p' k, pg_workers st !! w = Some p → pg_workers st !! w' = Some p' →
    held p = Some k → held p' = Some k → w = w') ∧
  (∀ w p k, pg_workers st !! w = Some p → held p = Some k → is_Some (queues (pg_tables st) !! k)) ∧
  ∀ k, (delivered k st + waits k st ≤ waits k (pg_start d0) + inserted k st)%nat.
Proof.
  intros Hst. assert (Hinv : locks_ok st ∧ counted d0 st).
  { assert (Hstart : locks_ok (pg_start d0) ∧ counted d0 (pg_start d0)).
    { split; [split; intros *; simpl; by rewrite lookup_empty|]. intros k. unfold delivered, inserted. simpl. lia. }
    induction Hst as [|st st' st'' Hstep _ IH]; [done|]. destruct Hstart as [Hl Hc].
    apply IH. split; [by eapply pg_step_locks|by eapply pg_step_counted]. }
  destruct Hinv as [[H1 H2] Hc]. split_and!; [exact H2|exact H1|exact Hc].
Qed.
End invariant.

(** ** A witness *)

#[local] Existing Instance plain_values.
#[local] Existing Instance plain_values_laws.

(** The worker 0 locks the entry and rolls back, the worker 1 gets it. *)
Lemma demo_claims : ∃ d', rtc pg_step (pg_start (run_all demo_calls empty_db))
  (mkPgState d' ∅ [(1%nat, ("mail", "mail-1"))] []).
Proof.
  assert (Hs : ∀ (ws : gmap nat phase), ws = {[ 0%nat := Checked "mail" ]} ∨ ws = {[ 1%nat := Checked "mail" ]} →
    (SELECT_next "mail" 2000 (unlocked ws (run_all demo_calls empty_db))).1 = Ok (Some "mail-1"))
    by (intros ws [-> | ->]; by vm_compute).
  eexists. eapply rtc_l; [apply (step_check 0 "mail"); by vm_compute|].
  eapply rtc_l; [apply (step_select 0 "mail" 2000 "mail-1"); [by vm_compute|apply Hs; by left]|].
  eapply rtc_l; [by eapply (step_rollback 0); vm_compute|].
  eapply rtc_l; [apply (step_check 1 "mail"); by vm_compute|].
  eapply rtc_l; [apply (step_select 1 "mail" 2000 "mail-1"); [by vm_compute|apply Hs; by right]|].
  eapply rtc_l; [apply (step_delete 1 "mail" "mail-1"); [by vm_compute|by eexists _, _]|].
  eapply rtc_l; [eapply (step_commit 1 "mail" "mail-1"); [by vm_compute|by vm_compute]|].
  apply rtc_refl.
Qed.

Lemma postgres_claims_are_exclusive_witness : ∃ st, rtc pg_step (pg_start (run_all demo_calls empty_db)) st ∧
  delivered ("mail", "mail-1") st = 1%nat ∧ waits ("mail", "mail-1") st = 0%nat.
Proof.
  destruct demo_claims as [d' Hst]. exists (mkPgState d' ∅ [(1%nat, ("mail", "mail-1"))] []).
  split; [exact Hst|]. split; [reflexivity|].
  destruct (postgres_claims_are_exclusive (run_all demo_calls empty_db) _ Hst) as (_ & _ & Hc).
  specialize (Hc ("mail", "mail-1")). revert Hc. vm_compute (delivered _ _). vm_compute (waits _ (pg_start _)).
  vm_compute (inserted _ _). lia.
Defined.
