(* ===== verification/Logger.v ===== *)
(** * Logging (internal/monitoring/logger.go)

    Loggers are objects that several holders share: [WithField] makes a new
    one, [SetLevel] changes one in place, and a [LoggerAdapter] lets a logger be
    the output of another. They live in a heap, a pointer is an index of it.

    A value in a field is of any type [V] that can be formatted ([Fmt]). A
    write to an output appends to what was written; that a write failed is
    dropped by [log]. The process runs in UTC. *)

From S2P Require Import Prelude GoMonad World Rfc3339.
From Stdlib Require Import Ascii.

(** [fmt]: the verb [%v] of a value, and [Sprintf] with a format of the caller. *)
Class Fmt (V : Type) := {
  show : V → string;
  Sprintf : string → list V → string;
}.

(** ** Levels *)

Abbreviation LogLevel := Z.

Definition LogLevelDebug : LogLevel := 0.
Definition LogLevelInfo : LogLevel := 1.
Definition LogLevelWarn : LogLevel := 2.
Definition LogLevelError : LogLevel := 3.

Definition level_String (l : LogLevel) : string :=
  if l =? LogLevelDebug then "DEBUG"
  else if l =? LogLevelInfo then "INFO"
  else if l =? LogLevelWarn then "WARN"
  else if l =? LogLevelError then "ERROR"
  else "UNKNOWN".

(** ** State *)

(** A pointer to a [Logger]. *)
Definition Ptr : Type := option nat.

(** An [io.Writer]: the file of a number, 0 being [os.Stdout], or a
    [LoggerAdapter]. *)
Inductive Writer : Type :=
  | File (n : nat)
  | LoggerAdapter (logger : Ptr).

Definition Stdout : Writer := File 0.

(** [type Logger struct]. *)
Record Logger (V : Type) : Type := mkLogger {
  lg_level : LogLevel;
  lg_output : Writer;
  lg_prefix : string;
  lg_fields : gmap string V;
}.
Arguments mkLogger {V}.
Arguments lg_level {V}.
Arguments lg_output {V}.
Arguments lg_prefix {V}.
Arguments lg_fields {V}.

(** The loggers of the process, [defaultLogger], what was written to the files,
    and the number of the next reading of the clock. *)
Record Logs (V : Type) : Type := mkLogs {
  lo_heap : list (Logger V);
  lo_default : Ptr;
  lo_written : list (nat * string);
  lo_tick : nat;
}.
Arguments mkLogs {V}.
Arguments lo_heap {V}.
Arguments lo_default {V}.
Arguments lo_written {V}.
Arguments lo_tick {V}.

Section logger.
Context {V : Type} `{!Fmt V} `{Runtime} `{MapRange}.

Definition set_lo_heap (h : list (Logger V)) (s : Logs V) : Logs V :=
  mkLogs h (lo_default s) (lo_written s) (lo_tick s).

Definition set_lo_default (p : Ptr) (s : Logs V) : Logs V :=
  mkLogs (lo_heap s) p (lo_written s) (lo_tick s).

Definition set_lg_level (l : LogLevel) (lg : Logger V) : Logger V :=
  mkLogger l (lg_output lg) (lg_prefix lg) (lg_fields lg).

(** [&Logger{...}]. *)
Definition new (lg : Logger V) : M (Logs V) Ptr :=
  s ← get;
  modify (set_lo_heap (lo_heap s ++ [lg])) ;;
  mret (Some (length (lo_heap s))).

Definition deref (p : Ptr) : M (Logs V) (Logger V) :=
  s ← get;
  match p ≫= λ i, lo_heap s !! i with
  | Some lg => mret lg
  | None => panic "nil pointer dereference"
  end.

(** [time.Now()]. *)
Definition read_clock : M (Logs V) Time := λ s,
  (Ok (rt_now (lo_tick s)), mkLogs (lo_heap s) (lo_default s) (lo_written s) (S (lo_tick s))).

Definition write_file (n : nat) (chunk : string) : M (Logs V) unit := λ s,
  (Ok tt, mkLogs (lo_heap s) (lo_default s) (lo_written s ++ [(n, chunk)]) (lo_tick s)).

(** ** Making loggers *)

Definition NewLogger (level : LogLevel) (output : option Writer) : M (Logs V) Ptr :=
  new (mkLogger level (default Stdout output) "" ∅).

(** [for k, v := range m { fields[k] = v }]. *)
Definition copy_into (fields m : gmap string V) : gmap string V :=
  foldl (λ f kv, <[kv.1 := kv.2]> f) fields (map_range m).

Definition WithField (l : Ptr) (key : string) (value : V) : M (Logs V) Ptr :=
  lg ← deref l;
  new (mkLogger (lg_level lg) (lg_output lg) (lg_prefix lg)
    (<[key := value]> (copy_into ∅ (lg_fields lg)))).

Definition WithFields (l : Ptr) (fields : gmap string V) : M (Logs V) Ptr :=
  lg ← deref l;
  new (mkLogger (lg_level lg) (lg_output lg) (lg_prefix lg)
    (copy_into (copy_into ∅ (lg_fields lg)) fields)).

(** ** Messages *)

(** The line feed. *)
Definition nl : string := String "010" "".

(** [time.RFC3339], which has no fraction of a second. *)
Definition format_RFC3339 (t : Time) : string := format_time (t / Second * Second).

Definition field_text (kv : string * V) : string := kv.1 +:+ "=" +:+ show kv.2 +:+ " ".

Definition fields_text (fields : gmap string V) : string :=
  if bool_decide (fields = ∅) then ""
  else foldl (λ acc kv, acc +:+ field_text kv) " " (map_range fields).

Definition log_line (lg : Logger V) (now : Time) (level : LogLevel) (msg : string) : string :=
  let logMsg := "[" +:+ format_RFC3339 now +:+ "] " +:+ level_String level +:+ ": " +:+
    msg +:+ fields_text (lg_fields lg) +:+ nl in
  if bool_decide (lg_prefix lg = "") then logMsg else lg_prefix lg +:+ " " +:+ logMsg.

(** The call of [Write] on an adapter logs the chunk at the level [Info] of the
    adapter's logger. [fuel] bounds the depth of these calls. *)
Fixpoint log_within (fuel : nat) (l : Ptr) (level : LogLevel) (msg : string) : M (Logs V) unit :=
  lg ← deref l;
  if level <? lg_level lg then mret tt
  else
    now ← read_clock;
    let chunk := log_line lg now level msg in
    match lg_output lg, fuel with
    | File n, _ => write_file n chunk
    | LoggerAdapter l', S fuel => log_within fuel l' LogLevelInfo chunk
    | LoggerAdapter _, O => panic "stack overflow"
    end.

(** A chain of adapters through more loggers than there are is a cycle. *)
Definition log (l : Ptr) (level : LogLevel) (msg : string) : M (Logs V) unit :=
  s ← get; log_within (length (lo_heap s)) l level msg.

Definition Debug_ (l : Ptr) (msg : string) : M (Logs V) unit := log l LogLevelDebug msg.
Definition Debugf (l : Ptr) (format : string) (args : list V) : M (Logs V) unit :=
  log l LogLevelDebug (Sprintf format args).
Definition Info_ (l : Ptr) (msg : string) : M (Logs V) unit := log l LogLevelInfo msg.
Definition Infof (l : Ptr) (format : string) (args : list V) : M (Logs V) unit :=
  log l LogLevelInfo (Sprintf format args).
Definition Warn (l : Ptr) (msg : string) : M (Logs V) unit := log l LogLevelWarn msg.
Definition Warnf (l : Ptr) (format : string) (args : list V) : M (Logs V) unit :=
  log l LogLevelWarn (Sprintf format args).
Definition Error (l : Ptr) (msg : string) : M (Logs V) unit := log l LogLevelError msg.
Definition Errorf (l : Ptr) (format : string) (args : list V) : M (Logs V) unit :=
  log l LogLevelError (Sprintf format args).

Definition SetLevel (l : Ptr) (level : LogLevel) : M (Logs V) unit :=
  lg ← deref l;
  modify (λ s, set_lo_heap (alter (set_lg_level level) (default 0%nat l) (lo_heap s)) s).

Definition GetLevel (l : Ptr) : M (Logs V) LogLevel :=
  lg ← deref l; mret (lg_level lg).

(** ** The default logger *)

(** The state of the package after its initialisation. *)
Definition init_logs : Logs V := mkLogs [mkLogger LogLevelInfo Stdout "" ∅] (Some 0%nat) [] 0.

Definition SetDefaultLogger (logger : Ptr) : M (Logs V) unit := modify (set_lo_default logger).

Definition GetDefaultLogger : M (Logs V) Ptr := s ← get; mret (lo_default s).

Definition PkgDebug (msg : string) : M (Logs V) unit := l ← GetDefaultLogger; Debug_ l msg.
Definition PkgDebugf (format : string) (args : list V) : M (Logs V) unit :=
  l ← GetDefaultLogger; Debugf l format args.
Definition PkgInfo (msg : string) : M (Logs V) unit := l ← GetDefaultLogger; Info_ l msg.
Definition PkgInfof (format : string) (args : list V) : M (Logs V) unit :=
  l ← GetDefaultLogger; Infof l format args.
Definition PkgWarn (msg : string) : M (Logs V) unit := l ← GetDefaultLogger; Warn l msg.
Definition PkgWarnf (format : string) (args : list V) : M (Logs V) unit :=
  l ← GetDefaultLogger; Warnf l format args.
Definition PkgError (msg : string) : M (Logs V) unit := l ← GetDefaultLogger; Error l msg.
Definition PkgErrorf (format : string) (args : list V) : M (Logs V) unit :=
  l ← GetDefaultLogger; Errorf l format args.
Definition PkgWithField (key : string) (value : V) : M (Logs V) Ptr :=
  l ← GetDefaultLogger; WithField l key value.
Definition PkgWithFields (fields : gmap string V) : M (Logs V) Ptr :=
  l ← GetDefaultLogger; WithFields l fields.

(** ** The adapter to the standard library *)

Definition NewLoggerAdapter (logger : Ptr) : Writer := LoggerAdapter logger.

(** [Write] reports the bytes it was given, whether or not they were logged. *)
Definition adapter_Write (logger : Ptr) (p : string) : M (Logs V) Z :=
  Info_ logger p ;; mret (Z.of_nat (String.length p)).

(** [log.New(NewLoggerAdapter(l), '', 0)]: a standard logger is its output. *)
Definition StdLogger (l : Ptr) : Writer := NewLoggerAdapter l.

(** What [log.Logger.Print] without flags and prefix writes: the message, with
    a line feed at its end if it has none. *)
Fixpoint ends_line (s : string) : bool :=
  match s with
  | EmptyString => false
  | String c EmptyString => bool_decide (c = "010"%char)
  | String _ s => ends_line s
  end.

Definition std_Print (w : Writer) (s : string) : M (Logs V) unit :=
  let chunk := if ends_line s then s else s +:+ nl in
  match w with
  | File n => write_file n chunk
  | LoggerAdapter l => adapter_Write l chunk ;; mret tt
  end.
End logger.
