(* ===== verification/LoggerProps.v ===== *)
(** * Theorems on logging

    A call of a logger ends and writes at most one line, to the file at the end
    of its chain of adapters; a derived logger is a snapshot of the one it was
    made from. *)

From S2P Require Import Prelude GoMonad World Decimal Rfc3339 Logger.
From Stdlib Require Import Ascii.

Section props.
Context {V : Type} `{!Fmt V} `{Runtime} `{MapRange}.
Implicit Types (s : Logs V) (h : list (Logger V)) (m : gmap string V).

(** ** What a client can do *)

(** A client passes pointers and writers that it got from the package. *)
Inductive op : Type :=
  | OpNewLogger (level : LogLevel) (output : option Writer)
  | OpWithField (l : Ptr) (key : string) (value : V)
  | OpWithFields (l : Ptr) (fields : gmap string V)
  | OpLog (l : Ptr) (level : LogLevel) (msg : string)
  | OpSetLevel (l : Ptr) (level : LogLevel)
  | OpSetDefaultLogger (l : Ptr).

Definition exec (o : op) : Logs V → Logs V := λ s,
  match o with
  | OpNewLogger level output => (NewLogger level output s).2
  | OpWithField l key value => (WithField l key value s).2
  | OpWithFields l fields => (WithFields l fields s).2
  | OpLog l level msg => (log l level msg s).2
  | OpSetLevel l level => (SetLevel l level s).2
  | OpSetDefaultLogger l => (SetDefaultLogger l s).2
  end.

Definition valid h (p : Ptr) : Prop := ∃ i, p = Some i ∧ (i < length h)%nat.

Definition op_ok (o : op) s : Prop :=
  match o with
  | OpNewLogger _ (Some (LoggerAdapter p)) => valid (lo_heap s) p
  | OpSetDefaultLogger l => valid (lo_heap s) l
  | _ => True
  end.

Inductive reachable : Logs V → Prop :=
  | reachable_init : reachable init_logs
  | reachable_op o s : reachable s → op_ok o s → reachable (exec o s).

(** ** Copies of maps *)

Lemma copy_into_union fields m : copy_into fields m = m ∪ fields.
Proof.
  unfold copy_into.
  assert (Hl : ∀ l : list (string * V), NoDup l.*1 → ∀ f,
    foldl (λ f kv, <[kv.1 := kv.2]> f) f l = (list_to_map l : gmap string V) ∪ f).
  { induction l as [|[k v] l IH]; intros Hnd f; simpl; [by rewrite (left_id_L ∅ (∪))|].
    apply NoDup_cons in Hnd as [Hk Hnd]. rewrite IH by done. simpl.
    rewrite <-insert_union_l, insert_union_r; [done|]. by apply not_elem_of_list_to_map. }
  assert (Hp := map_range_perm m). rewrite Hl by (rewrite Hp; apply NoDup_fst_map_to_list).
  f_equal. rewrite (list_to_map_proper _ (map_to_list m)); [apply list_to_map_to_list| |done].
  rewrite Hp. apply NoDup_fst_map_to_list.
Qed.

Lemma copy_into_empty m : copy_into ∅ m = m.
Proof. rewrite copy_into_union. apply (right_id_L ∅ (∪)). Qed.

(** ** The calls, by cases on the pointer *)

Lemma deref_Some i lg s : lo_heap s !! i = Some lg → deref (Some i) s = (Ok lg, s).
Proof. intros Hi. unfold deref, mbind, M_bind, get. simpl. by rewrite Hi. Qed.

Lemma deref_None p s : p ≫= (λ i, lo_heap s !! i) = None →
  deref p s = (Panic "nil pointer dereference", s).
Proof. intros Hi. unfold deref, mbind, M_bind, get. simpl. unfold mbind in Hi. by rewrite Hi. Qed.

Lemma deref_cases p s :
  (∃ i lg, p = Some i ∧ lo_heap s !! i = Some lg) ∨
  (∀ A (k : Logger V → M (Logs V) A), (deref p ≫= k) s = (Panic "nil pointer dereference", s)).
Proof.
  destruct (p ≫= λ i, lo_heap s !! i) as [lg|] eqn:E.
  - apply bind_Some in E as (i & -> & Hi). eauto.
  - right. intros A k. unfold mbind at 1, M_bind. by rewrite deref_None.
Qed.

Lemma deref_bind {A} i lg (k : Logger V → M (Logs V) A) s : lo_heap s !! i = Some lg →
  (deref (Some i) ≫= k) s = k lg s.
Proof. intros Hi. unfold mbind at 1, M_bind. by rewrite (deref_Some i lg). Qed.

(** ** Chains of adapters *)

(** The output of a logger is an adapter of an earlier one. *)
Definition well_founded_outputs h : Prop :=
  ∀ i lg, h !! i = Some lg →
    match lg_output lg with
    | File _ => True
    | LoggerAdapter p => ∃ j, p = Some j ∧ (j < i)%nat
    end.

(** The loggers from [i] to the file [n] at the end. *)
Inductive chain h : nat → list (Logger V) → nat → Prop :=
  | chain_file i lg n : h !! i = Some lg → lg_output lg = File n → chain h i [lg] n
  | chain_adapter i lg j path n :
      h !! i = Some lg → lg_output lg = LoggerAdapter (Some j) →
      chain h j path n → chain h i (lg :: path) n.

(** Every logger of the chain lets the message pass: the first by its level,
    the others at the level [Info]. *)
Fixpoint passes (level : LogLevel) (path : list (Logger V)) : bool :=
  match path with
  | [] => true
  | lg :: path => negb (level <? lg_level lg) && passes LogLevelInfo path
  end.

(** [sub] occurs in [t]. *)
Definition contains (sub t : string) : Prop := ∃ pre post, t = pre +:+ (sub +:+ post).

Lemma contains_here sub post : contains sub (sub +:+ post).
Proof. by exists "", post. Qed.

Lemma contains_after pre sub t : contains sub t → contains sub (pre +:+ t).
Proof. intros (a & b & ->). exists (pre +:+ a), b. by rewrite string_app_assoc. Qed.

Lemma contains_trans a b c : contains a b → contains b c → contains a c.
Proof.
  intros (p1 & q1 & ->) (p2 & q2 & ->). exists (p2 +:+ p1), (q1 +:+ q2).
  by rewrite !string_app_assoc.
Qed.

Lemma log_line_contains lg now level msg : contains msg (log_line lg now level msg).
Proof.
  unfold log_line. cbv zeta. case_bool_decide; repeat first [apply contains_here|apply contains_after].
Qed.

(** One call along a chain that is no longer than the fuel. *)
Lemma log_within_chain h i path n : chain h i path n → ∀ fuel level msg s,
  lo_heap s = h → (length path ≤ fuel)%nat →
  ∃ chunk, contains msg chunk ∧
    (log_within fuel (Some i) level msg s).1 = Ok tt ∧
    lo_heap (log_within fuel (Some i) level msg s).2 = h ∧
    lo_default (log_within fuel (Some i) level msg s).2 = lo_default s ∧
    lo_written (log_within fuel (Some i) level msg s).2 =
      lo_written s ++ (if passes level path then [(n, chunk)] else []).
Proof.
  induction 1 as [i lg n Hi Ho|i lg j path n Hi Ho Hc IH]; intros fuel level msg s Hs Hfuel.
  - exists (log_line lg (rt_now (lo_tick s)) level msg). split; [apply log_line_contains|].
    destruct fuel as [|fuel]; [simpl in Hfuel; lia|]. simpl log_within.
    rewrite (deref_bind i lg) by (by rewrite Hs). simpl.
    rewrite andb_true_r. destruct (level <? lg_level lg); simpl; [by rewrite app_nil_r|].
    rewrite Ho. done.
  - destruct fuel as [|fuel]; [simpl in Hfuel; lia|]. simpl in Hfuel.
    simpl log_within. rewrite (deref_bind i lg) by (by rewrite Hs). simpl passes.
    destruct (level <? lg_level lg); simpl.
    { exists msg. rewrite app_nil_r. split_and!; try done. exists "", "". by rewrite string_app_empty_r. }
    rewrite Ho.
    destruct (IH fuel LogLevelInfo (log_line lg (rt_now (lo_tick s)) level msg)
      (mkLogs (lo_heap s) (lo_default s) (lo_written s) (S (lo_tick s)))) as (chunk & Hc1 & Hr);
      [done|lia|].
    exists chunk. split; [|exact Hr].
    eapply contains_trans; [apply log_line_contains|done].
Qed.

Lemma chain_lookup h i path n : chain h i path n → is_Some (h !! i).
Proof. by destruct 1 as [??? Hi|????? Hi]; eexists. Qed.

(** The loggers of a chain have smaller and smaller pointers. *)
Lemma chain_exists h : well_founded_outputs h → ∀ i, (i < length h)%nat →
  ∃ path n, chain h i path n ∧ (length path ≤ S i)%nat.
Proof.
  intros Hwf i. induction (lt_wf i) as [i _ IH]. intros Hi.
  destruct (lookup_lt_is_Some_2 h i Hi) as [lg Hlg].
  assert (Ho := Hwf i lg Hlg). destruct (lg_output lg) as [n|p] eqn:E.
  - exists [lg], n. split; [by apply (chain_file h i)|simpl; lia].
  - destruct Ho as (j & -> & Hj). destruct (IH j Hj ltac:(lia)) as (path & n & Hc & Hlen).
    exists (lg :: path), n. split; [by eapply chain_adapter|simpl; lia].
Qed.

(** ** What the calls leave alone *)

Definition same_loggers s s' : Prop := lo_heap s' = lo_heap s ∧ lo_default s' = lo_default s.

#[local] Instance same_loggers_preorder : PreOrder same_loggers.
Proof. split; [done|]. intros s1 s2 s3 [??] [??]. split; congruence. Qed.

Lemma log_same_loggers l level msg : preserves same_loggers (log l level msg).
Proof.
  unfold log. apply preserves_bind; [apply _|apply preserves_get, _|intros s0].
  generalize (length (lo_heap s0)). intros fuel. revert l level msg.
  assert (Hd : ∀ l, preserves same_loggers (deref l)).
  { intros l s. unfold deref, mbind, M_bind, get. simpl. by case_match. }
  induction fuel as [|fuel IH]; intros l level msg; simpl;
    (apply preserves_bind; [apply _|apply Hd|intros lg]; case_match; [apply preserves_ret, _|];
     apply preserves_bind; [apply _|by intros s|intros now]; case_match; [by intros s|]).
  - apply preserves_panic, _.
  - apply IH.
Qed.

(** ** The heap after an operation *)

(** The level of the cell [i] is set, or nothing changes, or a logger is added
    whose output is the default, an argument or that of an existing logger. *)
Inductive heap_step (o : op) h : list (Logger V) → Prop :=
  | heap_same : heap_step o h h
  | heap_level i level : o = OpSetLevel (Some i) level →
      heap_step o h (alter (set_lg_level level) i h)
  | heap_new lg :
      match lg_output lg with
      | File _ => True
      | LoggerAdapter p =>
          (∃ level, o = OpNewLogger level (Some (LoggerAdapter p))) ∨
          (∃ i lg', h !! i = Some lg' ∧ lg_output lg' = LoggerAdapter p)
      end → heap_step o h (h ++ [lg]).

Lemma WithFields_eq i lg fields s : lo_heap s !! i = Some lg →
  WithFields (Some i) fields s = (Ok (Some (length (lo_heap s))),
    set_lo_heap (lo_heap s ++ [mkLogger (lg_level lg) (lg_output lg) (lg_prefix lg)
      (fields ∪ lg_fields lg)]) s).
Proof.
  intros Hi. unfold WithFields. rewrite (deref_bind i lg) by done.
  rewrite !copy_into_union, (right_id_L ∅ (∪)). done.
Qed.

(** [WithField] is [WithFields] of one field. *)
Lemma WithField_WithFields l key value s : WithField l key value s = WithFields l {[key := value]} s.
Proof.
  unfold WithField, WithFields. destruct (deref_cases l s) as [(i & lg & -> & Hi)|Hp].
  - rewrite !(deref_bind i lg) by done.
    by rewrite !copy_into_union, (right_id_L ∅ (∪)), <-insert_union_singleton_l.
  - by rewrite !Hp.
Qed.

Lemma WithFields_heap_step o l fields s : heap_step o (lo_heap s) (lo_heap (WithFields l fields s).2).
Proof.
  destruct (deref_cases l s) as [(i & lg & -> & Hi)|Hp].
  - rewrite (WithFields_eq i lg) by done. apply heap_new. simpl.
    destruct (lg_output lg) eqn:E; [done|]. right. by eexists _, _.
  - unfold WithFields. rewrite Hp. apply heap_same.
Qed.

Lemma exec_heap_step o s : heap_step o (lo_heap s) (lo_heap (exec o s)).
Proof.
  destruct o as [level output|l key value|l fields|l level msg|l level|l]; simpl.
  - apply heap_new. destruct output as [[n|p]|]; [done|left; by eexists|done].
  - rewrite WithField_WithFields. apply WithFields_heap_step.
  - apply WithFields_heap_step.
  - rewrite (proj1 (log_same_loggers l level msg s)). apply heap_same.
  - unfold SetLevel. destruct (deref_cases l s) as [(i & lg & -> & Hi)|Hp].
    + rewrite (deref_bind i lg) by done. simpl. by apply heap_level.
    + rewrite Hp. apply heap_same.
  - apply heap_same.
Qed.

Lemma exec_default o s : lo_default (exec o s) = lo_default s ∨ o = OpSetDefaultLogger (lo_default (exec o s)).
Proof.
  destruct o as [level output|l key value|l fields|l level msg|l level|l]; simpl; try (by right); left.
  - done.
  - unfold WithField. destruct (deref_cases l s) as [(i & lg & -> & Hi)|Hp]; [by rewrite (deref_bind i lg)|by rewrite Hp].
  - unfold WithFields. destruct (deref_cases l s) as [(i & lg & -> & Hi)|Hp]; [by rewrite (deref_bind i lg)|by rewrite Hp].
  - apply log_same_loggers.
  - unfold SetLevel. destruct (deref_cases l s) as [(i & lg & -> & Hi)|Hp]; [by rewrite (deref_bind i lg)|by rewrite Hp].
Qed.

(** ** The invariant *)

Lemma heap_step_well_founded o s h : heap_step o (lo_heap s) h → op_ok o s →
  well_founded_outputs (lo_heap s) → well_founded_outputs h.
Proof.
  intros Hstep Hok Hwf. destruct Hstep as [|i level _|lg Hlg]; [done| |].
  - intros k lg Hk. destruct (decide (i = k)) as [->|Hne].
    + rewrite list_lookup_alter_eq in Hk. apply fmap_Some in Hk as (lg' & Hk & ->). exact (Hwf k lg' Hk).
    + rewrite list_lookup_alter_ne in Hk by done. by apply Hwf.
  - intros k lg' [Hk|[Hlen Hk]]%lookup_app_Some; [by apply Hwf|].
    destruct (k - length (lo_heap s))%nat as [|d] eqn:E; simplify_eq/=.
    destruct (lg_output lg') as [n|p] eqn:Ep; [done|].
    destruct Hlg as [[level ->]|(i & lg0 & Hi & Hp)].
    + destruct Hok as (j & -> & Hj). exists j. split; [done|lia].
    + assert (Hi' := lookup_lt_Some _ _ _ Hi). specialize (Hwf i lg0 Hi). rewrite Hp in Hwf.
      destruct Hwf as (j & -> & Hj). exists j. split; [done|lia].
Qed.

Lemma heap_step_length o h h' : heap_step o h h' → (length h ≤ length h')%nat.
Proof. destruct 1; rewrite ?length_alter, ?length_app; lia. Qed.

Lemma loggers_invariant s : reachable s →
  well_founded_outputs (lo_heap s) ∧ valid (lo_heap s) (lo_default s).
Proof.
  induction 1 as [|o s Hs [Hwf (d & Hd & Hlt)] Hok].
  - split; [|exists 0%nat; simpl; split; [done|lia]]. intros [|i] lg Hlg; by simplify_eq/=.
  - assert (Hstep := exec_heap_step o s). split; [by eapply heap_step_well_founded|].
    apply heap_step_length in Hstep.
    destruct (exec_default o s) as [->|Ho]; [exists d; split; [done|lia]|].
    rewrite Ho in Hok. simpl in Hok. destruct Hok as (i & Hi & Hlen).
    exists i. split; [done|lia].
Qed.

(** ** The theorems *)

(** C18. A call of a logger returns; it writes one line that has the message, to the
    file at the end of its chain of adapters, if every logger of the chain lets
    it pass, and nothing otherwise; it changes no logger. *)
Theorem logging_writes_one_line s i level msg :
  reachable s → (i < length (lo_heap s))%nat →
  ∃ path n line, chain (lo_heap s) i path n ∧ contains msg line ∧
    (log (Some i) level msg s).1 = Ok tt ∧
    lo_heap (log (Some i) level msg s).2 = lo_heap s ∧
    lo_default (log (Some i) level msg s).2 = lo_default s ∧
    lo_written (log (Some i) level msg s).2 =
      lo_written s ++ (if passes level path then [(n, line)] else []).
Proof.
  intros [Hwf _]%loggers_invariant Hi.
  destruct (chain_exists _ Hwf i Hi) as (path & n & Hc & Hlen).
  destruct (log_within_chain _ _ _ _ Hc (length (lo_heap s)) level msg s) as (line & Hm & Hr);
    [done|lia|].
  by exists path, n, line.
Qed.

(** What is done with other loggers, later or to its parent, does not change
    the fields, the output, the prefix or the level of a derived logger. *)
Theorem derived_logger_is_a_snapshot s i lg fields :
  lo_heap s !! i = Some lg →
  let k := length (lo_heap s) in
  (WithFields (Some i) fields s).1 = Ok (Some k) ∧
  ∀ ops, (∀ level, OpSetLevel (Some k) level ∉ ops) →
    lo_heap (foldl (λ s o, exec o s) (WithFields (Some i) fields s).2 ops) !! k =
      Some (mkLogger (lg_level lg) (lg_output lg) (lg_prefix lg) (fields ∪ lg_fields lg)).
Proof.
  intros Hi k. rewrite (WithFields_eq i lg) by done. split; [done|]. intros ops.
  assert (Hk : lo_heap (set_lo_heap (lo_heap s ++ [mkLogger (lg_level lg) (lg_output lg) (lg_prefix lg)
    (fields ∪ lg_fields lg)]) s) !! k = Some (mkLogger (lg_level lg) (lg_output lg) (lg_prefix lg)
    (fields ∪ lg_fields lg))) by (simpl; by apply list_lookup_middle).
  simpl (_.2). revert Hk. generalize (set_lo_heap (lo_heap s ++ [mkLogger (lg_level lg) (lg_output lg)
    (lg_prefix lg) (fields ∪ lg_fields lg)]) s). clear Hi.
  induction ops as [|o ops IH]; intros s' Hk Hops; [done|]. simpl. apply IH.
  - destruct (exec_heap_step o s') as [|j level ->|lg' _]; [done| |].
    + rewrite list_lookup_alter_ne; [done|]. intros ->. apply (Hops level). by left.
    + by apply lookup_app_l_Some.
  - intros level Hin. apply (Hops level). by right.
Qed.

(** The number of line feeds. *)
Fixpoint line_feeds (s : string) : nat :=
  match s with
  | EmptyString => 0
  | String c s => (if bool_decide (c = "010"%char) then 1 else 0) + line_feeds s
  end.

Lemma line_feeds_app t1 t2 : line_feeds (t1 +:+ t2) = (line_feeds t1 + line_feeds t2)%nat.
Proof.
  induction t1 as [|c t1 IH]; [done|]. rewrite string_app_cons. simpl. rewrite IH. lia.
Qed.

Lemma ends_line_feeds t : ends_line t = true → (1 ≤ line_feeds t)%nat.
Proof.
  induction t as [|c t IH]; [done|]. simpl. destruct t as [|c' t].
  - intros ->%bool_decide_eq_true. done.
  - intros Ht%IH. lia.
Qed.

Lemma log_line_feeds lg now level msg :
  (line_feeds msg + 1 ≤ line_feeds (log_line lg now level msg))%nat.
Proof. unfold log_line. cbv zeta. case_bool_decide; rewrite !line_feeds_app; simpl; lia. Qed.

Lemma log_File s i lg n level msg : lo_heap s !! i = Some lg → lg_output lg = File n →
  lg_level lg ≤ level →
  log (Some i) level msg s = write_file n (log_line lg (rt_now (lo_tick s)) level msg) (read_clock s).2.
Proof.
  intros Hi Ho Hl. unfold log, mbind, M_bind, get. cbv beta iota.
  assert ((level <? lg_level lg) = false) as E by lia.
  destruct (length (lo_heap s)) as [|fuel]; simpl log_within; rewrite (deref_bind i lg) by done;
    rewrite E, Ho; done.
Qed.

(** The standard logger ends each message with a line feed, and [log] puts the
    fields and a line feed after it: a message takes two lines. *)
Theorem std_logger_breaks_lines s i lg n msg :
  lo_heap s !! i = Some lg → lg_output lg = File n → lg_level lg ≤ LogLevelInfo →
  ∃ chunk, lo_written (std_Print (StdLogger (Some i)) msg s).2 = lo_written s ++ [(n, chunk)] ∧
    (2 ≤ line_feeds chunk)%nat.
Proof.
  intros Hi Ho Hl. unfold std_Print, StdLogger, NewLoggerAdapter. cbv zeta.
  set (m := if ends_line msg then msg else msg +:+ nl).
  assert (1 ≤ line_feeds m)%nat as Hm.
  { subst m. destruct (ends_line msg) eqn:E; [by apply ends_line_feeds|]. rewrite line_feeds_app. simpl. lia. }
  exists (log_line lg (rt_now (lo_tick s)) LogLevelInfo m).
  assert (Hlog := log_File s i lg n LogLevelInfo m Hi Ho Hl).
  split; [|assert (Hf := log_line_feeds lg (rt_now (lo_tick s)) LogLevelInfo m); lia].
  unfold adapter_Write, Info_, mbind, M_bind. by rewrite Hlog.
Qed.

(** Every field is in the line once, in the order of the iteration. *)
Lemma fields_text_pieces m : fields_text m =
  (if bool_decide (m = ∅) then "" else " " +:+ String.concat "" (field_text <$> map_range m)).
Proof.
  unfold fields_text. case_bool_decide; [done|]. generalize (map_range m) " ".
  intros l. induction l as [|kv l IH]; intros t; simpl; [by rewrite string_app_empty_r|].
  rewrite IH, string_app_assoc. f_equal. destruct l; simpl; [by rewrite string_app_empty_r|done].
Qed.
End props.

(** ** Examples *)

Section examples.
#[local] Instance demo_fmt : Fmt string := {| show := λ v, v; Sprintf := λ f args, f +:+ String.concat "," args |}.
#[local] Instance demo_range : MapRange := map_range_default.
#[local] Program Instance demo_clock : Runtime :=
  {| rt_now := λ i, 63900000000 * Second + Z.of_nat i; rt_intn := λ _ _, 0 |}.
Next Obligation. simpl. lia. Qed.
Next Obligation. simpl. lia. Qed.

(** The default logger, one with two fields, and one that writes through an
    adapter of the second. *)
Definition demo_ops : list (op (V := string)) :=
  [OpWithField (Some 0%nat) "queue" "mail"; OpWithField (Some 1%nat) "worker" "w1";
   OpNewLogger LogLevelDebug (Some (LoggerAdapter (Some 2%nat)))].

Definition demo_logs : Logs string := foldl (λ s o, exec o s) init_logs demo_ops.

Lemma demo_logs_reachable : reachable demo_logs.
Proof.
  unfold demo_logs, demo_ops. cbn [foldl].
  apply reachable_op; [apply reachable_op; [apply reachable_op; [apply reachable_init|]|]|]; try done.
  exists 2%nat. split; [done|]. vm_compute. lia.
Qed.

Example log_to_stdout : (lo_written (log (Some 2%nat) LogLevelWarn "slow" demo_logs).2) =
  [(0%nat, "[2025-11-29T08:00:00Z] WARN: slow worker=w1 queue=mail " +:+ nl)].
Proof. vm_compute. reflexivity. Qed.

Lemma logging_writes_one_line_witness :
  lo_written (log (Some 3%nat) LogLevelDebug "hello" demo_logs).2 ≠ [] ∧
  ∃ path n line, chain (lo_heap demo_logs) 3 path n ∧ contains "hello" line ∧
    (log (Some 3%nat) LogLevelDebug "hello" demo_logs).1 = Ok tt ∧
    lo_heap (log (Some 3%nat) LogLevelDebug "hello" demo_logs).2 = lo_heap demo_logs ∧
    lo_default (log (Some 3%nat) LogLevelDebug "hello" demo_logs).2 = lo_default demo_logs ∧
    lo_written (log (Some 3%nat) LogLevelDebug "hello" demo_logs).2 =
      lo_written demo_logs ++ (if passes LogLevelDebug path then [(n, line)] else []).
Proof.
  split; [by vm_compute|].
  apply (logging_writes_one_line demo_logs 3 LogLevelDebug "hello" demo_logs_reachable). vm_compute. lia.
Defined.

Lemma derived_logger_is_a_snapshot_witness :
  lo_heap (foldl (λ s o, exec o s) (WithFields (Some 1%nat) {["job" := "7"]} demo_logs).2
    [OpSetLevel (Some 1%nat) LogLevelError]) !! 4%nat =
    Some (mkLogger LogLevelInfo Stdout "" ({["job" := "7"]} ∪ {["queue" := "mail"]})).
Proof.
  refine (proj2 (derived_logger_is_a_snapshot demo_logs 1
    (mkLogger LogLevelInfo Stdout "" {["queue" := "mail"]}) {["job" := "7"]} _) _ _).
  - by vm_compute.
  - intros level Hin. apply list_elem_of_singleton in Hin. by simplify_eq.
Defined.

Lemma std_logger_breaks_lines_witness : ∃ chunk,
  lo_written (std_Print (StdLogger (Some 0%nat)) "started" demo_logs).2 = lo_written demo_logs ++ [(0%nat, chunk)] ∧
  (2 ≤ line_feeds chunk)%nat.
Proof.
  apply (std_logger_breaks_lines demo_logs 0 (mkLogger LogLevelInfo Stdout "" ∅) 0 "started");
    [by vm_compute|done|done].
Defined.
End examples.
