(* ===== verification/Monitoring.v ===== *)
(** * Prometheus metrics (internal/monitoring/metrics.go)

    The client library of Prometheus is a class of parameters ([Prometheus]);
    [PrometheusLaws] states its documented behaviour as programs on a registry
    of families of series. [GetMetrics] registers the eleven metrics once, and
    each method of [Metrics] updates one or two series. *)

From S2P Require Import Prelude GoMonad Job RateLimit Json.
From Stdlib Require Import Ascii.

(** ** The registry of Prometheus *)

Inductive Kind : Type := CounterVec | GaugeVec | HistogramVec | Gauge.

(** The options of a metric, and its variable labels. *)
Record Desc : Type := mkDesc {
  d_kind : Kind;
  d_name : string;
  d_help : string;
  d_buckets : list PrimFloat.float;
  d_labels : list string;
}.

(** What the client keeps of a series: a counter (a [uint64]); the value of a
    gauge; of a histogram the number of observations up to each upper bound, and
    of all. The sum of the observations is not part of it: the client adds
    floating-point numbers in an order that depends on the scrapes. *)
Inductive Sample : Type :=
  | Count (n : Z)
  | Value (v : PrimFloat.float)
  | Buckets (le : list (PrimFloat.float * Z)) (n : Z).

(** A [uint64]. *)
Definition wrapu64 (z : Z) : Z := z mod 2 ^ 64.

Record Family : Type := mkFamily {
  fam_desc : Desc;
  fam_series : gmap (list string) Sample;
}.

Abbreviation Registry := (gmap string Family).

Definition initial (k : Kind) (buckets : list PrimFloat.float) : Sample :=
  match k with
  | CounterVec => Count 0
  | GaugeVec | Gauge => Value PrimFloat.zero
  | HistogramVec => Buckets ((λ b, (b, 0)) <$> buckets) 0
  end.

(** A change of a series. *)
Inductive Update : Type :=
  | Inc
  | Set_ (v : PrimFloat.float)
  | Observe (v : PrimFloat.float).

Definition apply_update (u : Update) (x : Sample) : Sample :=
  match u, x with
  | Inc, Count n => Count (wrapu64 (n + 1))
  | Set_ v, Value _ => Value v
  | Observe v, Buckets le n =>
      Buckets ((λ x, (x.1, if PrimFloat.leb v x.1 then wrapu64 (x.2 + 1) else x.2)) <$> le) (wrapu64 (n + 1))
  | _, _ => x
  end.

(** [promauto.New...] panics on a name that is taken; [WithLabelValues] panics on
    a wrong number of values and on a value that is not UTF-8. [series d u] is
    the call of [u] on the child of [d] with these values. *)
Class Prometheus (R : Type) := {
  valid_utf8 : string → bool;
  ExponentialBuckets : PrimFloat.float → PrimFloat.float → Z → list PrimFloat.float;
  promauto_New : Desc → M R unit;
  series : string → list string → Update → M R unit;
}.

Section registry.
Variable valid : string → bool.

Definition register (d : Desc) : M Registry unit :=
  r ← get;
  match r !! d_name d with
  | Some _ => panic "duplicate metrics collector registration attempted"
  | None =>
      modify <[d_name d := mkFamily d
        (match d_kind d with Gauge => {[ [] := initial Gauge [] ]} | _ => ∅ end)]>
  end.

Definition update_series (labels : list string) (u : Update) (f : Family) : Family :=
  mkFamily (fam_desc f)
    (<[labels := apply_update u
      (default (initial (d_kind (fam_desc f)) (d_buckets (fam_desc f))) (fam_series f !! labels))]>
      (fam_series f)).

Definition change (name : string) (labels : list string) (u : Update) : M Registry unit :=
  r ← get;
  match r !! name with
  | None => panic "nil pointer dereference"
  | Some f =>
      if negb (length labels =? length (d_labels (fam_desc f)))%nat then panic "inconsistent label cardinality"
      else if negb (forallb valid labels) then panic "label value is not valid UTF-8"
      else modify <[name := update_series labels u f]>
  end.
End registry.

Fixpoint ascii_only (s : string) : bool :=
  match s with
  | EmptyString => true
  | String c s => (N_of_ascii c <? 128)%N && ascii_only s
  end.

(** The bounds of [prometheus.ExponentialBuckets]: [n] of them, the lowest being
    [start] and each other one [factor] times the one before. *)
Fixpoint exponential (start factor : PrimFloat.float) (n : nat) : list PrimFloat.float :=
  match n with
  | O => []
  | S n => start :: exponential (PrimFloat.mul start factor) factor n
  end.

Class PrometheusLaws (R : Type) `{Prometheus R} := {
  registry : R → Registry;
  law_ascii s : ascii_only s = true → valid_utf8 s = true;
  law_ExponentialBuckets start factor n : 0 < n →
    PrimFloat.ltb PrimFloat.zero start = true → PrimFloat.ltb PrimFloat.one factor = true →
    ExponentialBuckets start factor n = exponential start factor (Z.to_nat n);
  law_New d : refines registry (promauto_New d) (register d);
  law_series name labels u : refines registry (series name labels u) (change valid_utf8 name labels u);
}.

(** The registry as a client of its own. *)
Definition registry_client (valid : string → bool) : Prometheus Registry :=
  {| valid_utf8 := valid; ExponentialBuckets := λ start factor n, exponential start factor (Z.to_nat n);
     promauto_New := register; series := change valid |}.

Program Definition registry_client_laws valid (Hv : ∀ s, ascii_only s = true → valid s = true) :
    @PrometheusLaws Registry (registry_client valid) :=
  {| registry := λ r, r |}.
Next Obligation. intros valid Hv s. apply Hv. Qed.
Next Obligation. done. Qed.
Next Obligation. intros valid Hv d r. simpl. by destruct (register d r). Qed.
Next Obligation. intros valid Hv name labels u r. simpl. by destruct (change valid name labels u r). Qed.

(** ** Metrics *)

(** [type Metrics struct]: each field is the metric of a name. *)
Record Metrics : Type := mkMetrics {
  JobsCreated : string;
  JobsCompleted : string;
  JobsFailed : string;
  JobsRetried : string;
  JobDuration : string;
  QueueLength : string;
  QueuePaused : string;
  WorkersActive : string;
  WorkerJobsTotal : string;
  WorkerJobsCurrent : string;
  SystemUptime : string;
}.

(** [once], [instance] and the default registry. *)
Record Mon (R : Type) : Type := mkMon {
  mo_done : bool;
  mo_instance : option Metrics;
  mo_registry : R;
}.
Arguments mkMon {R}.
Arguments mo_done {R}.
Arguments mo_instance {R}.
Arguments mo_registry {R}.

(** [float64(0.1)] and [float64(2)]. *)
Definition float_tenth : PrimFloat.float := PrimFloat.div (float64_of_int64 1) (float64_of_int64 10).

Section metrics.
Context {R : Type} `{Prometheus R}.

Definition on_registry {A} (m : M R A) : M (Mon R) A := λ s,
  let r := m (mo_registry s) in (r.1, mkMon (mo_done s) (mo_instance s) r.2).

(** The metric is registered, and its name is the handle. *)
Definition make (k : Kind) (name help : string) (buckets : list PrimFloat.float) (labels : list string) :
    M (Mon R) string :=
  on_registry (promauto_New (mkDesc k name help buckets labels)) ;; mret name.

Definition new_metrics : M (Mon R) Metrics :=
  created ← make CounterVec "taskqueue_jobs_created_total" "Total number of jobs created" [] ["queue"; "type"];
  completed ← make CounterVec "taskqueue_jobs_completed_total" "Total number of jobs completed successfully" []
    ["queue"; "type"];
  failed ← make CounterVec "taskqueue_jobs_failed_total" "Total number of jobs failed" [] ["queue"; "type"];
  retried ← make CounterVec "taskqueue_jobs_retried_total" "Total number of job retries" [] ["queue"; "type"];
  duration ← make HistogramVec "taskqueue_job_duration_seconds" "Job execution duration in seconds"
    (ExponentialBuckets float_tenth (float64_of_int64 2) 10) ["queue"; "type"; "status"];
  length ← make GaugeVec "taskqueue_queue_length" "Current number of jobs in queue" [] ["queue"];
  paused ← make GaugeVec "taskqueue_queue_paused" "Whether queue is paused (1) or not (0)" [] ["queue"];
  active ← make Gauge "taskqueue_workers_active" "Number of active workers" [] [];
  total ← make CounterVec "taskqueue_worker_jobs_total" "Total number of jobs processed by worker" []
    ["worker_id"; "status"];
  current ← make GaugeVec "taskqueue_worker_jobs_current" "Current number of jobs being processed by worker" []
    ["worker_id"];
  uptime ← make Gauge "taskqueue_system_uptime_seconds" "System uptime in seconds" [] [];
  mret (mkMetrics created completed failed retried duration length paused active total current uptime).

(** [once.Do] runs its function at the first call, also if it panics. *)
Definition GetMetrics : M (Mon R) (option Metrics) :=
  s ← get;
  (if mo_done s then mret tt
   else
     modify (λ s, mkMon true (mo_instance s) (mo_registry s)) ;;
     m ← new_metrics;
     modify (λ s, mkMon (mo_done s) (Some m) (mo_registry s))) ;;
  s ← get; mret (mo_instance s).

(** A method of a nil pointer panics. *)
Definition with_metrics (m : option Metrics) (f : Metrics → M (Mon R) unit) : M (Mon R) unit :=
  match m with Some m => f m | None => panic "nil pointer dereference" end.

Definition child (name : string) (labels : list string) (u : Update) : M (Mon R) unit :=
  on_registry (series name labels u).

Definition RecordJobCreated (m : option Metrics) (queue jobType : string) : M (Mon R) unit :=
  with_metrics m (λ m, child (JobsCreated m) [queue; jobType] Inc).

Definition RecordJobCompleted (m : option Metrics) (queue jobType : string) (duration : Duration) :
    M (Mon R) unit :=
  with_metrics m (λ m,
    child (JobsCompleted m) [queue; jobType] Inc ;;
    child (JobDuration m) [queue; jobType; "success"] (Observe (Seconds duration))).

Definition RecordJobFailed (m : option Metrics) (queue jobType : string) (duration : Duration) :
    M (Mon R) unit :=
  with_metrics m (λ m,
    child (JobsFailed m) [queue; jobType] Inc ;;
    child (JobDuration m) [queue; jobType; "failed"] (Observe (Seconds duration))).

Definition RecordJobRetried (m : option Metrics) (queue jobType : string) : M (Mon R) unit :=
  with_metrics m (λ m, child (JobsRetried m) [queue; jobType] Inc).

Definition SetQueueLength (m : option Metrics) (queue : string) (length : Z) : M (Mon R) unit :=
  with_metrics m (λ m, child (QueueLength m) [queue] (Set_ (float64_of_int64 length))).

Definition SetQueuePaused (m : option Metrics) (queue : string) (paused : bool) : M (Mon R) unit :=
  let value := if paused then float64_of_int64 1 else float64_of_int64 0 in
  with_metrics m (λ m, child (QueuePaused m) [queue] (Set_ value)).

Definition SetWorkersActive (m : option Metrics) (count : Z) : M (Mon R) unit :=
  with_metrics m (λ m, child (WorkersActive m) [] (Set_ (float64_of_int64 count))).

Definition RecordWorkerJob (m : option Metrics) (workerID status : string) : M (Mon R) unit :=
  with_metrics m (λ m, child (WorkerJobsTotal m) [workerID; status] Inc).

Definition SetWorkerJobsCurrent (m : option Metrics) (workerID : string) (count : Z) : M (Mon R) unit :=
  with_metrics m (λ m, child (WorkerJobsCurrent m) [workerID] (Set_ (float64_of_int64 count))).

(** [time.Since(startTime)] at the time [now]. *)
Definition UpdateSystemUptime (m : option Metrics) (startTime now : Time) : M (Mon R) unit :=
  with_metrics m (λ m, child (SystemUptime m) [] (Set_ (Seconds (Sub now startTime)))).
End metrics.

(** ** The server *)

(** [rune(port)], a 32-bit integer. *)
Definition rune (z : Z) : Z := (z + 2 ^ 31) mod 2 ^ 32 - 2 ^ 31.

(** [string(r)]: the UTF-8 of the code point [r], or U+FFFD if there is none. *)
Definition string_of_rune (r : Z) : string :=
  if (0 <=? r) && (r <=? 1114111) && negb ((55296 <=? r) && (r <=? 57343))
  then put_utf8 (Z.to_N r) "" else put_utf8 replacement "".

(** The address of the server that [NewMetricsServer] makes. *)
Definition NewMetricsServer (addr : string) (port : Z) : string :=
  addr +:+ ":" +:+ string_of_rune (rune port).
