(* ===== verification/MonitoringProps.v ===== *)
(** * Theorems on the metrics

    The series of the metrics are exactly the events that were recorded, for
    every client library that does what its documentation says; the address of
    the metrics server. *)

From S2P Require Import Prelude GoMonad Job Decimal RateLimit Json Monitoring.
From Stdlib Require Import Ascii.

(** ** Series *)

Definition sample_of (r : Registry) (name : string) (labels : list string) : Sample :=
  match r !! name with
  | Some f => default (initial (d_kind (fam_desc f)) (d_buckets (fam_desc f))) (fam_series f !! labels)
  | None => Count 0
  end.

(** The metric [name] exists, is of the kind [k] and has [n] labels. *)
Definition has (r : Registry) (name : string) (k : Kind) (n : nat) : Prop :=
  ∃ f, r !! name = Some f ∧ d_kind (fam_desc f) = k ∧ length (d_labels (fam_desc f)) = n.

Section change.
Context (valid : string → bool).

(** A change of a registered metric succeeds, changes one series, and keeps
    every metric. *)
Lemma change_ok r name k labels u :
  has r name k (length labels) → forallb valid labels = true →
  ∃ r', change valid name labels u r = (Ok tt, r') ∧
    (∀ name' labels', sample_of r' name' labels' =
      if bool_decide (name' = name ∧ labels' = labels) then apply_update u (sample_of r name labels)
      else sample_of r name' labels') ∧
    (∀ name' k' n', has r name' k' n' → has r' name' k' n').
Proof.
  intros (f & Hf & Hk & Hn) Hv. unfold change, mbind, M_bind, get. cbv beta iota.
  rewrite Hf, Hn, Nat.eqb_refl, Hv. simpl. eexists. split; [done|]. split.
  - intros name' labels'. unfold sample_of. destruct (decide (name' = name)) as [->|Hne].
    + rewrite lookup_insert_eq, Hf. simpl. destruct (decide (labels' = labels)) as [->|Hne].
      * by rewrite lookup_insert_eq, bool_decide_eq_true_2.
      * rewrite lookup_insert_ne by done. rewrite bool_decide_eq_false_2; [done|]. by intros [_ ->].
    + rewrite lookup_insert_ne by done. rewrite bool_decide_eq_false_2; [done|]. by intros [-> _].
  - intros name' k' n' (f' & Hf' & Hk' & Hn'). destruct (decide (name' = name)) as [->|Hne].
    + rewrite Hf in Hf'. simplify_eq. eexists. by rewrite lookup_insert_eq.
    + eexists. by rewrite lookup_insert_ne.
Qed.
End change.

(** ** Events *)

Inductive event : Type :=
  | Created (queue jobType : string)
  | Completed (queue jobType : string) (duration : Duration)
  | Failed (queue jobType : string) (duration : Duration)
  | Retried (queue jobType : string)
  | QueueIs (queue : string) (length : Z)
  | PausedIs (queue : string) (paused : bool)
  | ActiveIs (count : Z)
  | WorkerDid (workerID status : string)
  | WorkerHas (workerID : string) (count : Z)
  | UpFor (startTime now : Time).

(** The strings of an event, which become label values. *)
Definition texts_of (e : event) : list string :=
  match e with
  | Created q t | Completed q t _ | Failed q t _ | Retried q t | WorkerDid q t => [q; t]
  | QueueIs q _ | PausedIs q _ | WorkerHas q _ => [q]
  | ActiveIs _ | UpFor _ _ => []
  end.

(** The changes that an event makes. *)
Definition updates_of (e : event) : list (string * list string * Update) :=
  match e with
  | Created q t => [("taskqueue_jobs_created_total", [q; t], Inc)]
  | Completed q t d => [("taskqueue_jobs_completed_total", [q; t], Inc);
      ("taskqueue_job_duration_seconds", [q; t; "success"], Observe (Seconds d))]
  | Failed q t d => [("taskqueue_jobs_failed_total", [q; t], Inc);
      ("taskqueue_job_duration_seconds", [q; t; "failed"], Observe (Seconds d))]
  | Retried q t => [("taskqueue_jobs_retried_total", [q; t], Inc)]
  | QueueIs q n => [("taskqueue_queue_length", [q], Set_ (float64_of_int64 n))]
  | PausedIs q b => [("taskqueue_queue_paused", [q], Set_ (float64_of_int64 (if b then 1 else 0)))]
  | ActiveIs n => [("taskqueue_workers_active", [], Set_ (float64_of_int64 n))]
  | WorkerDid w st => [("taskqueue_worker_jobs_total", [w; st], Inc)]
  | WorkerHas w n => [("taskqueue_worker_jobs_current", [w], Set_ (float64_of_int64 n))]
  | UpFor t now => [("taskqueue_system_uptime_seconds", [], Set_ (Seconds (Sub now t)))]
  end.

(** The changes of one series, in their order. *)
Definition changes_of (name : string) (labels : list string) (es : list event) : list Update :=
  (filter (λ u, u.1 = (name, labels)) (es ≫= updates_of)).*2.

(** The names, kinds and numbers of labels of [GetMetrics]. *)
Definition families : list (string * Kind * nat) :=
  [("taskqueue_jobs_created_total", CounterVec, 2%nat); ("taskqueue_jobs_completed_total", CounterVec, 2%nat);
   ("taskqueue_jobs_failed_total", CounterVec, 2%nat); ("taskqueue_jobs_retried_total", CounterVec, 2%nat);
   ("taskqueue_job_duration_seconds", HistogramVec, 3%nat); ("taskqueue_queue_length", GaugeVec, 1%nat);
   ("taskqueue_queue_paused", GaugeVec, 1%nat); ("taskqueue_workers_active", Gauge, 0%nat);
   ("taskqueue_worker_jobs_total", CounterVec, 2%nat); ("taskqueue_worker_jobs_current", GaugeVec, 1%nat);
   ("taskqueue_system_uptime_seconds", Gauge, 0%nat)].

(** The upper bounds of the histogram: 0.1, 0.2, ..., 51.2. *)
Definition duration_bounds : list PrimFloat.float :=
  exponential float_tenth (float64_of_int64 2) 10.

(** Every metric is registered. *)
Definition complete (r : Registry) : Prop := Forall (λ x, has r x.1.1 x.1.2 x.2) families.

(** ** The methods *)

Section record.
Context {R : Type} `{Prometheus R}.

Definition record (m : option Metrics) (e : event) : M (Mon R) unit :=
  match e with
  | Created q t => RecordJobCreated m q t
  | Completed q t d => RecordJobCompleted m q t d
  | Failed q t d => RecordJobFailed m q t d
  | Retried q t => RecordJobRetried m q t
  | QueueIs q n => SetQueueLength m q n
  | PausedIs q b => SetQueuePaused m q b
  | ActiveIs n => SetWorkersActive m n
  | WorkerDid w st => RecordWorkerJob m w st
  | WorkerHas w n => SetWorkerJobsCurrent m w n
  | UpFor t now => UpdateSystemUptime m t now
  end.

Fixpoint record_all (m : option Metrics) (es : list event) : M (Mon R) unit :=
  match es with
  | [] => mret tt
  | e :: es => record m e ;; record_all m es
  end.

(** A process that gets the metrics before each of its events. *)
Fixpoint process (es : list event) : M (Mon R) unit :=
  match es with
  | [] => mret tt
  | e :: es => m ← GetMetrics; record m e ;; process es
  end.
End record.

(** The metrics that [GetMetrics] makes. *)
Definition the_metrics : Metrics :=
  mkMetrics "taskqueue_jobs_created_total" "taskqueue_jobs_completed_total" "taskqueue_jobs_failed_total"
    "taskqueue_jobs_retried_total" "taskqueue_job_duration_seconds" "taskqueue_queue_length"
    "taskqueue_queue_paused" "taskqueue_workers_active" "taskqueue_worker_jobs_total"
    "taskqueue_worker_jobs_current" "taskqueue_system_uptime_seconds".

Section laws.
Context {R : Type} `{HP : PrometheusLaws R}.
Implicit Types (r : R) (s : Mon R).

(** A change of a client's registry, as [change_ok] has it of the registry. *)
Lemma child_ok name k labels u s :
  has (registry (mo_registry s)) name k (length labels) → forallb valid_utf8 labels = true →
  ∃ s', child name labels u s = (Ok tt, s') ∧ mo_done s' = mo_done s ∧ mo_instance s' = mo_instance s ∧
    (∀ name' labels', sample_of (registry (mo_registry s')) name' labels' =
      if bool_decide (name' = name ∧ labels' = labels)
      then apply_update u (sample_of (registry (mo_registry s)) name labels)
      else sample_of (registry (mo_registry s)) name' labels') ∧
    (∀ name' k' n', has (registry (mo_registry s)) name' k' n' → has (registry (mo_registry s')) name' k' n').
Proof.
  intros Hh Hv. destruct (change_ok valid_utf8 _ _ _ _ u Hh Hv) as (r' & Hr & Hs & Hk).
  destruct (refines_run _ _ _ _ _ _ (law_series name labels u) Hr) as [H1 H2].
  eexists. split; [unfold child, on_registry; by rewrite H1|]. simpl. rewrite H2. done.
Qed.

(** The changes of an event, one after the other. *)
Fixpoint apply_all (us : list (string * list string * Update)) : M (Mon R) unit :=
  match us with
  | [] => mret tt
  | (name, labels, u) :: us => child name labels u ;; apply_all us
  end.

Lemma apply_all_app us1 us2 s : apply_all (us1 ++ us2) s = (apply_all us1 ;; apply_all us2) s.
Proof.
  revert s. induction us1 as [|[[name labels] u] us1 IH]; intros s; [done|]. simpl.
  unfold mbind, M_bind. destruct (child name labels u s) as [[[]|e|p] s']; [|done..]. apply IH.
Qed.

Lemma apply_all_one name labels u s : apply_all [(name, labels, u)] s = child name labels u s.
Proof. simpl. unfold mbind, M_bind. by destruct (child name labels u s) as [[[]|e|p] s']. Qed.

Lemma apply_all_two n1 l1 u1 n2 l2 u2 s :
  apply_all [(n1, l1, u1); (n2, l2, u2)] s = (child n1 l1 u1 ;; child n2 l2 u2) s.
Proof.
  change (apply_all [(n1, l1, u1); (n2, l2, u2)] s) with ((child n1 l1 u1 ;; apply_all [(n2, l2, u2)]) s).
  unfold mbind, M_bind. destruct (child n1 l1 u1 s) as [[[]|e|p] s']; [|done..]. apply apply_all_one.
Qed.

Lemma record_updates e s : record (Some the_metrics) e s = apply_all (updates_of e) s.
Proof.
  destruct e; simpl updates_of; rewrite ?apply_all_one, ?apply_all_two; try done.
  by destruct paused.
Qed.

(** A change that is of a registered metric, with values in UTF-8. *)
Definition update_ok (x : string * list string * Update) : Prop :=
  (∃ k, (x.1.1, k, length x.1.2) ∈ families) ∧ forallb valid_utf8 x.1.2 = true.

Definition event_ok (e : event) : Prop := Forall (λ t, valid_utf8 t = true) (texts_of e).

Lemma event_updates_ok e : event_ok e → Forall update_ok (updates_of e).
Proof.
  assert (Hs : valid_utf8 "success" = true) by by apply law_ascii.
  assert (Hf : valid_utf8 "failed" = true) by by apply law_ascii.
  unfold event_ok. destruct e; simpl; intros He; rewrite ?Forall_cons in He;
    rewrite !Forall_cons; split_and?; try apply Forall_nil_2;
    (split; simpl; [eexists; apply list_elem_of_In; simpl; by eauto 20|]);
    rewrite ?andb_true_iff; naive_solver.
Qed.

(** What a series holds after some changes. *)
Definition after_updates (us : list Update) (x : Sample) : Sample := foldl (flip apply_update) x us.

Lemma apply_all_ok us s :
  complete (registry (mo_registry s)) → Forall update_ok us →
  ∃ s', apply_all us s = (Ok tt, s') ∧ mo_done s' = mo_done s ∧ mo_instance s' = mo_instance s ∧
    complete (registry (mo_registry s')) ∧
    ∀ name labels, sample_of (registry (mo_registry s')) name labels =
      after_updates (filter (λ u, u.1 = (name, labels)) us).*2 (sample_of (registry (mo_registry s)) name labels).
Proof.
  intros Hc Hus. revert s Hc. induction Hus as [|[[name labels] u] us [[k Hk] Hv] _ IH]; intros s Hc.
  { by exists s. }
  simpl in Hk, Hv. unfold complete in Hc. rewrite Forall_forall in Hc.
  destruct (child_ok name k labels u s (Hc _ Hk) Hv) as (s1 & H1 & Hd & Hi & Hs & Hh).
  destruct (IH s1) as (s2 & H2 & Hd2 & Hi2 & Hc2 & Hs2).
  { unfold complete. rewrite Forall_forall. intros x Hx. by apply Hh, Hc. }
  exists s2. split_and!; [|congruence|congruence|done|].
  - simpl. unfold mbind, M_bind. by rewrite H1.
  - intros name' labels'. rewrite Hs2, Hs, filter_cons. simpl. case_bool_decide as Hb.
    + destruct Hb as [-> ->]. by rewrite decide_True.
    + rewrite decide_False; [done|]. intros [= <- <-]. by apply Hb.
Qed.

(** ** The first call of [GetMetrics] *)

Definition mon_data (s : Mon R) : Mon Registry :=
  mkMon (mo_done s) (mo_instance s) (registry (mo_registry s)).

Abbreviation own_client := (registry_client valid_utf8).

Lemma refines_on_registry {A} (m : M R A) f : refines registry m f →
  refines mon_data (on_registry m) (on_registry f).
Proof. intros Hm s. unfold on_registry. simpl. by rewrite Hm. Qed.

Lemma refines_make k name help b l :
  refines mon_data (make k name help b l) (make (H := own_client) k name help b l).
Proof. apply refines_bind; [apply refines_on_registry, law_New|by intros _ s]. Qed.

Lemma refines_new_metrics : refines mon_data new_metrics (new_metrics (H := own_client)).
Proof.
  unfold new_metrics. rewrite (law_ExponentialBuckets float_tenth (float64_of_int64 2) 10) by done.
  repeat (apply refines_bind; [apply refines_make|intros ?]). apply refines_ret.
Qed.

Lemma refines_GetMetrics : refines mon_data GetMetrics (GetMetrics (H := own_client)).
Proof.
  intros s. unfold GetMetrics, get. unfold mbind at 1 3, M_bind. cbv beta iota.
  change (mo_done (mon_data s)) with (mo_done s).
  eapply (refines_bind mon_data _ _ (λ _ s, (Ok (mo_instance s), s))
    (λ _ (s : Mon Registry), (Ok (mo_instance s), s)));
    [|by intros _ s'].
  destruct (mo_done s); [apply refines_ret|].
  apply refines_bind; [by intros s'|intros _]. apply refines_bind; [apply refines_new_metrics|by intros m s'].
Qed.

Definition first_call : res (option Metrics) * Mon Registry :=
  GetMetrics (H := own_client) (mkMon false None ∅).

Lemma first_call_metrics : first_call.1 = Ok (Some the_metrics) ∧ mo_done first_call.2 = true ∧
  mo_instance first_call.2 = Some the_metrics.
Proof. by vm_compute. Qed.

Lemma first_call_families : Forall (λ x, ∃ f, mo_registry first_call.2 !! x.1.1 = Some f ∧
  d_kind (fam_desc f) = x.1.2 ∧ length (d_labels (fam_desc f)) = x.2 ∧
  initial x.1.2 (d_buckets (fam_desc f)) = initial x.1.2 duration_bounds ∧
  (fam_series f = ∅ ∨ fam_series f = {[ [] := initial x.1.2 duration_bounds ]})) families.
Proof.
  unfold families. repeat (apply Forall_cons_2; [|]); [..|apply Forall_nil_2];
    (eexists; split; [vm_compute; reflexivity|]); (split; [reflexivity|]); (split; [reflexivity|]); (split; [reflexivity|]);
    first [by left|by right].
Qed.

(** The metrics exist, and [once] has run. *)
Definition started (s : Mon R) : Prop :=
  mo_done s = true ∧ mo_instance s = Some the_metrics ∧ complete (registry (mo_registry s)).

Lemma GetMetrics_first r : registry r = ∅ → ∃ s,
  GetMetrics (mkMon false None r) = (Ok (Some the_metrics), s) ∧ started s ∧
  ∀ name k n labels, (name, k, n) ∈ families → sample_of (registry (mo_registry s)) name labels = initial k duration_bounds.
Proof.
  intros Hr. assert (Hg : GetMetrics (H := own_client) (mon_data (mkMon false None r)) =
    (first_call.1, first_call.2)) by (unfold mon_data; simpl; rewrite Hr; apply surjective_pairing).
  destruct (refines_run _ _ _ _ _ _ refines_GetMetrics Hg) as [H1 H2].
  destruct first_call_metrics as (H3 & H4 & H5). rewrite H3 in H1.
  destruct (GetMetrics (mkMon false None r)) as [x s] eqn:E. simpl in H1, H2. subst x.
  exists s. split; [done|]. unfold started.
  rewrite <-H2 in H4, H5. assert (Hf := first_call_families). rewrite <-H2 in Hf.
  unfold mon_data in H4, H5, Hf. simpl in H4, H5, Hf. split_and!; [done|done| |].
  - eapply Forall_impl; [exact Hf|]. intros x (f & Hx & Hk & Hn & _ & _).
    exact (ex_intro _ f (conj Hx (conj Hk Hn))).
  - intros name k n labels Hin. rewrite Forall_forall in Hf. destruct (Hf _ Hin) as (f & Hx & Hk & _ & Hb & Hs).
    simpl in *. unfold sample_of. rewrite Hx, Hk, Hb. destruct Hs as [->| ->]; [by rewrite lookup_empty|].
    destruct (decide (labels = [])) as [->|Hne]; [by rewrite lookup_singleton_eq|by rewrite lookup_singleton_ne].
Qed.

Lemma GetMetrics_again s : started s → GetMetrics s = (Ok (Some the_metrics), s).
Proof.
  intros (Hd & Hi & _). unfold GetMetrics, mbind, M_bind, get. cbv beta iota. rewrite Hd. simpl. by rewrite Hi.
Qed.

(** ** The series after some events *)

Lemma changes_of_cons name labels e es :
  changes_of name labels (e :: es) =
  (filter (λ u, u.1 = (name, labels)) (updates_of e)).*2 ++ changes_of name labels es.
Proof. unfold changes_of. simpl. by rewrite filter_app, fmap_app. Qed.

Lemma after_updates_app us1 us2 x : after_updates (us1 ++ us2) x = after_updates us2 (after_updates us1 x).
Proof. apply foldl_app. Qed.

Lemma process_ok es s : started s → Forall event_ok es →
  ∃ s', process es s = (Ok tt, s') ∧ started s' ∧ ∀ name labels,
    sample_of (registry (mo_registry s')) name labels =
    after_updates (changes_of name labels es) (sample_of (registry (mo_registry s)) name labels).
Proof.
  intros Hs Hes. revert s Hs. induction Hes as [|e es He _ IH]; intros s Hs; [by exists s|].
  destruct (apply_all_ok (updates_of e) s) as (s1 & H1 & Hd & Hi & Hc & Hs1);
    [apply Hs|by apply event_updates_ok|].
  destruct (IH s1) as (s2 & H2 & Hst & Hs2); [split_and!; [rewrite Hd; apply Hs|rewrite Hi; apply Hs|exact Hc]|].
  exists s2. split_and!; [|exact Hst|].
  - simpl. unfold mbind, M_bind. rewrite (GetMetrics_again s Hs), record_updates, H1. exact H2.
  - intros name labels. by rewrite Hs2, Hs1, changes_of_cons, after_updates_app.
Qed.

(** The changes of a series, chosen event by event. *)
Lemma changes_of_omap name labels (f : event → option Update) es :
  (∀ e, (filter (λ u, u.1 = (name, labels)) (updates_of e)).*2 = option_list (f e)) →
  changes_of name labels es = omap f es.
Proof.
  intros Hf. induction es as [|e es IH]; [done|]. rewrite changes_of_cons, Hf, IH. simpl. by destruct (f e).
Qed.

Lemma wrapu64_succ z : wrapu64 (wrapu64 z + 1) = wrapu64 (z + 1).
Proof. unfold wrapu64. by rewrite Zplus_mod_idemp_l. Qed.

Lemma after_incs n k : after_updates (replicate k Inc) (Count (wrapu64 n)) = Count (wrapu64 (n + Z.of_nat k)).
Proof.
  revert n. induction k as [|k IH]; intros n; simpl; [f_equal; f_equal; lia|].
  unfold after_updates in IH |- *. simpl. rewrite wrapu64_succ, IH. f_equal. f_equal. lia.
Qed.

(** What a histogram says of some observations. *)
Definition distribution (bounds vs : list PrimFloat.float) : Sample :=
  Buckets ((λ b, (b, wrapu64 (Z.of_nat (length (filter (λ v, PrimFloat.leb v b = true) vs))))) <$> bounds)
    (wrapu64 (Z.of_nat (length vs))).

Lemma observe_distribution bounds vs v :
  apply_update (Observe v) (distribution bounds vs) = distribution bounds (vs ++ [v]).
Proof.
  unfold distribution. simpl. f_equal.
  - rewrite <- list_fmap_compose. apply list_fmap_ext. intros i b _. simpl. f_equal.
    rewrite filter_app, length_app, filter_cons, filter_nil.
    destruct (PrimFloat.leb v b); [rewrite decide_True by done|rewrite decide_False by done];
      simpl; rewrite ?wrapu64_succ; f_equal; lia.
  - rewrite wrapu64_succ, length_app. simpl. f_equal. lia.
Qed.

Lemma after_observations bounds vs ws :
  after_updates (Observe <$> vs) (distribution bounds ws) = distribution bounds (ws ++ vs).
Proof.
  revert ws. induction vs as [|v vs IH]; intros ws; [by rewrite app_nil_r|].
  unfold after_updates in IH |- *. cbn [fmap list_fmap foldl flip].
  by rewrite observe_distribution, IH, <-app_assoc.
Qed.

Lemma after_settings vs v : after_updates (Set_ <$> vs) (Value v) = Value (default v (last vs)).
Proof.
  revert v. induction vs as [|w vs IH]; intros v; [done|].
  unfold after_updates in IH |- *. simpl. rewrite IH.
  change (Value (default w (last vs)) = Value (default v (last (w :: vs)))).
  rewrite last_cons. by destruct (last vs).
Qed.

Lemma omap_const {A} (f : event → option A) (u : Update) (es : list event) :
  omap (λ e, (λ _, u) <$> f e) es = replicate (length (omap f es)) u.
Proof. induction es as [|e es IH]; [done|].
  simpl. destruct (f e); simpl; [f_equal; exact IH|exact IH].
Qed.

Lemma omap_fmap_updates {A B} (f : event → option A) (g : A → B) (es : list event) :
  omap (λ e, g <$> f e) es = g <$> omap f es.
Proof. induction es as [|e es IH]; [done|].
  simpl. destruct (f e); simpl; [f_equal; exact IH|exact IH].
Qed.
End laws.

(** ** What the series say *)

(** What an event says of a queue and a type, of a worker, or of a queue. *)
Definition created_in (q t : string) (e : event) : option unit :=
  match e with Created q' t' => if bool_decide (q' = q ∧ t' = t) then Some tt else None | _ => None end.
Definition completed_in (q t : string) (e : event) : option Duration :=
  match e with Completed q' t' d => if bool_decide (q' = q ∧ t' = t) then Some d else None | _ => None end.
Definition failed_in (q t : string) (e : event) : option Duration :=
  match e with Failed q' t' d => if bool_decide (q' = q ∧ t' = t) then Some d else None | _ => None end.
Definition retried_in (q t : string) (e : event) : option unit :=
  match e with Retried q' t' => if bool_decide (q' = q ∧ t' = t) then Some tt else None | _ => None end.
Definition worker_did (w st : string) (e : event) : option unit :=
  match e with WorkerDid w' st' => if bool_decide (w' = w ∧ st' = st) then Some tt else None | _ => None end.
Definition length_of (q : string) (e : event) : option Z :=
  match e with QueueIs q' n => if bool_decide (q' = q) then Some n else None | _ => None end.

Definition paused_of (q : string) (e : event) : option bool :=
  match e with PausedIs q' b => if bool_decide (q' = q) then Some b else None | _ => None end.
Definition active_of (e : event) : option Z := match e with ActiveIs n => Some n | _ => None end.
Definition worker_has (w : string) (e : event) : option Z :=
  match e with WorkerHas w' n => if bool_decide (w' = w) then Some n else None | _ => None end.
Definition up_of (e : event) : option Duration :=
  match e with UpFor start now => Some (Sub now start) | _ => None end.

(** The value of a gauge: the last one that was set, or 0. *)
Definition gauge {A} (g : A → PrimFloat.float) (f : event → option A) (es : list event) : Sample :=
  Value (default PrimFloat.zero (last (g <$> omap f es))).

(** The number of events, as a counter has it. *)
Definition count {A} (f : event → option A) (es : list event) : Z := wrapu64 (Z.of_nat (length (omap f es))).

Ltac series_changes :=
  apply changes_of_omap; intros e; destruct e; cbn [updates_of];
  rewrite ?filter_cons, ?filter_nil; repeat case_decide; simplify_eq/=;
  rewrite ?bool_decide_eq_true_2 by done; try done;
  try (rewrite bool_decide_eq_false_2; [done|naive_solver]).

Lemma created_changes q t es :
  changes_of "taskqueue_jobs_created_total" [q; t] es = omap (λ e, (λ _, Inc) <$> created_in q t e) es.
Proof. series_changes. Qed.

Lemma completed_changes q t es :
  changes_of "taskqueue_jobs_completed_total" [q; t] es = omap (λ e, (λ _, Inc) <$> completed_in q t e) es.
Proof. series_changes. Qed.

Lemma failed_changes q t es :
  changes_of "taskqueue_jobs_failed_total" [q; t] es = omap (λ e, (λ _, Inc) <$> failed_in q t e) es.
Proof. series_changes. Qed.

Lemma retried_changes q t es :
  changes_of "taskqueue_jobs_retried_total" [q; t] es = omap (λ e, (λ _, Inc) <$> retried_in q t e) es.
Proof. series_changes. Qed.

Lemma worker_changes w st es :
  changes_of "taskqueue_worker_jobs_total" [w; st] es = omap (λ e, (λ _, Inc) <$> worker_did w st e) es.
Proof. series_changes. Qed.

Lemma success_changes q t es :
  changes_of "taskqueue_job_duration_seconds" [q; t; "success"] es =
  omap (λ e, (λ d, Observe (Seconds d)) <$> completed_in q t e) es.
Proof. series_changes. Qed.

Lemma failure_changes q t es :
  changes_of "taskqueue_job_duration_seconds" [q; t; "failed"] es =
  omap (λ e, (λ d, Observe (Seconds d)) <$> failed_in q t e) es.
Proof. series_changes. Qed.

Lemma length_changes q es :
  changes_of "taskqueue_queue_length" [q] es = omap (λ e, (λ n, Set_ (float64_of_int64 n)) <$> length_of q e) es.
Proof. series_changes. Qed.

Lemma paused_changes q es :
  changes_of "taskqueue_queue_paused" [q] es =
  omap (λ e, (λ b : bool, Set_ (float64_of_int64 (if b then 1 else 0))) <$> paused_of q e) es.
Proof. series_changes. Qed.

Lemma active_changes es :
  changes_of "taskqueue_workers_active" [] es = omap (λ e, (λ n, Set_ (float64_of_int64 n)) <$> active_of e) es.
Proof. series_changes. Qed.

Lemma current_changes w es :
  changes_of "taskqueue_worker_jobs_current" [w] es =
  omap (λ e, (λ n, Set_ (float64_of_int64 n)) <$> worker_has w e) es.
Proof. series_changes. Qed.

Lemma uptime_changes es :
  changes_of "taskqueue_system_uptime_seconds" [] es = omap (λ e, (λ d, Set_ (Seconds d)) <$> up_of e) es.
Proof. series_changes. Qed.

Section theorems.
Context {R : Type} `{HP : PrometheusLaws R}.

Lemma counter_after {A} (f : event → option A) es :
  after_updates (omap (λ e, (λ _, Inc) <$> f e) es) (Count 0) = Count (count f es).
Proof. by rewrite omap_const, (after_incs 0), Z.add_0_l. Qed.

Lemma histogram_after bounds (f : event → option Duration) es :
  after_updates (omap (λ e, (λ d, Observe (Seconds d)) <$> f e) es) (initial HistogramVec bounds) =
  distribution bounds (Seconds <$> omap f es).
Proof.
  rewrite (omap_fmap_updates f (λ d, Observe (Seconds d))).
  rewrite (list_fmap_compose Seconds Observe). exact (after_observations bounds (Seconds <$> omap f es) []).
Qed.

Lemma gauge_after {A} (g : A → PrimFloat.float) (f : event → option A) es :
  after_updates (omap (λ e, (λ x, Set_ (g x)) <$> f e) es) (Value PrimFloat.zero) = gauge g f es.
Proof.
  rewrite (omap_fmap_updates f (λ x, Set_ (g x))).
  rewrite (list_fmap_compose g Set_). apply after_settings.
Qed.

(** C19. A process that gets the metrics before each event it records, from an
    empty registry, never panics when the queues, types, workers and statuses it
    names are valid UTF-8 (any ASCII text is; the client panics on others). Each
    counter is then the number of its events, as a [uint64]; the histogram of the
    durations counts, for each bound 0.1 s, 0.2 s, ..., 51.2 s and in total, the
    jobs that completed, and those that failed, within it; and each of the five
    gauges (queue length, queue paused, active workers, a worker's current jobs,
    uptime) is the last value that was set, or 0. *)
Theorem metrics_count_events (r : R) (es : list event) :
  registry r = ∅ → Forall event_ok es →
  ∃ s, (GetMetrics ≫= λ _, process es) (mkMon false None r) = (Ok tt, s) ∧
    let sample := sample_of (registry (mo_registry s)) in
    (∀ q t,
      sample "taskqueue_jobs_created_total" [q; t] = Count (count (created_in q t) es) ∧
      sample "taskqueue_jobs_completed_total" [q; t] = Count (count (completed_in q t) es) ∧
      sample "taskqueue_jobs_failed_total" [q; t] = Count (count (failed_in q t) es) ∧
      sample "taskqueue_jobs_retried_total" [q; t] = Count (count (retried_in q t) es) ∧
      sample "taskqueue_worker_jobs_total" [q; t] = Count (count (worker_did q t) es) ∧
      sample "taskqueue_job_duration_seconds" [q; t; "success"] =
        distribution duration_bounds (Seconds <$> omap (completed_in q t) es) ∧
      sample "taskqueue_job_duration_seconds" [q; t; "failed"] =
        distribution duration_bounds (Seconds <$> omap (failed_in q t) es) ∧
      sample "taskqueue_queue_length" [q] = gauge float64_of_int64 (length_of q) es ∧
      sample "taskqueue_queue_paused" [q] =
        gauge (λ b : bool, float64_of_int64 (if b then 1 else 0)) (paused_of q) es ∧
      sample "taskqueue_worker_jobs_current" [q] = gauge float64_of_int64 (worker_has q) es) ∧
    sample "taskqueue_workers_active" [] = gauge float64_of_int64 active_of es ∧
    sample "taskqueue_system_uptime_seconds" [] = gauge Seconds up_of es.
Proof.
  intros Hr Hes. destruct (GetMetrics_first r Hr) as (s0 & H0 & Hst & Hini).
  destruct (process_ok es s0 Hst Hes) as (s & H1 & _ & Hs).
  exists s. split; [unfold mbind, M_bind; by rewrite H0|]. cbv zeta. split; [intros q t|].
  - rewrite !Hs, created_changes, completed_changes, failed_changes, retried_changes, worker_changes,
      success_changes, failure_changes, length_changes, paused_changes, current_changes.
    rewrite !(Hini _ CounterVec 2%nat), !(Hini _ HistogramVec 3%nat), !(Hini _ GaugeVec 1%nat)
      by (apply list_elem_of_In; simpl; by eauto 20).
    rewrite !histogram_after. cbn [initial]. by rewrite !counter_after, !gauge_after.
  - rewrite !Hs, active_changes, uptime_changes.
    rewrite !(Hini _ Gauge 0%nat) by (apply list_elem_of_In; simpl; by eauto 20).
    cbn [initial]. by rewrite !gauge_after.
Qed.
End theorems.

Definition demo_events : list event :=
  [Created "mail" "welcome"; PausedIs "mail" true; ActiveIs 4; Completed "mail" "welcome" Second].

Lemma metrics_count_events_witness : ∃ s,
  (GetMetrics (H := registry_client (λ _, true)) ≫= λ _,
     process (H := registry_client (λ _, true)) demo_events) (mkMon false None ∅) = (Ok tt, s) ∧
  sample_of (mo_registry s) "taskqueue_jobs_created_total" ["mail"; "welcome"] = Count 1 ∧
  sample_of (mo_registry s) "taskqueue_workers_active" [] = Value (float64_of_int64 4).
Proof.
  destruct (metrics_count_events (H := registry_client (λ _, true))
    (HP := registry_client_laws (λ _, true) (λ _ _, eq_refl)) ∅ demo_events) as (s & Hs & Hq & Ha & _).
  - reflexivity.
  - repeat constructor.
  - exists s. split; [exact Hs|]. split; [exact (proj1 (Hq "mail" "welcome"))|exact Ha].
Defined.

(** A second is above the bounds 0.1 to 0.8 and within the six from 1.6. *)
Example demo_distribution :
  match distribution duration_bounds (Seconds <$> [Second]) with
  | Buckets le n => (le.*2, n, default PrimFloat.zero (last le.*1)) =
      ([0; 0; 0; 0; 1; 1; 1; 1; 1; 1], 1, PrimFloat.mul float_tenth (float64_of_int64 512))
  | _ => False
  end.
Proof. vm_compute. reflexivity. Qed.

(** ** The address of the metrics server *)

Definition address_right (port : Z) : bool := String.eqb (string_of_rune (rune port)) (itoa port).

Lemma no_ascii_address : forallb (λ p, negb (address_right p)) (seqZ 1 127) = true.
Proof. vm_compute. reflexivity. Qed.

(** The first byte of a character that is not ASCII is no digit. *)
Lemma put_utf8_head n k : (128 ≤ n < 65536)%N →
  ∃ b s, put_utf8 n k = String (ascii_of_N b) s ∧ (192 ≤ b < 256)%N.
Proof.
  intros Hn. unfold put_utf8. replace (n <? 128)%N with false by (symmetry; apply N.ltb_ge; lia).
  destruct (N.ltb_spec n 2048) as [Hl|Hl]; [|replace (n <? 65536)%N with true by (symmetry; apply N.ltb_lt; lia)];
    (eexists _, _; split; [reflexivity|]).
  - assert (H: (n / 64 < 32)%N) by (apply N.Div0.div_lt_upper_bound; lia). revert H. generalize (n / 64)%N. lia.
  - assert (H: (n / 4096 < 16)%N) by (apply N.Div0.div_lt_upper_bound; lia). revert H. generalize (n / 4096)%N. lia.
Qed.

Lemma digit_not_high d b : 0 ≤ d < 10 → (192 ≤ b < 256)%N → ascii_of_N b ≠ digit d.
Proof.
  intros Hd Hb Heq. unfold digit in Heq. apply (f_equal N_of_ascii) in Heq.
  rewrite !N_ascii_embedding in Heq by lia. lia.
Qed.

Lemma address_right_false p : 1 ≤ p ≤ 65535 → address_right p = false.
Proof.
  intros Hp. destruct (decide (p ≤ 127)) as [Hs|Hs].
  - assert (Hn := no_ascii_address). rewrite forallb_forall in Hn.
    specialize (Hn p). rewrite <-list_elem_of_In, elem_of_seqZ in Hn. specialize (Hn ltac:(lia)).
    by apply negb_true_iff in Hn.
  - unfold address_right. apply String.eqb_neq. intros Heq.
    assert (Hr : rune p = p) by (unfold rune; change (2 ^ 32) with 4294967296; change (2 ^ 31) with 2147483648;
      rewrite Z.mod_small; lia).
    assert (∃ b s, string_of_rune (rune p) = String (ascii_of_N b) s ∧ (192 ≤ b < 256)%N) as (b & s & Hb & Hlt).
    { rewrite Hr. unfold string_of_rune. case_match; apply put_utf8_head.
      - lia.
      - done. }
    unfold itoa in Heq. replace (p <? 0) with false in Heq by lia.
    destruct (fixed_width_head p ltac:(lia)) as (d & s' & Hd & Hd9). rewrite Hb, Hd in Heq.
    injection Heq as Heq _. by apply (digit_not_high d b); [lia|lia|].
Qed.

(** [string(rune(port))] is the character with the number of the port, not its
    digits: the server never listens on the port it was made for. *)
Theorem metrics_server_address_wrong (addr : string) (port : Z) :
  1 ≤ port ≤ 65535 → NewMetricsServer addr port ≠ addr +:+ ":" +:+ itoa port.
Proof.
  intros Hp Heq. unfold NewMetricsServer in Heq. apply (inj (String.append addr)) in Heq.
  apply (inj (String.append ":")) in Heq.
  assert (Hn := address_right_false port Hp). unfold address_right in Hn. by rewrite Heq, String.eqb_refl in Hn.
Qed.

Lemma metrics_server_address_wrong_witness : NewMetricsServer "" 9090 ≠ ":" +:+ itoa 9090.
Proof. apply (metrics_server_address_wrong "" 9090). lia. Defined.
