(* ===== verification/Programs.v ===== *)
(** * The programs (cmd/server/main.go, cmd/worker/main.go)

    The flags of the two programs, the backend they open, what each sets up
    before it waits for a signal, and the job handlers of the worker. The
    scheduler's loop, the pool's goroutines and the HTTP handlers that they
    start are in Loops.v, PoolSteps.v and Http.v. *)

From S2P Require Import Prelude Errors GoMonad Job Storage World Decimal Manager Pool Scheduler.
From S2P Require StorageConfig PostgresStore Json.
From Stdlib Require Import Floats.

(** ** Flags *)

Record ServerFlags : Type := mkServerFlags {
  sf_storage : string;
  sf_http_addr : string;
  sf_http_port : Z;
  sf_redis_addr : string;
  sf_postgres_host : string;
  sf_postgres_port : Z;
  sf_postgres_db : string;
  sf_postgres_user : string;
  sf_postgres_pass : string;
}.

Definition server_flags : ServerFlags :=
  mkServerFlags "memory" "0.0.0.0" 8080 "localhost:6379" "localhost" 5432 "taskqueue" "postgres" "".

Record WorkerFlags : Type := mkWorkerFlags {
  wf_storage : string;
  wf_worker_id : string;
  wf_queues : string;
  wf_concurrency : Z;
  wf_redis_addr : string;
  wf_postgres_host : string;
  wf_postgres_port : Z;
  wf_postgres_db : string;
  wf_postgres_user : string;
  wf_postgres_pass : string;
}.

Definition worker_flags : WorkerFlags :=
  mkWorkerFlags "memory" "" "default" 0 "localhost:6379" "localhost" 5432 "taskqueue" "postgres" "".

(** ** The storage backend *)

(** The constructor that the [switch] calls, with its argument. *)
Inductive Backend : Type :=
  | MemoryBackend
  | RedisBackend (config : StorageConfig.RedisConfig)
  | PostgresBackend (config : PostgresStore.PostgresConfig).

(** Both programs have this [switch]; the message is that of [log.Fatalf]. *)
Definition choose_backend (storage redis_addr host : string) (port : Z) (db user pass : string) :
    Backend + error :=
  if bool_decide (storage = "memory") then inl MemoryBackend
  else if bool_decide (storage = "redis") then
    inl (RedisBackend (StorageConfig.mkRedisConfig redis_addr "" 0 0 0 0))
  else if bool_decide (storage = "postgres") then
    inl (PostgresBackend
      (PostgresStore.mkPostgresConfig host port user pass db "disable" 25 5 (5 * Minute)))
  else inr (Errorf ("Unknown storage backend: " +:+ storage)).

Definition server_backend (f : ServerFlags) : Backend + error :=
  choose_backend (sf_storage f) (sf_redis_addr f) (sf_postgres_host f) (sf_postgres_port f)
    (sf_postgres_db f) (sf_postgres_user f) (sf_postgres_pass f).

Definition worker_backend (f : WorkerFlags) : Backend + error :=
  choose_backend (wf_storage f) (wf_redis_addr f) (wf_postgres_host f) (wf_postgres_port f)
    (wf_postgres_db f) (wf_postgres_user f) (wf_postgres_pass f).

Definition fatal_backend (b : Backend) (err : error) : error :=
  match b with
  | MemoryBackend => err
  | RedisBackend _ => Wrapf "Failed to initialize Redis storage" err
  | PostgresBackend _ => Wrapf "Failed to initialize PostgreSQL storage" err
  end.

(** ** Job handlers *)

(** The map that the handlers index, although [Job.Payload] is declared as raw
    bytes: a JSON value is a string, a number or something else. *)
Inductive value : Type :=
  | VString (s : string)
  | VNumber (x : PrimFloat.float)
  | VOther.

Section handlers.
(** The payload of a job as a map; the text that encoding/json writes for a
    finite number; and what [ctx.Err()] is at the n-th look at the context. *)
Context (payload_of : Job → gmap string value) (format_float : PrimFloat.float → string).
Context (ctx_err : nat → option error).

Definition echo_handler (j : Job) : outcome * Job := (Returned None, j).

(** [v, ok := j.Payload[key].(string)]. *)
Definition payload_string (j : Job) (key : string) : option string :=
  match payload_of j !! key with Some (VString s) => Some s | _ => None end.

Definition payload_number (j : Job) (key : string) : option PrimFloat.float :=
  match payload_of j !! key with Some (VNumber x) => Some x | _ => None end.

(** The [switch] of the operation. *)
Definition calculate (operation : string) (a b : PrimFloat.float) : PrimFloat.float + error :=
  if bool_decide (operation = "add") then inl (PrimFloat.add a b)
  else if bool_decide (operation = "subtract") then inl (PrimFloat.sub a b)
  else if bool_decide (operation = "multiply") then inl (PrimFloat.mul a b)
  else if bool_decide (operation = "divide") then
    if PrimFloat.eqb b PrimFloat.zero then inr (Errorf "division by zero") else inl (PrimFloat.div a b)
  else inr (Errorf ("unknown operation: " +:+ operation)).

(** [json.Marshal(map[string]float64{...})], whose error for an infinity or a
    NaN is dropped with the bytes left nil. *)
Definition marshal_result (x : PrimFloat.float) : string :=
  if PrimFloat.is_finite x
  then "{" +:+ String Json.dquote "result" +:+ String Json.dquote ":" +:+ format_float x +:+ "}"
  else "".

Definition math_handler (j : Job) : outcome * Job :=
  match payload_string j "operation" with
  | None => (Returned (Some (Errorf "missing or invalid operation")), j)
  | Some operation =>
      match payload_number j "a" with
      | None => (Returned (Some (Errorf "missing or invalid operand a")), j)
      | Some a =>
          match payload_number j "b" with
          | None => (Returned (Some (Errorf "missing or invalid operand b")), j)
          | Some b =>
              match calculate operation a b with
              | inr err => (Returned (Some err), j)
              | inl result => (Returned None, set_j_Result (marshal_result result) j)
              end
          end
      end
  end.

(** The missing fields of a mail are empty strings, and only printed. *)
Definition email_handler (j : Job) : outcome * Job := (Returned None, j).

(** [for i := 0; i <= 100; i += 20]: the n-th iteration looks at the context. *)
Fixpoint report_loop (fuel : nat) (i : Z) (n : nat) : option error :=
  match fuel with
  | O => Some (Errorf "out of fuel")
  | S fuel =>
      if i <=? 100 then
        match ctx_err n with
        | Some err => Some err
        | None => report_loop fuel (i + 20) (S n)
        end
      else None
  end.

Definition report_handler (j : Job) : outcome * Job := (Returned (report_loop 7 0 0), j).

Definition registerHandlers (hs : gmap string JobHandler) : gmap string JobHandler :=
  RegisterHandler "report" report_handler
    (RegisterHandler "email" email_handler
      (RegisterHandler "math" math_handler
        (RegisterHandler "echo" echo_handler hs))).
End handlers.

(** ** Setting up *)

Section setup.
Context {S : Type} `{Storage S} `{Runtime}.

(** The constructors of the backends, whose results share the interface
    [queue.Storage]. *)
Context (connect : Backend → S + error).

Definition open_store (b : Backend + error) : S + error :=
  match b with
  | inr err => inr err
  | inl b => match connect b with
             | inr err => inr (fatal_backend b err)
             | inl store => inl store
             end
  end.

(** [queue.NewManager(store)], and what follows on the manager. *)
Definition with_manager {A} (store : S + error) (tick rand : nat) (k : M (World S) A) :
    res A * option (World S) :=
  match store with
  | inr err => (Err err, None)
  | inl store =>
      match NewManager store tick rand with
      | (Ok _, w) => let r := k w in (r.1, Some r.2)
      | (Err err, w) => (Err (Wrapf "Failed to initialize queue manager" err), Some w)
      | (Panic why, w) => (Panic why, Some w)
      end
  end.

Definition defaultQueue : QueueConfig := {|
  c_Name := "default"; c_MaxWorkers := 10; c_MaxRetries := 3;
  c_RetryStrategy := RetryStrategyExponential; c_DefaultTimeout := 0; c_Timeout := 300;
  c_Priority := PriorityNormal; c_RateLimit := 0; c_Weight := 1; c_IsPaused := false;
  c_RetryDelay := 60; c_MaxRetryDelay := 3600; c_DeadLetterQueue := "" |}.

(** The server up to its loops: the default queue is registered, and the
    scheduler is that of the manager. *)
Definition server_setup (f : ServerFlags) (tick rand : nat) : res unit * option (World S) :=
  with_manager (open_store (server_backend f)) tick rand (warn (RegisterQueue defaultQueue)).

Definition server_scheduler (f : ServerFlags) (tick rand uuid : nat) : option (Scheduler S) :=
  match server_setup f tick rand with
  | (Ok _, Some w) => Some (NewScheduler w uuid)
  | _ => None
  end.

(** The flag is not split at its commas. *)
Definition queueList (f : WorkerFlags) : list string :=
  if bool_decide (wf_queues f ≠ "") then [wf_queues f] else ["default"].

Definition workerConfig (f : WorkerFlags) : Config := {|
  cf_ID := wf_worker_id f; cf_Queues := queueList f; cf_Concurrency := wf_concurrency f;
  cf_PollInterval := 1 * Second; cf_HeartbeatInterval := 30 * Second;
  cf_ShutdownTimeout := 30 * Second; cf_Tags := ∅ |}.

(** The pool of the worker, with the handlers that [register] adds. *)
Definition worker_pool (register : gmap string JobHandler → gmap string JobHandler) (f : WorkerFlags) (hostname : string)
    (unix numCPU : Z) (started : Time) : res Pool :=
  match NewPool hostname unix numCPU started (workerConfig f) with
  | Ok p => Ok (mkPool (pl_id p) (register (pl_handlers p)) (pl_queues p) (pl_concurrency p)
      (pl_pollInterval p) (pl_heartbeatInterval p) (pl_shutdownTimeout p) (pl_worker p) (pl_jobCh p))
  | r => r
  end.

(** The worker up to the pool's goroutines. *)
Definition worker_setup (pool : res Pool) (f : WorkerFlags) (tick rand : nat) : res unit * option (World S) :=
  with_manager (open_store (worker_backend f)) tick rand
    (match pool with
     | Ok p => wrap_err "Failed to start worker pool" (pool_start (GetWorker p))
     | Err err => throw (Wrapf "Failed to create worker pool" err)
     | Panic why => panic why
     end).
End setup.
