(* ===== verification/ProgramProps.v ===== *)
(** * Theorems on the programs

    A job that is posted to the server is executed by a pool on the server's
    manager; a worker that starts before its queue is known stays idle; what
    the handlers do with their payload. *)

From S2P Require Import Prelude Errors GoMonad Job Storage World Json JobJson Manager ManagerProps.
From S2P Require Import ManagerDequeue Pool PoolProps GoTime Scheduler Http HttpProps Programs.
From S2P Require StorageConfig PostgresStore MemoryStore MemoryLaws MemoryJobs.
From Stdlib Require Import Floats.

Section programs.
Context {S : Type} `{L : StorageLaws S} `{R : Runtime} `{MR : MapRange} `{U : Uuids}.
Implicit Types (w : World S) (store : S).

(** ** Setting up *)

(** A backend that nothing was written to. *)
Definition fresh (v : View) : Prop :=
  v_jobs v = ∅ ∧ (∀ q, v_queue v q = []) ∧ (∀ q, v_paused v q = false) ∧ v_configs v = ∅.

Definition default_configs : gmap string QueueConfig := {[ "default" := defaultQueue ]}.

Lemma server_setup_ok f b store tick rand : server_backend f = inl b → v_configs (view store) = ∅ →
  ∃ w, server_setup (λ _, inl store) f tick rand = (Ok tt, Some w) ∧
    wview w ≡ set_v_configs default_configs (view store) ∧ wo_configs w = default_configs ∧
    (tick ≤ wo_tick w)%nat.
Proof.
  intros Hb Hc. unfold server_setup. rewrite Hb. simpl.
  destruct (NewManager_coherent store tick rand) as (w0 & Hw0 & Hco & Hv0 & Ht0).
  { rewrite Hc. apply map_Forall_empty. }
  rewrite Hw0.
  assert (Hr : wp (RegisterQueue defaultQueue) w0 (λ r w, r = Ok defaultQueue ∧
    wview w ≡ set_v_configs default_configs (view store) ∧ wo_configs w = default_configs ∧
    (tick ≤ wo_tick w)%nat)).
  { apply wp_RegisterQueue; [done|]. intros w (Hv & Hcc & Ht). split; [done|].
    assert (Hc0 : wo_configs w0 = ∅) by (rewrite Hco, Hv0; exact Hc).
    assert (Hc1 : v_configs (wview w0) = ∅) by (rewrite Hv0; exact Hc).
    rewrite Hc1 in Hv. rewrite Hc0 in Hcc. split_and!; [|done|lia].
    rewrite Hv, Hv0. reflexivity. }
  apply wp_elim in Hr as (r & w & Hr & -> & Hrest).
  exists w. split; [|exact Hrest]. unfold warn, attempt, mbind, M_bind. by rewrite Hr.
Qed.

(** Starting a pool registers its worker. *)
Lemma pool_start_ok x w0 :
  ∃ w ws, pool_start x w0 = (Ok tt, w) ∧ wview w ≡ set_v_workers ws (wview w0) ∧
    wo_configs w = wo_configs w0 ∧ (wo_tick w0 ≤ wo_tick w)%nat.
Proof.
  assert (Hr : wp (pool_start x) w0 (λ r w, r = Ok tt ∧ ∃ ws,
    wview w ≡ set_v_workers ws (wview w0) ∧ wo_configs w = wo_configs w0 ∧ (wo_tick w0 ≤ wo_tick w)%nat)).
  { unfold pool_start. wp_step. wp_step. wp_op (law_RegisterWorker x (wo_store w0)). intros w1 (Hv1 & Hc1 & Ht1).
    wp_step. assert (Hl := law_UpdateWorkerStatus (w_ID x) WorkerStatusProcessing (wo_store w1)).
    change (view (wo_store w1)) with (wview w1) in Hl.
    assert (Hx : v_workers (wview w1) !! w_ID x = Some x) by (rewrite Hv1; simpl; apply lookup_insert_eq).
    rewrite Hx in Hl. apply (wp_use _ _ _ _ _ Hl). intros w2 (Hv2 & Hc2 & Ht2). split; [done|].
    set (ws := <[w_ID x := _]> (v_workers (wview w1))) in Hv2. exists ws. split_and!; [| |lia].
    - etransitivity; [exact Hv2|]. etransitivity; [apply set_v_workers_proper; [reflexivity|exact Hv1]|].
      change (set_v_workers ws (wview w0) ≡ set_v_workers ws (wview w0)). reflexivity.
    - by rewrite Hc2, Hc1. }
  apply wp_elim in Hr as (r & w & Hr & -> & ws & Hrest). by exists w, ws.
Qed.

Lemma worker_setup_ok f b store p tick rand :
  worker_backend f = inl b → map_Forall (λ q c, c_Name c = q) (v_configs (view store)) →
  ∃ w ws, worker_setup (λ _, inl store) (Ok p) f tick rand = (Ok tt, Some w) ∧
    wview w ≡ set_v_workers ws (view store) ∧ wo_configs w = v_configs (view store) ∧
    (tick ≤ wo_tick w)%nat.
Proof.
  intros Hb Hc. unfold worker_setup. rewrite Hb. simpl.
  destruct (NewManager_coherent store tick rand Hc) as (w0 & Hw0 & Hco & Hv0 & Ht0).
  rewrite Hw0. destruct (pool_start_ok (GetWorker p) w0) as (w & ws & Hr & Hv & Hcc & Ht).
  exists w, ws. unfold wrap_err. rewrite Hr. split_and!; [done| |by rewrite Hcc, Hco, Hv0|lia].
  rewrite Hv. by apply set_v_workers_proper.
Qed.

(** The pool has the handlers and the queues that [main] gives it. *)
Lemma worker_pool_ok register f hostname unix numCPU started p :
  worker_pool register f hostname unix numCPU started = Ok p →
  pl_handlers p = register ∅ ∧ pl_queues p = queueList f.
Proof.
  unfold worker_pool, NewPool. cbv zeta. case_match; [|done|done]. case_match; [done|]. go_simpl.
  intros [= <-]. split; [done|]. simpl. by rewrite bool_decide_false by (unfold queueList; by case_bool_decide).
Qed.

(** ** A job through the server and a pool *)

Context (payload_of : Job → gmap string value) (format_float : PrimFloat.float → string).
Context (ctx_err : nat → option error) (offset : Z) (ServeFile : Request → Response).

Abbreviation register := (registerHandlers payload_of format_float ctx_err).
Abbreviation handlers := (register ∅).
Abbreviation serve := (ServeHTTP offset ServeFile).

(** The job that the server stores for [j], waiting alone in the default queue. *)
Definition waits (v : View) (j1 : Job) (d : Time) : Prop :=
  v_jobs v = {[ j_ID j1 := j1 ]} ∧ v_queue v "default" ≡ₚ [mkWaiting (j_ID j1) (j_Priority j1) d] ∧
  v_paused v "default" = false ∧ v_configs v = default_configs.

Lemma post_on_fresh fs b store j body tick rand uuid :
  server_backend fs = inl b → fresh (view store) →
  storable_Job j = true → Marshal j = Some body → j_ID j ≠ "" → j_Queue j = "" → j_ScheduledAt j = None →
  ∃ s0 s1 j1 d,
    server_scheduler (λ _, inl store) fs tick rand uuid = Some s0 ∧
    serve (post_job body) s0 = (Ok (mkResponse 201 (struct_doc j1)), s1) ∧
    j_ID j1 = j_ID j ∧ j_Type j1 = j_Type j ∧
    waits (wview (sc_manager s1)) j1 d ∧ d ≤ now_of (sc_manager s1) ∧
    wo_configs (sc_manager s1) = default_configs.
Proof.
  intros Hb (Hjobs & Hqueues & Hpaused & Hconfigs) Hs Hm Hid Hq Hsch.
  destruct (server_setup_ok fs b store tick rand Hb Hconfigs) as (w & Hsetup & Hv & Hc & _).
  set (s0 := NewScheduler w uuid).
  destruct (post_job_enqueues offset ServeFile j body s0 Hs Hm Hid) as
    (j1 & w1 & w0 & w' & d & Hpost & Hv1 & Hc1 & (HI & _ & HT & _ & HP & HQ & _) & HA & Hens & Hcm & Hcw' &
     (Ej & Eq & Ep & _) & Hd).
  { simpl. by rewrite Hv; simpl; rewrite Hjobs, lookup_empty. }
  destruct (enqueued_job_fields w1 j1) as (Ei & Epr & _ & Equ).
  assert (Hdef : j_Queue (enqueued_job w1 j1) = "default").
  { rewrite Equ. unfold default_queue. by rewrite HQ, Hq. }
  assert (Htype : j_Type (enqueued_job w1 j1) = j_Type j).
  { rewrite <-HT. unfold enqueued_job, job_defaults, default_queue. by repeat case_match. }
  exists s0, (set_sc_manager w' s0), (enqueued_job w1 j1), d. simpl sc_manager.
  split_and!; [by unfold server_scheduler; rewrite Hsetup|exact Hpost|by rewrite Ei, HI|done| | |].
  - assert (Hw : v_queue (wview w1) "default" ≡ₚ []) by (rewrite Hv1; simpl; rewrite Hv; simpl; by rewrite Hqueues).
    split_and!.
    + rewrite Ej, Hv1. simpl. rewrite Hv. simpl. rewrite Hjobs. by apply insert_empty.
    + rewrite (Eq "default"), Hdef, bool_decide_true by done. by rewrite Hw.
    + rewrite (Ep "default"), Hv1. simpl. rewrite Hv. apply Hpaused.
    + rewrite Hcw'. destruct Hens as (Hvw & _). rewrite Hvw, Hdef, Hc1. simpl. rewrite Hc.
      unfold default_configs at 1. rewrite lookup_singleton_eq, Hv1. simpl. by rewrite Hv.
  - unfold due_time_ok in Hd. destruct HA as (t & Ht & Hle); [by rewrite Hsch|]. rewrite Ht in Hd.
    unfold After in Hd. destruct (Z.ltb_spec (now_of w1) t); [lia|done].
  - rewrite Hcm. destruct Hens as (_ & Hcw0 & _). rewrite Hcw0, Hdef. unfold effective_config.
    rewrite Hc1. simpl. rewrite Hc. unfold default_configs. by rewrite lookup_singleton_eq, insert_singleton_eq.
Qed.

(** A pool that starts on such a manager takes the job and finishes it. *)
Lemma worker_executes w0 j1 d worker x0 :
  waits (wview w0) j1 d → d ≤ now_of w0 → wo_configs w0 = default_configs →
  j_Type j1 = "echo" ∨ j_Type j1 = "email" →
  ∃ w1 w2 w3 j2,
    pool_start x0 w0 = (Ok tt, w1) ∧
    Dequeue ["default"] w1 = (Ok j1, w2) ∧ processJob handlers worker j1 w2 = (Ok tt, w3) ∧
    v_jobs (wview w3) !! j_ID j1 = Some j2 ∧ j_ID j2 = j_ID j1 ∧ j_Status j2 = StatusSuccess ∧
    j_Progress j2 = 100 ∧ v_queue (wview w3) "default" = [].
Proof.
  intros (Hjobs & Hqueue & Hpaused & Hconfigs) Hd Hc0 Htype.
  destruct (pool_start_ok x0 w0) as (w1 & ws & Hsetup & Hv & Hc & Ht). rewrite Hc0 in Hc.
  set (x := mkWaiting (j_ID j1) (j_Priority j1) d) in *.
  assert (Hjobs1 : v_jobs (wview w1) = {[ j_ID j1 := j1 ]}) by (rewrite Hv; done).
  assert (Hqueue1 : v_queue (wview w1) "default" ≡ₚ [x]) by (rewrite Hv; done).
  assert (Hin : ∀ y, y ∈ v_queue (wview w1) "default" → y = x).
  { intros y. rewrite Hqueue1. apply list_elem_of_singleton. }
  assert (Hdue : due (now_of w1) x = true).
  { unfold due. apply Z.leb_le. etransitivity; [exact Hd|]. by apply rt_now_mono. }
  assert (Hok : queues_ok w1 ["default"]).
  { split_and!; [set_solver|done|]. intros q c ->%list_elem_of_singleton. rewrite Hc.
    unfold default_configs. rewrite lookup_singleton_eq. intros [= <-]. done. }
  assert (Hst : entries_stored w1 ["default"]).
  { intros q y ->%list_elem_of_singleton ->%Hin. rewrite Hjobs1. simpl. rewrite lookup_singleton_eq. by eexists. }
  assert (Hwp : wp (Dequeue ["default"]) w1 (λ r w2, ∃ j id q' top, r = Ok j ∧ q' ∈ ["default"] ∧
    v_jobs (wview w1) !! id = Some j ∧ claimed q' id w1 w2 ∧
    top ∈ top_candidates (candidates (wo_configs w1) (wview w1) ["default"]) ∧
    (q' = qc_name top ∨ idle w1 (qc_name top)))).
  { apply (wp_Dequeue_delivers w1 ["default"] "default" x defaultQueue); try done.
    - by apply list_elem_of_singleton.
    - rewrite Hc. apply lookup_singleton_eq.
    - by rewrite Hv.
    - rewrite Hqueue1. by apply list_elem_of_singleton. }
  destruct (wp_elim _ _ _ Hwp) as (r & w2 & Hdq & j & id & q' & top & -> & Hq' & Hj & Hcl & _).
  apply list_elem_of_singleton in Hq' as ->.
  assert (Hjobs2 := claimed_jobs _ _ _ _ Hcl).
  destruct Hcl as (t & _ & _ & y & rest & Hperm & Hy & _ & _ & Hv2).
  assert (y = x) as -> by (apply Hin; rewrite Hperm; apply list_elem_of_here).
  assert (rest = []) as ->.
  { rewrite Hqueue1 in Hperm. apply Permutation_length in Hperm. simpl in Hperm. by destruct rest. }
  simpl in Hy. subst id. rewrite Hjobs1, lookup_singleton_eq in Hj. injection Hj as <-.
  assert (Hex : executeJob handlers j1 = (None, j1)) by (unfold executeJob; by destruct Htype as [-> | ->]).
  assert (Hps : wp (processJob handlers worker j1) w2 (λ r w3, r = Ok tt ∧
    ∃ j2, updated w2 w3 (j_ID j1) j2 (alter worker_succeeded worker) ∧
      same_job j1 j2 ∧ j_Status j2 = StatusSuccess ∧ j_Progress j2 = 100)).
  { eapply (wp_processJob_success _ _ _ j1); [|exact Hex|done|].
    - by rewrite Hjobs2, Hjobs1, lookup_singleton_eq.
    - intros j2 w3 Hu Hs H1 H2 _ _. split; [done|by exists j2]. }
  destruct (wp_elim _ _ _ Hps) as (r & w3 & Hproc & -> & j2 & Hu & Hsame & Hs2 & Hp2).
  exists w1, w2, w3, j2. split_and!; [done|done|done| | |done|done|].
  - by apply (updated_lookup _ _ _ _ _ Hu).
  - by destruct Hsame.
  - apply Permutation_nil_r. rewrite (up_queues _ _ _ _ _ Hu "default"), Hv2. reflexivity.
Qed.

(** ** A worker that starts too early *)

(** The results of polls of the fetch loop; before each of them the other
    processes may have changed the backend to anything. *)
Fixpoint polls (queues : list string) (stores : list S) (w : World S) : list (res Job) :=
  match stores with
  | [] => []
  | store :: stores =>
      let r := Dequeue queues (set_wo_store store w) in r.1 :: polls queues stores r.2
  end.

(** A worker that starts when the backend has no configuration of its queues
    never gets a job: each poll finds its queues empty, whatever the server and
    other clients register and enqueue later. *)
Theorem early_worker_stays_idle fw b store hostname unix numCPU started p tick rand :
  worker_backend fw = inl b → worker_pool register fw hostname unix numCPU started = Ok p → map_Forall (λ q c, c_Name c = q) (v_configs (view store)) →
  (∀ q, q ∈ queueList fw → v_configs (view store) !! q = None) →
  ∃ w, worker_setup (λ _, inl store) (Ok p) fw tick rand = (Ok tt, Some w) ∧
    ∀ stores, Forall (λ r, r = Err ErrQueueEmpty) (polls (pl_queues p) stores w).
Proof.
  intros Hb [_ ->]%worker_pool_ok Hn Hq.
  destruct (worker_setup_ok fw b store p tick rand Hb Hn) as (w & ws & Hw & _ & Hc & _).
  exists w. split; [done|]. intros stores.
  assert (Hne : queueList fw ≠ []) by (unfold queueList; by case_bool_decide).
  rewrite <-Hc in Hq. clear Hw Hc. revert w Hq. induction stores as [|store' stores IH]; intros w Hq; [by constructor|].
  destruct (Dequeue_ignores_uncached (set_wo_store store' w) (queueList fw) Hne) as (w' & Hd & _ & Hc'); [done|].
  simpl. rewrite Hd. simpl. constructor; [done|]. apply IH. intros q Hin. rewrite Hc'. by apply Hq.
Qed.

(** ** The handlers *)

(** No handler panics or changes the identity of its job. *)
Lemma handlers_return t h j : handlers !! t = Some h →
  ∃ err j', h j = (Returned err, j') ∧ j_ID j' = j_ID j ∧ CanRetry j' = CanRetry j.
Proof.
  unfold registerHandlers, RegisterHandler. rewrite !lookup_insert_Some, lookup_empty.
  intros [[_ <-]|[_ [[_ <-]|[_ [[_ <-]|[_ [[_ <-]|[_ [=]]]]]]]]]; try by eexists _, j.
  unfold math_handler. repeat case_match; eexists _, _; (split; [reflexivity|done]).
Qed.

(** The report handler looks at its context six times, and returns the first
    error it sees there. *)
Lemma report_loop_spec : report_loop ctx_err 7 0 0 = head (omap ctx_err (seq 0 6)).
Proof. simpl. by repeat case_match. Qed.

(** The result of a calculation is lost: the job ends as SUCCESS with the
    result that was stored before it ran, since nothing stores what the handler
    writes to the job. *)
Theorem math_result_is_lost w worker j j0 operation a b x :
  v_jobs (wview w) !! j_ID j = Some j0 → j_Type j = "math" →
  payload_string payload_of j "operation" = Some operation →
  payload_number payload_of j "a" = Some a → payload_number payload_of j "b" = Some b →
  calculate operation a b = inl x →
  math_handler payload_of format_float j = (Returned None, set_j_Result (marshal_result format_float x) j) ∧
  ∃ w' j1, processJob handlers worker j w = (Ok tt, w') ∧
    v_jobs (wview w') !! j_ID j = Some j1 ∧ j_Status j1 = StatusSuccess ∧ j_Result j1 = j_Result j0.
Proof.
  intros Hj Ht Hop Ha Hb Hx.
  assert (Hh : math_handler payload_of format_float j = (Returned None, set_j_Result (marshal_result format_float x) j)).
  { unfold math_handler. by rewrite Hop, Ha, Hb, Hx. }
  split; [done|].
  assert (Hex : executeJob handlers j = (None, set_j_Result (marshal_result format_float x) j)).
  { unfold executeJob. rewrite Ht. change (handlers !! "math") with (Some (math_handler payload_of format_float)).
    cbv beta iota. by rewrite Hh. }
  assert (Hp : wp (processJob handlers worker j) w (λ r w', r = Ok tt ∧ ∃ j1,
    v_jobs (wview w') !! j_ID j = Some j1 ∧ j_Status j1 = StatusSuccess ∧ j_Result j1 = j_Result j0)).
  { eapply (wp_processJob_success _ _ _ j0); [done|exact Hex|done|].
    intros j1 w1 Hu _ Hst _ _ Hr. split; [done|]. exists j1. split; [by apply (updated_lookup _ _ _ _ _ Hu)|done]. }
  destruct (wp_elim _ _ _ Hp) as (r & w' & E & -> & j1 & ?). by exists w', j1.
Qed.
End programs.

(** ** Over the in-memory store *)

#[local] Existing Instance MemoryLaws.MemoryStorage.
#[local] Existing Instance MemoryLaws.MemoryStorageLaws.
#[local] Existing Instance demo_runtime.
#[local] Existing Instance map_range_default.
#[local] Existing Instance demo_ids.

Section together.
Context `{R : Runtime} `{MR : MapRange} `{U : Uuids}.
Context (payload_of : Job → gmap string value) (format_float : PrimFloat.float → string).
Context (ctx_err : nat → option error) (offset : Z) (ServeFile : Request → Response).

Lemma new_store_fresh clk : fresh (view (MemoryStore.NewMemoryStore clk)).
Proof. by split_and!. Qed.

(** C15. A posted job is executed. The server with the in-memory backend, and a
    pool on the server's manager (as tests/integration_test.go runs the two; the
    two programs have a store each, [early_worker_stays_idle]) whose queue list is
    that of the worker program's default flags: a job in storable JSON, with an
    identifier, without a queue, not scheduled, and for one of the two handlers
    that always succeed, echo and email, is accepted by POST /api/v1/jobs with
    201, and stored in the default queue; the pool starts, dequeues that very job,
    executes it and leaves the queue empty; GET /api/v1/jobs/{id} then answers
    with the job as SUCCESS with progress 100. *)
Theorem posted_job_is_executed clk fs fw j body tick rand uuid hostname unix numCPU started p :
  sf_storage fs = "memory" → queueList fw = ["default"] →
  worker_pool (registerHandlers payload_of format_float ctx_err) fw hostname unix numCPU started = Ok p →
  storable_Job j = true → Marshal j = Some body → j_ID j ≠ "" →
  j_Queue j = "" → j_ScheduledAt j = None → j_Type j = "echo" ∨ j_Type j = "email" →
  ∃ s0 s1 s2 w1 w2 w3 j1 j2,
    server_scheduler (λ _, inl (MemoryStore.NewMemoryStore clk)) fs tick rand uuid = Some s0 ∧
    ServeHTTP offset ServeFile (post_job body) s0 = (Ok (mkResponse 201 (struct_doc j1)), s1) ∧
    pool_start (GetWorker p) (sc_manager s1) = (Ok tt, w1) ∧
    Dequeue (pl_queues p) w1 = (Ok j1, w2) ∧
    processJob (pl_handlers p) (pl_id p) j1 w2 = (Ok tt, w3) ∧
    ServeHTTP offset ServeFile (get_job (j_ID j)) (set_sc_manager w3 s1) =
      (Ok (mkResponse 200 (struct_doc j2)), s2) ∧
    j_ID j2 = j_ID j ∧ j_Status j2 = StatusSuccess ∧ j_Progress j2 = 100 ∧
    v_queue (wview w3) "default" = [].
Proof.
  intros Hst Hql [-> ->]%worker_pool_ok Hs Hm Hid Hq Hsch Htype. rewrite Hql.
  assert (Hb : server_backend fs = inl MemoryBackend) by (unfold server_backend, choose_backend; by rewrite Hst).
  destruct (post_on_fresh offset ServeFile fs _ _ j body tick rand uuid Hb (new_store_fresh clk) Hs Hm Hid Hq Hsch)
    as (s0 & s1 & j1 & d & Hstart & Hpost & Hid1 & Htype1 & Hwaits & Hd & Hc).
  rewrite <-Htype1 in Htype.
  destruct (worker_executes payload_of format_float ctx_err (sc_manager s1) j1 d (pl_id p) (GetWorker p) Hwaits Hd Hc Htype)
    as (w1 & w2 & w3 & j2 & Hsetup & Hdq & Hproc & Hj2 & Hid2 & Hst2 & Hpr & Hempty).
  destruct (get_job_found offset ServeFile (j_ID j) j2 (set_sc_manager w3 s1)) as (s2 & Hget); [by rewrite <-Hid1|].
  exists s0, s1, s2, w1, w2, w3, j1, j2. split_and!; try done. congruence.
Qed.
End together.

(** The store that [NewMemoryStore] makes at the time 0. *)
Definition new_store : MemoryStore.MemoryStore := MemoryStore.NewMemoryStore (λ _, 0).

Definition demo_payload (j : Job) : gmap string value :=
  <["operation" := VString "multiply"]> (<["a" := VNumber (float64_of_int64 6)]>
    {["b" := VNumber (float64_of_int64 7)]}).

Definition echo_job : Job := mkJob "echo-1" "echo" "[1]" 7 "" 0 0 0 0 0 None 0 0 None None "" "" ∅ "" 0 "".

(** The pool of a worker with the flags at their defaults, on four CPUs. *)
Definition demo_pool payload_of format_float ctx_err : Pool :=
  match worker_pool (registerHandlers payload_of format_float ctx_err) worker_flags "host" 0 4 0 with
  | Ok p => p
  | _ => mkPool "" ∅ [] 0 0 0 0 (pool_worker "" 0 (workerConfig worker_flags)) 0
  end.

Lemma posted_job_is_executed_witness : ∃ body s0 s1 (j1 j2 : Job) (w3 : World MemoryStore.MemoryStore),
  Marshal echo_job = Some body ∧
  server_scheduler (λ _, inl new_store) server_flags 5 0 0 = Some s0 ∧
  ServeHTTP 0 demo_files (post_job body) s0 = (Ok (mkResponse 201 (struct_doc j1)), s1) ∧
  j_Status j2 = StatusSuccess ∧
  (∃ s2, ServeHTTP 0 demo_files (get_job "echo-1") (set_sc_manager w3 s1) =
    (Ok (mkResponse 200 (struct_doc j2)), s2)).
Proof.
  destruct (Marshal echo_job) as [body|] eqn:E; [|by vm_compute in E].
  destruct (posted_job_is_executed demo_payload (λ _, "") (λ _, None) 0 demo_files (λ _, 0) server_flags worker_flags
    echo_job body 5 0 0 "host" 0 4 0 (demo_pool demo_payload (λ _, "") (λ _, None)))
    as (s0 & s1 & s2 & w1 & w2 & w3 & j1 & j2 & H0 & H1 & _ & _ & _ & H5 & _ & H7 & _);
    try reflexivity; try done; try by left.
  exists body, s0, s1, j1, j2, w3. split_and!; try done. by exists s2.
Defined.

Lemma early_worker_stays_idle_witness : ∃ w,
  worker_setup (λ _, inl new_store) (Ok (demo_pool demo_payload (λ _, "") (λ _, None))) worker_flags 5 0 =
    (Ok tt, Some w) ∧
  ∀ stores, Forall (λ r, r = Err ErrQueueEmpty) (polls ["default"] stores w).
Proof.
  apply (early_worker_stays_idle demo_payload (λ _, "") (λ _, None) worker_flags MemoryBackend new_store
    "host" 0 4 0 (demo_pool demo_payload (λ _, "") (λ _, None)) 5 0); [done|reflexivity| |].
  - apply map_Forall_empty.
  - intros q _. reflexivity.
Defined.

Definition math_job : Job := mkJob "1" "math" "" 1 StatusPending 3 0 0 0 0 None 0 0 None None "" "" ∅ "q" 0 "".

Lemma math_result_is_lost_witness :
  let j := math_job in
  ∃ w' j1, processJob (registerHandlers demo_payload (λ _, "42") (λ _, None) ∅) "w1" j pool_world = (Ok tt, w') ∧
    v_jobs (wview w') !! "1" = Some j1 ∧ j_Status j1 = StatusSuccess ∧ j_Result j1 = "".
Proof.
  intros j. destruct (math_result_is_lost demo_payload (λ _, "42") (λ _, None) pool_world "w1" j
    (MemoryJobs.demo_job "1" "q" 1) "multiply" (float64_of_int64 6) (float64_of_int64 7) (float64_of_int64 42))
    as (_ & w' & j1 & H1 & H2 & H3 & H4); try reflexivity.
  by exists w', j1.
Defined.
