(* ===== verification/Loops.v ===== *)
(** * The loops of the schedulers (internal/scheduler/scheduler.go,
    internal/queue/scheduler.go)

    [Scheduler.run] and [ScheduledJobProcessor.Start] have the same loop: a
    [select] on the context, the stop channel and a ticker, whose ticks are
    processed one at a time. The loop and [Stop] are a step relation; what a
    tick does is a parameter. The server starts each loop once. *)

From S2P Require Import Prelude Errors GoMonad Job Storage World Manager ManagerProps GoTime Scheduler SchedulerProps.
From S2P Require MemoryStore MemoryLaws.

(** ** Starting *)

(** [time.NewTicker] panics on an interval that is not positive. *)
Definition NewTicker (d : Duration) : res Duration :=
  if d <=? 0 then Panic "non-positive interval for NewTicker" else Ok d.

(** The ticker of [Scheduler.Start]. *)
Definition scheduler_ticker (tickInterval : Duration) : res Duration :=
  NewTicker (if tickInterval =? 0 then 1 * Second else tickInterval).

(** The ticker of [ScheduledJobProcessor.Start]. *)
Definition processor_ticker (interval : Duration) : res Duration :=
  NewTicker (processor_interval interval).

(** ** The loop *)

(** Where the goroutine is: in its [select], in the body of a tick, returned. *)
Inductive phase : Type := Selecting | Processing | Returned.

Record Loop (St : Type) : Type := mkLoop {
  lp_data : St;  (* what the ticks and the clients change *)
  lp_ticking : bool;  (* the ticker runs *)
  lp_tick : bool;  (* its channel holds a tick *)
  lp_done : bool;  (* the context is cancelled *)
  lp_stop : bool;  (* stopCh is closed *)
  lp_phase : phase;
}.
Arguments mkLoop {St}.
Arguments lp_data {St}.
Arguments lp_ticking {St}.
Arguments lp_tick {St}.
Arguments lp_done {St}.
Arguments lp_stop {St}.
Arguments lp_phase {St}.

(** After [Start]. *)
Definition loop_start {St} (s : St) : Loop St := mkLoop s true false false false Selecting.

Section loop.
Context {St : Type} (tick : M St unit) (client : St → St → Prop).

(** A step of the goroutine. An error of a tick is printed; a panic ends the
    process. *)
Inductive run_step : Loop St → Loop St → Prop :=
  (* case <-ctx.Done() *)
  | run_done s k t stop :
      run_step (mkLoop s k t true stop Selecting) (mkLoop s k t true stop Returned)
  (* case <-s.stopCh *)
  | run_stop s k t d :
      run_step (mkLoop s k t d true Selecting) (mkLoop s k t d true Returned)
  (* case <-s.ticker.C *)
  | run_tick s k d stop :
      run_step (mkLoop s k true d stop Selecting) (mkLoop s k false d stop Processing)
  | run_process s k t d stop :
      is_Panic (tick s).1 = false →
      run_step (mkLoop s k t d stop Processing) (mkLoop (tick s).2 k t d stop Selecting).

(** A step of anybody else: the ticker, whose channel holds one tick; a client;
    the context. [Stop] closes the channel, which panics the second time, and
    stops the ticker; it then waits for the goroutine. *)
Inductive env_step : Loop St → Loop St → Prop :=
  | env_fire s t d stop p :
      env_step (mkLoop s true t d stop p) (mkLoop s true true d stop p)
  | env_client s s' k t d stop p :
      client s s' → env_step (mkLoop s k t d stop p) (mkLoop s' k t d stop p)
  | env_cancel s k t d stop p :
      env_step (mkLoop s k t d stop p) (mkLoop s k t true stop p)
  | env_close s k t d p :
      env_step (mkLoop s k t d false p) (mkLoop s k t d true p)
  | env_ticker_stop s k t d p :
      env_step (mkLoop s k t d true p) (mkLoop s false t d true p).

Definition loop_step (l l' : Loop St) : Prop := run_step l l' ∨ env_step l l'.

(** [n] steps of the goroutine among steps of the others. *)
Inductive trace : nat → Loop St → Loop St → Prop :=
  | trace_refl l : trace 0 l l
  | trace_run n l l' l'' : run_step l l' → trace n l' l'' → trace (S n) l l''
  | trace_env n l l' l'' : env_step l l' → trace n l' l'' → trace n l l''.

(** What the wait of [Stop] waits for. *)
Definition returned (l : Loop St) : Prop := lp_phase l = Returned.

(** [Stop] has closed the channel and stopped the ticker. *)
Definition stopping (l : Loop St) : Prop := lp_stop l = true ∧ lp_ticking l = false.
End loop.

(** The loop of the scheduler, between the calls of its other methods. *)
Definition scheduler_step {S} `{Storage S} `{Runtime} `{MapRange} `{Uuids} (offset : Z)
    (client : Scheduler S → Scheduler S → Prop) : Loop (Scheduler S) → Loop (Scheduler S) → Prop :=
  loop_step (processDueSchedules offset) client.

(** The loop of the processor of scheduled jobs, between the calls of the
    manager. *)
Definition processor_step {S} `{Storage S} `{Runtime} `{MapRange}
    (client : World S → World S → Prop) : Loop (World S) → Loop (World S) → Prop :=
  loop_step processScheduledJobs client.

(** ** Every loop *)

Section theorems.
Context {St : Type} (tick : M St unit) (client : St → St → Prop).
Implicit Types (l : Loop St) (s : St).

(** A change by a tick or by a client. *)
Definition change (s s' : St) : Prop := (is_Panic (tick s).1 = false ∧ s' = (tick s).2) ∨ client s s'.

Lemma loop_step_data l l' : loop_step tick client l l' → rtc change (lp_data l) (lp_data l').
Proof.
  intros [[s k t stop|s k t d|s k d stop|s k t d stop Hp]|[s t d stop p|s s' k t d stop p Hc|s k t d stop p|s k t d p|s k t d p]];
    simpl; try done; apply rtc_once; [by left|by right].
Qed.

(** The data is what the ticks and the clients make of it, one after the other. *)
Lemma loop_data l l' : rtc (loop_step tick client) l l' → rtc change (lp_data l) (lp_data l').
Proof. induction 1; [done|]. etransitivity; [by eapply loop_step_data|done]. Qed.

Lemma loop_step_returned l l' : loop_step tick client l l' → returned l →
  returned l' ∧ rtc client (lp_data l) (lp_data l').
Proof.
  unfold returned. intros [[]|[s t d stop p|s s' k t d stop p Hc|s k t d stop p|s k t d p|s k t d p]]; simpl; try done.
  intros ->. split; [done|by apply rtc_once].
Qed.

(** After [Stop] has returned no tick is processed: only clients change the
    data, and the goroutine does not come back. *)
Theorem stopped_loop_is_quiet l l' :
  returned l → rtc (loop_step tick client) l l' → returned l' ∧ rtc client (lp_data l) (lp_data l').
Proof.
  intros Hl Hsteps. induction Hsteps as [l|l1 l2 l3 Hstep _ IH]; [done|].
  destruct (loop_step_returned _ _ Hstep Hl) as [H2 Hc]. destruct (IH H2) as [H3 Hc'].
  split; [done|by etransitivity].
Qed.

(** What is left for the goroutine to do when the ticker is stopped. *)
Definition work_left (l : Loop St) : nat :=
  match lp_phase l with Returned => 0 | Selecting => 1 | Processing => 2 end + (if lp_tick l then 2 else 0).

Lemma run_step_work l l' : run_step tick l l' → (work_left l' < work_left l)%nat.
Proof. destruct 1; unfold work_left; simpl; repeat case_match; lia. Qed.

Lemma run_step_stopping l l' : run_step tick l l' → stopping l → stopping l'.
Proof. unfold stopping. by destruct 1. Qed.

Lemma env_step_stopping l l' : env_step client l l' → stopping l →
  stopping l' ∧ work_left l' = work_left l.
Proof. unfold stopping. destruct 1; simpl; naive_solver. Qed.

Lemma stopping_progress l : (∀ s, is_Panic (tick s).1 = false) → stopping l →
  (∀ l', ¬ run_step tick l l') → returned l.
Proof.
  intros Hp [Hs _] Hno. destruct l as [s k t d stop p]. simpl in Hs. subst stop. destruct p; [| |done].
  - exfalso. eapply Hno, run_stop.
  - exfalso. eapply Hno, run_process. apply Hp.
Qed.

Lemma trace_stopping n l l' : trace tick client n l l' → stopping l →
  (n + work_left l' ≤ work_left l)%nat ∧ stopping l'.
Proof.
  induction 1 as [l|n l1 l2 l3 Hstep _ IH|n l1 l2 l3 Hstep _ IH]; intros Hs; [by split; [lia|]| |].
  - apply run_step_work in Hstep as Hw. destruct (IH (run_step_stopping _ _ Hstep Hs)). split; [lia|done].
  - destruct (env_step_stopping _ _ Hstep Hs) as [Hs' Hw]. destruct (IH Hs'). split; [lia|done].
Qed.

(** Once the channel is closed and the ticker stopped, the goroutine makes at
    most four more steps, and when it can make no more it has returned. *)
Lemma stop_returns l n l' :
  (∀ s, is_Panic (tick s).1 = false) → stopping l → trace tick client n l l' →
  (n ≤ 4)%nat ∧ stopping l' ∧ ((∀ l'', ¬ run_step tick l' l'') → returned l').
Proof.
  intros Hp Hs Hn. destruct (trace_stopping _ _ _ Hn Hs) as [Hw Hs']. split_and!; [|done|by apply stopping_progress].
  assert (work_left l ≤ 4)%nat; [|lia]. unfold work_left. repeat case_match; lia.
Qed.

(** An invariant of the ticks and of the clients is one of the loop. *)
Lemma loop_invariant (I : St → Prop) l l' :
  (∀ s, I s → I (tick s).2) → (∀ s s', client s s' → I s → I s') →
  rtc (loop_step tick client) l l' → I (lp_data l) → I (lp_data l').
Proof.
  intros Ht Hc Hsteps Hl. apply loop_data in Hsteps. revert Hl.
  induction Hsteps as [s|s1 s2 s3 [[_ ->]|Hcl] _ IH]; [done|by intros ?%Ht%IH|by intros ?%(Hc _ _ Hcl)%IH].
Qed.
End theorems.

(** ** The two loops *)

Section schedulers.
Context {S : Type} `{L : StorageLaws S} `{R : Runtime} `{MR : MapRange} `{U : Uuids}.
Context (offset : Z).

Lemma wp_Enqueue_no_panic j (w : World S) : wp (Enqueue j) w (λ r _, is_Panic r = false).
Proof.
  destruct (v_jobs (wview w) !! j_ID j) as [j0|] eqn:E.
  - by apply wp_Enqueue_dup.
  - by apply wp_Enqueue_new.
Qed.

Lemma executeSchedule_no_panic s (st : Scheduler S) : is_Panic (executeSchedule s st).1 = false.
Proof.
  unfold executeSchedule, NewUUID, on_manager, mbind, M_bind. simpl.
  match goal with |- context [Enqueue ?j ?w] => assert (Hp := wp_Enqueue_no_panic j w); unfold wp in Hp end.
  destruct (Enqueue _ _) as [[a|e|p] w']; done.
Qed.

Lemma process_schedule_ok now s (st : Scheduler S) :
  ∃ s' st', process_schedule offset now s st = (Ok s', st').
Proof.
  unfold process_schedule. destruct (negb (is_due now s)); [by eexists _, _|]. destruct (exhausted s); [by eexists _, _|].
  assert (Hp := executeSchedule_no_panic s st). unfold attempt, mbind, M_bind.
  destruct (executeSchedule s st) as [[a|e|p] st']; [by eexists _, _|by eexists _, _|done].
Qed.

(** A tick returns, whatever the schedules are and whether or not the jobs can
    be enqueued. *)
Lemma processDueSchedules_returns (st : Scheduler S) : is_Panic (processDueSchedules offset st).1 = false.
Proof.
  unfold processDueSchedules, on_manager, mbind at 1 2, M_bind. simpl.
  match goal with |- context [process_all offset ?now ?l ?st'] => generalize now, l, st' end.
  intros now l. induction l as [|[id s] l IH]; intros st'; [done|]. simpl.
  destruct (process_schedule_ok now s st') as (s' & st'' & E). unfold mbind, M_bind. rewrite E. simpl. apply IH.
Qed.

(** [Stop] of the scheduler returns: once it has closed the channel and
    stopped the ticker, the goroutine makes at most four more steps, and so
    processes at most two more ticks, in whatever order its [select] takes what
    is ready and whatever the clients do meanwhile; and when it can make no
    more steps it has returned. *)
Theorem scheduler_stop_returns client (l l' : Loop (Scheduler S)) n :
  stopping l → trace (processDueSchedules offset) client n l l' →
  (n ≤ 4)%nat ∧ stopping l' ∧ ((∀ l'', ¬ run_step (processDueSchedules offset) l' l'') → returned l').
Proof. apply stop_returns, processDueSchedules_returns. Qed.

Lemma scheduled_of_world now queues (w : World S) :
  (∀ q t s, is_Panic (st_GetScheduled q t s).1 = false ∧ (st_GetScheduled q t s).2 = s) →
  scheduled_of now queues w = (Ok tt, w).
Proof.
  intros Hg. induction queues as [|q queues IH]; [done|]. simpl.
  unfold attempt, use, mbind, M_bind. destruct (Hg q now (wo_store w)) as [Hp Hs].
  destruct (st_GetScheduled q now (wo_store w)) as [[a|e|p] s']; simpl in *; subst; try done; by destruct w.
Qed.

(** A tick of the processor only reads the clock: it returns and leaves the
    store and the cache as they are, when the backend's [GetScheduled] reads. *)
Lemma processScheduledJobs_reads (w : World S) :
  (∀ q t s, is_Panic (st_GetScheduled q t s).1 = false ∧ (st_GetScheduled q t s).2 = s) →
  ∃ w', processScheduledJobs w = (Ok tt, w') ∧ wo_store w' = wo_store w ∧ wo_configs w' = wo_configs w.
Proof.
  intros Hg. unfold processScheduledJobs, get_configs, Now, mbind, M_bind. simpl.
  rewrite scheduled_of_world by done. by eexists.
Qed.
End schedulers.

(** ** Witnesses *)

#[local] Existing Instance MemoryLaws.MemoryStorage.
#[local] Existing Instance MemoryLaws.MemoryStorageLaws.
#[local] Existing Instance demo_runtime.
#[local] Existing Instance map_range_default.
#[local] Existing Instance demo_uuids.

(** The overdue schedule, a tick that fired, and [Stop] under way. *)
Definition demo_loop : Loop (Scheduler MemoryStore.MemoryStore) :=
  mkLoop demo_scheduler false true false true Selecting.

Definition no_client {St} (_ _ : St) : Prop := False.

Lemma scheduler_stop_returns_witness : ∃ l',
  trace (processDueSchedules 0) no_client 3 demo_loop l' ∧ (3 ≤ 4)%nat ∧ stopping l'.
Proof.
  set (l' := mkLoop (processDueSchedules 0 demo_scheduler).2 false false false true Returned).
  assert (Ht : trace (processDueSchedules 0) no_client 3 demo_loop l').
  { eapply trace_run; [apply run_tick|]. eapply trace_run; [apply run_process; by vm_compute|].
    eapply trace_run; [apply run_stop|]. apply trace_refl. }
  exists l'. split; [exact Ht|].
  destruct (scheduler_stop_returns 0 no_client demo_loop l' 3) as (H1 & H2 & _); [done|exact Ht|done].
Defined.

Lemma stopped_loop_is_quiet_witness :
  let l := mkLoop demo_scheduler false true false true Returned in
  rtc (loop_step (processDueSchedules 0) no_client) l (mkLoop demo_scheduler false true true true Returned) ∧
  returned (mkLoop demo_scheduler false true true true Returned).
Proof.
  intros l.
  assert (Hs : rtc (loop_step (processDueSchedules 0) no_client) l
    (mkLoop demo_scheduler false true true true Returned)) by (apply rtc_once; right; apply env_cancel).
  split; [exact Hs|]. apply (stopped_loop_is_quiet (processDueSchedules 0) no_client l); [done|exact Hs].
Defined.
