(* ===== verification/Backends.v ===== *)
(** * The in-memory and the PostgreSQL queue deliver alike

    Both backends against one reference: the entries of a queue in their order
    of arrival, of which the first one with the highest priority is served. *)

From S2P Require Import Prelude Errors GoMonad Job Postgres PostgresStore PostgresInv PostgresJobs.
From S2P Require Import PostgresQueue PostgresQueueProps.
From S2P Require MemoryStore MemoryQueue.

(** ** Clients *)

(** A job is enqueued without a delay, or one is asked for, at a time. *)
Inductive client_op : Type :=
  | Push (now : Time) (id : string) (priority : Z)
  | Pop (now : Time).

Definition memory_op (q : string) (o : client_op) : M MemoryStore.MemoryStore string :=
  match o with
  | Push now id p => MemoryStore.Enqueue (λ _, now) q id p 0 ;; mret id
  | Pop now => MemoryStore.Dequeue (λ _, now) q
  end.

Definition postgres_op `{Postgres R} `{PgValues} (q : string) (o : client_op) : M R string :=
  match o with
  | Push now id p => PostgresQueue.Enqueue (λ _, now) q id p 0 ;; mret id
  | Pop now => PostgresQueue.Dequeue (λ _, now) q
  end.

Fixpoint answers {St} (step : client_op → M St string) (ops : list client_op) (s : St) : list (res string) :=
  match ops with
  | [] => []
  | o :: ops => let r := step o s in r.1 :: answers step ops r.2
  end.

(** ** The reference *)

(** The entries in their order of arrival: job, priority, time. *)
Abbreviation arrivals := (list (string * Z * Time)).

(** The first entry of the highest priority, with its index. *)
Fixpoint serve (l : arrivals) : option (nat * (string * Z * Time)) :=
  match l with
  | [] => None
  | x :: l =>
      match serve l with
      | None => Some (0%nat, x)
      | Some (i, y) => if x.1.2 <? y.1.2 then Some (S i, y) else Some (0%nat, x)
      end
  end.

(** A job is enqueued at the end; the first entry of the highest priority is
    taken out. *)
Definition reference_op (o : client_op) : M arrivals string := λ l,
  match o with
  | Push now id p => (Ok id, l ++ [(id, p, now)])
  | Pop _ =>
      match serve l with
      | None => (Err ErrQueueEmpty, l)
      | Some (i, x) => (Ok x.1.1, delete i l)
      end
  end.

(** Operations in the order of their times, a job being enqueued more than a
    microsecond after the operation before it and not while it is waiting. *)
Fixpoint orderly `{PgValues} (known : gset string) (clock : Time) (l : arrivals) (ops : list client_op) :
    Prop :=
  match ops with
  | [] => True
  | (Push now id p as o) :: ops =>
      clock + 1000 < now ∧ id ∈ known ∧ (id ∉ l.*1.*1) ∧ fits_text 255 id = true ∧ int4 p = true ∧
      orderly known now (reference_op o l).2 ops
  | (Pop now as o) :: ops => clock ≤ now ∧ orderly known now (reference_op o l).2 ops
  end.

(** The index of the first entry of the highest priority. *)
Definition served (l : arrivals) (i : nat) (id : string) : Prop := ∃ p t,
  l !! i = Some (id, p, t) ∧
  ∀ k id' p' t', l !! k = Some (id', p', t') → p' ≤ p ∧ ((k < i)%nat → p' < p).

Lemma serve_None l : serve l = None → l = [].
Proof. destruct l as [|x l]; [done|]. simpl. destruct (serve l) as [[i y]|]; [by destruct (_ <? _)|done]. Qed.

Lemma serve_Some l i x : serve l = Some (i, x) → l !! i = Some x ∧ served l i x.1.1.
Proof.
  revert i x. induction l as [|x0 l IH]; intros i x E; simpl in E; [done|].
  destruct (serve l) as [[k [[id0 p0] t0]]|] eqn:El.
  - destruct (IH k _ eq_refl) as [Hk (p & t & Hk' & Hb)]. rewrite Hk in Hk'. simplify_eq/=.
    destruct (Z.ltb_spec x0.1.2 p); simplify_eq/=; (split; [done|]).
    + exists p, t. split; [done|]. intros [|n] id' p' t' Hn; simpl in Hn; simplify_eq/=; [lia|].
      destruct (Hb _ _ _ _ Hn). split; [done|]. lia.
    + destruct x as [[id1 p1] t1]. exists p1, t1. split; [done|]. simpl in *.
      intros [|n] id' p' t' Hn; simpl in Hn; simplify_eq/=; [lia|]. destruct (Hb _ _ _ _ Hn). lia.
  - apply serve_None in El as ->. simplify_eq/=. split; [done|]. destruct x as [[id p] t]. exists p, t.
    split; [done|]. intros [|n] id' p' t' Hn; simplify_eq/=; lia.
Qed.

Section reference.
Context `{PgValuesLaws} (q : string).
Implicit Types (m : MemoryStore.MemoryStore) (d : DB) (l : arrivals).

(** The entries of both backends are those of the list, which arrived in the
    order of their times, all of them before [clock]. *)
Record arrived (clock : Time) l : Prop := {
  ar_before x : x ∈ l → x.2 ≤ clock;
  ar_ordered i k x y : (i < k)%nat → l !! i = Some x → l !! k = Some y → timestamp x.2 < timestamp y.2;
  ar_nodup : NoDup l.*1.*1;
}.

Definition in_memory l m : Prop :=
  MemoryStore.entries_of m q = (λ x, MemoryStore.mkQueueEntry x.1.1 x.1.2 x.2) <$> l.

Definition in_tables l d : Prop :=
  ∀ id r, queues d !! (q, id) = Some r ↔ ∃ p t, (id, p, t) ∈ l ∧ r = mkQueueRow p (timestamp t).

Lemma timestamp_later t t' : t + 1000 < t' → timestamp t < timestamp t'.
Proof.
  intros Ht. assert (H1 := timestamp_near t). assert (H2 := timestamp_near t').
  assert (timestamp t ≤ t + 500) by lia. assert (t' - 500 ≤ timestamp t') by lia. lia.
Qed.

Lemma arrived_push clock l now id p :
  arrived clock l → clock + 1000 < now → id ∉ l.*1.*1 →
  arrived now (l ++ [(id, p, now)]).
Proof.
  intros [Hb Ho Hn] Hnow Hid. split.
  - intros x [Hx| ->%list_elem_of_singleton]%elem_of_app; simpl; [apply Hb in Hx; lia|lia].
  - intros i k x y Hik Hi Hk. apply lookup_app_Some in Hk as [Hk|[Hlen Hk]].
    + assert (Hl := lookup_lt_Some _ _ _ Hk). rewrite lookup_app_l in Hi by lia.
      exact (Ho i k x y Hik Hi Hk).
    + apply list_lookup_singleton_Some in Hk as [Hk <-].
      rewrite lookup_app_l in Hi by lia. apply timestamp_later. simpl.
      apply list_elem_of_lookup_2, Hb in Hi. lia.
  - rewrite !fmap_app. simpl. apply NoDup_app. split_and!; [done| |by apply NoDup_singleton].
    by intros i Hi ->%list_elem_of_singleton.
Qed.

Lemma arrived_later clock now l : arrived clock l → clock ≤ now → arrived now l.
Proof. intros [Hb Ho Hn] Hnow. split; try done. intros x Hx%Hb. lia. Qed.

Lemma arrived_serve clock l i x : arrived clock l → l !! i = Some x →
  arrived clock (delete i l).
Proof.
  intros [Hb Ho Hn] Hi. split.
  - intros y Hy. by apply Hb, (elem_of_delete_list _ i).
  - intros j k y z Hjk. rewrite !list_lookup_delete. intros Hj Hk.
    eapply Ho; [|exact Hj|exact Hk]. repeat case_decide; lia.
  - rewrite (delete_Permutation l i x Hi) in Hn. by apply NoDup_cons in Hn as [_ ?].
Qed.

(** An identifier is at one place. *)
Lemma arrived_unique clock l i k x y : arrived clock l →
  l !! i = Some x → l !! k = Some y → x.1.1 = y.1.1 → i = k.
Proof.
  intros [_ _ Hn] Hi Hk Heq. eapply NoDup_lookup; [exact Hn| |].
  - rewrite !list_lookup_fmap, Hi. done.
  - rewrite !list_lookup_fmap, Hk. simpl. by rewrite Heq.
Qed.

(** ** The in-memory queue *)

Lemma memory_push l m now id p : in_memory l m → is_Some (MemoryStore.ms_jobs m !! id) →
  ∃ m', memory_op q (Push now id p) m = (Ok id, m') ∧ in_memory (l ++ [(id, p, now)]) m' ∧
    MemoryStore.ms_jobs m' = MemoryStore.ms_jobs m ∧ MemoryQueue.paused m' q = MemoryQueue.paused m q.
Proof.
  intros Hl [j Hj]. eexists. split.
  - simpl. unfold mbind, M_bind, MemoryStore.Enqueue. rewrite Hj. reflexivity.
  - split; [|done]. unfold in_memory. rewrite MemoryQueue.entries_of_insert_eq, Hl, fmap_app. simpl.
    unfold Add. by rewrite Z.add_0_r.
Qed.

Lemma memory_pop clock l m now : arrived clock l → clock ≤ now → in_memory l m →
  MemoryQueue.paused m q = false →
  (l = [] ∧ memory_op q (Pop now) m = (Err ErrQueueEmpty, m)) ∨
  ∃ i id m', served l i id ∧ memory_op q (Pop now) m = (Ok id, m') ∧ in_memory (delete i l) m' ∧
    MemoryStore.ms_jobs m' = MemoryStore.ms_jobs m ∧ MemoryQueue.paused m' q = MemoryQueue.paused m q.
Proof.
  intros Har Hnow Hl Hnp.
  assert (Hready : ∀ e, e ∈ MemoryStore.entries_of m q → MemoryQueue.ready now e = true).
  { intros e. rewrite Hl. intros (x & -> & Hx)%list_elem_of_fmap. unfold MemoryQueue.ready, After.
    apply (ar_before _ _ Har) in Hx. simpl. apply negb_true_iff, Z.ltb_ge. lia. }
  destruct (MemoryQueue.Dequeue_cases (λ _, now) q m) as [[Hp _]|[(_ & Hnone & Hd)|(i & e & _ & Hbest & Hd)]].
  - congruence.
  - left. split; [|exact Hd]. destruct l as [|x l]; [done|]. exfalso.
    assert (Hin : MemoryStore.mkQueueEntry x.1.1 x.1.2 x.2 ∈ MemoryStore.entries_of m q)
      by (rewrite Hl; apply list_elem_of_here).
    assert (H1 := Hnone _ Hin). rewrite (Hready _ Hin) in H1. done.
  - right. destruct Hbest as (Hi & _ & Hb). rewrite Hl, list_lookup_fmap in Hi.
    apply fmap_Some in Hi as ([[id p] t] & Hi & ->). exists i, id. eexists. split; [|split; [exact Hd|split; [|done]]].
    + exists p, t. split; [done|]. intros k id' p' t' Hk.
      apply (Hb k (MemoryStore.mkQueueEntry id' p' t')).
      * by rewrite Hl, list_lookup_fmap, Hk.
      * apply Hready. rewrite Hl. apply list_elem_of_fmap. exists (id', p', t'). split; [done|].
        by eapply list_elem_of_lookup_2.
    + unfold in_memory. rewrite MemoryQueue.entries_of_insert_eq, Hl. symmetry. apply list_fmap_delete.
Qed.

(** ** The table of entries *)

Lemma tables_push l d now id p : tables_ok d → in_tables l d → fits_text 255 q = true →
  fits_text 255 id = true → int4 p = true → is_Some (jobs d !! id) →
  (∀ x, x ∈ l → x.1.1 ≠ id) →
  ∃ d', postgres_op q (Push now id p) d = (Ok id, d') ∧ in_tables (l ++ [(id, p, now)]) d' ∧
    tables_ok d' ∧ jobs d' = jobs d ∧ paused_queues d' = paused_queues d.
Proof.
  intros Hd Hl Hq Hid Hp Hj Hnew.
  assert (He := Enqueue_ok now q id p 0 d Hd). cbn [queue_call_fits] in He. rewrite Hq, Hid, Hp in He.
  specialize (He eq_refl). rewrite decide_True in He by done.
  eexists. split; [simpl; unfold mbind, M_bind; rewrite He; reflexivity|]. split_and!; [| |done|done].
  - intros id' r. simpl. unfold Add. rewrite Z.add_0_r. destruct (decide (id' = id)) as [->|Hne].
    + rewrite lookup_insert_eq. split.
      * intros [= <-]. exists p, now. split; [apply elem_of_app; right; by apply list_elem_of_singleton|done].
      * intros (p' & t' & [Hin| [= -> ->]%list_elem_of_singleton]%elem_of_app & ->); [by apply Hnew in Hin|done].
    + rewrite lookup_insert_ne by congruence. etransitivity; [apply Hl|]. split; intros (p' & t' & Hin & ->); exists p', t'; (split; [|done]).
      * apply elem_of_app. by left.
      * apply elem_of_app in Hin as [?|[= -> _ _]%list_elem_of_singleton]; done.
  - assert (Hk := kept_run (CEnqueue (λ _, now) q id p 0) d Hd). simpl in Hk.
    unfold mbind, M_bind in Hk. rewrite He in Hk. exact Hk.
Qed.

Lemma tables_pop clock l d now : tables_ok d → arrived clock l → clock ≤ now → in_tables l d →
  text_ok q = true → q ∉ paused_queues d →
  (l = [] ∧ postgres_op q (Pop now) d = (Err ErrQueueEmpty, d)) ∨
  ∃ i id d', served l i id ∧ postgres_op q (Pop now) d = (Ok id, d') ∧ in_tables (delete i l) d' ∧
    tables_ok d' ∧ jobs d' = jobs d ∧ paused_queues d' = paused_queues d.
Proof.
  intros Hd Har Hnow Hl Hq Hnp.
  assert (Hready : ∀ x, x ∈ l → timestamp x.2 ≤ timestamp now).
  { intros x Hx%(ar_before _ _ Har). apply timestamp_mono. lia. }
  destruct (Dequeue_ok now q d Hd Hq Hnp) as [[Hde Hnone]|(id & Hde & r & Hr & _ & Hbest)].
  - left. split; [|exact Hde]. destruct l as [|[[id p] t] l]; [done|]. exfalso.
    assert (Hin : (id, p, t) ∈ (id, p, t) :: l) by apply list_elem_of_here.
    assert (H1 := Hnone id (mkQueueRow p (timestamp t))). simpl in H1.
    specialize (H1 (proj2 (Hl _ _) (ex_intro _ p (ex_intro _ t (conj Hin eq_refl))))).
    apply Hready in Hin. simpl in Hin. lia.
  - right. apply Hl in Hr as (p & t & Hin & ->). simpl in Hbest.
    apply list_elem_of_lookup_1 in Hin as [i Hi]. exists i, id. eexists. split; [|split; [exact Hde|]].
    + exists p, t. split; [done|]. intros k id' p' t' Hk.
      assert (Hin' := list_elem_of_lookup_2 _ _ _ Hk).
      assert (Hb := Hbest id' (mkQueueRow p' (timestamp t'))
        (proj2 (Hl _ _) (ex_intro _ p' (ex_intro _ t' (conj Hin' eq_refl)))) (Hready _ Hin')).
      simpl in Hb. split; [lia|]. intros Hki.
      assert (Ht := ar_ordered _ _ Har k i _ _ Hki Hk Hi). simpl in Ht. lia.
    + split_and!; [| |done|done].
      * intros id' r'. simpl. rewrite lookup_delete_Some, (Hl id' r'). split.
        -- intros [Hne (p' & t' & Hin & ->)]. exists p', t'. split; [|done].
           rewrite (delete_Permutation l i _ Hi) in Hin. apply elem_of_cons in Hin as [[= -> -> ->]|?]; [|done].
           by destruct Hne.
        -- intros (p' & t' & Hin & ->). split.
           ++ intros [= <-]. apply list_elem_of_lookup_1 in Hin as [k Hk].
              assert (Hk' := Hk). rewrite list_lookup_delete in Hk'.
              assert (Heq := arrived_unique _ _ _ _ _ _ Har Hi Hk' eq_refl). revert Heq. case_decide; lia.
           ++ exists p', t'. split; [|done]. by apply (elem_of_delete_list _ i).
      * eapply tables_ok_incl; [exact Hd|done|apply delete_subseteq|done..].
Qed.

(** One entry is served at a time. *)
Lemma served_unique clock l i k id id' : arrived clock l →
  served l i id → served l k id' → i = k ∧ id = id'.
Proof.
  intros Har (p & t & Hi & Hbi) (p' & t' & Hk & Hbk).
  assert (Hik := Hbi _ _ _ _ Hk). assert (Hki := Hbk _ _ _ _ Hi).
  assert (i = k) as -> by (destruct (decide (i < k)%nat), (decide (k < i)%nat); lia).
  split; [done|]. congruence.
Qed.

(** Both queues hold the entries of [l], and the jobs that [known] lists. *)
Record agree (known : gset string) (clock : Time) l m d : Prop := {
  ag_arrived : arrived clock l;
  ag_memory : in_memory l m;
  ag_tables : in_tables l d;
  ag_ok : tables_ok d;
  ag_known id : id ∈ known → is_Some (MemoryStore.ms_jobs m !! id) ∧ is_Some (jobs d !! id);
  ag_open : MemoryQueue.paused m q = false ∧ q ∉ paused_queues d;
}.

(** What one operation does to the two: the answer of the reference, and they
    agree again. *)
Lemma step_agrees known clock o ops l m d : fits_text 255 q = true →
  agree known clock l m d → orderly known clock l (o :: ops) →
  ∃ r m' d' clock' l', reference_op o l = (r, l') ∧ memory_op q o m = (r, m') ∧ postgres_op q o d = (r, d') ∧
    agree known clock' l' m' d' ∧ orderly known clock' l' ops.
Proof.
  intros Hq [Har Hm Hd Hok Hknown [Hnp Hnp']]. destruct o as [now id p|now]; simpl orderly.
  - intros (Hnow & Hid & Hnew & Hfit & Hp & Hops). destruct (Hknown id Hid) as [Hjm Hjd].
    assert (Hfresh : ∀ x, x ∈ l → x.1.1 ≠ id).
    { intros x Hx <-. apply Hnew. apply list_elem_of_fmap. exists x.1. split; [done|].
      apply list_elem_of_fmap. by exists x. }
    destruct (memory_push l m now id p Hm Hjm) as (m' & Hm1 & Hm2 & Hm3 & Hm4).
    destruct (tables_push l d now id p Hok Hd Hq Hfit Hp Hjd Hfresh) as (d' & Hd1 & Hd2 & Hd3 & Hd4 & Hd5).
    exists (Ok id), m', d', now, (l ++ [(id, p, now)]). split_and!; [done..| |done].
    split; [by eapply arrived_push|done..| |]; rewrite ?Hm3, ?Hm4, ?Hd4, ?Hd5; auto.
  - intros [Hnow Hops]. assert (Har' := arrived_later _ _ _ Har Hnow).
    destruct (memory_pop clock l m now Har Hnow Hm Hnp)
      as [[-> Hm1]|(i & id & m' & Hs & Hm1 & Hm2 & Hm3 & Hm4)];
    destruct (tables_pop clock _ d now Hok Har Hnow Hd (fits_text_ok _ _ Hq) Hnp')
      as [[Hnil Hd1]|(i' & id' & d' & Hs' & Hd1 & Hd2 & Hd3 & Hd4 & Hd5)].
    + by exists (Err ErrQueueEmpty), m, d, now, [].
    + by destruct Hs' as (? & ? & ? & _).
    + subst l. by destruct Hs as (? & ? & ? & _).
    + destruct (served_unique _ _ _ _ _ _ Har Hs Hs') as [<- <-].
      destruct (serve l) as [[k x]|] eqn:Ek; [|apply serve_None in Ek as ->; by destruct Hs as (? & ? & ? & _)].
      destruct (serve_Some _ _ _ Ek) as [Hk Hsk].
      destruct (served_unique _ _ _ _ _ _ Har Hs Hsk) as [<- ->].
      exists (Ok x.1.1), m', d', now, (delete i l). unfold reference_op in *. rewrite Ek in *.
      split_and!; [done..| |done].
      split; [by eapply arrived_serve|done..| |]; rewrite ?Hm3, ?Hm4, ?Hd4, ?Hd5; auto.
Qed.
End reference.

(** ** On a server *)

Section server.
Context `{PgValuesLaws} `{PostgresLaws R}.

Lemma pg_op q o : refines data (postgres_op q o) (postgres_op q o).
Proof. destruct o; simpl; solve_refines. Qed.

Lemma answers_agree q known ops : fits_text 255 q = true → ∀ clock l m (s : R),
  agree q known clock l m (data s) → orderly known clock l ops →
  answers (memory_op q) ops m = answers reference_op ops l ∧
  answers (postgres_op q) ops s = answers reference_op ops l.
Proof.
  intros Hq. induction ops as [|o ops IH]; intros clock l m s Hag Hops; [done|].
  destruct (step_agrees q known clock o ops l m (data s) Hq Hag Hops)
    as (r & m' & d' & clock' & l' & Hl & Hm & Hd & Hag' & Hops').
  destruct (refines_run _ _ _ _ _ _ (pg_op q o) Hd) as [Hr Hs]. cbn [answers].
  rewrite Hm, Hr, Hl. cbn [fst snd]. rewrite <- Hs in Hag'.
  destruct (IH clock' l' m' _ Hag' Hops') as [-> ->]. done.
Qed.

(** C16. A client that enqueues and dequeues gets the same answers, in the same
    order, from the in-memory queue and from PostgreSQL, namely those of the
    reference: both serve the first entry of the highest priority. It is stated
    for jobs that both stores hold, whose identifiers, queue and priorities fit
    their columns, enqueued without a delay and not while they already wait
    (then PostgreSQL replaces the entry and the in-memory queue has a second one,
    [reenqueueing_differs]); a job that was served may be enqueued again. The
    queue is empty and not paused at first, and an operation that enqueues comes
    more than a microsecond after the one before, which is what a column of times
    keeps. *)
Theorem backends_deliver_alike q known clock ops (m : MemoryStore.MemoryStore) (s : R) :
  tables_ok (data s) → fits_text 255 q = true →
  MemoryStore.entries_of m q = [] → (∀ id, queues (data s) !! (q, id) = None) →
  MemoryQueue.paused m q = false → q ∉ paused_queues (data s) →
  (∀ id, id ∈ known → is_Some (MemoryStore.ms_jobs m !! id) ∧ is_Some (jobs (data s) !! id)) →
  orderly known clock [] ops →
  answers (memory_op q) ops m = answers reference_op ops [] ∧
  answers (postgres_op q) ops s = answers reference_op ops [].
Proof.
  intros Hok Hq Hm Hs Hp Hp' Hknown Hops. apply (answers_agree q known ops Hq clock []); [|done].
  split; try done.
  - split; [by intros x Hx%elem_of_nil|by intros ????? ?|by apply NoDup_nil].
  - intros id r. rewrite Hs. split; [done|]. by intros (? & ? & ?%elem_of_nil & _).
Qed.
End server.

(** ** A witness: the later job is more urgent *)

#[local] Existing Instance plain_values.
#[local] Existing Instance plain_values_laws.

Definition urgent_job : Job := mkJob "mail-2" "send_email" "[2]" 9 "PENDING" 3 0 2 30 300 (Some 5) 5 6 None
  None "" "" ∅ "mail" 0 "".

Definition both_jobs : DB := run_all [CCreateJob demo_job; CCreateJob urgent_job] empty_db.

Definition both_stored : MemoryStore.MemoryStore :=
  ((MemoryStore.CreateJob demo_job ;; MemoryStore.CreateJob urgent_job) (MemoryStore.NewMemoryStore (λ _, 5))).2.

Definition client : list client_op :=
  [Pop 10000; Push 20000 "mail-1" 7; Push 30000 "mail-2" 9; Pop 40000; Push 50000 "mail-2" 9; Pop 60000;
   Pop 60000; Pop 60000].

Lemma backends_deliver_alike_witness :
  answers (memory_op "mail") client both_stored = answers reference_op client [] ∧
  answers (postgres_op "mail") client both_jobs = answers reference_op client [].
Proof.
  apply (backends_deliver_alike (R := DB) "mail" {["mail-1"; "mail-2"]} 5).
  - apply kept_run_all, tables_ok_empty.
  - done.
  - by vm_compute.
  - intros id. by vm_compute.
  - done.
  - apply (bool_decide_unpack _). by vm_compute.
  - intros id [->%elem_of_singleton| ->%elem_of_singleton]%elem_of_union; split; vm_compute; by eexists.
  - simpl. split_and!; try done; set_solver by lia.
Defined.

Example client_answers : answers reference_op client [] =
  [Err ErrQueueEmpty; Ok "mail-1"; Ok "mail-2"; Ok "mail-2"; Ok "mail-2"; Ok "mail-2"; Ok "mail-1"; Err ErrQueueEmpty].
Proof. by vm_compute. Qed.

(** A job that is enqueued while it waits is served twice by the in-memory queue. *)
Example reenqueueing_differs :
  let ops := [Push 10000 "mail-1" 7; Push 20000 "mail-1" 7; Pop 30000; Pop 30000] in
  answers (memory_op "mail") ops both_stored = [Ok "mail-1"; Ok "mail-1"; Ok "mail-1"; Ok "mail-1"] ∧
  answers (postgres_op "mail") ops both_jobs = [Ok "mail-1"; Ok "mail-1"; Ok "mail-1"; Err ErrQueueEmpty].
Proof. by vm_compute. Qed.
