(* ===== verification/Faults.v ===== *)
(** * The manager over a backend that fails

    A call of a remote backend can fail in two ways: the request is lost, and
    nothing happens, or the reply is lost, after the backend did its work. The
    caller sees the same error. Any backend that keeps the contract is made
    one that fails at calls of the environment's choice ([FaultyStorage]); what
    the manager promises over it is proved here.

    Each method of the interface fails or succeeds as a whole: it makes one
    change to the backend in the implementations, if any. *)

From S2P Require Import Prelude Errors GoMonad Job Storage World Manager ManagerProps.
From S2P Require MemoryStore MemoryLaws MemoryJobs.

(** ** Faults *)

Inductive fault : Type :=
  | LostRequest (e : error)
  | LostReply (e : error).

(** What the environment does to the n-th call. *)
Class Faults := { fault_at : nat → option fault }.

(** The backend, and the number of the next call. *)
Record Faulty (S : Type) : Type := mkFaulty {
  fy_store : S;
  fy_calls : nat;
}.
Arguments mkFaulty {S}.
Arguments fy_store {S}.
Arguments fy_calls {S}.

Section faulty.
Context {S : Type} `{Storage S} `{Faults}.

Definition faulty {A} (m : M S A) : M (Faulty S) A := λ s,
  let r := m (fy_store s) in
  match fault_at (fy_calls s) with
  | None => (r.1, mkFaulty r.2 (1 + fy_calls s))
  | Some (LostRequest e) => (Err e, mkFaulty (fy_store s) (1 + fy_calls s))
  | Some (LostReply e) =>
      (match r.1 with Panic why => Panic why | _ => Err e end, mkFaulty r.2 (1 + fy_calls s))
  end.

#[export] Instance FaultyStorage : Storage (Faulty S) := {|
  st_CreateJob j := faulty (st_CreateJob j);
  st_GetJob id := faulty (st_GetJob id);
  st_UpdateJob j := faulty (st_UpdateJob j);
  st_DeleteJob id := faulty (st_DeleteJob id);
  st_ListJobs q status l o := faulty (st_ListJobs q status l o);
  st_UpdateStatus clk id status := faulty (st_UpdateStatus clk id status);
  st_UpdateProgress clk id p := faulty (st_UpdateProgress clk id p);
  st_SetResult clk id r := faulty (st_SetResult clk id r);
  st_SetError clk id msg := faulty (st_SetError clk id msg);
  st_Enqueue clk q id p d := faulty (st_Enqueue clk q id p d);
  st_Dequeue clk q := faulty (st_Dequeue clk q);
  st_Requeue clk q id p d := faulty (st_Requeue clk q id p d);
  st_Remove q id := faulty (st_Remove q id);
  st_Length q := faulty (st_Length q);
  st_Peek q n := faulty (st_Peek q n);
  st_GetScheduled q t := faulty (st_GetScheduled q t);
  st_PauseQueue q := faulty (st_PauseQueue q);
  st_ResumeQueue q := faulty (st_ResumeQueue q);
  st_IsQueuePaused q := faulty (st_IsQueuePaused q);
  st_RegisterWorker w := faulty (st_RegisterWorker w);
  st_UnregisterWorker id := faulty (st_UnregisterWorker id);
  st_UpdateHeartbeat clk id := faulty (st_UpdateHeartbeat clk id);
  st_UpdateWorkerStatus id status := faulty (st_UpdateWorkerStatus id status);
  st_SetCurrentJob id job := faulty (st_SetCurrentJob id job);
  st_IncrementProcessed id := faulty (st_IncrementProcessed id);
  st_IncrementFailed id := faulty (st_IncrementFailed id);
  st_ListWorkers status := faulty (st_ListWorkers status);
  st_GetWorker id := faulty (st_GetWorker id);
  st_RecordJobCreated q t := faulty (st_RecordJobCreated q t);
  st_RecordJobCompleted q t d := faulty (st_RecordJobCompleted q t d);
  st_RecordJobFailed q t := faulty (st_RecordJobFailed q t);
  st_RecordJobRetried q t := faulty (st_RecordJobRetried q t);
  st_GetQueueStats q := faulty (st_GetQueueStats q);
  st_GetQueueStatsAll := faulty st_GetQueueStatsAll;
  st_SaveQueueConfig c := faulty (st_SaveQueueConfig c);
  st_GetQueueConfig q := faulty (st_GetQueueConfig q);
  st_DeleteQueueConfig q := faulty (st_DeleteQueueConfig q);
  st_ListQueueConfigs := faulty st_ListQueueConfigs;
|}.

(** The faults of the calls so far. *)
Definition faults_of (s : Faulty S) : nat := length (omap fault_at (seq 0 (fy_calls s))).
End faulty.

(** ** Calls *)

Create HintDb calm.

Section calls.
Context {S : Type} `{L : StorageLaws S} `{R : Runtime} `{MR : MapRange} `{F : Faults}.
Implicit Types (w : World (Faulty S)).

Abbreviation seen w := (faults_of (wo_store w)).

(** What the backend holds, whatever its callers have been told. *)
Definition fview w : View := view (fy_store (wo_store w)).

(** [w'] has the view [v], and [n] faults more. *)
Definition next w (v : View) (n : nat) w' : Prop :=
  fview w' ≡ v ∧ seen w' = (n + seen w)%nat ∧ wo_configs w' = wo_configs w.

Lemma faults_of_next (s : Faulty S) (s' : S) :
  faults_of (mkFaulty s' (1 + fy_calls s)) =
  ((if fault_at (fy_calls s) is Some _ then 1 else 0) + faults_of s)%nat.
Proof.
  unfold faults_of. cbn [fy_calls]. rewrite Nat.add_comm, seq_app, omap_app, length_app. simpl.
  destruct (fault_at (fy_calls s)); simpl; lia.
Qed.

(** A call: it goes well, its reply is lost, or its request is. *)
Lemma faulty_cases {A} (op : M S A) (s : Faulty S) r v : returns view op (fy_store s) r v → is_Panic r = false →
  ∃ r' s' n, faulty op s = (r', s') ∧ faults_of s' = (n + faults_of s)%nat ∧
    ((r' = r ∧ n = 0%nat ∧ view (fy_store s') ≡ v) ∨
     ∃ e, r' = Err e ∧ n = 1%nat ∧ (view (fy_store s') ≡ v ∨ view (fy_store s') ≡ view (fy_store s))).
Proof.
  intros (s1 & Hs & Hv) Hp. unfold faulty. rewrite Hs. simpl (_.1). simpl (_.2).
  pose proof (faults_of_next s) as Hn. destruct (fault_at (fy_calls s)) as [[e|e]|].
  - eexists _, _, 1%nat. split; [done|]. split; [apply Hn|]. right. exists e. auto.
  - eexists _, _, 1%nat. split; [done|]. split; [apply Hn|]. right. exists e. destruct r; auto. done.
  - eexists _, _, 0%nat. split; [done|]. split; [apply Hn|]. by left.
Qed.

Lemma wp_faulty_call {A} (op : Clock → M S A) w r v (Q : res A → World (Faulty S) → Prop) :
  returns view (op (λ i, rt_now (wo_tick w + i))) (fy_store (wo_store w)) r v → is_Panic r = false →
  (∀ w', next w v 0 w' → Q r w') →
  (∀ e w', next w v 1 w' ∨ next w (fview w) 1 w' → Q (Err e) w') →
  wp (call (λ clk, faulty (op clk))) w Q.
Proof.
  intros Hr Hp Hok Herr. destruct (faulty_cases _ _ _ _ Hr Hp) as (r' & s' & n & Hs & Hn & Hc).
  unfold wp, call. rewrite Hs. simpl. destruct Hc as [(-> & -> & Hv)|(e & -> & -> & Hv)].
  - by apply Hok.
  - apply Herr. destruct Hv; [left|right]; by split.
Qed.

Lemma wp_faulty_use {A} (op : M S A) w r v (Q : res A → World (Faulty S) → Prop) :
  returns view op (fy_store (wo_store w)) r v → is_Panic r = false →
  (∀ w', next w v 0 w' → Q r w') →
  (∀ e w', next w v 1 w' ∨ next w (fview w) 1 w' → Q (Err e) w') →
  wp (use (faulty op)) w Q.
Proof.
  intros Hr Hp Hok Herr. destruct (faulty_cases _ _ _ _ Hr Hp) as (r' & s' & n & Hs & Hn & Hc).
  unfold wp, use. rewrite Hs. simpl. destruct Hc as [(-> & -> & Hv)|(e & -> & -> & Hv)].
  - by apply Hok.
  - apply Herr. destruct Hv; [left|right]; by split.
Qed.

(** ** Relations that calls keep *)

(** The call does not panic, and [Rel] holds of the worlds before and after it. *)
Definition calm_by {A} (Rel : World (Faulty S) → World (Faulty S) → Prop) (m : M (World (Faulty S)) A) : Prop :=
  ∀ w, wp m w (λ r w', is_Panic r = false ∧ Rel w w').

Section calm.
Context (Rel : World (Faulty S) → World (Faulty S) → Prop) `{!PreOrder Rel}.

Lemma calm_ret {A} (a : A) : calm_by Rel (mret a).
Proof. intros w. by split. Qed.

Lemma calm_throw {A} e : calm_by Rel (throw (A:=A) e).
Proof. intros w. by split. Qed.

Lemma calm_bind {A B} (m : M (World (Faulty S)) A) (k : A → M (World (Faulty S)) B) :
  calm_by Rel m → (∀ a, calm_by Rel (k a)) → calm_by Rel (m ≫= k).
Proof.
  intros Hm Hk w. apply wp_bind. eapply wp_mono; [apply Hm|]. intros [a|e|p] w' [Hp Hw]; [|done|done].
  eapply wp_mono; [apply Hk|]. intros r w'' [Hp' Hw']. split; [done|by etransitivity].
Qed.

Lemma calm_attempt {A} (m : M (World (Faulty S)) A) : calm_by Rel m → calm_by Rel (attempt m).
Proof. intros Hm w. apply wp_attempt. eapply wp_mono; [apply Hm|]. by intros [a|e|p] w' [Hp Hw]. Qed.

Lemma calm_wrap {A} msg (m : M (World (Faulty S)) A) : calm_by Rel m → calm_by Rel (wrap_err msg m).
Proof. intros Hm w. apply wp_wrap. eapply wp_mono; [apply Hm|]. by intros [a|e|p] w' [Hp Hw]. Qed.

Lemma calm_warn {A} (m : M (World (Faulty S)) A) : calm_by Rel m → calm_by Rel (warn m).
Proof. intros Hm. apply calm_bind; [by apply calm_attempt|]. intros _. apply calm_ret. Qed.

Lemma calm_get_configs : calm_by Rel get_configs.
Proof. intros w. by split. Qed.

Lemma wp_calm {A} (m : M (World (Faulty S)) A) w Q :
  calm_by Rel m → (∀ r w', Rel w w' → match r with Panic _ => True | _ => Q r w' end) → wp m w Q.
Proof using Type.
  intros Hm HQ. eapply wp_mono; [apply Hm|]. intros r w' [Hp Hw]. specialize (HQ r w' Hw). by destruct r.
Qed.

(** A call that is dropped with its error. *)
Lemma wp_calm_warn {A} (m : M (World (Faulty S)) A) w (Q : res unit → World (Faulty S) → Prop) :
  calm_by Rel m → (∀ w', Rel w w' → Q (Ok tt) w') → wp (warn m) w Q.
Proof using Type.
  intros Hm HQ. apply wp_warn. eapply wp_mono; [apply Hm|]. intros r w' [Hp Hw]. specialize (HQ w' Hw).
  by destruct r.
Qed.
End calm.

Lemma calm_by_mono {A} (R1 R2 : World (Faulty S) → World (Faulty S) → Prop) (m : M (World (Faulty S)) A) :
  (∀ w w', R1 w w' → R2 w w') → calm_by R1 m → calm_by R2 m.
Proof. intros HR Hm w. eapply wp_mono; [apply Hm|]. intros r w' [Hp Hw]. split; [done|by apply HR]. Qed.

(** ** Calls that leave the jobs and the queues *)

(** A configuration that is cached stays so. *)
Definition still w w' : Prop :=
  v_jobs (fview w') = v_jobs (fview w) ∧ (∀ q, v_queue (fview w') q ≡ₚ v_queue (fview w) q) ∧
  (seen w ≤ seen w')%nat ∧ (∀ q, is_Some (wo_configs w !! q) → is_Some (wo_configs w' !! q)).

#[export] Instance still_preorder : PreOrder still.
Proof.
  split; [by split|]. intros w1 w2 w3 (H1 & H2 & H3 & H7) (H4 & H5 & H6 & H8).
  split_and!; [congruence|intros q; by rewrite H5|lia|auto].
Qed.

Lemma next_still w v n w' : next w v n w' → v_jobs v = v_jobs (fview w) →
  (∀ q, v_queue v q ≡ₚ v_queue (fview w) q) → still w w'.
Proof.
  intros (Hv & Hn & Hc) Hj Hq. split_and!; [by rewrite Hv|intros q; by rewrite Hv|lia|by rewrite Hc].
Qed.

Abbreviation calm := (calm_by still).

Lemma calm_put_config q c : calm (put_config q c).
Proof.
  intros w. split; [done|]. split_and!; [done..|]. intros q' Hq. simpl. destruct (decide (q = q')) as [->|Hne].
  - by rewrite lookup_insert_eq.
  - by rewrite lookup_insert_ne.
Qed.

Lemma calm_Now : calm Now.
Proof. intros w. by split. Qed.

Lemma calm_use {A} (op : M S A) :
  (∀ s, ∃ r v, returns view op s r v ∧ is_Panic r = false ∧ v_jobs v = v_jobs (view s) ∧
    ∀ q, v_queue v q ≡ₚ v_queue (view s) q) → calm (use (faulty op)).
Proof.
  intros Hop w. destruct (Hop (fy_store (wo_store w))) as (r & v & Hr & Hp & Hj & Hq).
  eapply wp_faulty_use; [exact Hr|done| |].
  - intros w' Hw. split; [done|]. by eapply next_still.
  - intros e w' [Hw|Hw]; (split; [done|]); by eapply next_still.
Qed.

#[local] Hint Resolve calm_ret calm_throw calm_get_configs calm_put_config calm_Now : calm.

Ltac solve_calm :=
  repeat first
    [ solve [eauto with calm typeclass_instances]
    | apply calm_bind; [apply _| |intros ?]
    | apply calm_attempt | apply calm_wrap | apply calm_warn; [apply _|]
    | case_match ].

Lemma calm_st_Length q : calm (use (st_Length q)).
Proof. apply calm_use. intros s. eexists _, _. split; [apply law_Length|done]. Qed.

Lemma calm_st_IsQueuePaused q : calm (use (st_IsQueuePaused q)).
Proof. apply calm_use. intros s. eexists _, _. split; [apply law_IsQueuePaused|done]. Qed.

Lemma calm_st_SaveQueueConfig c : calm (use (st_SaveQueueConfig c)).
Proof. apply calm_use. intros s. eexists _, _. split; [apply law_SaveQueueConfig|done]. Qed.

Lemma calm_st_RecordJobCreated q t : calm (use (st_RecordJobCreated q t)).
Proof. apply calm_use. intros s. eexists _, _. split; [apply law_RecordJobCreated|done]. Qed.

Lemma calm_st_GetQueueConfig q : calm (use (st_GetQueueConfig q)).
Proof.
  apply calm_use. intros s. pose proof (law_GetQueueConfig q s) as Hl. case_match.
  - eexists _, _. by split.
  - destruct Hl as [e Hl]. eexists _, _. by split.
Qed.
#[local] Hint Resolve calm_st_Length calm_st_IsQueuePaused calm_st_SaveQueueConfig
  calm_st_RecordJobCreated calm_st_GetQueueConfig : calm.

Lemma calm_RegisterQueue c : calm (RegisterQueue c).
Proof. unfold RegisterQueue. solve_calm. Qed.

Lemma calm_GetQueueConfig q : calm (GetQueueConfig q).
Proof. unfold GetQueueConfig. solve_calm. Qed.
#[local] Hint Resolve calm_RegisterQueue calm_GetQueueConfig : calm.

Lemma calm_ensure_config q : calm (ensure_config q).
Proof. unfold ensure_config. solve_calm. Qed.

Lemma calm_enqueue_delay j : calm (enqueue_delay j).
Proof. unfold enqueue_delay. solve_calm. Qed.

Lemma calm_gather configs queues : calm (gather configs queues).
Proof. induction queues; cbn [gather]; solve_calm. Qed.

(** [rand.Intn] may panic. *)
Lemma still_selectQueue queues w : still w (selectQueue queues w).2.
Proof.
  unfold selectQueue. apply (preserves_bind still); [by intros w'|]. intros configs.
  apply (preserves_bind still); [intros w'; apply calm_gather|]. intros cs.
  assert (HI : ∀ n, preserves still (Intn n)) by (intros n w'; unfold Intn; by destruct (0 <? n)).
  repeat case_match; try (intros w'; done). all: apply (preserves_bind still); [apply HI|].
  all: intros r w'; by repeat case_match.
Qed.

(** ** Enqueueing *)

Lemma wp_RegisterQueue_fails c w : c_Name c ≠ "" →
  wp (RegisterQueue c) w (λ r w', match r with Err _ => (seen w < seen w')%nat | _ => True end).
Proof.
  intros Hc. unfold RegisterQueue. rewrite bool_decide_false by done. wp_step. wp_step.
  eapply wp_faulty_use; [apply law_SaveQueueConfig|done| |]; [by intros w' Hw|].
  intros e w' [[_ Hn]|[_ Hn]]; lia.
Qed.

(** The lookup of an unknown or known queue fails only by a fault. *)
Lemma wp_faulty_ensure_config q w : q ≠ "" →
  wp (ensure_config q) w (λ r w', still w w' ∧
    match r with Ok _ => True | Err _ => (seen w < seen w')%nat | Panic _ => False end).
Proof.
  intros Hq. destruct (calm_ensure_config q w) as [Hp Hs]. unfold wp. split; [done|].
  assert (He : wp (ensure_config q) w (λ r w', match r with Err _ => (seen w < seen w')%nat | _ => True end)).
  { unfold ensure_config. wp_step. wp_step. eapply wp_calm; [apply calm_GetQueueConfig|].
    intros [c|e|why] w1 Hw1; [done| |done].
    eapply wp_mono; [by apply wp_RegisterQueue_fails|]. intros [c|e'|why] w2 Hw2; [done| |done].
    destruct Hw1 as (_ & _ & ?). lia. }
  unfold wp in He. by destruct (ensure_config q w).1.
Qed.

Definition stored_new (j : Job) w w' : Prop := v_jobs (fview w') = <[j_ID j := j]> (v_jobs (fview w)).

Definition queues_same w w' : Prop := ∀ q, v_queue (fview w') q ≡ₚ v_queue (fview w) q.

(** One more entry, of the job [j] in its queue. *)
Definition entry_added (j : Job) w w' : Prop := ∃ d, ∀ q,
  v_queue (fview w') q ≡ₚ
    if bool_decide (q = j_Queue j) then mkWaiting (j_ID j) (j_Priority j) d :: v_queue (fview w) q
    else v_queue (fview w) q.

(** What [Enqueue] of [j], stored as [j'], may do. *)
Definition enqueue_outcome (j' : Job) w (r : res Job) w' : Prop :=
  match r with
  | Ok j0 => j0 = j' ∧ stored_new j' w w' ∧ entry_added j' w w'
  | Err _ => (seen w < seen w')%nat ∧
      ((v_jobs (fview w') = v_jobs (fview w) ∧ queues_same w w') ∨
       (stored_new j' w w' ∧ (queues_same w w' ∨ entry_added j' w w')))
  | Panic _ => False
  end.

Lemma enqueue_delay_Ok j w : ∃ d w', enqueue_delay j w = (Ok d, w') ∧ fview w' = fview w ∧ seen w' = seen w.
Proof.
  unfold enqueue_delay, mbind, M_bind, Now. destruct (j_ScheduledAt j) as [t|]; [|by eexists _, _].
  by destruct (After t (now_of w)); eexists _, _.
Qed.

(** From the creation of the job on. *)
Lemma wp_put_job (j : Job) w0 w :
  still w0 w → v_jobs (fview w0) !! j_ID j = None →
  wp (wrap_err "failed to create job" (use (st_CreateJob j)) ;;
      delay ← enqueue_delay j;
      wrap_err "failed to enqueue job"
        (call (λ clk, st_Enqueue clk (j_Queue j) (j_ID j) (j_Priority j) delay)) ;;
      warn (use (st_RecordJobCreated (j_Queue j) (j_Type j))) ;;
      mret j) w (enqueue_outcome j w0).
Proof.
  intros (Hj0 & Hq0 & Hn0) Hnew. wp_step. wp_step.
  pose proof (law_CreateJob j (fy_store (wo_store w))) as Hl. fold (fview w) in Hl. rewrite Hj0, Hnew in Hl.
  assert (Hstored : ∀ w1 n, next w (set_v_jobs (<[j_ID j := j]> (v_jobs (fview w0))) (fview w)) n w1 →
    stored_new j w0 w1 ∧ queues_same w0 w1).
  { intros w1 n [Hv Hn]. split; [unfold stored_new; by rewrite Hv|]. intros q. rewrite Hv. apply Hq0. }
  eapply wp_faulty_use; [exact Hl|done| |].
  2: { intros e w1 [Hw1|Hw1]; (split; [destruct Hw1; lia|]); [right|left].
       - destruct (Hstored _ _ Hw1). auto.
       - destruct Hw1 as [Hv _]. split; [by rewrite Hv|]. intros q. by rewrite Hv. }
  intros w1 Hw1. destruct (Hstored _ _ Hw1) as [Hs1 Hq1]. destruct Hw1 as [_ Hn1].
  destruct (enqueue_delay_Ok j w1) as (d & w2 & Hd & Hf2 & Hn2).
  wp_step. unfold wp at 1. rewrite Hd. cbn [fst snd]. wp_step. wp_step.
  pose proof (law_Enqueue (λ i, rt_now (wo_tick w2 + i)) (j_Queue j) (j_ID j) (j_Priority j) d
    (fy_store (wo_store w2))) as He. fold (fview w2) in He. rewrite Hf2, Hs1, lookup_insert_eq in He.
  assert (Hadd : ∀ w3 n due, next w2 (set_v_queue (j_Queue j) (mkWaiting (j_ID j) (j_Priority j) due ::
      v_queue (fview w1) (j_Queue j)) (fview w1)) n w3 → stored_new j w0 w3 ∧ entry_added j w0 w3).
  { intros w3 n due [Hv _]. split; [unfold stored_new; rewrite Hv; exact Hs1|]. exists due. intros q.
    rewrite Hv. simpl. case_bool_decide; [subst; by rewrite (Hq1 (j_Queue j))|apply Hq1]. }
  eapply (wp_faulty_call (λ clk, st_Enqueue clk _ _ _ _)); [exact He|done| |].
  2: { intros e w3 [Hw3|Hw3]; (split; [destruct Hw3; lia|right]).
       - destruct (Hadd _ _ _ Hw3). auto.
       - destruct Hw3 as [Hv _]. rewrite Hf2 in Hv. split; [unfold stored_new; by rewrite Hv|].
         left. intros q. by rewrite Hv. }
  intros w3 Hw3. destruct (Hadd _ _ _ Hw3) as [Hs3 (due & Ha3)].
  wp_step. wp_step. eapply wp_calm; [apply calm_st_RecordJobCreated|]. intros r w4 (Hj4 & Hq4 & _).
  assert (Hok : enqueue_outcome j w0 (Ok j) w4).
  { split_and!; [done|unfold stored_new; by rewrite Hj4|]. exists due. intros q. rewrite Hq4. apply Ha3. }
  destruct r; [by apply wp_ret|by apply wp_ret|done].
Qed.

(** A job that is stored is refused, whatever fails, and no queue changes. *)
Lemma Enqueue_stored j w : is_Some (v_jobs (fview w) !! j_ID j) →
  ∃ e w', Enqueue j w = (Err e, w') ∧ still w w'.
Proof.
  intros [j0 Hj0].
  assert (He : wp (Enqueue j) w (λ r w', ∃ e, r = Err e ∧ still w w')).
  { unfold Enqueue. cbv zeta. wp_step. eapply wp_calm; [apply calm_ensure_config|].
    intros [c|e|why] w1 Hw1; [|by exists e|done]. wp_step. wp_step.
    set (j' := job_defaults c (default_queue j)).
    assert (Hid : j_ID j' = j_ID j).
    { unfold j'. destruct (job_defaults_fields c (default_queue j)) as (-> & _).
      by destruct (default_queue_fields j) as (-> & _). }
    pose proof (law_CreateJob j' (fy_store (wo_store w1))) as Hl. fold (fview w1) in Hl.
    rewrite (proj1 Hw1), Hid, Hj0 in Hl.
    eapply wp_faulty_use; [exact Hl|done| |].
    - intros w2 Hw2. eexists. split; [done|]. etransitivity; [exact Hw1|]. by eapply next_still.
    - intros e w2 [Hw2|Hw2]; (eexists; split; [done|]); (etransitivity; [exact Hw1|]); by eapply next_still. }
  destruct (wp_elim _ _ _ He) as (r & w' & E & e & -> & Hs). by exists e, w'.
Qed.

(** Calls of [Enqueue] one after the other. *)
Fixpoint enqueue_all (js : list Job) w : list (res Job) * World (Faulty S) :=
  match js with
  | [] => ([], w)
  | j :: js => let r := Enqueue j w in let rs := enqueue_all js r.2 in (r.1 :: rs.1, rs.2)
  end.

Definition is_Err {A} (r : res A) : bool := match r with Err _ => true | _ => false end.

Lemma enqueue_all_refused id js : Forall (λ j, j_ID j = id) js → ∀ w, is_Some (v_jobs (fview w) !! id) →
  Forall (λ r, is_Err r = true) (enqueue_all js w).1 ∧ still w (enqueue_all js w).2.
Proof.
  induction 1 as [|j js <- _ IH]; intros w Hid; simpl; [by split|].
  destruct (Enqueue_stored j w Hid) as (e & w' & -> & Hs). simpl.
  destruct (IH w') as [H1 H2]; [by rewrite (proj1 Hs)|]. split; [by constructor|by etransitivity].
Qed.

(** C13. What a client may conclude from [Enqueue] of a new job over a backend
    that fails: success means that the job is stored and waits in its queue.
    An error is due to a fault, and means nothing, that the job is stored but in
    no queue, or that it is stored and waits. If it is stored it stays so: no
    later call with this identifier succeeds, or puts it into a queue. *)
Theorem enqueue_under_faults (j : Job) w :
  v_jobs (fview w) !! j_ID j = None →
  ∃ r w' j', Enqueue j w = (r, w') ∧ j_ID j' = j_ID j ∧ j_Priority j' = j_Priority j ∧
    j_Queue j' = j_Queue (default_queue j) ∧ enqueue_outcome j' w r w' ∧
    (v_jobs (fview w') ≠ v_jobs (fview w) → ∀ js, Forall (λ j'', j_ID j'' = j_ID j) js →
      Forall (λ r, is_Err r = true) (enqueue_all js w').1 ∧ queues_same w' (enqueue_all js w').2).
Proof.
  intros Hnew.
  assert (He : wp (Enqueue j) w (λ r w', ∃ j', j_ID j' = j_ID j ∧ j_Priority j' = j_Priority j ∧
    j_Queue j' = j_Queue (default_queue j) ∧ enqueue_outcome j' w r w')).
  { destruct (default_queue_fields j) as (Hid & Hpr & _).
    unfold Enqueue. cbv zeta. wp_step.
    eapply wp_mono; [apply wp_faulty_ensure_config, default_queue_nonempty|].
    intros [c|e|why] w1 [Hw1 Hr]; [|exists (default_queue j)|done].
    - destruct (job_defaults_fields c (default_queue j)) as (Hid' & Hqu' & Hpr' & _).
      eapply wp_mono; [apply (wp_put_job _ w w1 Hw1); by rewrite Hid', Hid|].
      intros r w' Ho. exists (job_defaults c (default_queue j)). by rewrite Hid', Hqu', Hpr'.
    - destruct Hw1 as (H1 & H2 & H3). split_and!; [done..|]. split; [exact Hr|]. left. by split. }
  destruct (wp_elim _ _ _ He) as (r & w' & E & j' & Hid & Hpr & Hqu & Ho).
  exists r, w', j'. split_and!; [done..|]. intros Hne js Hjs.
  destruct (enqueue_all_refused _ _ Hjs w') as (H1 & _ & H2 & _); [|done].
  assert (Hs : stored_new j' w w').
  { destruct r as [j0|e|why]; [apply Ho| |done]. destruct Ho as [_ [[Hj _]|[Hs _]]]; done. }
  rewrite Hs, Hid, lookup_insert_eq. by eexists.
Qed.

(** ** Dequeueing *)

(** The entries of the queue [q] among some entries, each with its queue. *)
Definition in_queue (q : string) (taken : list (string * waiting)) : list waiting :=
  (filter (λ x, x.1 = q) taken).*2.

(** From [w] to [w'] the entries [taken] left their queues, at most [k] of them
    for another reason than a fault. *)
Definition took (taken : list (string * waiting)) (k : nat) w w' : Prop :=
  v_jobs (fview w') = v_jobs (fview w) ∧
  (∀ q, v_queue (fview w) q ≡ₚ in_queue q taken ++ v_queue (fview w') q) ∧
  (length taken + seen w ≤ k + seen w')%nat.

Lemma took_still w w' : still w w' → took [] 0 w w'.
Proof. intros (Hj & Hq & Hn & _). split_and!; [done|intros q; by rewrite Hq|done]. Qed.

Lemma took_trans t1 t2 k1 k2 w1 w2 w3 : took t1 k1 w1 w2 → took t2 k2 w2 w3 → took (t1 ++ t2) (k1 + k2) w1 w3.
Proof.
  intros (Hj & Hq & Hn) (Hj' & Hq' & Hn'). split_and!; [congruence| |rewrite length_app; lia].
  intros q. rewrite Hq, Hq'. unfold in_queue. by rewrite filter_app, fmap_app, <-app_assoc.
Qed.

Lemma took_after t k w1 w2 w3 : still w1 w2 → took t k w2 w3 → took t k w1 w3.
Proof. intros Hs%took_still Ht. exact (took_trans [] t 0 k _ _ _ Hs Ht). Qed.

(** A call that took an identifier, or failed. *)
Definition dequeued w (r : option string) w' : Prop := ∃ taken,
  match r with
  | Some id => took taken 1 w w' ∧ id ∈ wt_job ∘ snd <$> taken
  | None => took taken 0 w w'
  end.

Lemma dequeued_after w1 w2 r w3 : still w1 w2 → dequeued w2 r w3 → dequeued w1 r w3.
Proof.
  intros Hs [t Ht]. exists t. destruct r; [destruct Ht; split; [|done]|]; by eapply took_after.
Qed.

(** A failure, and then another attempt. *)
Lemma dequeued_trans w1 w2 r w3 : dequeued w1 None w2 → dequeued w2 r w3 → dequeued w1 r w3.
Proof.
  intros [t1 H1] [t2 H2]. exists (t1 ++ t2). destruct r as [id|].
  - destruct H2 as [H2 Hid]. split; [exact (took_trans _ _ 0 1 _ _ _ H1 H2)|].
    rewrite fmap_app. apply elem_of_app. by right.
  - exact (took_trans _ _ 0 0 _ _ _ H1 H2).
Qed.

Definition taken_id {A B} (r : res (A + B)) : option A := match r with Ok (inl a) => Some a | _ => None end.

Lemma wp_faulty_Dequeue q w :
  wp (attempt (call (λ clk, st_Dequeue clk q))) w (λ r w', is_Panic r = false ∧ dequeued w (taken_id r) w').
Proof.
  wp_step. destruct (law_Dequeue (λ i, rt_now (wo_tick w + i)) q (fy_store (wo_store w))) as (r & s' & Hd & Hc).
  assert (Hr : returns view (st_Dequeue (λ i, rt_now (wo_tick w + i)) q) (fy_store (wo_store w)) r (view s'))
    by (exists s'; by split).
  assert (Hp : is_Panic r = false) by (by destruct r).
  assert (Hone : ∀ w' n, next w (view s') n w' →
    match r with Ok id => ∃ x, wt_job x = id ∧ took [(q, x)] (1 - n) w w' | _ => took [] 0 w w' end).
  { intros w' n [Hv Hn]. fold (fview w) in Hc. destruct r as [id|e|why]; [| |done].
    - destruct Hc as (_ & x & rest & Hq & Hid & _ & _ & Hv'). exists x. split; [done|].
      rewrite Hv' in Hv. split_and!; [by rewrite Hv| |simpl; lia].
      intros q'. rewrite Hv. unfold in_queue. rewrite filter_cons, filter_nil. simpl.
      case_decide as Hqq; case_bool_decide; try congruence; simpl; [by subst q'|done].
    - assert (Hv' : view s' ≡ fview w) by (destruct e; naive_solver).
      rewrite Hv' in Hv. split_and!; [by rewrite Hv|intros q'; by rewrite Hv|simpl; lia]. }
  eapply (wp_faulty_call (λ clk, st_Dequeue clk q)); [exact Hr|done| |].
  - intros w' Hw'. specialize (Hone _ _ Hw'). destruct r as [id|e|why]; (split; [done|]); [| |done].
    + destruct Hone as (x & Hx & Ht). exists [(q, x)]. split; [done|]. apply list_elem_of_singleton. by subst.
    + by exists [].
  - intros e w' Hw. split; [done|]. destruct Hw as [Hw|Hw].
    + specialize (Hone _ _ Hw). destruct r as [id|e'|why]; [|by exists []|done].
      destruct Hone as (x & _ & Ht). by exists [(q, x)].
    + exists []. apply took_still. by eapply next_still.
Qed.

Lemma wp_faulty_try_others selected queues err w :
  wp (try_others selected queues err) w (λ r w', is_Panic r = false ∧ dequeued w (taken_id r) w').
Proof.
  assert (Hnone : ∀ w, dequeued w None w) by (intros w'; exists []; by apply took_still).
  revert err w. induction queues as [|q queues IH]; intros err w; cbn [try_others]; [by split|].
  case_bool_decide; [apply IH|]. wp_step. eapply wp_mono; [apply wp_faulty_Dequeue|].
  intros [[id|e]|e|why] w1 [Hp Hw1]; [by split| |by split|done].
  eapply wp_mono; [apply IH|]. intros r w2 [Hp2 Hw2]. split; [done|]. by eapply dequeued_trans.
Qed.

(** The account of a call of [Dequeue]: an error of a call that met no fault
    comes with at most one entry, whose job does not exist. *)
Definition accounted w (r : res Job) w' : Prop := ∃ taken,
  v_jobs (fview w') = v_jobs (fview w) ∧
  (∀ q, v_queue (fview w) q ≡ₚ in_queue q taken ++ v_queue (fview w') q) ∧
  match r with
  | Ok j => (length taken + seen w ≤ 1 + seen w')%nat ∧ ∃ x, x ∈ taken ∧ v_jobs (fview w) !! wt_job x.2 = Some j
  | _ => (length taken + seen w ≤ seen w')%nat ∨
      (length taken + seen w ≤ 1 + seen w')%nat ∧ ∃ x, x ∈ taken ∧ v_jobs (fview w) !! wt_job x.2 = None
  end.

Lemma accounted_none w w' r : dequeued w None w' → (∀ j, r ≠ Ok j) → accounted w r w'.
Proof.
  intros (taken & Hj & Hq & Hn) Hr. exists taken. split_and!; [done..|].
  destruct r; [by edestruct Hr|by left|by left].
Qed.

Lemma taken_waits taken w w' id : (∀ q, v_queue (fview w) q ≡ₚ in_queue q taken ++ v_queue (fview w') q) →
  id ∈ wt_job ∘ snd <$> taken → ∃ q x, x ∈ v_queue (fview w) q ∧ (q, x) ∈ taken ∧ wt_job x = id.
Proof.
  intros Hq ([q x] & -> & Hin)%list_elem_of_fmap. exists q, x. split_and!; [|done|done].
  rewrite Hq. apply elem_of_app. left. apply list_elem_of_fmap. exists (q, x). split; [done|].
  by apply list_elem_of_filter.
Qed.

Lemma wp_read_taken id w w1 :
  dequeued w (Some id) w1 →
  wp (wrap_err "failed to get job" (use (st_GetJob id))) w1 (accounted w).
Proof.
  intros (taken & (Hj & Hq & Hn) & Hid). destruct (taken_waits _ _ _ _ Hq Hid) as (q & x & Hx & Hin & <-).
  pose proof (law_GetJob (wt_job x) (fy_store (wo_store w1))) as Hl. fold (fview w1) in Hl. rewrite Hj in Hl.
  wp_step. destruct (v_jobs (fview w) !! wt_job x) as [j|] eqn:Hjx; (eapply wp_faulty_use; [exact Hl|done| |]).
  - intros w2 [Hv Hn2]. exists taken. split_and!; [by rewrite Hv|intros q'; by rewrite Hv|lia|by exists (q, x)].
  - intros e w2 [[Hv Hn2]|[Hv Hn2]]; exists taken;
      (split_and!; [by rewrite Hv|intros q'; by rewrite Hv|left; lia]).
  - intros w2 [Hv Hn2]. exists taken. split_and!; [by rewrite Hv|intros q'; by rewrite Hv|].
    right. split; [lia|by exists (q, x)].
  - intros e w2 [[Hv Hn2]|[Hv Hn2]]; exists taken;
      (split_and!; [by rewrite Hv|intros q'; by rewrite Hv|left; lia]).
Qed.

(** C12. No entry leaves a queue unaccounted for, over a backend that fails at
    any of its calls: the entries that a call of [Dequeue] takes out of the
    queues are the one whose job it delivers, at most one for each fault during
    the call (the entry is gone before its job is read), and at most one whose
    job does not exist, which the call answers with an error (such an entry is
    left behind when [DeleteJob] deletes its job). So without faults no entry of
    a stored job is lost. The call returns, and the jobs stay. *)
Theorem dequeue_loses_only_by_faults queues w :
  ∃ r w' taken, Dequeue queues w = (r, w') ∧
    v_jobs (fview w') = v_jobs (fview w) ∧
    (∀ q, v_queue (fview w) q ≡ₚ in_queue q taken ++ v_queue (fview w') q) ∧
    match r with
    | Ok j => (length taken + seen w ≤ 1 + seen w')%nat ∧
        ∃ x, x ∈ taken ∧ v_jobs (fview w) !! wt_job x.2 = Some j
    | _ => (length taken + seen w ≤ seen w')%nat ∨
        (length taken + seen w ≤ 1 + seen w')%nat ∧
        ∃ x, x ∈ taken ∧ v_jobs (fview w) !! wt_job x.2 = None
    end.
Proof.
  assert (Hnone : ∀ w', still w w' → dequeued w None w') by (intros w' Hw; exists []; by apply took_still).
  assert (Hd : wp (Dequeue queues) w (accounted w)).
  { unfold Dequeue. case_bool_decide; [by apply wp_throw, accounted_none; [apply Hnone|]|].
    wp_step. apply (wp_mono _ _ (λ _ w', still w w')); [exact (still_selectQueue queues w)|]. intros [name|e|why] w1 Hw1;
      [|by apply accounted_none; [apply Hnone|]..].
    case_bool_decide; [by apply wp_throw, accounted_none; [apply Hnone|]|].
    wp_step. eapply wp_mono; [apply wp_faulty_Dequeue|].
    intros [[id|e]|e|why] w2 [Hp Hd2%(dequeued_after w)]; try done.
    - wp_step. apply wp_ret. by apply wp_read_taken.
    - wp_step. destruct (is_ErrQueueEmpty e); [|by apply wp_throw, accounted_none].
      wp_step. eapply wp_mono; [apply wp_faulty_try_others|]. intros r w3 [Hp3 Hd3].
      apply (dequeued_trans _ _ _ _ Hd2) in Hd3.
      destruct r as [[id|e']|e'|why].
      + apply wp_ret. by apply wp_read_taken.
      + by apply wp_throw, accounted_none.
      + by apply accounted_none.
      + done.
    - by apply accounted_none. }
  destruct (wp_elim _ _ _ Hd) as (r & w' & E & taken & H1 & H2 & H3). by exists r, w', taken.
Qed.
End calls.

#[export] Hint Resolve calm_ret calm_throw calm_get_configs calm_put_config calm_Now calm_st_Length
  calm_st_IsQueuePaused calm_st_SaveQueueConfig calm_st_RecordJobCreated calm_st_GetQueueConfig
  calm_RegisterQueue calm_GetQueueConfig : calm.

(** ** Witnesses: the reply or the request of one call is lost *)

#[local] Existing Instance MemoryLaws.MemoryStorage.
#[local] Existing Instance MemoryLaws.MemoryStorageLaws.
#[local] Existing Instance demo_runtime.
#[local] Existing Instance map_range_default.

Definition broken_at (n : nat) (f : fault) : Faults := {| fault_at k := if (k =? n)%nat then Some f else None |}.

Definition reset : error := Errorf "connection reset by peer".

Definition demo_faulty : World (Faulty MemoryStore.MemoryStore) :=
  mkWorld (mkFaulty (wo_store demo_world) 0) (wo_configs demo_world) 100 0.

(** The lookup and the registration of the queue are the calls 0 and 1, the
    creation of the job is 2: the request to enqueue it is lost. *)
Lemma enqueue_under_faults_witness :
  let F := broken_at 3 (LostRequest reset) in
  let j := MemoryJobs.demo_job "9" "q" 1 in
  ∃ w' : World (Faulty MemoryStore.MemoryStore), Enqueue j demo_faulty = (Err (Wrapf "failed to enqueue job" reset), w') ∧
    v_jobs (fview w') ≠ v_jobs (fview demo_faulty) ∧
    queues_same w' (enqueue_all [j; j] w').2.
Proof.
  intros F j. destruct (enqueue_under_faults j demo_faulty) as (r & w' & j' & E & _ & _ & _ & _ & Hretry);
    [by vm_compute|].
  exists w'. assert (Hr : r = Err (Wrapf "failed to enqueue job" reset)).
  { transitivity (Enqueue j demo_faulty).1; [by rewrite E|by vm_compute]. }
  assert (Hj : v_jobs (fview w') ≠ v_jobs (fview demo_faulty)).
  { replace w' with (Enqueue j demo_faulty).2 by (by rewrite E). intros Heq.
    apply (f_equal (lookup "9")) in Heq. by vm_compute in Heq. }
  split; [by rewrite <-Hr|]. split; [exact Hj|].
  exact (proj2 (Hretry Hj [j; j] ltac:(repeat constructor))).
Defined.

(** The job is taken out of the queue, and the reply is lost. *)
Definition waiting_faulty (F : Faults) : World (Faulty MemoryStore.MemoryStore) :=
  mkWorld (mkFaulty (MemoryStore.Enqueue (λ _, 5) "q" "1" 1 0 MemoryJobs.demo_jobs).2 0)
    {[ "q" := auto_config "q" ]} 100 0.

Example lost_reply_loses_entry :
  let F := broken_at 2 (LostReply reset) in
  let r := Dequeue ["q"] (waiting_faulty F) in
  r.1 = Err reset ∧ (length (v_queue (fview (waiting_faulty F)) "q"), length (v_queue (fview r.2) "q"),
    faults_of (wo_store (waiting_faulty F)), faults_of (wo_store r.2)) = (1, 0, 0, 1)%nat.
Proof. by vm_compute. Qed.
