(* ===== verification/PoolFaults.v ===== *)
(** * The worker pool over a backend that fails

    What executing one job does to the jobs and to the queues, whichever calls
    of the backend fail while it runs. *)

From S2P Require Import Prelude Errors GoMonad Job Storage World Manager ManagerProps Pool PoolProps Faults.
From S2P Require MemoryStore MemoryLaws MemoryJobs.

Section pool.
Context {S : Type} `{L : StorageLaws S} `{R : Runtime} `{MR : MapRange} `{F : Faults}.
Implicit Types (w : World (Faulty S)).

Abbreviation seen w := (faults_of (wo_store w)).
Abbreviation has_job id w := (is_Some (v_jobs (fview w) !! id)).

(** ** Calls that change one job *)

(** Only the job [id] changes, and it stays. *)
Definition changes_job (id : string) w w' : Prop :=
  (∀ id', id' ≠ id → v_jobs (fview w') !! id' = v_jobs (fview w) !! id') ∧
  (has_job id w → has_job id w') ∧ (seen w ≤ seen w')%nat ∧
  (∀ q, is_Some (wo_configs w !! q) → is_Some (wo_configs w' !! q)).

Definition own (id : string) w w' : Prop := changes_job id w w' ∧ queues_same w w'.

#[local] Instance changes_job_preorder id : PreOrder (changes_job id).
Proof.
  split; [intros w; by split_and!|]. intros w1 w2 w3 (H1 & H2 & H3 & H4) (H5 & H6 & H7 & H8).
  split_and!; [intros id' Hne; by rewrite H5, H1|auto|lia|auto].
Qed.

#[local] Instance own_preorder id : PreOrder (own id).
Proof.
  split; [intros w; split; [reflexivity|by intros q]|]. intros w1 w2 w3 (H1 & H2) (H3 & H4).
  split; [by etransitivity|]. intros q. by rewrite (H4 q).
Qed.

Lemma still_own id w w' : still w w' → own id w w'.
Proof. intros (Hj & Hq & Hn & Hc). split; [|done]. split_and!; [by rewrite Hj|by rewrite Hj|done|done]. Qed.

Lemma calm_own {A} id (m : M (World (Faulty S)) A) : calm_by still m → calm_by (own id) m.
Proof. apply calm_by_mono, still_own. Qed.

Lemma next_own w v n w' id j : next w v n w' → v = set_v_jobs (<[id := j]> (v_jobs (fview w))) (fview w) →
  own id w w'.
Proof.
  intros (Hv & Hn & Hc) ->. split; [|intros q; by rewrite Hv]. split_and!; [|rewrite Hv; simpl|lia|by rewrite Hc].
  - intros id' Hne. rewrite Hv. by apply lookup_insert_ne.
  - rewrite lookup_insert_eq. by eexists.
Qed.

(** A call that changes a stored job succeeds, if nothing fails. *)
Definition sure (id : string) (m : M (World (Faulty S)) unit) : Prop := ∀ w, has_job id w →
  wp m w (λ r w', own id w w' ∧
    match r with Ok _ => True | Err _ => (seen w < seen w')%nat | Panic _ => False end).

Lemma sure_call P id (op : Clock → M S unit) :
  (∀ clk, updates_job view P id (op clk)) → sure id (call (λ clk, faulty (op clk))).
Proof.
  intros Hop w [j Hj]. pose proof (Hop (λ i, rt_now (wo_tick w + i)) (fy_store (wo_store w))) as Hl.
  fold (fview w) in Hl. rewrite Hj in Hl. destruct Hl as (j' & _ & Hl).
  eapply wp_faulty_call; [exact Hl|done| |].
  - intros w' Hw. split; [by eapply next_own|done].
  - intros e w' [Hw|Hw]; (split; [|destruct Hw; lia]); [by eapply next_own|].
    apply still_own. by eapply next_still.
Qed.

Lemma sure_UpdateJob j : sure (j_ID j) (use (st_UpdateJob j)).
Proof.
  intros w [j0 Hj]. pose proof (law_UpdateJob j (fy_store (wo_store w))) as Hl.
  fold (fview w) in Hl. rewrite Hj in Hl. destruct Hl as (j' & _ & Hl).
  eapply wp_faulty_use; [exact Hl|done| |].
  - intros w' Hw. split; [by eapply next_own|done].
  - intros e w' [Hw|Hw]; (split; [|destruct Hw; lia]); [by eapply next_own|].
    apply still_own. by eapply next_still.
Qed.

Lemma sure_UpdateJobStatus id status : sure id (UpdateJobStatus id status).
Proof. eapply (sure_call _ id (λ clk, st_UpdateStatus clk id status)). intros clk. apply law_UpdateStatus. Qed.

Lemma sure_UpdateJobProgress id p : sure id (UpdateJobProgress id p).
Proof. eapply (sure_call _ id (λ clk, st_UpdateProgress clk id p)). intros clk. apply law_UpdateProgress. Qed.

Lemma sure_SetJobError id msg : sure id (SetJobError id msg).
Proof. eapply (sure_call _ id (λ clk, st_SetError clk id msg)). intros clk. apply law_SetError. Qed.

Lemma wp_sure_warn id m w (Q : res unit → World (Faulty S) → Prop) : sure id m → has_job id w →
  (∀ w', own id w w' → Q (Ok tt) w') → wp (warn m) w Q.
Proof.
  intros Hm Hj HQ. apply wp_warn. eapply wp_mono; [by apply Hm|]. intros r w' [Hw Hr]. specialize (HQ w' Hw).
  by destruct r.
Qed.

(** ** Calls that change a worker or a counter *)

Lemma calm_updates_worker f id (op : M S unit) : updates_worker view f id op → calm_by still (use (faulty op)).
Proof.
  intros Hop. apply calm_use. intros s. specialize (Hop s). case_match; eexists _, _; by split.
Qed.

Lemma calm_silent (op : M S unit) : silent view op → calm_by still (use (faulty op)).
Proof. intros Hop. apply calm_use. intros s. eexists _, _. by split; [apply Hop|]. Qed.

Lemma calm_st_SetCurrentJob id job : calm_by still (use (st_SetCurrentJob id job)).
Proof. eapply calm_updates_worker, law_SetCurrentJob. Qed.

Lemma calm_st_IncrementProcessed id : calm_by still (use (st_IncrementProcessed id)).
Proof. eapply calm_updates_worker, law_IncrementProcessed. Qed.

Lemma calm_st_IncrementFailed id : calm_by still (use (st_IncrementFailed id)).
Proof. eapply calm_updates_worker, law_IncrementFailed. Qed.

Lemma calm_st_RecordJobCompleted q t d : calm_by still (use (st_RecordJobCompleted q t d)).
Proof. apply calm_silent, law_RecordJobCompleted. Qed.

Lemma calm_st_RecordJobFailed q t : calm_by still (use (st_RecordJobFailed q t)).
Proof. apply calm_silent, law_RecordJobFailed. Qed.

Lemma calm_st_RecordJobRetried q t : calm_by still (use (st_RecordJobRetried q t)).
Proof. apply calm_silent, law_RecordJobRetried. Qed.

(** ** Putting a job back *)

(** The job [id] changes; and it gets an entry like [j]'s, or a fault is the
    reason that it does not. *)
Definition put_back (id : string) (j : Job) w w' : Prop :=
  changes_job id w w' ∧ ((queues_same w w' ∧ (seen w < seen w')%nat) ∨ entry_added j w w').

Lemma put_back_between id j w1 w2 w3 w4 : own id w1 w2 → put_back id j w2 w3 → own id w3 w4 → put_back id j w1 w4.
Proof.
  intros [Hc1 Hq1] [Hc2 Hp] [Hc3 Hq3]. split; [transitivity w2; [done|]; by transitivity w3|].
  destruct Hc1 as (_ & _ & Hn1 & _), Hc3 as (_ & _ & Hn3 & _).
  destruct Hp as [[Hq2 Hn2]|[d Hd]]; [left|right].
  - split; [|lia]. intros q. by rewrite (Hq3 q), (Hq2 q).
  - exists d. intros q. rewrite (Hq3 q), Hd. case_bool_decide; [|done]. by rewrite (Hq1 q).
Qed.

Lemma wp_faulty_Requeue j delay w : has_job (j_ID j) w →
  wp (Requeue j delay) w (λ r w', is_Panic r = false ∧ put_back (j_ID j) j w w').
Proof.
  intros Hj. unfold Requeue. wp_step. wp_step. eapply wp_mono; [by apply sure_UpdateJob|].
  intros [u|e|why] w1 [Hw1 Hr]; [|split; [done|]; split; [apply Hw1|left; split; [apply Hw1|done]]|done].
  assert (Hj1 : has_job (j_ID j) w1) by (by apply Hw1).
  pose proof (law_Requeue (λ i, rt_now (wo_tick w1 + i)) (j_Queue j) (j_ID j) (j_Priority j) delay
    (fy_store (wo_store w1))) as Hl. fold (fview w1) in Hl. destruct Hj1 as [j1 Hj1]. rewrite Hj1 in Hl.
  assert (Hchg : ∀ w2 n v, next w1 v n w2 → v_jobs v = v_jobs (fview w1) → changes_job (j_ID j) w w2).
  { intros w2 n v (Hv & Hn & Hc) Hvj. destruct Hw1 as [(H1 & H2 & H3 & H4) _].
    split_and!; [intros id Hne; rewrite Hv, Hvj; by apply H1|rewrite Hv, Hvj; by eexists|lia|rewrite Hc; exact H4]. }
  assert (Hadd : ∀ w2 n due, next w1 (set_v_queue (j_Queue j) (mkWaiting (j_ID j) (j_Priority j) due ::
      v_queue (fview w1) (j_Queue j)) (fview w1)) n w2 → entry_added j w w2).
  { intros w2 n due [Hv _]. exists due. intros q. rewrite Hv. simpl.
    case_bool_decide; [subst q; apply perm_skip|]; apply Hw1. }
  wp_step. eapply (wp_faulty_call (λ clk, st_Requeue clk _ _ _ _)); [exact Hl|done| |].
  - intros w2 Hw2. split; [done|]. split; [by eapply Hchg|right; by eapply Hadd].
  - intros e w2 [Hw2|Hw2]; (split; [done|]; split; [by eapply Hchg|]); [right; by eapply Hadd|left].
    destruct Hw2 as (Hv & Hn & _). split; [intros q; rewrite Hv; apply Hw1|].
    destruct Hw1 as [(_ & _ & ? & _) _]. lia.
Qed.

Lemma wp_GetQueueConfig_cached q w Q : is_Some (wo_configs w !! q) →
  (∀ c, Q (Ok c) w) → wp (GetQueueConfig q) w Q.
Proof. intros [c Hc] HQ. unfold GetQueueConfig. wp_step. wp_step. rewrite Hc. by wp_step. Qed.

(** ** A failed job *)

(** A job that is to be retried is put back, unless a fault prevents it or the
    configuration of its queue is not cached. *)
Definition retried (j : Job) w w' : Prop :=
  changes_job (j_ID j) w w' ∧
  ((queues_same w w' ∧ (is_Some (wo_configs w !! j_Queue j) → (seen w < seen w')%nat)) ∨ entry_added j w w').

Lemma put_back_retried j w w' : put_back (j_ID j) j w w' → retried j w w'.
Proof. intros [Hc [[Hq Hn]|He]]; (split; [done|]); [by left|by right]. Qed.

Lemma retried_between j w1 w2 w3 w4 : own (j_ID j) w1 w2 → retried j w2 w3 → own (j_ID j) w3 w4 → retried j w1 w4.
Proof.
  intros [Hc1 Hq1] [Hc2 Hp] [Hc3 Hq3]. split; [transitivity w2; [done|]; by transitivity w3|].
  destruct Hc1 as (_ & _ & Hn1 & Hs1), Hc3 as (_ & _ & Hn3 & _).
  destruct Hp as [[Hq2 Hn2]|[d Hd]]; [left|right].
  - split; [intros q; by rewrite (Hq3 q), (Hq2 q)|]. intros Hs%Hs1%Hn2. lia.
  - exists d. intros q. rewrite (Hq3 q), Hd. case_bool_decide; [subst q; apply perm_skip|]; apply Hq1.
Qed.

(** The rest of [retry_job], once it has the configuration. *)
Lemma wp_retry_with (j : Job) delay w : has_job (j_ID j) w →
  wp (warn (UpdateJobStatus (j_ID j) StatusRetrying) ;;
      warn (Requeue j delay) ;;
      warn (use (st_RecordJobRetried (j_Queue j) (j_Type j))) ;;
      mret false) w (λ r w', r = Ok false ∧ retried j w w').
Proof.
  intros Hj. wp_step. apply (wp_sure_warn (j_ID j)); [apply sure_UpdateJobStatus|done|]. intros w1 Hw1.
  assert (Hj1 : has_job (j_ID j) w1) by (by apply Hw1).
  wp_step. wp_step. eapply wp_mono; [by apply wp_faulty_Requeue|]. intros r w2 [Hr Hw2].
  assert (Hgo : wp (warn (use (st_RecordJobRetried (j_Queue j) (j_Type j))) ;; mret false) w2
    (λ r w', r = Ok false ∧ retried j w w')).
  { wp_step. eapply wp_calm_warn; [apply calm_st_RecordJobRetried|]. intros w3 Hw3. wp_step. split; [done|].
    apply put_back_retried. eapply put_back_between; [exact Hw1|exact Hw2|by apply still_own]. }
  destruct r; [exact Hgo|exact Hgo|done].
Qed.

Lemma wp_retry_job (j : Job) w : has_job (j_ID j) w →
  wp (retry_job j) w (λ r w', (∃ b, r = Ok b) ∧ retried j w w').
Proof.
  intros Hj. unfold retry_job. cbv zeta. set (j1 := set_j_RetryCount _ j). wp_step. wp_step.
  assert (Hgo : ∀ c w1, still w w1 → wp (
      warn (UpdateJobStatus (j_ID j1) StatusRetrying) ;;
      warn (Requeue j1 (calculateRetryDelay (j_RetryCount j1) c)) ;;
      warn (use (st_RecordJobRetried (j_Queue j1) (j_Type j1))) ;;
      mret false) w1 (λ r w', (∃ b, r = Ok b) ∧ retried j w w')).
  { intros c w1 Hw1. eapply wp_mono; [apply wp_retry_with; by rewrite (proj1 Hw1)|]. intros r w2 [-> Hw2].
    split; [by eexists|]. eapply (retried_between j1 w w1 w2 w2); [by apply still_own|exact Hw2|reflexivity]. }
  destruct (wo_configs w !! j_Queue j) as [c|] eqn:Hc.
  - apply wp_GetQueueConfig_cached; [by eexists|]. intros c'. by apply Hgo.
  - eapply wp_calm; [apply calm_GetQueueConfig|]. intros [c|e|why] w1 Hw1; [by apply Hgo| |done].
    wp_step. split; [by eexists|]. destruct (still_own (j_ID j) _ _ Hw1) as [H1 H2]. split; [done|].
    left. split; [done|]. rewrite Hc. by intros [? [=]].
Qed.

(** The dead letter queue never gets the job, whatever fails: it is stored. *)
Lemma wp_faulty_fail_job (j : Job) w : has_job (j_ID j) w →
  wp (fail_job j) w (λ r w', r = Ok tt ∧ own (j_ID j) w w').
Proof.
  intros Hj. unfold fail_job. wp_step. apply (wp_sure_warn (j_ID j)); [apply sure_UpdateJobStatus|done|].
  intros w1 Hw1. wp_step. eapply wp_calm_warn; [apply calm_st_RecordJobFailed|].
  intros w2 Hw2%(still_own (j_ID j)). wp_step. wp_step. eapply wp_calm; [apply calm_GetQueueConfig|].
  intros r w3 Hw3%(still_own (j_ID j)).
  assert (Hw : own (j_ID j) w w3) by (transitivity w1; [done|]; by transitivity w2).
  destruct r as [c|e|why]; [|by wp_step|done]. case_bool_decide; [by wp_step|]. cbv zeta.
  set (j1 := set_j_Status _ _). destruct (Enqueue_stored j1 w3) as (e & w4 & He & Hw4%(still_own (j_ID j)));
    [by apply Hw|].
  wp_step. unfold wp. rewrite He. simpl. split; [done|by transitivity w3].
Qed.

Lemma wp_handleJobFailure worker (j : Job) e d w : has_job (j_ID j) w →
  wp (handleJobFailure worker j e d) w (λ r w', r = Ok tt ∧
    if CanRetry j then retried j w w' else own (j_ID j) w w').
Proof.
  intros Hj. unfold handleJobFailure. wp_step. apply (wp_sure_warn (j_ID j)); [apply sure_SetJobError|done|].
  intros w1 Hw1. assert (Hj1 : has_job (j_ID j) w1) by (by apply Hw1).
  assert (Hend : ∀ (b : bool) w2, wp (if b then mret tt else warn (use (st_IncrementFailed worker))) w2
    (λ r w', r = Ok tt ∧ own (j_ID j) w2 w')).
  { intros [] w2; [by wp_step|]. eapply wp_calm_warn; [apply calm_st_IncrementFailed|].
    intros w3 Hw3. split; [done|by apply still_own]. }
  wp_step. destruct (CanRetry j).
  - eapply wp_mono; [by apply wp_retry_job|]. intros r w2 [[b ->] Hw2]. eapply wp_mono; [apply Hend|].
    intros r w3 [-> Hw3]. split; [done|]. by eapply retried_between.
  - wp_step. eapply wp_mono; [by apply wp_faulty_fail_job|]. intros r w2 [-> Hw2]. wp_step.
    eapply wp_mono; [apply (Hend false)|]. intros r w3 [-> Hw3]. split; [done|].
    transitivity w1; [done|]. by transitivity w2.
Qed.

Lemma wp_handleJobSuccess worker (j : Job) d w : has_job (j_ID j) w →
  wp (handleJobSuccess worker j d) w (λ r w', r = Ok tt ∧ own (j_ID j) w w').
Proof.
  intros Hj. unfold handleJobSuccess. wp_step. apply (wp_sure_warn (j_ID j)); [apply sure_UpdateJobStatus|done|].
  intros w1 Hw1. assert (Hj1 : has_job (j_ID j) w1) by (by apply Hw1).
  wp_step. apply (wp_sure_warn (j_ID j)); [apply sure_UpdateJobProgress|done|]. intros w2 Hw2.
  wp_step. eapply wp_calm_warn; [apply calm_st_RecordJobCompleted|]. intros w3 Hw3%(still_own (j_ID j)).
  eapply wp_calm_warn; [apply calm_st_IncrementProcessed|]. intros w4 Hw4%(still_own (j_ID j)).
  split; [done|]. transitivity w1; [done|]. transitivity w2; [done|]. by transitivity w3.
Qed.

(** ** The theorem *)

Lemma wp_faulty_Now w (Q : res Time → World (Faulty S) → Prop) : (∀ t w', still w w' → Q (Ok t) w') → wp Now w Q.
Proof. intros HQ. apply HQ. by split. Qed.

Lemma entry_added_not_same (j : Job) w w' : entry_added j w w' → queues_same w w' → False.
Proof.
  intros [d Hd] Hq. specialize (Hd (j_Queue j)). rewrite bool_decide_eq_true_2, (Hq (j_Queue j)) in Hd by done.
  apply Permutation_length in Hd. simpl in Hd. lia.
Qed.

Section process.
Context (handlers : gmap string JobHandler) (worker : string).

(** Either the job is put back as [retried] says, or only it changes; a job that
    is to be retried is left out by a fault alone. *)
Lemma wp_faulty_processJob (j : Job) err j' w :
  has_job (j_ID j) w → executeJob handlers j = (err, j') → j_ID j' = j_ID j →
  wp (processJob handlers worker j) w (λ r w', r = Ok tt ∧
    (own (j_ID j) w w' ∧ (is_Some err → CanRetry j' = true → (seen w < seen w')%nat) ∨
     is_Some err ∧ CanRetry j' = true ∧ retried j' w w')).
Proof.
  intros Hj Hex Hid. unfold processJob. wp_step. apply wp_faulty_Now. intros t0 w1 Hw1.
  assert (Hj1 : has_job (j_ID j) w1) by (by rewrite (proj1 Hw1)). apply (still_own (j_ID j)) in Hw1.
  wp_step. wp_step. eapply wp_mono; [by apply sure_UpdateJobStatus|].
  intros [u|e|why] w2 [Hw2 Hr]; [| |done].
  2: { wp_step. split; [done|left]. split; [by transitivity w1|]. intros _ _.
       destruct Hw1 as [(_ & _ & ? & _) _]. lia. }
  wp_step. eapply wp_calm_warn; [apply calm_st_SetCurrentJob|]. intros w3 Hw3%(still_own (j_ID j)).
  rewrite Hex. wp_step. eapply wp_calm_warn; [apply calm_st_SetCurrentJob|]. intros w4 Hw4%(still_own (j_ID j)).
  wp_step. apply wp_faulty_Now. intros t5 w5 Hw5%(still_own (j_ID j)).
  assert (Hw : own (j_ID j) w w5).
  { transitivity w1; [done|]. transitivity w2; [done|]. transitivity w3; [done|]. by transitivity w4. }
  assert (Hj5 : has_job (j_ID j') w5) by (rewrite Hid; by apply Hw). rewrite <-Hid in Hw |- *.
  cbv beta iota zeta. destruct err as [e|].
  - eapply wp_mono; [by apply wp_handleJobFailure|]. intros r w6 [-> Hw6]. split; [done|].
    destruct (CanRetry j'); [right|left; by split; [transitivity w5|]].
    split_and!; [by eexists|done|by eapply (retried_between j' w w5 w6 w6)].
  - eapply wp_mono; [by apply wp_handleJobSuccess|]. intros r w6 [-> Hw6]. split; [done|left].
    split; [by transitivity w5|]. by intros [? [=]].
Qed.

(** C14. Executing a stored job over a backend that fails: the call returns, only
    that job changes, and it stays stored. It gets at most one entry, and only
    if its handler failed and it can be retried; then the reason that it does
    not get one is a fault, if the configuration of its queue is cached. *)
Theorem processJob_under_faults (j : Job) err j' w :
  is_Some (v_jobs (fview w) !! j_ID j) → executeJob handlers j = (err, j') → j_ID j' = j_ID j →
  ∃ w', processJob handlers worker j w = (Ok tt, w') ∧
    changes_job (j_ID j) w w' ∧
    (queues_same w w' ∨ (is_Some err ∧ CanRetry j' = true ∧ entry_added j' w w')) ∧
    (is_Some err → CanRetry j' = true → is_Some (wo_configs w !! j_Queue j') → queues_same w w' →
      (faults_of (wo_store w) < faults_of (wo_store w'))%nat).
Proof.
  intros Hj Hex Hid. destruct (wp_elim _ _ _ (wp_faulty_processJob _ _ _ _ Hj Hex Hid)) as (r & w' & E & -> & Ho).
  exists w'. split; [done|]. destruct Ho as [[[Hc Hq] Hn]|(He & Hr & Hc & Ho)].
  - split_and!; [done|by left|auto].
  - rewrite Hid in Hc. split_and!; [done| |].
    + destruct Ho as [[Hq _]|Ha]; [by left|by right].
    + intros _ _ Hcc Hq. destruct Ho as [[_ Hn]|Ha]; [by apply Hn|]. by edestruct entry_added_not_same.
Qed.
End process.
End pool.

(** ** A witness: the job fails, and the request to put it back is lost *)

#[local] Existing Instance demo_runtime.
#[local] Existing Instance map_range_default.
#[local] Existing Instance MemoryLaws.MemoryStorage.
#[local] Existing Instance MemoryLaws.MemoryStorageLaws.

Definition pool_faulty : World (Faulty MemoryStore.MemoryStore) :=
  mkWorld (mkFaulty (wo_store pool_world) 0) (wo_configs pool_world) 100 0.

Lemma processJob_under_faults_witness :
  let F := broken_at 6 (LostRequest reset) in
  let j := MemoryJobs.demo_job "1" "q" 1 in
  ∃ w' : World (Faulty MemoryStore.MemoryStore),
    processJob (demo_handlers demo_failure) "w1" j pool_faulty = (Ok tt, w') ∧
    v_jobs (fview w') !! "2" = v_jobs (fview pool_faulty) !! "2" ∧
    v_queue (fview w') "q" = [] ∧ faults_of (wo_store w') = 1%nat.
Proof.
  intros F j.
  destruct (processJob_under_faults (demo_handlers demo_failure) "w1" j (Some (Errorf "boom")) j pool_faulty)
    as (w' & E & [Hother _] & _); [vm_compute; by eexists|reflexivity|reflexivity|].
  exists w'. split; [exact E|]. split; [by apply Hother|].
  replace w' with (processJob (demo_handlers demo_failure) "w1" j pool_faulty).2 by (by rewrite E).
  split; by vm_compute.
Defined.
