(* ===== verification/Shutdown.v ===== *)
(** * The server process from its start to its exit (cmd/server/main.go)

    The goroutine of main, the one that serves HTTP (internal/api/http/server.go,
    [Start] and [Stop]) and the scheduler's (Loops.v) as a step relation: any of
    them may move next, and the environment sends the signal, fires the ticker
    and opens connections. Of net/http it uses what is documented: [Shutdown]
    closes the listeners at once, which makes [ListenAndServe] return
    [ErrServerClosed], and returns when no request is active or its context is
    over. *)

From S2P Require Import Prelude Errors GoMonad Job Storage World Manager ManagerProps GoTime Scheduler SchedulerProps Loops.
From S2P Require MemoryStore MemoryLaws.

(** Where main is: waiting for the signal; in [httpServer.Stop]; in the three
    statements of [sched.Stop]; or the process has ended: main returned, or
    [log.Fatalf], or a panic. *)
Inductive main_phase : Type :=
  | Waiting
  | Draining
  | ClosingStopCh
  | StoppingTicker
  | Joining
  | MainReturned
  | Fatal
  | Panicked.

Record Process (St : Type) : Type := mkProcess {
  pr_main : main_phase;
  pr_loop : Loop St;  (* the scheduler, with what its ticks and the requests change *)
  pr_listening : bool;  (* the listeners of the HTTP server are open *)
  pr_serving : bool;  (* [httpServer.Start] has not returned *)
  pr_active : nat;  (* requests in their handlers *)
}.
Arguments mkProcess {St}.
Arguments pr_main {St}.
Arguments pr_loop {St}.
Arguments pr_listening {St}.
Arguments pr_serving {St}.
Arguments pr_active {St}.

(** After [sched.Start], [httpServer.Start] and [signal.Notify]. *)
Definition process_start {St} (s : St) : Process St := mkProcess Waiting (loop_start s) true true 0.

Section process.
Context {St : Type} (tick : M St unit) (request : St → St → Prop).

(** [close(s.stopCh)] and [s.ticker.Stop()]. *)
Definition close_stop (l : Loop St) : Loop St :=
  mkLoop (lp_data l) (lp_ticking l) (lp_tick l) (lp_done l) true (lp_phase l).
Definition stop_ticker (l : Loop St) : Loop St :=
  mkLoop (lp_data l) false (lp_tick l) (lp_done l) (lp_stop l) (lp_phase l).

(** No goroutine moves after the process has ended. *)
Definition ended (m : main_phase) : bool := match m with MainReturned | Fatal | Panicked => true | _ => false end.

(** The steps of main, one for each statement that blocks or is seen elsewhere. *)
Inductive main_step : Process St → Process St → Prop :=
  (* <-sigChan, and Shutdown closes the listeners *)
  | main_signal l k a :
      main_step (mkProcess Waiting l true k a) (mkProcess Draining l false k a)
  (* Shutdown returns nil *)
  | main_drained l k :
      main_step (mkProcess Draining l false k 0) (mkProcess ClosingStopCh l false k 0)
  (* shutdownCtx is over after 30 seconds; the error is printed *)
  | main_timeout l k a :
      main_step (mkProcess Draining l false k a) (mkProcess ClosingStopCh l false k a)
  (* close(s.stopCh), which panics if it is closed *)
  | main_close l k a :
      lp_stop l = false →
      main_step (mkProcess ClosingStopCh l false k a) (mkProcess StoppingTicker (close_stop l) false k a)
  | main_close_panic l k a :
      lp_stop l = true →
      main_step (mkProcess ClosingStopCh l false k a) (mkProcess Panicked l false k a)
  (* s.ticker.Stop() *)
  | main_ticker l k a :
      main_step (mkProcess StoppingTicker l false k a) (mkProcess Joining (stop_ticker l) false k a)
  (* s.wg.Wait() returns, and so does main *)
  | main_join l k a :
      returned l →
      main_step (mkProcess Joining l false k a) (mkProcess MainReturned l false k a).

(** The goroutine of the scheduler. *)
Inductive loop_moves : Process St → Process St → Prop :=
  | moves_loop m l l' p k a :
      ended m = false → run_step tick l l' → loop_moves (mkProcess m l p k a) (mkProcess m l' p k a).

(** The ticker, the connections, and the goroutine that serves them. *)
Inductive other_step : Process St → Process St → Prop :=
  | other_fire m s t d stop ph p k a :
      ended m = false →
      other_step (mkProcess m (mkLoop s true t d stop ph) p k a) (mkProcess m (mkLoop s true true d stop ph) p k a)
  | other_accept m l a :
      ended m = false → other_step (mkProcess m l true true a) (mkProcess m l true true (S a))
  | other_handle m s s' k t d stop ph p k' a :
      ended m = false → request s s' →
      other_step (mkProcess m (mkLoop s k t d stop ph) p k' (S a)) (mkProcess m (mkLoop s' k t d stop ph) p k' a)
  (* ListenAndServe fails while it should listen: log.Fatalf *)
  | other_fatal m l a :
      ended m = false → other_step (mkProcess m l true true a) (mkProcess Fatal l true false a)
  (* ListenAndServe returns ErrServerClosed, and Start nil *)
  | other_closed m l a :
      ended m = false → other_step (mkProcess m l false true a) (mkProcess m l false false a).

Definition process_step (p p' : Process St) : Prop := main_step p p' ∨ loop_moves p p' ∨ other_step p p'.

(** ** Invariant *)

(** What the position of main says of the scheduler's loop and of the server. *)
Definition process_ok (p : Process St) : Prop :=
  match pr_main p with
  | Waiting => lp_stop (pr_loop p) = false ∧ pr_listening p = true
  | Draining | ClosingStopCh => lp_stop (pr_loop p) = false ∧ pr_listening p = false
  | StoppingTicker => lp_stop (pr_loop p) = true ∧ pr_listening p = false
  | Joining => stopping (pr_loop p) ∧ pr_listening p = false
  | MainReturned => returned (pr_loop p) ∧ pr_listening p = false
  | Fatal => pr_listening p = true ∧ pr_serving p = false
  | Panicked => False
  end.

Lemma run_step_channels l l' : run_step tick l l' → lp_stop l' = lp_stop l ∧ lp_ticking l' = lp_ticking l.
Proof. by destruct 1. Qed.

Lemma process_step_ok p p' : process_step p p' → process_ok p → process_ok p'.
Proof.
  intros [[]|[[m l l' p0 k a Hm [Hs Ht]%run_step_channels]|[]]]; unfold process_ok, stopping in *; simpl.
  all: try naive_solver.
  - intros [? _]. congruence.
  - rewrite Hs, Ht. by destruct m.
  - destruct m; naive_solver.
Qed.

Lemma process_start_ok s : process_ok (process_start s).
Proof. by split. Qed.

Lemma process_steps_ok s p : rtc process_step (process_start s) p → process_ok p.
Proof.
  intros Hp. assert (Hs := process_start_ok s). induction Hp; [done|]. by apply IHHp, (process_step_ok x).
Qed.

(** ** What is left to do *)

(** Main has the signal and has not ended. *)
Definition shutting_down (m : main_phase) : bool :=
  match m with Draining | ClosingStopCh | StoppingTicker | Joining => true | _ => false end.

(** A step of main, or of the goroutine it waits for. *)
Definition progress (p p' : Process St) : Prop :=
  main_step p p' ∨ (pr_main p = Joining ∧ loop_moves p p').

Definition left_to_do (p : Process St) : nat :=
  match pr_main p with
  | Draining => 8 | ClosingStopCh => 7 | StoppingTicker => 6
  | Joining => 1 + work_left (pr_loop p)
  | _ => 0
  end.

Lemma main_step_left p p' : main_step p p' → shutting_down (pr_main p) = true →
  (left_to_do p' < left_to_do p)%nat.
Proof.
  destruct 1; simpl; try done; intros _; unfold left_to_do, work_left; simpl; repeat case_match; lia.
Qed.

Lemma loop_moves_left p p' : loop_moves p p' →
  (left_to_do p' ≤ left_to_do p)%nat ∧ pr_main p' = pr_main p ∧
  (pr_main p = Joining → (left_to_do p' < left_to_do p)%nat).
Proof.
  intros [m l l' q k a Hm Hstep]. apply run_step_work in Hstep. unfold left_to_do. simpl.
  split_and!; [destruct m; lia|done|intros ->; lia].
Qed.

Lemma other_step_left p p' : other_step p p' → process_ok p → (left_to_do p' ≤ left_to_do p)%nat.
Proof.
  destruct 1; unfold left_to_do, process_ok, stopping, work_left; simpl; destruct m; simpl; try lia; naive_solver.
Qed.

(** The process goes on shutting down, or it has ended. *)
Definition past_signal (p : Process St) : bool := shutting_down (pr_main p) || ended (pr_main p).

Lemma process_step_past p p' : process_step p p' → past_signal p = true → past_signal p' = true.
Proof.
  unfold past_signal. intros [[]|[[]|[]]]; simpl; try done.
Qed.

(** [n] steps of progress among the steps of the others. *)
Inductive exit_trace : nat → Process St → Process St → Prop :=
  | exit_refl p : exit_trace 0 p p
  | exit_progress n p p' p'' : progress p p' → exit_trace n p' p'' → exit_trace (S n) p p''
  | exit_other n p p' p'' :
      other_step p p' ∨ (pr_main p ≠ Joining ∧ loop_moves p p') → exit_trace n p' p'' → exit_trace n p p''.

Lemma progress_step p p' : progress p p' → process_step p p'.
Proof. intros [?|[_ ?]]; [by left|right; by left]. Qed.

Lemma exit_trace_left n p p' : exit_trace n p p' → process_ok p → past_signal p = true →
  (n + left_to_do p' ≤ left_to_do p)%nat ∧ process_ok p' ∧ past_signal p' = true.
Proof.
  induction 1 as [p|n p1 p2 p3 Hstep _ IH|n p1 p2 p3 Hstep _ IH]; intros Hok Hpast; [by split_and!|..].
  - assert (Hp := progress_step _ _ Hstep).
    destruct IH as (H1 & H2 & H3); [by eapply process_step_ok|by eapply process_step_past|].
    split_and!; [|done..]. destruct Hstep as [Hm|[Hj Hm]].
    + assert (shutting_down (pr_main p1) = true) as Hs by (destruct Hm; try done; by unfold past_signal in Hpast).
      apply main_step_left in Hm; [lia|done].
    + apply loop_moves_left in Hm as (_ & _ & Hm). specialize (Hm Hj). lia.
  - assert (Hp : process_step p1 p2) by (destruct Hstep as [?|[_ ?]]; right; [by right|by left]).
    destruct IH as (H1 & H2 & H3); [by eapply process_step_ok|by eapply process_step_past|].
    split_and!; [|done..]. destruct Hstep as [Hm|[_ Hm]].
    + apply other_step_left in Hm; [lia|done].
    + apply loop_moves_left in Hm as (Hm & _). lia.
Qed.

(** Main, or the goroutine it waits for, can always make a step. *)
Lemma progress_possible p : (∀ s, is_Panic (tick s).1 = false) → process_ok p → shutting_down (pr_main p) = true →
  ∃ p', progress p p'.
Proof.
  intros Ht Hok Hs. destruct p as [m l q k a]. unfold process_ok in Hok. simpl in *. destruct m; try done.
  - destruct Hok as [_ ->]. eexists. left. apply main_timeout.
  - destruct Hok as [Hl ->]. eexists. left. by apply main_close.
  - destruct Hok as [_ ->]. eexists. left. apply main_ticker.
  - destruct Hok as [[Hl _] ->]. destruct l as [s ti t d stop ph]. simpl in Hl. subst stop. destruct ph.
    + eexists. right. split; [done|]. apply moves_loop; [done|]. apply run_stop.
    + eexists. right. split; [done|]. apply moves_loop; [done|]. apply run_process, Ht.
    + eexists. left. by apply main_join.
Qed.
End process.

(** ** The server *)

Section server.
Context {S : Type} `{L : StorageLaws S} `{R : Runtime} `{MR : MapRange} `{U : Uuids}.
Context (offset : Z) (request : Scheduler S → Scheduler S → Prop).

(** C17. The server shuts down. From the signal on, main and the goroutine it
    waits for make at most eight more steps, whatever the others do, and until
    the process has ended one of the two can move; [close] is never called
    twice, and if main returns, the scheduler's goroutine has returned before,
    and no connection is accepted any more. *)
Theorem server_shuts_down w uuid p n p' :
  rtc (process_step (processDueSchedules offset) request) (process_start (NewScheduler w uuid)) p →
  shutting_down (pr_main p) = true → exit_trace (processDueSchedules offset) request n p p' →
  (n ≤ 8)%nat ∧
  ((∀ p'', ¬ progress (processDueSchedules offset) p' p'') → ended (pr_main p') = true) ∧
  pr_main p' ≠ Panicked ∧
  (pr_main p' = MainReturned → returned (pr_loop p') ∧ pr_listening p' = false).
Proof.
  intros Hp%process_steps_ok Hs Hn. assert (Hpast : past_signal p = true) by (unfold past_signal; by rewrite Hs).
  destruct (exit_trace_left _ _ _ _ _ Hn Hp Hpast) as (Hleft & Hok & Hpast').
  assert (left_to_do p ≤ 8)%nat by (unfold left_to_do, work_left; repeat case_match; lia).
  split_and!; [lia| | |].
  - intros Hno. destruct (shutting_down (pr_main p')) eqn:Hs'; [|unfold past_signal in Hpast'; by rewrite Hs' in Hpast'].
    destruct (progress_possible (processDueSchedules offset) p') as [p'' Hp'']; [apply processDueSchedules_returns|done|done|].
    by destruct (Hno p'').
  - intros Hm. unfold process_ok in Hok. by rewrite Hm in Hok.
  - intros Hm. unfold process_ok in Hok. by rewrite Hm in Hok.
Qed.
End server.

(** ** A witness: the signal comes while a request is handled and a tick waits *)

#[local] Existing Instance MemoryLaws.MemoryStorage.
#[local] Existing Instance MemoryLaws.MemoryStorageLaws.
#[local] Existing Instance demo_runtime.
#[local] Existing Instance map_range_default.
#[local] Existing Instance demo_uuids.

Lemma server_shuts_down_witness :
  let s := NewScheduler demo_world 0 in
  let l := mkLoop s true true false false Selecting in
  let l' := mkLoop s false true false true Returned in
  exit_trace (processDueSchedules 0) no_client 5 (mkProcess Draining l false true 1)
    (mkProcess MainReturned l' false false 1) ∧
  returned (pr_loop (mkProcess MainReturned l' false false 1)).
Proof.
  intros s l l'.
  assert (Ht : exit_trace (processDueSchedules 0) no_client 5 (mkProcess Draining l false true 1)
    (mkProcess MainReturned l' false false 1)).
  { eapply exit_other; [left; by apply other_closed|].
    eapply exit_progress; [left; apply main_timeout|]. eapply exit_progress; [left; by apply main_close|].
    eapply exit_progress; [left; apply main_ticker|].
    eapply exit_progress; [right; split; [done|]; apply moves_loop; [done|]; apply run_stop|].
    eapply exit_progress; [left; by apply main_join|]. apply exit_refl. }
  split; [exact Ht|].
  eapply (server_shuts_down 0 no_client demo_world 0 (mkProcess Draining l false true 1) 5); [|done|exact Ht|done].
  eapply rtc_l; [right; right; by apply (other_accept no_client)|].
  eapply rtc_l; [right; right; by apply (other_fire no_client)|].
  apply rtc_once. left. apply main_signal.
Defined.
