(* ===== verification/StoreInterface.v ===== *)
(** * The storage interface as it is declared (internal/storage/storage.go)

    The manager and the pool call other methods, which are in [Storage]; the
    declared ones are those of the Redis backend, except that two methods of one
    type cannot share a name there ([Get], [List] and [UpdateStatus] of jobs and
    of workers). [Close] is left out, as it is of the backends. The methods that
    read the clock have it as an argument. *)

From S2P Require Import Prelude Errors GoMonad Job Redis RedisStore RedisQueue RedisMetrics.
From S2P Require RedisWorker.

Class JobStore (S : Type) := {
  js_Create : Job → M S unit;
  js_Get : string → M S Job;
  js_Update : Job → M S unit;
  js_Delete : string → M S unit;
  js_List : JobFilter → M S (list Job);
  js_UpdateStatus : Clock → string → string → M S unit;
  js_UpdateProgress : string → Z → M S unit;
  js_SetResult : string → string → M S unit;
  js_SetError : string → string → M S unit;
}.

Class QueueStore (S : Type) := {
  qst_Enqueue : Clock → string → string → Z → M S unit;
  qst_Dequeue : string → string → M S string;
  qst_Requeue : Clock → string → string → Z → M S unit;
  qst_Remove : string → string → M S unit;
  qst_Length : string → M S Z;
  qst_Peek : string → M S string;
  qst_GetScheduled : Time → Z → M S (list Job);
  qst_ListQueues : M S (list string);
  qst_PauseQueue : string → M S unit;
  qst_ResumeQueue : string → M S unit;
  qst_IsQueuePaused : string → M S bool;
}.

Class WorkerStore (S : Type) := {
  ws_Register : Worker → M S unit;
  ws_Unregister : string → M S unit;
  ws_Get : string → M S Worker;
  ws_List : M S (list Worker);
  ws_UpdateHeartbeat : Clock → string → M S unit;
  ws_UpdateStatus : string → string → M S unit;
  ws_SetCurrentJob : string → string → M S unit;
  ws_IncrementProcessed : string → M S unit;
  ws_IncrementFailed : string → M S unit;
  ws_GetStaleWorkers : Clock → Duration → M S (list Worker);
}.

Class MetricsStore (S : Type) := {
  mst_RecordJobCreated : Clock → string → string → M S unit;
  mst_RecordJobCompleted : Clock → string → string → Duration → M S unit;
  mst_RecordJobFailed : Clock → string → string → string → M S unit;
  mst_RecordJobRetried : string → string → M S unit;
  mst_GetQueueStats : string → M S QueueStats;
  mst_GetQueueStatsAll : M S (gmap string QueueStats);
  mst_GetJobTypeStats : Time → M S (gmap string JobTypeStats);
}.

Class ConfigStore (S : Type) := {
  cst_SaveQueueConfig : QueueConfig → M S unit;
  cst_GetQueueConfig : string → M S QueueConfig;
  cst_DeleteQueueConfig : string → M S unit;
  cst_ListQueueConfigs : M S (list QueueConfig);
}.

Class Store (S : Type) := {
  s_JobStore : JobStore S;
  s_QueueStore : QueueStore S;
  s_WorkerStore : WorkerStore S;
  s_MetricsStore : MetricsStore S;
  s_ConfigStore : ConfigStore S;
  s_Health : M S unit;
}.
#[export] Existing Instances s_JobStore s_QueueStore s_WorkerStore s_MetricsStore s_ConfigStore.

(** [type RedisStore struct] implements the interface; [fuel] bounds the calls of
    its loops over [SCAN]. *)
Definition RedisStore_Store `{RedisClient R} (fuel : nat) : Store R := {|
  s_JobStore := {|
    js_Create := Create; js_Get := Get; js_Update := Update; js_Delete := Delete;
    js_List := List fuel; js_UpdateStatus := UpdateStatus; js_UpdateProgress := UpdateProgress;
    js_SetResult := SetResult; js_SetError := SetError |};
  s_QueueStore := {|
    qst_Enqueue := Enqueue; qst_Dequeue := Dequeue; qst_Requeue := Requeue; qst_Remove := Remove;
    qst_Length := Length; qst_Peek := Peek; qst_GetScheduled := GetScheduled;
    qst_ListQueues := ListQueues fuel; qst_PauseQueue := PauseQueue; qst_ResumeQueue := ResumeQueue;
    qst_IsQueuePaused := IsQueuePaused |};
  s_WorkerStore := {|
    ws_Register := RedisWorker.Register; ws_Unregister := RedisWorker.Unregister;
    ws_Get := RedisWorker.Get; ws_List := RedisWorker.List;
    ws_UpdateHeartbeat := RedisWorker.UpdateHeartbeat; ws_UpdateStatus := RedisWorker.UpdateStatus;
    ws_SetCurrentJob := RedisWorker.SetCurrentJob;
    ws_IncrementProcessed := RedisWorker.IncrementProcessed;
    ws_IncrementFailed := RedisWorker.IncrementFailed;
    ws_GetStaleWorkers := RedisWorker.GetStaleWorkers |};
  s_MetricsStore := {|
    mst_RecordJobCreated := RecordJobCreated; mst_RecordJobCompleted := RecordJobCompleted;
    mst_RecordJobFailed := RecordJobFailed; mst_RecordJobRetried := RecordJobRetried;
    mst_GetQueueStats := GetQueueStats; mst_GetQueueStatsAll := GetQueueStatsAll fuel;
    mst_GetJobTypeStats := GetJobTypeStats fuel |};
  s_ConfigStore := {|
    cst_SaveQueueConfig := SaveQueueConfig; cst_GetQueueConfig := GetQueueConfig;
    cst_DeleteQueueConfig := DeleteQueueConfig; cst_ListQueueConfigs := ListQueueConfigs fuel |};
  s_Health := Health;
|}.
