(* ===== verification/RedisEnv.v ===== *)
(** * The methods of the Redis backend among other clients and on a network that fails

    A method sends one command after another. Between two of its commands the
    server serves other clients, and each command can be lost on its way, or its
    reply on the way back; the client library then sends it again, up to
    [MaxRetries] times (redis.go:48). [over_network] makes a server of the
    reference commands and of what the environment does. The methods that write
    one key are shown to happen at one moment or not at all, under what they need
    of the others and unless a command runs twice because its reply was lost;
    what is lost in those cases is shown too. *)

From S2P Require Import Prelude Errors GoMonad Job GoTime Decimal Json JobJson Redis RedisStore RedisJobs.
From S2P Require Import RedisQueue RedisTypes RedisQueueProps RedisMetrics.
From S2P Require RedisWorker.
From S2P Require Import Faults.
#[local] Set Default Proof Using "Type".

(** ** The environment *)

(** What other clients make of the data before the n-th message of this client
    arrives, what becomes of the message, and whether its loss is an error after
    which the client sends the command again (a timeout or a broken connection,
    unless the context of the call has ended); [max_retries] is the option
    [MaxRetries], where go-redis makes 3 of the 0 that both programs configure,
    and 0 of -1. *)
Class Environment := {
  others_at : nat → DB → DB;
  lost_at : nat → option fault;
  resends : nat → bool;
  max_retries : nat;
}.

(** The data, and the number of the next message. *)
Record Shared : Type := mkShared {
  sh_db : DB;
  sh_sent : nat;
}.

(** The number of the next message and the data; the others make their change
    before that message. *)
Abbreviation moment := (nat * DB)%type.

Section network.
Context `{Environment}.

(** A command, with [tries] more if a message is lost. *)
Fixpoint send {A} (tries : nat) (m : M DB A) (s : Shared) : res A * Shared :=
  let d := others_at (sh_sent s) (sh_db s) in
  let r := m d in
  let again e s' :=
    if resends (sh_sent s) then
      match tries with
      | S tries => send tries m s'
      | O => (Err e, s')
      end
    else (Err e, s') in
  match lost_at (sh_sent s) with
  | None => (r.1, mkShared r.2 (1 + sh_sent s))
  | Some (LostRequest e) => again e (mkShared d (1 + sh_sent s))
  | Some (LostReply e) =>
      match r.1 with
      | Panic why => (Panic why, mkShared r.2 (1 + sh_sent s))
      | _ => again e (mkShared r.2 (1 + sh_sent s))
      end
  end.

Definition command {A} (m : M DB A) : M Shared A := send max_retries m.

#[export] Instance over_network : RedisClient Shared := {
  PING := command PING;
  GET k := command (GET k);
  SET k v := command (SET k v);
  SETNX k v := command (SETNX k v);
  EXISTS k := command (EXISTS k);
  DEL k := command (DEL k);
  ZADD k v x := command (ZADD k v x);
  ZREM k x := command (ZREM k x);
  ZCARD k := command (ZCARD k);
  ZRANGE k i j := command (ZRANGE k i j);
  ZRANGEBYSCORE k mx n := command (ZRANGEBYSCORE k mx n);
  SADD k x := command (SADD k x);
  SREM k x := command (SREM k x);
  SMEMBERS k := command (SMEMBERS k);
  HINCRBY k f n := command (HINCRBY k f n);
  HSET k f v := command (HSET k f v);
  HGET k f := command (HGET k f);
  HGETALL k := command (HGETALL k);
  SCAN c p n := command (SCAN c p n);
  EVAL A script := command script;
}.

(** ** Moments *)

Definition here (s : Shared) : moment := (sh_sent s, sh_db s).

Definition passes (x y : moment) : Prop := y = (S x.1, others_at x.1 x.2).

(** No other client touches a key. *)
Definition alone (k : string) : Prop := ∀ n d, others_at n d !! k = d !! k.

Definition agree (d d' : DB) : Prop := ∀ k, alone k → d' !! k = d !! k.

(** A command or a reply was lost. *)
Definition lost (s s' : Shared) : Prop :=
  ∃ n, (sh_sent s ≤ n < sh_sent s')%nat ∧ is_Some (lost_at n).

Definition failed {A} (r : res A) : Prop := ∃ e, r = Err e.

(** A command was sent again after its reply was lost, so that it may have run
    twice. *)
Definition repeated (s s' : Shared) : Prop :=
  ∃ n e, (sh_sent s ≤ n)%nat ∧ (S n < sh_sent s')%nat ∧ lost_at n = Some (LostReply e) ∧ resends n = true.

(** [m] happened at the moment when the data was [d], or it failed with a message
    that was lost, and happened then or not at all; or a command was repeated. *)
Definition happened_at {A} (d : DB) (f : M DB A) (s : Shared) (r : res A) (s' : Shared) : Prop :=
  f d = (r, sh_db s') ∨
  (lost s s' ∧ failed r ∧ (sh_db s' = d ∨ sh_db s' = (f d).2)) ∨
  repeated s s'.

Definition atomic_from {A} (s : Shared) (m : M Shared A) (f : M DB A) : Prop :=
  (sh_sent s ≤ sh_sent (m s).2)%nat ∧
  ∃ n d, (n ≤ sh_sent (m s).2)%nat ∧ rtc passes (here s) (n, d) ∧ happened_at d f s (m s).1 (m s).2.

Definition atomic {A} (m : M Shared A) (f : M DB A) : Prop := ∀ s, atomic_from s m f.

(** [m] changes nothing, and finds the same at a later moment. *)
Definition reads {A} (m : M Shared A) (f : M DB A) : Prop := ∀ s,
  rtc passes (here s) (here (m s).2) ∧
  ((∀ d, agree (sh_db s) d → f d = ((m s).1, d)) ∨ lost s (m s).2 ∧ failed (m s).1).

(** [m] sends nothing. *)
Definition settled {A} (m : M Shared A) (f : M DB A) : Prop :=
  ∃ r, (∀ s, m s = (r, s)) ∧ (∀ d, f d = (r, d)).

(** ** Rules *)

Lemma passes_agree_le x y : rtc passes x y → agree x.2 y.2 ∧ (x.1 ≤ y.1)%nat.
Proof.
  induction 1 as [|x1 x2 x3 -> _ [IH Hle]]; [done|]. simpl in Hle. split; [|lia].
  intros k Hk. rewrite (IH k Hk). apply Hk.
Qed.

Lemma agree_passes s n d : rtc passes (here s) (n, d) → agree (sh_db s) d.
Proof. by intros [? _]%passes_agree_le. Qed.

Lemma passes_le s n d : rtc passes (here s) (n, d) → (sh_sent s ≤ n)%nat.
Proof. by intros [_ ?]%passes_agree_le. Qed.

Lemma agree_trans d1 d2 d3 : agree d1 d2 → agree d2 d3 → agree d1 d3.
Proof. intros H1 H2 k Hk. by rewrite (H2 k Hk), (H1 k Hk). Qed.

Lemma lost_mono s1 s2 s3 s4 : (sh_sent s1 ≤ sh_sent s2)%nat → (sh_sent s3 ≤ sh_sent s4)%nat →
  lost s2 s3 → lost s1 s4.
Proof. intros ?? (n & ? & ?). exists n. split; [lia|done]. Qed.

Lemma repeated_mono s1 s2 s3 : (sh_sent s1 ≤ sh_sent s2)%nat → repeated s2 s3 → repeated s1 s3.
Proof. intros ? (n & e & ? & ? & ? & ?). exists n, e. split_and!; [lia|done..]. Qed.

Lemma happened_at_earlier {A} d (f : M DB A) s s1 r s' : (sh_sent s ≤ sh_sent s1)%nat →
  happened_at d f s1 r s' → happened_at d f s r s'.
Proof.
  intros Hle [Hh|[(Hl & Hf & Hd)|Hr]]; [by left|right; left|right; right; by eapply repeated_mono].
  split_and!; [eapply lost_mono; [exact Hle| |exact Hl]; done|done|done].
Qed.

Lemma settled_ret {A} (a : A) : settled (mret a) (mret a).
Proof. by exists (Ok a). Qed.

Lemma settled_throw {A} e : settled (throw (A:=A) e) (throw e).
Proof. by exists (Err e). Qed.

Lemma settled_marshal `{JsonStruct A} msg (a : A) : settled (marshal msg a) (marshal msg a).
Proof. unfold marshal. case_match; [apply settled_ret|apply settled_throw]. Qed.

Lemma settled_unmarshal `{JsonStruct A} msg data : settled (unmarshal (A:=A) msg data) (unmarshal msg data).
Proof. unfold unmarshal. case_match; [apply settled_ret|apply settled_throw]. Qed.

Lemma settled_reads {A} (m : M Shared A) f : settled m f → reads m f.
Proof. intros (r & Hm & Hf) s. rewrite Hm. split_and!; [done..|]. by left. Qed.

Lemma reads_atomic {A} (m : M Shared A) f : reads m f → atomic m f.
Proof.
  intros Hm s. destruct (Hm s) as (Ho & Hr). split; [by apply passes_le in Ho|].
  exists (sh_sent (m s).2), (sh_db (m s).2). split; [done|]. split; [done|].
  destruct Hr as [Hr|[Hl Hf]]; [left|right; left; by auto]. by apply Hr, (agree_passes _ _ _ Ho).
Qed.

Lemma reads_bind {A B} (m : M Shared A) f (k : A → M Shared B) g :
  reads m f → (∀ a, reads (k a) (g a)) → reads (m ≫= k) (f ≫= g).
Proof.
  intros Hm Hk s. destruct (Hm s) as (Ho & Hr). unfold mbind, M_bind. pose proof (passes_le _ _ _ Ho) as Hn.
  destruct (m s) as [[a|e|p] s1]; simpl in *.
  - destruct (Hk a s1) as (Ho' & Hr'). pose proof (passes_le _ _ _ Ho'). split; [by etransitivity|].
    destruct Hr as [Hr|[_ [e He]]]; [|done].
    destruct Hr' as [Hr'|[Hl Hf]]; [left|right; split; [eapply lost_mono; [exact Hn| |exact Hl]; done|done]].
    intros d Hd. rewrite Hr by done. apply Hr'. intros q Hq.
    by rewrite (Hd q Hq), (agree_passes _ _ _ Ho q Hq).
  - split; [done|]. destruct Hr as [Hr|[Hl Hf]]; [left|right; split; [done|by eexists]].
    intros d Hd. by rewrite Hr.
  - split; [done|]. destruct Hr as [Hr|[_ [e He]]]; [left|done].
    intros d Hd. by rewrite Hr.
Qed.

Lemma reads_wrap {A} msg (m : M Shared A) f : reads m f → reads (wrap_err msg m) (wrap_err msg f).
Proof.
  intros Hm s. destruct (Hm s) as (Ho & Hr). unfold wrap_err.
  destruct (m s) as [[a|e|p] s1]; simpl in *; (split; [done|]);
    (destruct Hr as [Hr|[Hl [e' He]]]; [left; intros d Hd; by rewrite Hr|right; split; [done|by eexists]]).
Qed.

(** Reads come first; what they find is there at the start. *)
Lemma atomic_from_bind {A B} (m : M Shared A) f (k : A → M Shared B) g s :
  reads m f → (∀ a s1, f (sh_db s) = (Ok a, sh_db s) → atomic_from s1 (k a) (g a)) →
  atomic_from s (m ≫= k) (f ≫= g).
Proof.
  intros Hm Hk. destruct (Hm s) as (Ho & Hr). unfold atomic_from, mbind, M_bind.
  pose proof (passes_le _ _ _ Ho) as Hn. pose proof (agree_passes _ _ _ Ho) as Ha.
  destruct (m s) as [[a|e|p] s1]; simpl in *.
  - destruct Hr as [Hr|[_ [e He]]]; [|done].
    destruct (Hk a s1) as (Hn' & n & d & Hnd & Hd & Hh); [by apply Hr|].
    split; [lia|]. exists n, d. split; [done|]. split; [by etransitivity|].
    assert (Hf : f d = (Ok a, d)) by (apply Hr; by eapply agree_trans, (agree_passes _ _ _ Hd)).
    apply (happened_at_earlier _ _ _ s1); [done|]. unfold happened_at. by rewrite Hf.
  - split; [done|]. exists (sh_sent s1), (sh_db s1). split; [done|]. split; [done|]. unfold happened_at. simpl.
    destruct Hr as [Hr|[Hl Hf]]; [left; by rewrite (Hr _ Ha)|right; left].
    split_and!; [done|by eexists|by left].
  - split; [done|]. exists (sh_sent s1), (sh_db s1). split; [done|]. split; [done|].
    destruct Hr as [Hr|[_ [e He]]]; [left|done]. by rewrite (Hr _ Ha).
Qed.

Lemma atomic_bind {A B} (m : M Shared A) f (k : A → M Shared B) g :
  reads m f → (∀ a, atomic (k a) (g a)) → atomic (m ≫= k) (f ≫= g).
Proof. intros Hm Hk s. apply atomic_from_bind; [done|]. intros a s1 _. apply Hk. Qed.

(** What follows the write sends nothing. *)
Lemma atomic_from_then {A B} (m : M Shared A) f (k : A → M Shared B) g s :
  atomic_from s m f → (∀ a, settled (k a) (g a)) → atomic_from s (m ≫= k) (f ≫= g).
Proof.
  intros (Hn & n & d & Hnd & Hd & Hh) Hk. unfold atomic_from, mbind, M_bind.
  assert (Hg : ∀ a d, (g a d).2 = d) by (intros a d'; destruct (Hk a) as (r & _ & Hf); by rewrite Hf).
  destruct (m s) as [[a|e|p] s1]; simpl in *.
  - destruct (Hk a) as (r & Hr & Hf). rewrite Hr. split; [done|]. exists n, d. split; [done|]. split; [done|].
    destruct Hh as [Hh|[(_ & [e He] & _)|Hr']]; [left; by rewrite Hh, Hf|done|by right; right].
  - split; [done|]. exists n, d. split; [done|]. split; [done|].
    destruct Hh as [Hh|[(Hl & _ & Hs)|Hr']]; [left; by rewrite Hh| |by right; right].
    right; left. split_and!; [done|by eexists|]. destruct Hs as [Hs|Hs]; [by left|right].
    destruct (f d) as [[a|e'|p] d']; simpl in *; by rewrite ?Hg.
  - split; [done|]. exists n, d. split; [done|]. split; [done|].
    destruct Hh as [Hh|[(_ & [e He] & _)|Hr']]; [left; by rewrite Hh|done|by right; right].
Qed.

Lemma atomic_then {A B} (m : M Shared A) f (k : A → M Shared B) g :
  atomic m f → (∀ a, settled (k a) (g a)) → atomic (m ≫= k) (f ≫= g).
Proof. intros Hm Hk s. by apply atomic_from_then. Qed.

Lemma atomic_wrap {A} msg (m : M Shared A) f : atomic m f → atomic (wrap_err msg m) (wrap_err msg f).
Proof.
  intros Hm s. destruct (Hm s) as (Hn & n & d & Hnd & Hd & Hh). unfold atomic_from, wrap_err, happened_at in *.
  destruct (m s) as [[a|e|p] s1]; simpl in *; (split; [done|]); exists n, d; (split; [done|]); (split; [done|]);
    (destruct Hh as [Hh|[(Hl & [e' He] & Hs)|Hr]]; [left; by rewrite Hh|right; left|by right; right]); try done.
  split_and!; [done|by eexists|]. by destruct (f d) as [[]].
Qed.

(** What becomes of a message: it is answered; or it is lost, and its command
    is not sent again, or it is. *)
Lemma send_cases {A} tries (f : M DB A) s :
  let d := others_at (sh_sent s) (sh_db s) in
  send tries f s = ((f d).1, mkShared (f d).2 (S (sh_sent s))) ∨
  (∃ e d', is_Some (lost_at (sh_sent s)) ∧ (d' = d ∨ d' = (f d).2) ∧
     send tries f s = (Err e, mkShared d' (S (sh_sent s)))) ∨
  (∃ e tries', lost_at (sh_sent s) = Some (LostRequest e) ∧ tries = S tries' ∧
     send tries f s = send tries' f (mkShared d (S (sh_sent s)))) ∨
  (∃ e tries', lost_at (sh_sent s) = Some (LostReply e) ∧ resends (sh_sent s) = true ∧ tries = S tries' ∧
     send tries f s = send tries' f (mkShared (f d).2 (S (sh_sent s)))).
Proof.
  intros d. destruct tries as [|tries]; simpl; fold d;
    (destruct (lost_at (sh_sent s)) as [[e|e]|] eqn:El; [| |by left]);
    destruct (resends (sh_sent s)) eqn:Er; try (destruct (f d) as [[a|e'|p] d'] eqn:Ef; simpl).
  all: first
    [ by left
    | right; left; eexists _, _; split; [by eexists|]; split; [|reflexivity]; by auto
    | right; right; left; by eexists _, _
    | right; right; right; by eexists _, _ ].
Qed.

Lemma send_le {A} tries (f : M DB A) s : (S (sh_sent s) ≤ sh_sent (send tries f s).2)%nat.
Proof.
  revert s. induction tries as [tries IH] using lt_wf_ind; intros s.
  destruct (send_cases tries f s) as [->|[(e & d' & _ & _ & ->)|[(e & n & _ & -> & ->)|(e & n & _ & _ & -> & ->)]]];
    [done|done|..]; (etransitivity; [|apply IH; lia]); simpl; lia.
Qed.

Lemma lost_first s s' : (S (sh_sent s) ≤ sh_sent s')%nat → is_Some (lost_at (sh_sent s)) → lost s s'.
Proof. intros Hn Hl. exists (sh_sent s). split; [lia|done]. Qed.

(** A single command happens at one moment, or is repeated. *)
Lemma atomic_send {A} tries (f : M DB A) s : atomic_from s (send tries f) f.
Proof.
  revert s. induction tries as [tries IH] using lt_wf_ind; intros s.
  pose proof (send_le tries f s) as Hle. split; [lia|]. set (d := others_at (sh_sent s) (sh_db s)).
  assert (Hd : rtc passes (here s) (S (sh_sent s), d)) by by apply rtc_once.
  destruct (send_cases tries f s) as [E|[(e & d' & Hl & Hd' & E)|[(e & n & Hl & -> & E)|(e & n & Hl & Hr & -> & E)]]];
    fold d in E.
  - exists (S (sh_sent s)), d. split; [done|]. split; [done|]. left. rewrite E. apply surjective_pairing.
  - exists (S (sh_sent s)), d. split; [done|]. split; [done|]. right; left. split_and!.
    + by apply lost_first.
    + rewrite E. by eexists.
    + by rewrite E.
  - destruct (IH n ltac:(lia) (mkShared d (S (sh_sent s)))) as (_ & k & d1 & Hk & Hd1 & Hh). rewrite <- E in *.
    exists k, d1. split; [done|]. split; [by etransitivity|].
    eapply happened_at_earlier, Hh. simpl. lia.
  - exists (sh_sent s), (sh_db s). split; [lia|]. split; [done|]. right; right. rewrite E.
    exists (sh_sent s), e. split_and!; [done| |done|done].
    pose proof (send_le n f (mkShared (f d).2 (S (sh_sent s)))) as H'. simpl in H'. lia.
Qed.

Lemma atomic_command {A} (f : M DB A) : atomic (command f) f.
Proof. intros s. apply atomic_send. Qed.

(** A command that reads a key which no other client touches. *)
Lemma reads_command {A} (f : M DB A) k : alone k →
  (∀ d, (f d).2 = d) → (∀ d d', d !! k = d' !! k → (f d).1 = (f d').1) → reads (command f) f.
Proof.
  intros Hk Hf Hr. unfold command. generalize max_retries. intros tries.
  induction tries as [tries IH] using lt_wf_ind; intros s.
  pose proof (send_le tries f s) as Hle. set (d := others_at (sh_sent s) (sh_db s)).
  assert (Hd : rtc passes (here s) (S (sh_sent s), d)) by by apply rtc_once.
  assert (Hagree : ∀ d', agree (sh_db s) d' → d' !! k = d !! k).
  { intros d' Hd'. rewrite (Hd' k Hk). symmetry. by apply (agree_passes _ _ _ Hd). }
  assert (Hnext : ∀ n, (n < tries)%nat → is_Some (lost_at (sh_sent s)) →
    send tries f s = send n f (mkShared d (S (sh_sent s))) →
    rtc passes (here s) (here (send tries f s).2) ∧
    ((∀ d', agree (sh_db s) d' → f d' = ((send tries f s).1, d')) ∨
     lost s (send tries f s).2 ∧ failed (send tries f s).1)).
  { intros n Hn Hl E. destruct (IH n Hn (mkShared d (S (sh_sent s)))) as (Ho & Hres). rewrite <- E in *.
    split; [by etransitivity|]. destruct Hres as [Hres|[_ Hfl]]; [left|right; split; [by apply lost_first|done]].
    intros d' Hd'. apply Hres. intros q Hq. simpl. rewrite (Hd' q Hq).
    symmetry. by apply (agree_passes _ _ _ Hd). }
  destruct (send_cases tries f s) as [E|[(e & d' & Hl & Hd' & E)|[(e & n & Hl & -> & E)|(e & n & Hl & _ & -> & E)]]];
    fold d in E; rewrite ?Hf in E.
  - rewrite E. split; [done|]. left. intros d' Hd'%Hagree.
    rewrite (surjective_pairing (f d')), Hf. f_equal. by apply Hr.
  - assert (d' = d) as -> by (destruct Hd' as [->| ->]; [done|by rewrite Hf]).
    rewrite E. split; [done|]. right. split; [apply lost_first; [simpl; lia|done]|by eexists].
  - by apply (Hnext n); [lia|eexists|].
  - by apply (Hnext n); [lia|eexists|].
Qed.

Lemma reads_GET k : alone k → reads (GET k) (GET k).
Proof.
  intros Hk. apply (reads_command _ k); [done|..]; simpl; unfold at_key, get, mbind, M_bind; simpl.
  - intros d. by destruct (d !! k) as [[]|].
  - intros d d' ->. by destruct (d' !! k) as [[]|].
Qed.

Lemma reads_EXISTS k : alone k → reads (EXISTS k) (EXISTS k).
Proof. intros Hk. apply (reads_command _ k); [done..|]. intros d d'. simpl. by intros ->. Qed.
End network.

(** ** Calls *)

(** The methods of [WorkerStore] on one document, and those of configurations. *)
Inductive worker_call : Type :=
  | WGet (id : string)
  | WHeartbeat (now : Time) (id : string)
  | WStatus (id status : string)
  | WCurrentJob (id jobID : string)
  | WProcessed (id : string)
  | WFailed (id : string).

Definition worker_call_run `{RedisClient R} (c : worker_call) : M R (option Worker) :=
  match c with
  | WGet id => w ← RedisWorker.Get id; mret (Some w)
  | WHeartbeat now id => RedisWorker.UpdateHeartbeat (λ _, now) id ;; mret None
  | WStatus id st => RedisWorker.UpdateStatus id st ;; mret None
  | WCurrentJob id j => RedisWorker.SetCurrentJob id j ;; mret None
  | WProcessed id => RedisWorker.IncrementProcessed id ;; mret None
  | WFailed id => RedisWorker.IncrementFailed id ;; mret None
  end.

Inductive config_call : Type :=
  | QSave (config : QueueConfig)
  | QGet (queueName : string)
  | QDelete (queueName : string).

Definition config_call_run `{RedisClient R} (c : config_call) : M R (option QueueConfig) :=
  match c with
  | QSave config => SaveQueueConfig config ;; mret None
  | QGet q => config ← GetQueueConfig q; mret (Some config)
  | QDelete q => DeleteQueueConfig q ;; mret None
  end.

Inductive store_call : Type :=
  | OnJob (c : job_call)
  | OnQueue (c : queue_call)
  | OnWorker (c : worker_call)
  | OnConfig (c : config_call).

Inductive reply : Type :=
  | RJob (j : option Job)
  | RQueue (a : answer)
  | RWorker (w : option Worker)
  | RConfig (config : option QueueConfig).

Definition store_call_run `{RedisClient R} (c : store_call) : M R reply :=
  match c with
  | OnJob c => a ← job_call_run c; mret (RJob a)
  | OnQueue c => a ← queue_call_run c; mret (RQueue a)
  | OnWorker c => a ← worker_call_run c; mret (RWorker a)
  | OnConfig c => a ← config_call_run c; mret (RConfig a)
  end.

(** The key that no other client may touch while a call runs: the document that it
    reads before it writes it, or the flag that it tests before it acts. *)
Definition watched (c : store_call) : list string :=
  match c with
  | OnJob (CCreate _ | CGet _ | CDelete _) => []
  | OnJob (CUpdate j) => [keyPrefixJob +:+ j_ID j]
  | OnJob (CUpdateStatus _ id _ | CUpdateProgress id _ | CSetResult id _ | CSetError id _) =>
      [keyPrefixJob +:+ id]
  | OnQueue (CEnqueue _ q _ _ | CDequeue q _) => [keyPrefixQueuePause +:+ q]
  | OnQueue _ => []
  | OnWorker (WGet _) => []
  | OnWorker (WHeartbeat _ id | WStatus id _ | WCurrentJob id _ | WProcessed id | WFailed id) =>
      [keyPrefixWorker +:+ id]
  | OnConfig _ => []
  end.

(** ** Every call happens at one moment *)

Section atomicity.
Context `{Environment}.

Abbreviation same f := (atomic f f).

Ltac solve_settled := repeat
  lazymatch goal with
  | |- settled (mret _) _ => apply settled_ret
  | |- settled (throw _) _ => apply settled_throw
  | |- settled (marshal _ _) _ => apply settled_marshal
  | |- settled (unmarshal _ _) _ => apply settled_unmarshal
  | |- settled _ _ => case_match
  end.

Ltac solve_reads := repeat
  lazymatch goal with
  | |- reads (GET _) _ => apply reads_GET; assumption
  | |- reads (EXISTS _) _ => apply reads_EXISTS; assumption
  | |- reads (wrap_err _ _) _ => apply reads_wrap
  | |- reads (mbind _ _) _ => apply reads_bind; [|intros ?]
  | |- reads _ _ => first [solve [apply settled_reads; solve_settled] | case_match]
  end.

(** Reads of keys that others leave alone, local choices, a command, no more. *)
Ltac solve_atomic := repeat
  lazymatch goal with
  | |- atomic (wrap_err _ _) _ => apply atomic_wrap
  | |- atomic (mbind _ _) _ =>
      first [ apply atomic_bind; [solve [solve_reads]|intros ?]
            | apply atomic_then; [|intros ?; solve [solve_settled]] ]
  | |- atomic _ _ =>
      first [ solve [apply reads_atomic, settled_reads; solve_settled]
            | progress case_match
            | apply atomic_command ]
  end.

(** *** Jobs *)

Lemma atomic_Create j : atomic (Create j) (Create j).
Proof. unfold Create. solve_atomic. Qed.

Lemma atomic_Get id : atomic (Get id) (Get id).
Proof. unfold Get. solve_atomic. Qed.

Lemma atomic_Delete id : atomic (Delete id) (Delete id).
Proof. unfold Delete. solve_atomic. Qed.

Lemma atomic_Update j : alone (keyPrefixJob +:+ j_ID j) → atomic (Update j) (Update j).
Proof. intros Hk. unfold Update. solve_atomic. Qed.

Lemma reads_Get id : alone (keyPrefixJob +:+ id) → reads (Get id) (Get id).
Proof. intros Hk. unfold Get. solve_reads. Qed.

(** A document is read, changed and written. *)
Lemma atomic_read_write id (f : Job → Job) s :
  (∀ j, j_ID (f j) = j_ID j) → jobs_ok (sh_db s) → alone (keyPrefixJob +:+ id) →
  atomic_from s (j ← Get id; Update (f j)) (j ← Get id; Update (f j)).
Proof.
  intros Hf Hok Hk. apply atomic_from_bind; [by apply reads_Get|]. intros j s1 Hj.
  apply atomic_Update. rewrite Get_reference in Hj by done. case_bool_decide; [done|].
  destruct (jobs_of (sh_db s) id) as [j'|] eqn:E; [|done]. injection Hj as ->.
  destruct (jobs_of_Some _ _ _ Hok E) as (_ & _ & _ & _ & _ & Hid). by rewrite Hf, Hid.
Qed.

(** *** Queues *)

Lemma reads_IsQueuePaused q : alone (keyPrefixQueuePause +:+ q) → reads (IsQueuePaused q) (IsQueuePaused q).
Proof. intros Hk. unfold IsQueuePaused. solve_reads. Qed.

Lemma atomic_Enqueue clk q id p :
  alone (keyPrefixQueuePause +:+ q) → atomic (Enqueue clk q id p) (Enqueue clk q id p).
Proof.
  intros Hk. unfold Enqueue. case_match; [solve_atomic|].
  apply atomic_bind; [by apply reads_IsQueuePaused|]. intros ?. solve_atomic.
Qed.

Lemma atomic_Dequeue q w : alone (keyPrefixQueuePause +:+ q) → atomic (Dequeue q w) (Dequeue q w).
Proof.
  intros Hk. unfold Dequeue. case_match; [solve_atomic|].
  apply atomic_bind; [by apply reads_IsQueuePaused|]. intros ?. solve_atomic.
Qed.

(** *** Workers *)

Lemma atomic_change_worker id (f : Worker → Worker) : alone (keyPrefixWorker +:+ id) →
  atomic (w ← RedisWorker.Get id; RedisWorker.save id (f w)) (w ← RedisWorker.Get id; RedisWorker.save id (f w)).
Proof.
  intros Hk. apply atomic_bind; [unfold RedisWorker.Get; solve_reads|].
  intros w. unfold RedisWorker.save. solve_atomic.
Qed.

(** *** All the calls *)

Lemma job_call_atomic c s : jobs_ok (sh_db s) → Forall alone (watched (OnJob c)) →
  atomic_from s (job_call_run c) (job_call_run c).
Proof.
  intros Hok Hw. destruct c; simpl in Hw |- *; rewrite ?Forall_singleton in Hw;
    (apply atomic_from_then; [|intros ?; solve_settled]).
  - apply atomic_Create.
  - apply atomic_Get.
  - by apply atomic_Update.
  - apply atomic_Delete.
  - apply (atomic_read_write _ (with_status now status)); [|done..]. intros j. apply with_status_fields.
  - by apply (atomic_read_write _ (set_j_Progress progress)).
  - by apply (atomic_read_write _ (set_j_Result result)).
  - by apply (atomic_read_write _ (set_j_Error errMsg)).
Qed.

Lemma queue_call_atomic c : Forall alone (watched (OnQueue c)) → atomic (queue_call_run c) (queue_call_run c).
Proof.
  intros Hw. destruct c; simpl in Hw |- *; rewrite ?Forall_singleton in Hw;
    (apply atomic_then; [|intros ?; solve_settled]);
    unfold Remove, Length, Peek, PauseQueue, ResumeQueue, IsQueuePaused;
    [by apply atomic_Enqueue|by apply atomic_Dequeue|solve_atomic..].
Qed.

Lemma worker_call_atomic c : Forall alone (watched (OnWorker c)) → atomic (worker_call_run c) (worker_call_run c).
Proof.
  intros Hw. destruct c; simpl in Hw |- *; rewrite ?Forall_singleton in Hw;
    (apply atomic_then; [|intros ?; solve_settled]); [unfold RedisWorker.Get; solve_atomic|..];
    by apply atomic_change_worker.
Qed.

Lemma config_call_atomic c : atomic (config_call_run c) (config_call_run c).
Proof.
  destruct c; simpl; (apply atomic_then; [|intros ?; solve_settled]);
    unfold SaveQueueConfig, GetQueueConfig, DeleteQueueConfig; solve_atomic.
Qed.

End atomicity.

(** ** What an update overwrites *)

(** The calls that read a job, change it and write it back. *)
Definition rewrites (c : job_call) : option (string * (Job → Job)) :=
  match c with
  | CUpdateStatus now id st => Some (id, with_status now st)
  | CUpdateProgress id p => Some (id, set_j_Progress p)
  | CSetResult id r => if raw_ok r then Some (id, set_j_Result r) else None
  | CSetError id e => Some (id, set_j_Error e)
  | CCreate _ | CGet _ | CUpdate _ | CDelete _ => None
  end.

(** The job after the change can be printed, and is under its identifier. *)
Lemma rewrites_keeps c id f j : rewrites c = Some (id, f) → call_ok c = true →
  storable_Job j = true → stored_Job j = j →
  storable_Job (f j) = true ∧ stored_Job (f j) = f j ∧ j_ID (f j) = j_ID j.
Proof.
  intros Hc Hok Hs (?&?&?&?)%stored_fixed.
  destruct c as [| | | |now i st|i p|i r|i e]; simpl in Hc, Hok; simplify_eq.
  - destruct (with_status_fields now st j) as (?&?&?&?&?).
    split_and!; [by apply storable_with_status|apply fixed_stored; congruence|done].
  - split_and!; [by rewrite storable_set_progress|by apply fixed_stored|done].
  - destruct (raw_ok r) eqn:Hr; simplify_eq.
    split_and!; [by rewrite storable_set_result|by apply fixed_stored|done].
  - split_and!; [done|by apply fixed_stored|done].
Qed.

Section overwriting.
Context `{Environment}.

(** The moment at which the first message that is not lost arrives; without
    losses it is the next one. *)
Definition first_arrival (s : Shared) (x : moment) : Prop :=
  rtc passes (here s) x ∧ (sh_sent s < x.1)%nat ∧
  ∀ i, (sh_sent s ≤ i)%nat → (S i < x.1)%nat → is_Some (lost_at i).

Lemma first_arrival_next s x : lost_at (sh_sent s) = None → first_arrival s x →
  x = (S (sh_sent s), others_at (sh_sent s) (sh_db s)).
Proof.
  intros Hl (Hr & Hlt & Hall). apply rtc_inv in Hr as [<-|(y & Hy & Hr)]; [simpl in Hlt; lia|].
  unfold passes in Hy. simpl in Hy. apply rtc_inv in Hr as [->|(z & Hz & Hr)]; [done|].
  unfold passes in Hz. pose proof (passes_agree_le _ _ Hr) as [_ Hle]. subst y z. simpl in Hle.
  destruct (Hall (sh_sent s)) as [f Hf]; [lia|lia|congruence].
Qed.

(** A command that succeeds, changing nothing if it only reads, does so at the
    last of its messages. *)
Lemma send_Ok {A} tries (m : M DB A) s a s' : send tries m s = (Ok a, s') →
  ∃ d, m d = (Ok a, sh_db s').
Proof.
  revert s. induction tries as [tries IH] using lt_wf_ind; intros s Hs.
  destruct (send_cases tries m s) as [E|[(e & d' & _ & _ & E)|[(e & n & _ & -> & E)|(e & n & _ & _ & -> & E)]]];
    rewrite E in Hs; [|done|by eapply IH; [|exact Hs]; lia..].
  eexists. rewrite (surjective_pairing (m _)). injection Hs as Hr <-. rewrite Hr. done.
Qed.

Lemma send_read_Ok {A} tries (m : M DB A) s a s' : (∀ d, (m d).2 = d) →
  send tries m s = (Ok a, s') → first_arrival s (here s') ∧ m (sh_db s') = (Ok a, sh_db s').
Proof.
  intros Hm. revert s. induction tries as [tries IH] using lt_wf_ind; intros s Hs.
  set (d := others_at (sh_sent s) (sh_db s)).
  assert (Hd : rtc passes (here s) (S (sh_sent s), d)) by by apply rtc_once.
  assert (Hnext : ∀ n, (n < tries)%nat → is_Some (lost_at (sh_sent s)) →
    send n m (mkShared d (S (sh_sent s))) = (Ok a, s') →
    first_arrival s (here s') ∧ m (sh_db s') = (Ok a, sh_db s')).
  { intros n Hn Hl Hs'. destruct (IH n Hn _ Hs') as [(H1 & H2 & H3) H4]. simpl in H2, H3. split; [|done].
    split; [by etransitivity|]. split; [simpl; lia|]. intros i Hi Hi'.
    destruct (decide (i = sh_sent s)) as [->|Hne]; [done|]. apply H3; [lia|done]. }
  destruct (send_cases tries m s) as [E|[(e & d' & _ & _ & E)|[(e & n & Hl & -> & E)|(e & n & Hl & _ & -> & E)]]];
    rewrite E in Hs; fold d in Hs; rewrite ?Hm in Hs.
  - injection Hs as Hr <-. simpl. split; [|rewrite (surjective_pairing (m d)), Hm, Hr; done].
    split; [done|]. split; [simpl; lia|]. simpl. intros i Hi Hi'. lia.
  - done.
  - by apply (Hnext n); [lia|eexists|].
  - by apply (Hnext n); [lia|eexists|].
Qed.

Lemma wrap_Ok {St A} msg (m : M St A) s a s' : wrap_err msg m s = (Ok a, s') → m s = (Ok a, s').
Proof. unfold wrap_err. by destruct (m s) as [[] ?]. Qed.

Lemma bind_inv {St A B} (m : M St A) (k : A → M St B) s b s' : (m ≫= k) s = (Ok b, s') →
  ∃ a s1, m s = (Ok a, s1) ∧ k a s1 = (Ok b, s').
Proof. unfold mbind, M_bind. destruct (m s) as [[a|e|w] s1]; [eauto|done..]. Qed.

Lemma GET_reads k d : (GET (R := DB) k d).2 = d.
Proof. simpl. unfold at_key, get, mbind, M_bind. simpl. by destruct (d !! k) as [[]|]. Qed.

Lemma Get_finds id s j s1 : Get id s = (Ok j, s1) → (∀ x, first_arrival s x → jobs_ok x.2) →
  first_arrival s (here s1) ∧ jobs_of (sh_db s1) id = Some j.
Proof.
  unfold Get. case_bool_decide; [done|]. intros (data & s2 & Hg & Hu)%bind_inv Hok.
  apply wrap_Ok, (send_read_Ok _ (GET (R := DB) (keyPrefixJob +:+ id))) in Hg as [Hfa Hg]; [|apply GET_reads].
  unfold jobs_of. simpl in Hg. unfold at_key, get, mbind, M_bind in Hg. simpl in Hg.
  destruct (sh_db s2 !! _) as [[v|v|v|v]|] eqn:Ev; try done; unfold mret, M_ret in Hg; injection Hg as <-; [|done].
  unfold unmarshal in Hu. destruct (Unmarshal v) eqn:Euv; [|done]. injection Hu as -> ->.
  split; [done|]. by rewrite Ev.
Qed.

Lemma Update_writes j s u s1 : Update j s = (Ok u, s1) → storable_Job j = true →
  jobs_of (sh_db s1) (j_ID j) = Some (stored_Job j).
Proof.
  unfold Update. case_bool_decide; [done|]. intros (n & s2 & _ & Hu)%bind_inv Hs.
  destruct (n =? 0); [done|]. apply bind_inv in Hu as (data & s3 & Hm & Hset).
  apply wrap_Ok, send_Ok in Hset as [d Hset]. simpl in Hset. injection Hset as _ <-.
  unfold marshal in Hm. destruct (Unmarshal_Marshal j) as (data' & Hd & Hu); [done|]. rewrite Hd in Hm.
  injection Hm as <- _. rewrite jobs_of_insert. unfold put_job. by rewrite bool_decide_true.
Qed.

(** C24. An update by [UpdateStatus], [UpdateProgress], [SetResult] or [SetError]
    that succeeds leaves the job as it was when the call read it (at the first
    of its messages that is not lost), with this one change: whatever other
    clients did to the job between the read and the write is lost, a cancellation
    or a deletion included. *)
Theorem redis_update_overwrites c id f s a :
  rewrites c = Some (id, f) → call_ok c = true →
  (∀ x, first_arrival s x → jobs_ok x.2) → (job_call_run c s).1 = Ok a →
  ∃ x j, first_arrival s x ∧ jobs_of x.2 id = Some j ∧
    jobs_of (sh_db (job_call_run c s).2) id = Some (f j).
Proof.
  intros Hc Hok Hd Hr. destruct (job_call_run c s) as [r s'] eqn:E. simpl in *. subst r.
  assert (∃ u, (j ← Get id; Update (f j)) s = (Ok u, s')) as [u Hu].
  { destruct c; simpl in Hc, E; try destruct (raw_ok _); simplify_eq;
      apply bind_inv in E as (u & s1 & Hu & [= <- <-]); by exists u. }
  apply bind_inv in Hu as (j & s1 & Hg & Hu). apply Get_finds in Hg as [Hfa Hg]; [|done].
  exists (here s1), j. split_and!; [done|done|].
  destruct (jobs_of_Some _ _ _ (Hd _ Hfa) Hg) as (_ & _ & _ & Hs & Hst & Hid).
  destruct (rewrites_keeps c id f j Hc Hok Hs Hst) as (Hs' & Hst' & Hid').
  apply Update_writes in Hu; [|done]. by rewrite Hst', Hid', Hid in Hu.
Qed.
End overwriting.

(** ** What a lost reply loses *)

(** The script of [Dequeue] takes out the first member. *)
Lemma pop_step q d x v l : typed d → sorted_set (members_of d q) = (x, v) :: l →
  ∃ d', pop_script (keyQueueZSet +:+ q) d = (Ok (Some x), d') ∧ typed d' ∧
    sorted_set (members_of d' q) = l.
Proof.
  intros Hd E. pose proof (safe_pop_script (keyQueueZSet +:+ q) (kind_zset q) d Hd) as [Hd' _].
  rewrite pop_reference in * by done. unfold next_job in *. rewrite E in *. cbn [fst fmap list_fmap head snd] in *.
  eexists. split; [reflexivity|]. split; [done|].
  destruct (put_members d q (delete x (members_of d q))) as [Hm _]. specialize (Hm q). simpl in Hm.
  rewrite bool_decide_true in Hm by done. rewrite Hm. by eapply sorted_set_tail.
Qed.

(** A lost reply loses a job. When the reply to [Dequeue]'s script is lost on
    the network and the client library sends the script again, as it does by
    default, the call takes two jobs out of the queue and returns the second:
    the first is in no queue, and no worker has been told of it. Here no other
    client is there, and the two first jobs of the queue are any. *)
Theorem redis_lost_reply_loses_a_job `{Environment} q w s e x1 v1 x2 v2 l :
  (∀ n d, others_at n d = d) → max_retries ≠ 0%nat →
  lost_at (sh_sent s) = None → lost_at (1 + sh_sent s) = Some (LostReply e) →
  resends (1 + sh_sent s) = true → lost_at (2 + sh_sent s) = None →
  typed (sh_db s) → q ≠ "" → w ≠ "" → paused_of (sh_db s) q = false →
  sorted_set (members_of (sh_db s) q) = (x1, v1) :: (x2, v2) :: l →
  ∃ s', Dequeue q w s = (Ok x2, s') ∧ sorted_set (members_of (sh_db s') q) = l.
Proof.
  intros Ho Hm H0 H1 Hr H2 Hd Hq Hw Hp E.
  destruct (pop_step q (sh_db s) x1 v1 _ Hd E) as (d1 & Hpop1 & Hd1 & E1).
  destruct (pop_step q d1 x2 v2 _ Hd1 E1) as (d2 & Hpop2 & _ & E2).
  assert (Hpause : IsQueuePaused q s = (Ok false, mkShared (sh_db s) (1 + sh_sent s))).
  { pose proof (IsQueuePaused_reference q (sh_db s) Hq) as Hi. rewrite Hp in Hi. revert Hi.
    unfold IsQueuePaused, wrap_err, mbind, M_bind. rewrite bool_decide_false by done. simpl.
    unfold command. destruct max_retries as [|tries]; [done|]. simpl. rewrite H0, Ho. simpl.
    intros [= Hb]. by rewrite Hb. }
  exists (mkShared d2 (3 + sh_sent s)). split; [|done].
  unfold Dequeue. rewrite !bool_decide_false by done. cbn [orb].
  rewrite (bind_Ok _ _ _ _ _ Hpause). unfold wrap_err, mbind, M_bind. cbn [EVAL over_network].
  unfold command. destruct max_retries as [|tries]; [done|]. cbn [send sh_sent sh_db].
  rewrite H1, Hr, Ho, Hpop1. cbn [fst snd]. destruct tries; cbn [send sh_sent sh_db];
    change (1 + (1 + sh_sent s))%nat with (2 + sh_sent s)%nat; by rewrite H2, Ho, Hpop2.
Qed.

(** ** Witnesses *)

(** Another client adds a job to the queue before the script runs. *)
Definition busy : Environment := {|
  others_at n d := if (n =? 1)%nat then <[keyQueueZSet +:+ "mail" := RZSet {[ "late" := 5 ]}]> d else d;
  lost_at _ := None;
  resends _ := true;
  max_retries := 3;
|}.


(** A client cancels the job after a worker has read it. *)
Definition cancelled (d : DB) : DB := (UpdateStatus (λ _, 8) "mail-1" StatusCancelled d).2.

Definition cancelling : Environment := {|
  others_at n d := if (n =? 2)%nat then cancelled d else d;
  lost_at _ := None;
  resends _ := true;
  max_retries := 3;
|}.

Lemma with_status_sets now status j : j_Status (with_status now status j) = status.
Proof. unfold with_status. by repeat case_match. Qed.

(** The worker's update, from its first command to its last. *)
Definition late_update : res (option Job) * Shared :=
  job_call_run (H := over_network (H := cancelling)) (CUpdateStatus 9 "mail-1" StatusRunning) (mkShared demo_db 0).

Lemma redis_update_overwrites_witness :
  (UpdateStatus (λ _, 8) "mail-1" StatusCancelled demo_db).1 = Ok tt ∧
  j_Status <$> jobs_of (cancelled demo_db) "mail-1" = Some StatusCancelled ∧
  late_update.1 = Ok None ∧ j_Status <$> jobs_of (sh_db late_update.2) "mail-1" = Some StatusRunning.
Proof.
  split; [vm_compute; reflexivity|]. split; [vm_compute; reflexivity|].
  assert (Hr : late_update.1 = Ok None) by (vm_compute; reflexivity). split; [exact Hr|].
  destruct (redis_update_overwrites (H := cancelling) (CUpdateStatus 9 "mail-1" StatusRunning) "mail-1"
    (with_status 9 StatusRunning) (mkShared demo_db 0) None) as (x & j & _ & _ & Hj');
    [reflexivity|reflexivity| |exact Hr|].
  { intros x ->%first_arrival_next; [exact demo_db_ok|reflexivity]. }
  unfold late_update. rewrite Hj'. simpl. f_equal. apply with_status_sets.
Defined.

(** ** A method of two writes *)

(** The second command of [Register] is lost. *)
Definition half_lost : Environment := {|
  others_at _ d := d;
  lost_at n := if (n =? 1)%nat then Some (LostRequest (Errorf "context deadline exceeded")) else None;
  resends _ := false;
  max_retries := 3;
|}.

Definition half_registered : res unit * Shared :=
  RedisWorker.Register (H := over_network (H := half_lost))
    (mkWorker "w1" "host" None None None 0 0 WorkerStatusIdle ["mail"] 4 ∅ "1.0") (mkShared ∅ 0).

(** A registration that fails half-way leaves a worker that [Get] finds and [List]
    does not: [Register] is not among the calls that happen at one moment. *)
Lemma register_can_be_half_done :
  failed half_registered.1 ∧ (RedisWorker.List (sh_db half_registered.2)).1 = Ok [] ∧
  ∃ w, (RedisWorker.Get "w1" (sh_db half_registered.2)).1 = Ok w ∧ w_ID w = "w1".
Proof.
  split; [by eexists; vm_compute|]. split; [by vm_compute|].
  destruct (RedisWorker.Get "w1" (sh_db half_registered.2)).1 as [w|e|p] eqn:E.
  - exists w. split; [done|]. apply (f_equal (λ r, if r is Ok w then w_ID w else "")) in E. simpl in E.
    rewrite <- E. by vm_compute.
  - apply (f_equal (λ r, if r is Ok _ then true else false)) in E. vm_compute in E. discriminate.
  - apply (f_equal (λ r, if r is Ok _ then true else false)) in E. vm_compute in E. discriminate.
Qed.

(** ** A reply that is lost *)

(** The reply to the n-th message is lost, and the command is sent again. *)
Definition reply_lost (n : nat) : Environment := {|
  others_at _ d := d;
  lost_at i := if (i =? n)%nat then Some (LostReply (Errorf "i/o timeout")) else None;
  resends _ := true;
  max_retries := 3;
|}.

Lemma redis_lost_reply_loses_a_job_witness :
  ∃ s', Dequeue (H := over_network (H := reply_lost 1)) "mail" "w1" (mkShared demo_queue 0) = (Ok "a", s') ∧
    sorted_set (members_of (sh_db s') "mail") = [].
Proof.
  apply (redis_lost_reply_loses_a_job (H := reply_lost 1) "mail" "w1" (mkShared demo_queue 0)
    (Errorf "i/o timeout") "b" (score 10 (unix_epoch + Second)) "a" (score 0 unix_epoch) []);
    [reflexivity|discriminate|reflexivity|reflexivity|reflexivity|reflexivity|exact demo_queue_typed
    |discriminate|discriminate|vm_compute; reflexivity|vm_compute; reflexivity].
Defined.

(** A [Create] whose reply is lost stores the job and reports that it exists. *)
Example resent_create_reports_duplicate :
  let r := Create (H := over_network (H := reply_lost 0)) demo_job (mkShared ∅ 0) in
  r.1 = Err ErrJobAlreadyExists ∧ sh_db r.2 = demo_db.
Proof. by vm_compute. Qed.
