(* ===== verification/PostgresManager.v ===== *)
(** * The manager over the PostgreSQL backend

    The methods of the PostgreSQL backend have the names and the arguments that
    the manager calls: they are an instance of the storage interface. The
    backend does not keep the contract of the in-memory store (times are
    rounded, documents normalised, an entry is replaced), so that what the
    manager promises over it is proved anew, on the tables, and carried to a
    server by refinement. *)

From S2P Require Import Prelude Errors GoMonad Job Json JobJson Postgres PostgresInv PostgresJobs.
From S2P Require Import Storage World ManagerProps.
From S2P Require PostgresStore PostgresQueue PostgresWorker PostgresMetrics PostgresConfigs PostgresQueueProps.
From S2P Require Import Manager.

(** ** The instance *)

(** [SaveQueueConfig] reads the clock for columns that nothing reads, which the
    interface leaves out: the readings are an argument here. *)
Definition PostgresStorage `{Postgres R} `{PgValues} (saved : Clock) : Storage R := {|
  st_CreateJob := PostgresStore.CreateJob;
  st_GetJob := PostgresStore.GetJob;
  st_UpdateJob := PostgresStore.UpdateJob;
  st_DeleteJob := PostgresStore.DeleteJob;
  st_ListJobs := PostgresStore.ListJobs;
  st_UpdateStatus := PostgresStore.UpdateStatus;
  st_UpdateProgress := PostgresStore.UpdateProgress;
  st_SetResult := PostgresStore.SetResult;
  st_SetError := PostgresStore.SetError;
  st_Enqueue := PostgresQueue.Enqueue;
  st_Dequeue := PostgresQueue.Dequeue;
  st_Requeue := PostgresQueue.Requeue;
  st_Remove := PostgresQueue.Remove;
  st_Length := PostgresQueue.Length;
  st_Peek := PostgresQueue.Peek;
  st_GetScheduled := PostgresQueue.GetScheduled;
  st_PauseQueue := PostgresQueue.PauseQueue;
  st_ResumeQueue := PostgresQueue.ResumeQueue;
  st_IsQueuePaused := PostgresQueue.IsQueuePaused;
  st_RegisterWorker w := PostgresWorker.RegisterWorker w ∅;
  st_UnregisterWorker := PostgresWorker.UnregisterWorker;
  st_UpdateHeartbeat := PostgresWorker.UpdateHeartbeat;
  st_UpdateWorkerStatus := PostgresWorker.UpdateWorkerStatus;
  st_SetCurrentJob := PostgresWorker.SetCurrentJob;
  st_IncrementProcessed := PostgresWorker.IncrementProcessed;
  st_IncrementFailed := PostgresWorker.IncrementFailed;
  st_ListWorkers q := l ← PostgresWorker.ListWorkers q; mret l.*1;
  st_GetWorker id := w ← PostgresWorker.GetWorker id; mret w.1;
  st_RecordJobCreated := PostgresMetrics.RecordJobCreated;
  st_RecordJobCompleted := PostgresMetrics.RecordJobCompleted;
  st_RecordJobFailed := PostgresMetrics.RecordJobFailed;
  st_RecordJobRetried := PostgresMetrics.RecordJobRetried;
  st_GetQueueStats := PostgresMetrics.GetQueueStats;
  st_GetQueueStatsAll := PostgresMetrics.GetQueueStatsAll;
  st_SaveQueueConfig c := PostgresMetrics.SaveQueueConfig saved c ∅;
  st_GetQueueConfig q := c ← PostgresMetrics.GetQueueConfig q; mret c.1;
  st_DeleteQueueConfig := PostgresMetrics.DeleteQueueConfig;
  st_ListQueueConfigs := l ← PostgresMetrics.ListQueueConfigs; mret l.*1;
|}.

(** ** A manager over a server does what the manager over its tables does *)

Section refinement.
Context `{PostgresLaws R} `{Runtime}.

Definition world_tables (w : World R) : World DB :=
  mkWorld (data (wo_store w)) (wo_configs w) (wo_tick w) (wo_rand w).

Lemma refines_use {A} (m : M R A) f : refines data m f → refines world_tables (use m) (use f).
Proof. intros Hm w. unfold use. simpl. by rewrite (Hm (wo_store w)). Qed.

Lemma refines_call {A} (m : Clock → M R A) f :
  (∀ clk, refines data (m clk) (f clk)) → refines world_tables (call m) (call f).
Proof. intros Hm w. unfold call. simpl. by rewrite (Hm _ (wo_store w)). Qed.

Lemma refines_get_configs : refines world_tables get_configs get_configs.
Proof. by intros w. Qed.

Lemma refines_put_config q c : refines world_tables (put_config q c) (put_config q c).
Proof. by intros w. Qed.

Lemma refines_Now : refines world_tables Now Now.
Proof. by intros w. Qed.

Lemma refines_Intn n : refines world_tables (Intn n) (Intn n).
Proof. intros w. unfold Intn. by destruct (0 <? n). Qed.

Lemma refines_warn {A} (m : M (World R) A) f :
  refines world_tables m f → refines world_tables (warn m) (warn f).
Proof. intros Hm. unfold warn. solve_refines. Qed.

End refinement.

#[export] Hint Resolve refines_use refines_get_configs refines_put_config refines_Now refines_Intn : refinement.
(** The method of the manager does the same on both, call by call. *)
Ltac solve_manager := repeat first
  [ progress (eauto 2 with refinement)
  | apply refines_bind; [|intros ?]
  | apply refines_wrap_err
  | apply refines_attempt
  | apply refines_warn
  | apply refines_use; simpl
  | apply refines_call; intros ?; simpl
  | case_match ].

Section manager.
Context `{PostgresLaws R} `{PgValues} `{Runtime} `{MapRange} (saved : Clock).

#[local] Instance on_server : Storage R := PostgresStorage saved.
#[local] Instance on_tables : Storage DB := PostgresStorage saved.

#[local] Hint Resolve PostgresStore.pg_CreateJob PostgresStore.pg_GetJob PostgresQueue.pg_Enqueue
  PostgresQueue.pg_Dequeue PostgresQueue.pg_Length PostgresQueue.pg_IsQueuePaused
  PostgresMetrics.pg_RecordJobCreated PostgresMetrics.pg_SaveQueueConfig PostgresMetrics.pg_GetQueueConfig
  : refinement.

Lemma refines_RegisterQueue c : refines world_tables (RegisterQueue c) (RegisterQueue c).
Proof. unfold RegisterQueue. solve_manager. Qed.

Lemma refines_GetQueueConfig q : refines world_tables (GetQueueConfig q) (GetQueueConfig q).
Proof. unfold GetQueueConfig. solve_manager. Qed.
#[local] Hint Resolve refines_RegisterQueue refines_GetQueueConfig : refinement.

Lemma refines_manager_Enqueue j : refines world_tables (Enqueue j) (Enqueue j).
Proof. unfold Enqueue, ensure_config, enqueue_delay. solve_manager. Qed.

Lemma refines_gather configs qs : refines world_tables (gather configs qs) (gather configs qs).
Proof. induction qs as [|q qs IH]; simpl; solve_manager. Qed.
#[local] Hint Resolve refines_gather : refinement.

Lemma refines_selectQueue qs : refines world_tables (selectQueue qs) (selectQueue qs).
Proof. unfold selectQueue. solve_manager. Qed.

Lemma refines_try_others q qs e : refines world_tables (try_others q qs e) (try_others q qs e).
Proof. revert e. induction qs as [|q' qs IH]; intros e; simpl; solve_manager. Qed.
#[local] Hint Resolve refines_selectQueue refines_try_others : refinement.

Lemma refines_manager_Dequeue qs : refines world_tables (Dequeue qs) (Dequeue qs).
Proof. unfold Dequeue. solve_manager. Qed.
End manager.

(** ** On the tables *)

Section tables.
Context `{PgValuesLaws} `{Runtime} `{MapRange} (saved : Clock).

#[local] Instance tables_storage : Storage DB := PostgresStorage saved.
Implicit Types (w : World DB) (d : DB).

(** The configuration that [Enqueue] finds or makes. *)
Definition config_for (configs : gmap string QueueConfig) (q : string) : QueueConfig :=
  default (auto_config q) (configs !! q).

(** A queue is known to the manager, or its configuration can be saved. *)
Definition registrable (w : World DB) (q : string) : Prop :=
  wo_configs w !! q = None →
    queue_configs (wo_store w) !! q = None ∧ PostgresConfigs.config_fits (auto_config q) ∅ = true.

Definition no_entries (q : string) d : Prop := ∀ id, queues d !! (q, id) = None.

(** The tables of the jobs and of the queues are those of [d]. *)
Definition same_tables d w' : Prop :=
  tables_ok (wo_store w') ∧ jobs (wo_store w') = jobs d ∧ queues (wo_store w') = queues d ∧
  paused_queues (wo_store w') = paused_queues d.

Lemma wp_use_eq {A} (op : M DB A) w r d' (Q : res A → World DB → Prop) : op (wo_store w) = (r, d') →
  Q r (mkWorld d' (wo_configs w) (wo_tick w) (wo_rand w)) → wp (use op) w Q.
Proof. unfold wp, use, set_wo_store. by intros ->. Qed.

Lemma wp_call_eq {A} (op : Clock → M DB A) w r d' (Q : res A → World DB → Prop) :
  op (λ i, rt_now (wo_tick w + i)) (wo_store w) = (r, d') →
  Q r (mkWorld d' (wo_configs w) (wo_tick w + 2) (wo_rand w)) → wp (World.call op) w Q.
Proof. unfold wp, World.call. by intros ->. Qed.

(** *** The methods of the backend *)

Lemma CreateJob_ok j d sched : fits j = true → j_ScheduledAt j = Some sched → jobs d !! j_ID j = None →
  ∃ p m, PostgresStore.CreateJob j d = (Ok tt, set_jobs (<[j_ID j := new_row j p m sched]> (jobs d)) d) ∧
    job_of_row (new_row j p m sched) = Some (stored_as "" "" None None (timestamp (j_CreatedAt j)) j).
Proof.
  intros Hf Hs Hn. destruct (fits_docs j Hf) as (v & t & t' & sched' & Hv & Ht & Hr & Hm & Hrm & Hs').
  assert (sched' = sched) as -> by congruence. exists t, t'. split.
  - unfold PostgresStore.CreateJob, PostgresStore.marshal_raw, Query, Postgres.tables, atomically, attempt,
      mbind, M_bind. rewrite Hv. simpl. by rewrite (run_INSERT_job _ _ _ _ _ _ _ Hf Ht Hm Hs), Hn.
  - unfold job_of_row, stored_as, new_row. simpl. by rewrite Hrm, Hr, Hs.
Qed.

Lemma GetJob_ok id j d : tables_ok d → text_ok id = true → jobs_of d id = Some j →
  PostgresStore.GetJob id d = (Ok j, d).
Proof.
  intros Hd Hid Hj. destruct (implements_Get id d Hd Hid) as (d' & Hr & _). simpl in Hr. rewrite Hj in Hr.
  unfold jobs_of in Hj. destruct (jobs d !! id) as [r|] eqn:E; [|done].
  destruct (GetJob_reads id r d Hd E) as (j0 & Hg & _). unfold mbind, M_bind in Hr. rewrite Hg in Hr.
  by injection Hr as -> _.
Qed.

Lemma Length_ok q d : text_ok q = true →
  PostgresQueue.Length q d = (Ok (Z.of_nat (length (PostgresQueue.entries q d))), d).
Proof.
  intros Hq. apply wrap_err_Ok, PostgresQueueProps.Query_Ok. unfold PostgresQueue.SELECT_count.
  by rewrite bind_texts by (by repeat constructor).
Qed.

Lemma RecordJobCreated_frame q t d : ∃ r x, PostgresMetrics.RecordJobCreated q t d = (r, set_metrics x d) ∧
  is_Panic r = false.
Proof.
  assert (Hd : d = set_metrics (metrics d) d) by by destruct d.
  unfold PostgresMetrics.RecordJobCreated, PostgresMetrics.INSERT_event, wrap_err, Query, Postgres.tables, atomically,
    PostgresStore.texts, PostgresStore.varchar, mbind, M_bind.
  destruct (forallb _ _); [|eexists _, (metrics d); by rewrite <- Hd].
  destruct (as_varchar 255 q); [|eexists _, (metrics d); by rewrite <- Hd].
  destruct (as_varchar 255 t); [|eexists _, (metrics d); by rewrite <- Hd]. by eexists _, _.
Qed.

(** *** Enqueueing *)

Lemma wp_pg_ensure_config q w (Q : res QueueConfig → World DB → Prop) :
  tables_ok (wo_store w) → registrable w q → q ≠ "" →
  (∀ w', same_tables (wo_store w) w' → wo_configs w' = <[q := config_for (wo_configs w) q]> (wo_configs w) →
    (wo_tick w ≤ wo_tick w')%nat → Q (Ok (config_for (wo_configs w) q)) w') →
  wp (ensure_config q) w Q.
Proof.
  unfold registrable, config_for. intros Hd Hreg Hq HQ. unfold ensure_config.
  apply wp_bind, wp_attempt. unfold GetQueueConfig. apply wp_bind, wp_get_configs.
  destruct (wo_configs w !! q) as [c|] eqn:E.
  - apply wp_ret, wp_ret, HQ; [by split|by rewrite insert_id|done].
  - destruct (Hreg eq_refl) as [Hc Hf]. pose proof Hf as Ht. unfold PostgresConfigs.config_fits in Ht.
    rewrite !andb_true_iff in Ht. destruct Ht as [[[[Ht _] _] _] _]. apply fits_text_ok in Ht.
    assert (Hg : st_GetQueueConfig q (wo_store w) = (Err (PostgresMetrics.not_found q), wo_store w)).
    { simpl. unfold PostgresMetrics.GetQueueConfig, PostgresMetrics.SELECT_config, wrap_err, Query, Postgres.tables,
        atomically, mbind, M_bind. rewrite texts_ok by (by repeat constructor). simpl. by rewrite Hc. }
    apply wp_bind, wp_attempt. eapply wp_use_eq; [exact Hg|]. apply wp_throw.
    unfold RegisterQueue. rewrite bool_decide_false by done. rewrite set_defaults_auto.
    destruct (PostgresConfigs.SaveQueueConfig_ok saved (auto_config q) ∅ (wo_store w) Hf) as (r & Hs & _).
    pose proof (kept_run (CSaveQueueConfig saved (auto_config q) ∅) _ Hd) as Hk. simpl in Hk. rewrite Hs in Hk.
    apply wp_bind, wp_wrap. eapply wp_use_eq; [exact Hs|]. apply wp_bind, HQ; [by split|done|done].
Qed.

Lemma wp_now w (Q : res Time → World DB → Prop) :
  Q (Ok (now_of w)) (mkWorld (wo_store w) (wo_configs w) (wo_tick w + 1) (wo_rand w)) → wp Now w Q.
Proof. done. Qed.

(** What [CreateJob] makes of a job that is read back. *)
Definition stored_new (j : Job) : Job := stored_as "" "" None None (timestamp (j_CreatedAt j)) j.

(** The tables after the job [j], due at [t], is stored and waits. *)
Definition now_waits (j : Job) (t : Time) d w' : Prop :=
  tables_ok (wo_store w') ∧ jobs_of (wo_store w') (j_ID j) = Some (stored_new j) ∧
  queues (wo_store w') = <[(j_Queue j, j_ID j) := mkQueueRow (j_Priority j) (timestamp t)]> (queues d) ∧
  paused_queues (wo_store w') = paused_queues d.

(** A job that is due is enqueued without a delay. *)
Lemma wp_due_delay j t w (Q : res Duration → World DB → Prop) : j_ScheduledAt j = Some t → t ≤ now_of w →
  Q (Ok 0) (mkWorld (wo_store w) (wo_configs w) (wo_tick w + 1) (wo_rand w)) → wp (enqueue_delay j) w Q.
Proof.
  intros Hs Ht HQ. unfold enqueue_delay. apply wp_bind, wp_now. rewrite Hs. unfold After.
  rewrite (proj2 (Z.ltb_ge _ _) Ht). by apply wp_ret.
Qed.

(** [Enqueue] after the lookup of the configuration. *)
Definition store_and_enqueue (j : Job) : M (World DB) Job :=
  wrap_err "failed to create job" (use (st_CreateJob j)) ;;
  delay ← enqueue_delay j;
  wrap_err "failed to enqueue job"
    (World.call (λ clk, st_Enqueue clk (j_Queue j) (j_ID j) (j_Priority j) delay)) ;;
  warn (use (st_RecordJobCreated (j_Queue j) (j_Type j))) ;;
  mret j.

Lemma fits_names j : fits j = true →
  text_ok (j_ID j) = true ∧ text_ok (j_Queue j) = true ∧
  ∀ now (delay : Duration), PostgresQueueProps.queue_call_fits
    (PostgresQueueProps.QEnqueue now (j_Queue j) (j_ID j) (j_Priority j) delay) = true.
Proof.
  unfold fits. rewrite !andb_true_iff. intros [[[[[[[Hi _] Hq] _] Hn] _] _] _]. simpl in Hn.
  split_and!; [by eapply fits_text_ok..|]. intros now delay. simpl. rewrite Hq, Hi. simpl.
  by destruct (int4 (j_Priority j)).
Qed.

Lemma wp_store_and_enqueue j t w (Q : res Job → World DB → Prop) :
  tables_ok (wo_store w) → fits j = true → jobs (wo_store w) !! j_ID j = None →
  j_ScheduledAt j = Some t → t ≤ now_of w →
  (∀ w' t', now_waits j t' (wo_store w) w' → t' ≤ now_of w' → wo_configs w' = wo_configs w → Q (Ok j) w') →
  wp (store_and_enqueue j) w Q.
Proof.
  intros Hd Hf Hnew Hs Ht HQ. unfold store_and_enqueue.
  destruct (CreateJob_ok j (wo_store w) t Hf Hs Hnew) as (p & m & Hc & Hrow).
  pose proof (kept_run (CCreateJob j) _ Hd) as Hd1. simpl in Hd1. rewrite Hc in Hd1. simpl in Hd1.
  apply wp_bind, wp_wrap. eapply wp_use_eq; [exact Hc|].
  apply wp_bind. eapply wp_due_delay; [done|exact Ht|].
  destruct (fits_names j Hf) as (_ & _ & Hfit).
  set (d1 := set_jobs _ _) in *. set (now := rt_now (wo_tick w + 1)).
  pose proof (PostgresQueueProps.Enqueue_ok now (j_Queue j) (j_ID j) (j_Priority j) 0 d1 Hd1 (Hfit now 0)) as He.
  rewrite decide_True in He by (unfold d1; simpl; rewrite lookup_insert_eq; by eexists).
  pose proof (kept_run (CEnqueue (λ _, now) (j_Queue j) (j_ID j) (j_Priority j) 0) _ Hd1) as Hd2.
  cbn [run] in Hd2. rewrite He in Hd2. cbn [snd] in Hd2.
  assert (Hclk : PostgresQueue.Enqueue (λ i, rt_now (wo_tick w + 1 + i)) (j_Queue j) (j_ID j) (j_Priority j) 0 d1 =
    PostgresQueue.Enqueue (λ _, now) (j_Queue j) (j_ID j) (j_Priority j) 0 d1)
    by (unfold PostgresQueue.Enqueue; by rewrite Nat.add_0_r).
  apply wp_bind, wp_wrap. eapply wp_call_eq; [etransitivity; [exact Hclk|exact He]|].
  set (d2 := set_queues _ _) in *.
  destruct (RecordJobCreated_frame (j_Queue j) (j_Type j) d2) as (r & x & Hr & Hp).
  pose proof (kept_run (CRecordJobCreated (j_Queue j) (j_Type j)) _ Hd2) as Hd3. simpl in Hd3. rewrite Hr in Hd3.
  apply wp_bind, wp_warn. eapply wp_use_eq; [exact Hr|].
  destruct r as [a|e|why]; [| |done]; apply wp_ret, (HQ _ (Add now 0)); try done.
  all: try (unfold Add, now, now_of; rewrite Z.add_0_r; apply rt_now_mono; simpl; lia).
  all: split_and!; [done| |done|done]; unfold jobs_of; simpl; by rewrite lookup_insert_eq.
Qed.

Lemma wp_pg_Enqueue j t w (Q : res Job → World DB → Prop) :
  let q := j_Queue (default_queue j) in
  let j' := job_defaults (config_for (wo_configs w) q) (default_queue j) in
  tables_ok (wo_store w) → registrable w q → fits j' = true → jobs (wo_store w) !! j_ID j = None →
  j_ScheduledAt j = Some t → t ≤ now_of w →
  (∀ w' t', now_waits j' t' (wo_store w) w' → t' ≤ now_of w' →
    wo_configs w' = <[q := config_for (wo_configs w) q]> (wo_configs w) → Q (Ok j') w') →
  wp (Enqueue j) w Q.
Proof.
  intros q j' Hd Hreg Hf Hnew Hs Ht HQ. unfold Enqueue. fold q.
  apply wp_bind, wp_pg_ensure_config; [done..|apply default_queue_nonempty|].
  intros w1 (Hd1 & Hj1 & Hq1 & Hp1) Hc1 Ht1. fold j'.
  destruct (job_defaults_fields (config_for (wo_configs w) q) (default_queue j)) as (HI & _ & _ & _ & HS).
  destruct (default_queue_fields j) as (HI' & _ & HS').
  apply (wp_store_and_enqueue j' t); [done..|fold j' in HI; by rewrite HI, HI', Hj1| |etransitivity; [exact Ht|by apply now_of_mono]|].
  - fold j' in HS. congruence.
  - intros w' t' (Hd' & Hj' & Hq' & Hp') Ht' Hc'. apply (HQ _ t'); [|done|congruence].
    split_and!; [done..|by rewrite Hq', Hq1|congruence].
Qed.

(** *** Dequeueing *)

Lemma top_of_one c : 0 ≤ qc_priority c → top_candidates [c] = [c].
Proof.
  intros Hc. unfold top_candidates, max_priority. simpl. unfold PriorityLow.
  rewrite filter_cons. case_decide as H3; [done|]. exfalso. apply H3.
  destruct (Z.ltb_spec 0 (qc_priority c)); lia.
Qed.

(** A single queue of the manager, with entries and not paused. *)
Lemma wp_select_one q c w (Q : res string → World DB → Prop) : text_ok q = true →
  wo_configs w !! q = Some c → 0 ≤ c_Priority c → q ∉ paused_queues (wo_store w) →
  PostgresQueue.entries q (wo_store w) ≠ [] → Q (Ok q) w → wp (selectQueue [q]) w Q.
Proof.
  intros Hq Hc Hpr Hp He HQ. unfold selectQueue. apply wp_bind, wp_get_configs. simpl. rewrite Hc.
  apply wp_bind, wp_bind, wp_attempt.
  eapply wp_use_eq; [apply PostgresQueueProps.IsQueuePaused_ok, Hq|]. rewrite bool_decide_false by done.
  apply wp_bind, wp_attempt. eapply wp_use_eq; [apply Length_ok, Hq|].
  assert (Hz : (Z.of_nat (length (PostgresQueue.entries q (wo_store w))) =? 0) = false).
  { destruct (PostgresQueue.entries q (wo_store w)); [done|]. apply Z.eqb_neq. simpl. lia. }
  cbn [wo_store]. rewrite Hz. apply wp_bind, wp_ret, wp_ret. rewrite top_of_one by done. apply wp_ret. by destruct w.
Qed.

(** The only entry of a queue, when it is due. *)
Lemma wp_pg_Dequeue q id e j c w (Q : res Job → World DB → Prop) :
  tables_ok (wo_store w) → text_ok q = true → text_ok id = true → q ≠ "" →
  wo_configs w !! q = Some c → 0 ≤ c_Priority c → q ∉ paused_queues (wo_store w) →
  (∀ id', queues (wo_store w) !! (q, id') = if bool_decide (id' = id) then Some e else None) →
  qr_scheduled_for e ≤ timestamp (now_of w) → jobs_of (wo_store w) id = Some j →
  (∀ w', tables_ok (wo_store w') → no_entries q (wo_store w') → jobs_of (wo_store w') id = Some j →
    Q (Ok j) w') →
  wp (Dequeue [q]) w Q.
Proof.
  intros Hd Hq Hid Hne Hc Hpr Hp Hqs Hdue Hj HQ. unfold Dequeue. rewrite bool_decide_false by done.
  apply wp_bind. eapply wp_select_one; [done..| |].
  { intros E. assert (Hin : (id, e) ∈ PostgresQueue.entries q (wo_store w)).
    { apply PostgresQueueProps.elem_of_entries. by rewrite Hqs, bool_decide_true. }
    rewrite E in Hin. by apply elem_of_nil in Hin. }
  rewrite bool_decide_false by done. apply wp_bind, wp_attempt.
  destruct (PostgresQueueProps.Dequeue_ok (now_of w) q (wo_store w) Hd Hq Hp) as [[_ Hall]|(id' & Hde & r & Hr & _)].
  { specialize (Hall id e). rewrite Hqs, bool_decide_true in Hall by done. specialize (Hall eq_refl). lia. }
  rewrite Hqs in Hr. case_bool_decide as E; [subst id'|done].
  assert (Hclk : PostgresQueue.Dequeue (λ i, rt_now (wo_tick w + i)) q (wo_store w) =
    PostgresQueue.Dequeue (λ _, now_of w) q (wo_store w)).
  { unfold PostgresQueue.Dequeue, PostgresQueue.claim, now_of. by rewrite Nat.add_0_r. }
  pose proof (kept_run (CDequeue (λ _, now_of w) q) _ Hd) as Hd1. cbn [run] in Hd1.
  rewrite (bind_Ok _ _ _ _ _ Hde) in Hd1. cbn [snd] in Hd1.
  eapply wp_call_eq; [etransitivity; [exact Hclk|exact Hde]|]. apply wp_bind, wp_ret, wp_wrap.
  eapply wp_use_eq; [by apply (GetJob_ok id j)|]. apply HQ; [done| |done].
  intros id'. simpl. destruct (decide (id' = id)) as [->|Hneq]; [by rewrite lookup_delete_eq|].
  rewrite lookup_delete_ne by congruence. by rewrite Hqs, bool_decide_false.
Qed.
(** [Enqueue] of a job, and [Dequeue] on its queue. *)
Definition there_and_back {S} `{St : Storage S} (j : Job) : M (World S) Job :=
  j0 ← Enqueue j; Dequeue [j_Queue j0].

(** What a new job needs to come back at once. *)
Record comes_back (j : Job) w : Prop := {
  cb_tables : tables_ok (wo_store w);
  cb_fits : fits (job_defaults (config_for (wo_configs w) (j_Queue (default_queue j))) (default_queue j)) = true;
  cb_new : jobs (wo_store w) !! j_ID j = None;
  cb_empty : no_entries (j_Queue (default_queue j)) (wo_store w);
  cb_not_paused : j_Queue (default_queue j) ∉ paused_queues (wo_store w);
  cb_registrable : registrable w (j_Queue (default_queue j));
  cb_priority : 0 ≤ c_Priority (config_for (wo_configs w) (j_Queue (default_queue j)));
  cb_due : ∃ t, j_ScheduledAt j = Some t ∧ t ≤ now_of w;
}.

Lemma wp_there_and_back j w (Q : res Job → World DB → Prop) :
  let q := j_Queue (default_queue j) in
  let j' := job_defaults (config_for (wo_configs w) q) (default_queue j) in
  comes_back j w →
  (∀ w', tables_ok (wo_store w') → no_entries q (wo_store w') →
    jobs_of (wo_store w') (j_ID j) = Some (stored_new j') → text_ok (j_ID j) = true →
    Q (Ok (stored_new j')) w') →
  wp (there_and_back j) w Q.
Proof.
  intros q j' [Hd Hf Hnew Hempty Hnp Hreg Hpr (t & Hs & Ht)] HK. fold q in Hf, Hempty, Hnp, Hreg, Hpr. fold j' in Hf.
  set (c := config_for (wo_configs w) q) in *.
  destruct (job_defaults_fields c (default_queue j)) as (HI & HQ & _ & _ & _).
  fold j' in HI, HQ. rewrite (proj1 (default_queue_fields j)) in HI.
  destruct (fits_names j' Hf) as (Hti & Htq & _). rewrite HI in Hti. rewrite HQ in Htq. fold q in HQ, Htq.
  apply wp_bind. apply (wp_pg_Enqueue j t); [done..|]. fold q. fold c. fold j'.
  intros w' t' (Hd' & Hj' & Hq' & Hp') Ht' Hc'. rewrite HQ in Hq' |- *. rewrite HI in Hj', Hq'.
  eapply (wp_pg_Dequeue q (j_ID j) _ (stored_new j') c); try done.
  - apply default_queue_nonempty.
  - rewrite Hc'. apply lookup_insert_eq.
  - by rewrite Hp'.
  - intros id. rewrite Hq'. case_bool_decide as E; [subst; apply lookup_insert_eq|].
    rewrite lookup_insert_ne by congruence. apply Hempty.
  - simpl. by apply timestamp_mono.
  - intros w'' ? ? ?. by apply HK.
Qed.
End tables.

Lemma refines_there_and_back `{PostgresLaws R} `{PgValues} `{Runtime} `{MapRange} saved j :
  refines world_tables (there_and_back (S := R) (St := PostgresStorage saved) j)
    (there_and_back (St := PostgresStorage saved) j).
Proof.
  apply refines_bind; [apply refines_manager_Enqueue|]. intros j0. apply refines_manager_Dequeue.
Qed.

(** ** On a server *)

Section server.
Context `{PgValuesLaws} `{PostgresLaws R} `{Runtime} `{MapRange} (saved : Clock).

#[local] Instance server_storage : Storage R := PostgresStorage saved.

Abbreviation tables_of w := (data (wo_store w)).

(** C31. Over PostgreSQL an enqueued job comes back: a new job that the columns can
    hold and that is due, enqueued into a queue that is empty, not paused and of
    non-negative priority, known to the manager or not, is what the next
    [Dequeue] on its queue returns, as the tables keep it (times rounded,
    documents normalised, the fields without a column zero), and the queue is
    empty again while the job stays stored. *)
Theorem postgres_enqueue_dequeue_roundtrip j (w : World R) :
  let q := j_Queue (default_queue j) in
  let j' := job_defaults (config_for (wo_configs w) q) (default_queue j) in
  comes_back j (world_tables w) →
  ∃ w', (j0 ← Enqueue j; Dequeue [j_Queue j0]) w = (Ok (stored_new j'), w') ∧
    tables_ok (tables_of w') ∧ no_entries q (tables_of w') ∧
    jobs_of (tables_of w') (j_ID j) = Some (stored_new j').
Proof.
  intros q j' Hcb.
  cut (wp (there_and_back (St := PostgresStorage saved) j) (world_tables w) (λ r w', r = Ok (stored_new j') ∧
    tables_ok (wo_store w') ∧ no_entries q (wo_store w') ∧ jobs_of (wo_store w') (j_ID j) = Some (stored_new j'))).
  { unfold wp. rewrite (refines_there_and_back saved j w). simpl. intros (Hr & Hd' & He & Hj).
    exists (there_and_back (S := R) (St := PostgresStorage saved) j w).2. split; [|done].
    rewrite <- Hr. apply surjective_pairing. }
  by apply wp_there_and_back.
Qed.
End server.

(** ** A witness, on the server that is its tables *)

#[local] Existing Instance plain_values.
#[local] Existing Instance plain_values_laws.

#[local] Existing Instance demo_runtime.
#[local] Instance demo_range : MapRange := map_range_default.

(** Empty tables, and a manager that knows no queue. *)
Definition demo_world : World DB := mkWorld empty_db ∅ 10 0.

Lemma demo_comes_back : comes_back demo_job demo_world.
Proof.
  split.
  - exact tables_ok_empty.
  - vm_compute. reflexivity.
  - reflexivity.
  - intros id. reflexivity.
  - intros H. vm_compute in H. discriminate.
  - intros _. split; [reflexivity|]. vm_compute. reflexivity.
  - vm_compute. discriminate.
  - exists 5. split; [reflexivity|]. vm_compute. discriminate.
Qed.

Lemma postgres_enqueue_dequeue_roundtrip_witness : ∃ w' j',
  (j0 ← Enqueue (H := PostgresStorage (λ _, 0)) demo_job; Dequeue (H := PostgresStorage (λ _, 0)) [j_Queue j0])
    demo_world = (Ok j', w') ∧ j_ID j' = "mail-1" ∧ no_entries "mail" (wo_store w').
Proof.
  destruct (postgres_enqueue_dequeue_roundtrip (R := DB) (λ _, 0) demo_job demo_world)
    as (w' & Hr & _ & Hn & _); [exact demo_comes_back|].
  eexists w', _. split; [exact Hr|]. split; [reflexivity|exact Hn].
Defined.
