(* ===== verification/PostgresPool.v ===== *)
(** * The worker pool over the PostgreSQL backend

    The server refuses the statement of [UpdateStatus] (postgres.go:396), and
    [processJob] begins with it: what becomes of the jobs. *)

From S2P Require Import Prelude Errors GoMonad Job Json JobJson Postgres PostgresInv PostgresJobs.
From S2P Require Import Storage World ManagerProps.
From S2P Require PostgresStore.
From S2P Require Import Manager Pool PostgresManager.

(** ** [GetJob] only reads *)

Section tables.
Context `{PgValues}.

(** A call that leaves the tables, and does not panic. *)
Definition only_reads {A} (m : M DB A) : Prop := ∀ d, (m d).2 = d ∧ is_Panic (m d).1 = false.

Lemma only_reads_bind {A B} (m : M DB A) (k : A → M DB B) :
  only_reads m → (∀ a, only_reads (k a)) → only_reads (m ≫= k).
Proof.
  intros Hm Hk d. specialize (Hm d). unfold mbind, M_bind.
  destruct (m d) as [[a|e|p] d']; simpl in *; destruct Hm as [-> Hp]; [apply Hk|done|done].
Qed.

Lemma only_reads_ret {A} (a : A) : only_reads (mret a).
Proof. by intros d. Qed.

Lemma only_reads_throw {A} e : only_reads (throw (A:=A) e).
Proof. by intros d. Qed.

Lemma only_reads_unmarshal {A} (read : string → option A) msg s :
  only_reads (PostgresStore.unmarshal_with read msg s).
Proof. unfold PostgresStore.unmarshal_with. case_match; [apply only_reads_ret|apply only_reads_throw]. Qed.

Lemma only_reads_scan r : only_reads (PostgresStore.scan_job r).
Proof.
  unfold PostgresStore.scan_job. apply only_reads_bind; [apply only_reads_unmarshal|intros payload].
  apply only_reads_bind; [apply only_reads_unmarshal|intros metadata].
  apply only_reads_bind; [|intros result; apply only_reads_ret].
  destruct (jr_result r); [apply only_reads_unmarshal|apply only_reads_ret].
Qed.

Lemma only_reads_GetJob id : only_reads (PostgresStore.GetJob id).
Proof.
  unfold PostgresStore.GetJob. apply only_reads_bind.
  - intros d. unfold wrap_err, Query, Postgres.tables, atomically, PostgresStore.SELECT_job, PostgresStore.texts,
      mbind, M_bind. by destruct (forallb _ _).
  - intros [r|]; [apply only_reads_scan|apply only_reads_throw].
Qed.
End tables.

(** ** Jobs that are never run, on a server *)

Section server.
Context `{PgValuesLaws} `{PostgresLaws R} `{Runtime} `{MapRange} (saved : Clock).

#[local] Instance server_storage : Storage R := PostgresStorage saved.

Lemma server_UpdateStatus clk id st (s : R) : ∃ s',
  PostgresStore.UpdateStatus clk id st s =
    (Err (Wrapf "failed to update status" PostgresStore.inconsistent_types), s') ∧ data s' = data s.
Proof.
  destruct (refines_run _ _ _ _ _ _ (PostgresStore.pg_UpdateStatus clk id st)
    (UpdateStatus_refused clk id st (data s))) as [Hr Hd].
  exists (PostgresStore.UpdateStatus clk id st s).2. split; [|done]. rewrite <- Hr. apply surjective_pairing.
Qed.

Lemma server_GetJob id (s : R) : ∃ r s', PostgresStore.GetJob id s = (r, s') ∧ data s' = data s ∧
  is_Panic r = false.
Proof.
  destruct (only_reads_GetJob id (data s)) as [Hs Hp].
  destruct (refines_run _ _ _ _ _ _ (PostgresStore.pg_GetJob id)
    (surjective_pairing (PostgresStore.GetJob id (data s)))) as [Hr Hd].
  exists (PostgresStore.GetJob id s).1, (PostgresStore.GetJob id s).2.
  split; [apply surjective_pairing|]. split; [by rewrite Hd|]. rewrite Hr. done.
Qed.

(** No job is executed: the pool gives up before the handler. *)
Lemma processJob_gives_up j (w : World R) : ∃ w', data (wo_store w') = data (wo_store w) ∧
  ∀ handlers worker, processJob handlers worker j w = (Ok tt, w').
Proof.
  destruct (server_UpdateStatus (λ i, rt_now (wo_tick w + 1 + i)) (j_ID j) StatusRunning (wo_store w))
    as (s' & Hs & Hd).
  exists (mkWorld s' (wo_configs w) (wo_tick w + 1 + 2) (wo_rand w)). split; [done|]. intros handlers worker.
  unfold processJob, UpdateJobStatus, Now, attempt, call, mbind, M_bind.
  cbn [st_UpdateStatus server_storage PostgresStorage wo_store wo_tick]. by rewrite Hs.
Qed.

Lemma CancelJob_fails id (w : World R) : ∃ e w', CancelJob id w = (Err e, w') ∧
  data (wo_store w') = data (wo_store w).
Proof.
  cut (wp (CancelJob id) w (λ r w', (∃ e, r = Err e) ∧ data (wo_store w') = data (wo_store w))).
  { intros (r & w' & Hc & [e ->] & Hd)%wp_elim. by exists e, w'. }
  destruct (server_GetJob id (wo_store w)) as (r & s1 & Hg & Hd1 & Hp).
  unfold CancelJob. apply wp_bind. unfold wp at 1, use. cbn [st_GetJob server_storage PostgresStorage].
  rewrite Hg. cbn [fst snd]. destruct r as [j|e|p]; [|by split; [eexists|]|done].
  destruct (IsTerminal j); [apply wp_throw; by split; [eexists|]|].
  apply wp_bind. unfold wp at 1, call. cbn [st_UpdateStatus server_storage PostgresStorage].
  destruct (server_UpdateStatus (λ i, rt_now (wo_tick w + i)) id StatusCancelled s1) as (s2 & Hs & Hd2).
  cbn [set_wo_store wo_store wo_tick]. rewrite Hs. split; [by eexists|]. simpl. congruence.
Qed.

(** C32. Over PostgreSQL no job is ever executed: a new job that the columns can
    hold and that is due, enqueued into a queue that is empty, not paused and of
    non-negative priority, is what a worker that asks for a job of its queue
    gets; but [processJob] ends at once, without an error and in the same way
    whatever the handlers are, because the change of the status to RUNNING is
    refused. The job is left as it was stored, in no queue, so that no worker
    gets it again, and no job can be cancelled either. *)
Theorem postgres_jobs_never_run j (w : World R) :
  let q := j_Queue (default_queue j) in
  let j' := job_defaults (config_for (wo_configs w) q) (default_queue j) in
  comes_back j (world_tables w) →
  ∃ w1 w2, (j0 ← Enqueue j; Dequeue [j_Queue j0]) w = (Ok (stored_new j'), w1) ∧
    (∀ handlers worker, processJob handlers worker (stored_new j') w1 = (Ok tt, w2)) ∧
    tables_ok (data (wo_store w2)) ∧ no_entries q (data (wo_store w2)) ∧
    jobs_of (data (wo_store w2)) (j_ID j) = Some (stored_new j') ∧
    ∀ id, ∃ e w3, CancelJob id w2 = (Err e, w3) ∧ data (wo_store w3) = data (wo_store w2).
Proof.
  intros q j' Hcb.
  cut (wp (there_and_back (St := PostgresStorage saved) j) (world_tables w) (λ r w', r = Ok (stored_new j') ∧
    tables_ok (wo_store w') ∧ no_entries q (wo_store w') ∧ jobs_of (wo_store w') (j_ID j) = Some (stored_new j'))).
  { unfold wp. rewrite (refines_there_and_back saved j w). simpl. intros (Hr & Hok & He & Hj).
    set (w1 := (there_and_back (St := PostgresStorage saved) j w).2) in *.
    destruct (processJob_gives_up (stored_new j') w1) as (w2 & Hd & Hrun).
    exists w1, w2. split; [rewrite <- Hr; apply surjective_pairing|]. split; [exact Hrun|]. rewrite Hd.
    split_and!; [done..|]. intros id. rewrite <- Hd. apply CancelJob_fails. }
  by apply wp_there_and_back.
Qed.
End server.

(** ** A witness, on the server that is its tables *)

#[local] Existing Instance plain_values.
#[local] Existing Instance plain_values_laws.
#[local] Existing Instance demo_runtime.
#[local] Existing Instance map_range_default.

(** Every job of the type is done at once. *)
Definition demo_handlers : gmap string JobHandler := {[ "send_email" := λ j, (Returned None, j) ]}.

Lemma postgres_jobs_never_run_witness : ∃ w1 w2,
  there_and_back (St := PostgresStorage (λ _, 0)) demo_job demo_world = (Ok (stored_new demo_job), w1) ∧
  processJob (H := PostgresStorage (λ _, 0)) demo_handlers "w1" (stored_new demo_job) w1 = (Ok tt, w2) ∧
  jobs_of (wo_store w2) "mail-1" = Some (stored_new demo_job) ∧ no_entries "mail" (wo_store w2).
Proof.
  destruct (postgres_jobs_never_run (R := DB) (λ _, 0) demo_job demo_world)
    as (w1 & w2 & Hr & Hp & _ & Hn & Hj & _); [exact demo_comes_back|].
  exists w1, w2. split; [exact Hr|]. split; [exact (Hp demo_handlers "w1")|]. split; [exact Hj|exact Hn].
Defined.
